(* ===== verification/_CoqProject ===== *)
-Q . S2P
Prelude.v
Domain.v
Dates.v
Base64.v
AuditHash.v
Http.v
ClientAddress.v
RateLimit.v
Limiter.v
RateLimitGuard.v
LoginThrottle.v
AuditWriter.v
Cli.v
VerifyChain.v
AuditRows.v
ConnectionManager.v
ImmutabilityProbe.v
ContentionProbe.v
ProvisioningProbe.v
TenantSchema.v
TenantRouting.v
Config.v
Keys.v
Tokens.v
KeyStore.v
KeyRegistry.v
TokenService.v
Guards.v
AuditTrail.v
AuthService.v
Sessions.v
Operator.v
Endpoints.v
Requests.v
Claims.v
ApiDocs.v
Slowloris.v
Bootstrap.v
Lifecycle.v
