(* ===== verification/Prelude.v ===== *)
(** A verification of the compliance-ready backend kit: a multi-tenant
    authentication service in TypeScript (src/services/auth) over a configuration
    loader (src/packages/config), a cryptography library (src/packages/crypto), a
    database library with its operator tools and probes (src/packages/db), and the
    scripts that hold the claims of COMPLIANCE.md against them (src/scripts).

    * The program and how its parts meet

    A request names its tenant in a header. The tenant guard resolves it in the
    registry, the access-token guard verifies a nested token under the keys of the
    key registry and compares its tenant with the request's, and the permissions
    guard compares its permissions with the handler's; only then does the handler
    work on the tenant's own database. Around that stand the two limiters (the
    rate-limit guard and the login throttle, both over one sliding window in
    Redis), the audit trail (one hash chain per tenant and one for the control
    plane) and the filter that turns every error into a problem document. Operators
    provision tenants, rotate keys, seed administrators and verify chains from the
    command line. Probes attack a live deployment to show that its protections are
    there, and a script attributes what they print to the rows of COMPLIANCE.md.

    * Files, and the code each one models

    Files are listed as they build on each other. Paths are below src/.

    - Prelude: the error monad [result], strings, lists and the shared tactics.
    - Domain: packages/common/src/index.ts, the shared types, the catalogue of
      roles and permissions, and the errors with their codes and statuses.
    - Dates: toISOString and a reader of its texts.
    - Base64: what Node's Buffer does with base64url.
    - AuditHash: packages/crypto/src/audit-hash.ts, the canonical form of an event,
      the hash of a link and the verifier of a chain.
    - Http: services/auth/src/common, the problem filter, the validation factory,
      the response envelope and the default headers.
    - ClientAddress, RateLimit, Limiter, RateLimitGuard: services/auth/src/ratelimit.
      The Lua scripts run on the interface [Redis], whose laws an implementation by
      finite maps discharges.
    - LoginThrottle: services/auth/src/auth/login-throttle.service.ts.
    - AuditWriter: packages/db/src/audit/audit-writer.ts as the statements of
      transactions of any number of processes ([db_step]), on the table that
      packages/db/sql/audit-immutability.sql constrains.
    - Cli, VerifyChain: parseArgs of the tools, and packages/db/src/audit/verify-chain.ts.
    - AuditRows: the columns between the INSERT of the writer and the rows of the
      verifier, with the conversions of the time in both directions.
    - ConnectionManager, TenantRouting: packages/db/src/connection-manager.ts,
      provisioning as a step relation over the registry and the cluster
      ([prov_step]), and the cache that routes a tenant to its client ([route_step]).
    - TenantSchema: initializeTenantDatabase of the same file with the scripts in
      packages/db/sql, as a program of requests ([client]) that any number of runs
      execute against one server ([server_step]). A statement may be refused and a
      connection lost before or after what it asked for was done.
    - ImmutabilityProbe, ContentionProbe: packages/db/src/audit/immutability-probe.ts
      and contention-probe.ts. The first runs on a Postgres session with its
      transactions, against a table any protection of which may be missing
      (packages/db/sql/audit-immutability.sql); the second judges the table after
      appends interleaved with any others.
    - ProvisioningProbe: packages/db/src/tenants/provisioning-probe.ts, its scenarios
      on [prov_step], and provisionTenant as the text of the code.
    - Config: packages/config/src/index.ts, the schema, its defaults, the rules
      between fields and the local .env, and the loader of packages/db/src/cli.
    - Keys: packages/crypto/src/key-provider.ts, key-material.ts and key-loading.ts.
    - Tokens: packages/crypto/src/tokens.ts.
    - KeyStore: packages/db/src/keys/manage-keys.ts, the commands as steps on the
      table config_keys ([key_step]).
    - KeyRegistry, TokenService: services/auth/src/keys/key-registry.service.ts,
      services/auth/src/auth/token.service.ts, packages/db/src/keys/decode-token.ts.
    - Guards: the guards of services/auth/src/tenancy, auth, rbac and tenants, and
      the class [AccessTokens] through which they see the token service.
    - AuditTrail: services/auth/src/audit/audit.service.ts, the tenant context and
      the provisioning endpoint.
    - AuthService, Sessions: services/auth/src/auth/auth.service.ts and
      password.service.ts; the definitions, and what they guarantee.
    - Operator: packages/db/src/seed/seed-tenant-admin.ts and the command line of
      the key commands.
    - Endpoints, Requests: the controllers and DTOs of services/auth/src and the
      order main.ts and the modules put around them. [serve] is the whole path of a
      request, composed of the parts above; Requests has its theorems.
    - ApiDocs: services/auth/src/docs and the decorators of the controllers, the
      published description of the API, held against [serve].
    - Bootstrap: services/auth/src/main.ts, core.module.ts and ratelimit.module.ts,
      as far as they decide whether and with what the service starts.
    - Lifecycle: the connection strings and pools of connection-manager.ts, close(),
      the shutdown hooks of key-registry.service.ts, ratelimit.module.ts and
      core.module.ts, and the frame of the tools ([run_tool]).
    - Claims, Slowloris: scripts/verify-claims.mjs with the table of COMPLIANCE.md,
      and scripts/slowloris-probe.mjs.

    State is what the code keeps: the limiter is a Redis and a member id factory,
    the audit table is its rows with the open transactions and the lock, the
    deployment is the tenant registry with the databases and the runs in progress,
    the key table is its rows with the commands in progress, the key registry is
    its snapshot with the refresh in flight. Code that several processes execute at
    once is a step function on that state, one step for each statement another
    process can come between, and theorems quantify over every sequence of steps,
    crashes included. Code that runs alone is a function into [result], whose
    [Throw] carries the error thrown.

    * What is proved

    - Tenants do not meet. In every reachable deployment a tenant that resolves has
      its own, fully built and marked database ([resolved_tenant_isolated]), the
      client a request gets is its tenant's ([requests_reach_their_own_database]),
      and a request that passes the guards works on a database marked for the
      tenant its token names ([authorized_request_stays_in_its_tenant]). Runs can be
      repeated until they complete ([retry_completes]) and never touch a database
      with tables ([existing_tables_untouched]). The statements of the schema
      transaction refine the one step all this takes it for, under every
      interleaving and failure ([schema_transaction_refines]), and compute it when
      alone ([initialize_alone]).
    - Requests. Over the whole life of a process, with the deployment changing around
      it, serving a request reads and writes the database the registry names for its
      tenant only ([requests_are_confined_to_their_tenant]); every answer has the one shape of
      its outcome ([answers_are_shaped]); nothing is done for a request that was
      refused at any stage ([refused_requests_do_no_work]); only the operator
      provisions, and only safe names ([provisionings_are_authorized]); the list of
      users shows no secret ([users_list_discloses_no_secret]).
    - Authorization. The guards let through exactly the requests the code means to
      ([authorization_exact], [control_plane_exact]) and refuse in a fixed set of
      ways ([refusals_are_uniform]).
    - Sessions. A login succeeds only with the right password of an active account
      and its token carries the permissions of its roles ([login_success_sound]);
      failures get one answer for the same lookups and verifications, the first of a
      process without an active account adding the decoy's hash
      ([login_failures_indistinguishable]); what was registered logs in
      ([registered_account_logs_in]) and opens its own tenant only
      ([login_token_opens_its_tenant]); each login leaves one event
      ([logins_are_audited]).
    - Keys and tokens. An accepted token is authentic
      ([accepted_token_is_authentic]); the registry stays well formed under any
      interleaving of commands ([registry_well_formed]), keeps an active key
      ([always_an_active_key]), rotates ([rotate_rotates]) and never brings back a
      revoked key ([revocation_is_final]); sessions outlive rotations, on
      instances whose snapshots are as old as one likes and under overlaps as long as
      the sessions, and not a revocation ([session_survives_rotation],
      [revoked_kid_never_verifies]);
      whoever writes the table without the wrapping key cannot make the service use
      a key of their own ([database_cannot_substitute_a_key]); the published set is
      exact ([jwks_is_exact]); forged key ids cause boundedly many queries
      ([miss_queries_bounded]).
    - Audit. The canonical form is injective, the verifier is exact, concurrent
      appends form one chain that is the log of commits, terminate and do not fork,
      and the paged verification tool gives the verifier's answer. It reads back from
      the columns exactly what was hashed ([verifier_reads_what_was_hashed]).
    - Limits. No window of any traffic holds more than the limit for each reset in it
      and once more, through the store ([sliding_window_bound]), through the guard
      per client, and through the throttle per account and per address
      ([login_failures_bounded]); what an outage of Redis adds is counted apart, and
      only a limiter that fails open adds any. Addresses share a bucket exactly when
      they share a /64.
    - Configuration. A configuration that loads is usable ([loadConfig_safe]); it and
      the port alone decide whether the service starts, and the log of a start names
      exactly what it started without ([configuration_decides_the_boot]).
    - Resources. The pools of a process are bounded by the tenants it served
      ([connections_bounded]); close() and the shutdown hooks leave nothing open when
      nothing fails ([close_releases_everything], [shutdown_releases_everything]), and
      stop at the first failure ([close_stops_at_a_failure]).
    - Documentation. From the parsing of the body to the handler, an error of an
      endpoint is one the OpenAPI document names exactly unless it is on a stated
      list ([every_error_is_documented]).
    - Probes. The immutability probe exits 0 only on an append-only table, does so
      when alone on one ([probe_exact]), and harms no table ([probe_harmless]);
      appends that take the lock pass the contention probe under any interleaving
      ([contention_passes]); the provisioning probe passes on any deployment at rest
      and leaves it as it was ([provisioning_probe_passes]); the steps of one
      provisioning are the text of provisionTenant ([provisionTenant_alone]); the
      slowloris probe accepts a 408 in its window and nothing else ([verdict_exact]).
    - Claims. The coverage gate and the full run exit 0 exactly when the rule they
      state holds ([runCoverageGate_exact], [runFull_exact]), the table is read back
      as written ([parseComplianceTable_roundtrip]), and the kit's own table passes
      the gate ([verify_coverage_passes]).
    - The operator's seed is idempotent ([seed_is_idempotent]).

    Theorems with hypotheses are applied to concrete deployments in the module
    [...Sample] of their file, where the interfaces of outside code are instantiated
    by executable functions.

    * Parameters

    Outside code is a class of operations with the laws the code relies on: SHA-256
    ([Sha256], 32 bytes; where collisions matter a theorem says among which inputs
    there is none), AES-256-GCM ([AesGcm]), jose ([JoseKeys], [JoseTokens] and their
    laws, and [JoseHeaders], the header it hands back), Argon2 ([Argon2]), zod's
    readings of numbers and URLs ([Zod]), the order in which Postgres keeps the
    members of a jsonb object ([Jsonb]) and Redis ([Redis]), the cast of a text to
    timestamptz ([Timestamptz]), class-validator ([ClassValidator]) and [Number] of a
    string ([Numbers]). Random values, clocks, what a suite prints and the outcomes of
    calls that can fail are arguments.

    * Bounds

    Integers of the code are exact below 2^53 and are [Z] here: counters, times and
    sequence numbers stay far below. Recursion is structural except for the walk
    over a chain, whose fuel is a number of pages: [verifyTable_right] shows that any
    number above the length of the table is enough. The search for a .env is bounded
    by the five levels of the source. Strings are sequences of bytes; a JavaScript
    string stands for its UTF-8 encoding, and the order of UTF-16 code units that
    [sort] uses is defined on it in AuditHash.

    * Not modelled

    The router, the parsing of bodies (its refusals are an argument), the order of the
    shutdown hooks and the wiring of the modules are the framework's. The generated
    Prisma clients, the drivers, logging and everything printed to a terminal are
    outside, except that a suite's output is what Claims judges. The settings of the
    build and test tools decide nothing of the service. In AuditWriter the triggers
    that refuse updates and deletes of audit rows appear as the absence of such steps;
    ImmutabilityProbe has them. In TenantSchema the columns of the tables and the
    bodies of the functions are not looked at, and a run that has written makes every
    other writer of that database wait, as the first CREATE TYPE of the schema does.
    URLs are modelled as Node serialises them, for schemes like postgresql. *)
From Stdlib Require Export Ascii ZArith Lia.
From stdpp Require Export base gmap strings list sorting.
From Stdlib Require Import DecimalString DecimalNat.

#[global] Set Default Goal Selector "!".
#[global] Arguments String.append !s1 s2 : simpl nomatch.
Declare Scope kit_scope.
Delimit Scope kit_scope with kit.

(** ** Fallible code *)

(** A call that returns or throws. [E] is the type of what can be thrown. *)
Inductive result (E A : Type) : Type :=
  | Ok (a : A)
  | Throw (e : E).
Arguments Ok {E A} a.
Arguments Throw {E A} e.

#[export] Instance result_eq_dec `{EqDecision E, EqDecision A} : EqDecision (result E A).
Proof. solve_decision. Defined.

(** [await f ; ...]: continue on a value, propagate what was thrown. *)
Definition rbind {E A B} (m : result E A) (k : A → result E B) : result E B :=
  match m with Ok a => k a | Throw e => Throw e end.

(** [try { m } catch (e) { h e }]. *)
Definition rcatch {E A} (m : result E A) (h : E → result E A) : result E A :=
  match m with Ok a => Ok a | Throw e => h e end.

(** The value of a call whose error is discarded. *)
Definition to_option {E A} (m : result E A) : option A :=
  match m with Ok a => Some a | Throw _ => None end.

#[export] Instance result_ret {E} : MRet (result E) := λ A a, Ok a.
#[export] Instance result_bind {E} : MBind (result E) := λ A B k m, rbind m k.

(** [if (b) throw e;] *)
Definition throw_if {E} (b : bool) (e : E) : result E unit :=
  if b then Throw e else Ok ().

Lemma mbind_rbind {E A B} (m : result E A) (k : A → result E B) : (m ≫= k) = rbind m k.
Proof. done. Qed.

Lemma rbind_Ok_inv {E A B} (m : result E A) (k : A → result E B) b :
  rbind m k = Ok b → ∃ a, m = Ok a ∧ k a = Ok b.
Proof. destruct m; simpl; naive_solver. Qed.

Lemma throw_if_Ok {E} b (e : E) u : throw_if b e = Ok u ↔ b = false.
Proof. destruct b, u; simpl; naive_solver. Qed.

(** Decompose hypotheses [rbind .. = Ok ..] and [throw_if .. = Ok ..]. *)
Ltac invert_ok :=
  repeat match goal with
  | H : _ ≫= _ = Ok _ |- _ => rewrite mbind_rbind in H
  | H : rbind _ _ = Ok _ |- _ =>
      let a := fresh "a" in let E1 := fresh "E" in
      apply rbind_Ok_inv in H as (a & E1 & H)
  | H : throw_if _ _ = Ok _ |- _ => apply throw_if_Ok in H
  | H : Ok _ = Ok _ |- _ => injection H as H; subst
  | H : Throw _ = Ok _ |- _ => discriminate H
  | H : Ok _ = Throw _ |- _ => discriminate H
  end.

(** Split every [match]/[if] of a hypothesis or of the goal. *)
Ltac case_match_in H :=
  match type of H with
  | context [ match ?x with _ => _ end ] => destruct x eqn:?; simpl in H
  end.

(** ** Strings

    A JavaScript string is the UTF-8 text of a well-formed string, one [ascii]
    per byte, so [String.length] is [Buffer.byteLength(s, "utf8")]. A [Buffer]
    is a byte string too. *)
Abbreviation Buffer := string (only parsing).
Abbreviation byteLength := String.length (only parsing).

Fixpoint smap (f : ascii → ascii) (s : string) : string :=
  match s with
  | EmptyString => EmptyString
  | String c s' => String (f c) (smap f s')
  end.

Fixpoint sall (p : ascii → bool) (s : string) : bool :=
  match s with
  | EmptyString => true
  | String c s' => p c && sall p s'
  end.

Definition code (c : ascii) : N := N_of_ascii c.

Definition in_range (lo hi : N) (c : ascii) : bool :=
  (N.leb lo (code c)) && (N.leb (code c) hi).

Definition is_digit : ascii → bool := in_range 48 57.
Definition is_lower : ascii → bool := in_range 97 122.
Definition is_upper : ascii → bool := in_range 65 90.

(** [String.prototype.toLowerCase], on the ASCII range. *)
Definition lower_char (c : ascii) : ascii :=
  if is_upper c then ascii_of_N (code c + 32) else c.
Definition toLowerCase (s : string) : string := smap lower_char s.

(** ASCII white space, as [String.prototype.trim] and [\s] read it. *)
Definition is_js_space (c : ascii) : bool :=
  in_range 9 13 c || N.eqb (code c) 32.

Fixpoint trimStart (s : string) : string :=
  match s with
  | EmptyString => EmptyString
  | String c s' => if is_js_space c then trimStart s' else s
  end.

Fixpoint trimEnd (s : string) : string :=
  match s with
  | EmptyString => EmptyString
  | String c s' =>
      match trimEnd s' with
      | EmptyString => if is_js_space c then EmptyString else String c EmptyString
      | t => String c t
      end
  end.

Definition trim (s : string) : string := trimEnd (trimStart s).

(** [s.split(sep)] for a one-character separator. *)
Fixpoint split_on (sep : ascii) (s : string) : list string :=
  match s with
  | EmptyString => [EmptyString]
  | String c s' =>
      if Ascii.eqb c sep then EmptyString :: split_on sep s'
      else match split_on sep s' with
           | w :: ws => String c w :: ws
           | [] => [String c EmptyString]
           end
  end.

(** [s.replaceAll(c, r)] for a one-character pattern. *)
Fixpoint replace_char (c : ascii) (r : string) (s : string) : string :=
  match s with
  | EmptyString => EmptyString
  | String d s' => (if Ascii.eqb d c then r else String d EmptyString) +:+ replace_char c r s'
  end.

(** Decimal rendering of a natural number, as [`${n}`]. *)
Definition dec (n : nat) : string := NilEmpty.string_of_uint (Nat.to_uint n).

(** Decimal rendering of an integer. *)
Definition decZ (z : Z) : string := NilEmpty.string_of_int (Z.to_int z).

(** ** String lemmas *)

Lemma sapp_nil_r s : s +:+ "" = s.
Proof. induction s; simpl; congruence. Qed.

Lemma sapp_assoc s t u : (s +:+ t) +:+ u = s +:+ t +:+ u.
Proof. induction s; simpl; congruence. Qed.

Lemma slength_app s t : String.length (s +:+ t) = (String.length s + String.length t)%nat.
Proof. induction s; simpl; auto. Qed.

(** Two concatenations whose heads have one length agree part by part. *)
Lemma sapp_inj_length s1 s2 t1 t2 :
  String.length s1 = String.length s2 → s1 +:+ t1 = s2 +:+ t2 → s1 = s2 ∧ t1 = t2.
Proof.
  revert s2. induction s1 as [|c s1 IH]; intros [|d s2] Hl He; simpl in *; try done.
  injection He as -> He. injection Hl as Hl.
  destruct (IH _ Hl He) as [-> ->]; done.
Qed.

Lemma sapp_inj_r s1 s2 t : s1 +:+ t = s2 +:+ t → s1 = s2.
Proof.
  intros H. eapply (sapp_inj_length _ _ t t); [|done].
  apply (f_equal String.length) in H. rewrite !slength_app in H. lia.
Qed.

Lemma sall_app p s t : sall p (s +:+ t) = sall p s && sall p t.
Proof. induction s; simpl; [done|]. by rewrite IHs, andb_assoc. Qed.

Lemma sall_impl (p q : ascii → bool) s :
  (∀ c, p c = true → q c = true) → sall p s = true → sall q s = true.
Proof.
  intros Hpq. induction s as [|c s IH]; simpl; [done|].
  rewrite !andb_true_iff. intros [Hc Hs]. split; auto.
Qed.

Lemma smap_length f s : String.length (smap f s) = String.length s.
Proof. induction s; simpl; auto. Qed.

Lemma smap_inj f s t : (∀ c d, f c = f d → c = d) → smap f s = smap f t → s = t.
Proof.
  intros Hf. revert t. induction s as [|c s IH]; intros [|d t]; simpl; try done.
  intros He. injection He as Hc Hs. f_equal; auto.
Qed.

Lemma string_of_uint_digits u : sall is_digit (NilEmpty.string_of_uint u) = true.
Proof. induction u; simpl; auto. Qed.

Lemma dec_digits n : sall is_digit (dec n) = true.
Proof. apply string_of_uint_digits. Qed.

Lemma dec_inj n m : dec n = dec m → n = m.
Proof.
  unfold dec. intros H. apply DecimalNat.Unsigned.to_uint_inj.
  apply (f_equal NilEmpty.uint_of_string) in H. rewrite !NilEmpty.usu in H. congruence.
Qed.

(** A rendered number is not empty and starts with a digit. *)
Lemma dec_cons n : ∃ c s, dec n = String c s ∧ is_digit c = true.
Proof.
  pose proof (dec_digits n) as Hd. destruct (dec n) as [|c s] eqn:E.
  - exfalso. unfold dec in E. destruct (Nat.to_uint n) eqn:Hu; try discriminate E.
    assert (n = 0%nat) as ->; [|discriminate Hu].
    rewrite <- (DecimalNat.Unsigned.of_to n), Hu. done.
  - exists c, s. simpl in Hd. by apply andb_true_iff in Hd as [? _].
Qed.

(** Text up to a separator the prefix does not contain is determined. *)
Lemma prefix_upto_inj (p : ascii → bool) (sep : ascii) s1 s2 t1 t2 :
  p sep = false → sall p s1 = true → sall p s2 = true →
  s1 +:+ String sep t1 = s2 +:+ String sep t2 → s1 = s2 ∧ t1 = t2.
Proof.
  intros Hsep. revert s2.
  induction s1 as [|c s1 IH]; intros [|d s2]; simpl; intros H1 H2 He.
  - by injection He.
  - injection He as <- _. rewrite Hsep in H2. done.
  - injection He as -> _. rewrite Hsep in H1. done.
  - injection He as -> He. apply andb_true_iff in H1 as [_ H1], H2 as [_ H2].
    destruct (IH _ H1 H2 He) as [-> ->]. done.
Qed.

(** ** Splitting on a separator *)

Definition free_of (c : ascii) (s : string) : bool := sall (λ d, negb (Ascii.eqb d c)) s.

Lemma free_of_app c s t : free_of c (s +:+ t) = free_of c s && free_of c t.
Proof. apply sall_app. Qed.

Lemma split_on_free sep s : free_of sep s = true → split_on sep s = [s].
Proof.
  induction s as [|c s IH]; [done|]. unfold free_of in *. simpl.
  destruct (Ascii.eqb c sep); [done|]. simpl. intros H. by rewrite IH.
Qed.

Lemma split_on_app sep s t :
  free_of sep s = true → split_on sep (s +:+ String sep t) = s :: split_on sep t.
Proof.
  induction s as [|c s IH]; unfold free_of in *; simpl; [by rewrite Ascii.eqb_refl|].
  destruct (Ascii.eqb c sep); [done|]. simpl. intros H. by rewrite IH.
Qed.

Lemma split_on_concat sep l :
  l ≠ [] → Forall (λ s, free_of sep s = true) l →
  split_on sep (String.concat (String sep "") l) = l.
Proof.
  intros Hne. destruct l as [|s l]; [done|]. clear Hne. revert s.
  induction l as [|s' l IH]; intros s Hf; inversion Hf as [|? ? Hs Hl]; subst.
  - by apply split_on_free.
  - change (split_on sep (s +:+ String sep (String.concat (String sep "") (s' :: l)))
              = s :: s' :: l).
    rewrite split_on_app by done. by rewrite IH.
Qed.

(** ** Lists *)

Lemma Forall2_refl {A} (R : relation A) `{!Reflexive R} l : Forall2 R l l.
Proof. induction l; constructor; auto. Qed.

Lemma lfilter_true {A} (P : A → Prop) `{!∀ x, Decision (P x)} (l : list A) :
  (∀ x, x ∈ l → P x) → filter P l = l.
Proof.
  induction l as [|x l IH]; intros Hall; [done|].
  rewrite filter_cons_True by (apply Hall; set_solver).
  f_equal. apply IH. intros y Hy. apply Hall. set_solver.
Qed.

Lemma filter_length_mono {A} (P Q : A → Prop)
    `{!∀ x, Decision (P x), !∀ x, Decision (Q x)} (l : list A) :
  (∀ x, x ∈ l → P x → Q x) → (length (filter P l) ≤ length (filter Q l))%nat.
Proof.
  induction l as [|x l IH]; intros Hall; [done|]. rewrite !filter_cons.
  assert (IH' : (length (filter P l) ≤ length (filter Q l))%nat)
    by (apply IH; intros y Hy; apply Hall; set_solver).
  repeat case_decide; simpl; try lia. exfalso. eauto using list_elem_of_here.
Qed.

Lemma filter_length_sublist {A} (P : A → Prop) `{!∀ x, Decision (P x)} (l k : list A) :
  l `sublist_of` k → (length (filter P l) ≤ length (filter P k))%nat.
Proof.
  induction 1; rewrite ?filter_cons; [done| |]; case_decide; simpl; lia.
Qed.

Lemma filter_length_fmap {A B} (f : A → B) (P : B → Prop) `{!∀ x, Decision (P x)} (l : list A) :
  length (filter P (f <$> l)) = length (filter (λ x, P (f x)) l).
Proof.
  induction l as [|x l IH]; [done|]. rewrite fmap_cons, !filter_cons.
  case_decide; simpl; congruence.
Qed.

(** Sorting commutes with a function that keeps the order. *)
Section merge_sort_fmap.
Context {A B} (R : relation A) (S : relation B) `{!RelDecision R, !RelDecision S} (f : A → B).
Hypothesis f_order : ∀ x y, R x y ↔ S (f x) (f y).
#[local] Abbreviation on_stack :=
  (fmap (M := list) (fmap (M := option) (fmap (M := list) f))) (only parsing).

Lemma list_merge_fmap l1 l2 : f <$> list_merge R l1 l2 = list_merge S (f <$> l1) (f <$> l2).
Proof using f_order.
  revert l2. induction l1 as [|x l1 IH1]; [by intros []|].
  induction l2 as [|y l2 IH2]; [done|]. simpl. destruct (decide (R x y)) as [Hr|Hr].
  - rewrite decide_True by by apply f_order. simpl. by rewrite IH1.
  - rewrite decide_False by by rewrite <- f_order. simpl. f_equal. apply IH2.
Qed.

Lemma merge_list_to_stack_fmap st l :
  on_stack (merge_list_to_stack R st l)
  = merge_list_to_stack S (on_stack st) (f <$> l).
Proof using f_order.
  revert l. induction st as [|[l'|] st IH]; intros l; [done| |done]. simpl. by rewrite IH, list_merge_fmap.
Qed.

Lemma merge_stack_fmap st : f <$> merge_stack R st = merge_stack S (on_stack st).
Proof using f_order.
  induction st as [|[l|] st IH]; [done| |done]. simpl. by rewrite list_merge_fmap, IH.
Qed.

Lemma merge_sort_fmap l : f <$> merge_sort R l = merge_sort S (f <$> l).
Proof using f_order.
  unfold merge_sort. change (@nil (option (list B))) with (on_stack (@nil (option (list A)))).
  generalize (@nil (option (list A))). induction l as [|x l IH]; intros st; simpl; [apply merge_stack_fmap|].
  by rewrite IH, merge_list_to_stack_fmap.
Qed.
End merge_sort_fmap.

Create HintDb kit.
Create Rewrite HintDb kit_str.
#[export] Hint Rewrite sapp_nil_r sapp_assoc slength_app : kit_str.
#[export] Hint Resolve dec_digits sapp_inj_r : kit.

(** Decide a closed decidable proposition by evaluation. *)
Ltac compute_decide := refine (bool_decide_unpack _ _); vm_compute; exact I.
