(* ===== verification/Domain.v ===== *)
(** The shared domain types and errors: packages/common/src/index.ts. *)
From S2P Require Import Prelude.
#[local] Open Scope Z_scope.

(** ** Tenants and claims *)

Inductive TenantStatus := provisioning | active | suspended.

#[export] Instance TenantStatus_eq_dec : EqDecision TenantStatus.
Proof. solve_decision. Defined.

Record Tenant := {
  tenant_id : string;
  tenant_slug : string;
  tenant_databaseName : string;
  tenant_status : TenantStatus;
}.

#[export] Instance Tenant_eq_dec : EqDecision Tenant.
Proof. solve_decision. Defined.

Record AccessTokenClaims := {
  sub : string;
  tid : string;
  roles : list string;
  permissions : list string;
}.

#[export] Instance AccessTokenClaims_eq_dec : EqDecision AccessTokenClaims.
Proof. solve_decision. Defined.

(** ** The RBAC catalogue *)

Inductive PermissionKey := usersRead | usersWrite | rolesManage.

Definition PERMISSION_KEYS (p : PermissionKey) : string :=
  match p with
  | usersRead => "users:read"
  | usersWrite => "users:write"
  | rolesManage => "roles:manage"
  end.

Definition DEFAULT_PERMISSIONS : list (string * string) :=
  [ (PERMISSION_KEYS usersRead, "List and view users in this tenant");
    (PERMISSION_KEYS usersWrite, "Create, modify, and disable users in this tenant");
    (PERMISSION_KEYS rolesManage, "Create roles and change their permission grants") ].

Definition TENANT_ADMIN_ROLE_NAME : string := "tenant-admin".
Definition TENANT_ADMIN_ROLE_DESCRIPTION : string :=
  "Full administrative access within this tenant. Seeded at provisioning and granted " +:+
  "to the tenant's initial administrator.".

(** ** Domain errors *)

Record FieldProblem := { detail : string; pointer : string }.

#[export] Instance FieldProblem_eq_dec : EqDecision FieldProblem.
Proof. solve_decision. Defined.

(** One constructor per class; [LoginThrottleUnavailableError] is the subclass
    of [TooManyRequestsError] that login-throttle.service.ts adds. *)
Inductive DomainError :=
  | TenantNotFoundError (tenant : string)
  | TenantContextMissingError
  | TenantAlreadyExistsError (slug : string)
  | TenantProvisioningInProgressError (slug : string)
  | EmailAlreadyRegisteredError
  | InvalidCredentialsError
  | InvalidAccessTokenError
  | CrossTenantTokenError
  | ValidationFailedError (errors : list FieldProblem)
  | ControlPlaneUnauthorizedError
  | TooManyRequestsError (retryAfterMs : Z)
  | LoginThrottleUnavailableError.

#[export] Instance DomainError_eq_dec : EqDecision DomainError.
Proof. solve_decision. Defined.

Definition title (d : DomainError) : string :=
  match d with
  | TenantNotFoundError _ => "Unknown or inactive tenant"
  | TenantContextMissingError => "No tenant resolved for this request"
  | TenantAlreadyExistsError _ => "Tenant already exists"
  | TenantProvisioningInProgressError _ => "Tenant provisioning in progress"
  | EmailAlreadyRegisteredError => "Email already registered"
  | InvalidCredentialsError => "Invalid credentials"
  | InvalidAccessTokenError => "Missing or invalid access token"
  | CrossTenantTokenError => "Access token is not valid for the requested tenant"
  | ValidationFailedError _ => "Request validation failed"
  | ControlPlaneUnauthorizedError => "Control-plane authorization required"
  | TooManyRequestsError _ | LoginThrottleUnavailableError => "Too many requests"
  end.

Definition quote : string := String (ascii_of_N 34) "".

Definition message (d : DomainError) : string :=
  match d with
  | TenantNotFoundError t => "Unknown or inactive tenant: " +:+ t
  | TenantContextMissingError =>
      "No tenant resolved for this request. Supply the x-tenant-id header."
  | TenantAlreadyExistsError s =>
      "A tenant with slug " +:+ quote +:+ s +:+ quote +:+ " already exists"
  | TenantProvisioningInProgressError s =>
      "Tenant " +:+ quote +:+ s +:+ quote +:+
      " is being provisioned by another request. Retry once that request has finished."
  | EmailAlreadyRegisteredError => "That email address is already registered"
  | InvalidCredentialsError => "Invalid credentials"
  | InvalidAccessTokenError => "Missing or invalid access token"
  | CrossTenantTokenError => "Access token is not valid for the requested tenant"
  | ValidationFailedError _ => "One or more fields are invalid"
  | ControlPlaneUnauthorizedError => "This endpoint requires a valid control-plane credential"
  | TooManyRequestsError _ | LoginThrottleUnavailableError => "Too many requests. Retry later."
  end.

Definition error_code (d : DomainError) : string :=
  match d with
  | TenantNotFoundError _ => "TENANT_NOT_FOUND"
  | TenantContextMissingError => "TENANT_CONTEXT_MISSING"
  | TenantAlreadyExistsError _ => "TENANT_ALREADY_EXISTS"
  | TenantProvisioningInProgressError _ => "TENANT_PROVISIONING_IN_PROGRESS"
  | EmailAlreadyRegisteredError => "EMAIL_ALREADY_REGISTERED"
  | InvalidCredentialsError => "INVALID_CREDENTIALS"
  | InvalidAccessTokenError => "INVALID_ACCESS_TOKEN"
  | CrossTenantTokenError => "CROSS_TENANT_TOKEN"
  | ValidationFailedError _ => "VALIDATION_FAILED"
  | ControlPlaneUnauthorizedError => "CONTROL_PLANE_UNAUTHORIZED"
  | TooManyRequestsError _ | LoginThrottleUnavailableError => "TOO_MANY_REQUESTS"
  end.

(** [Math.ceil(ms / 1000)] *)
Definition ceil_seconds (ms : Z) : Z := - ((- ms) / 1000).

(** What [Retry-After] will say: [Math.max(1, Math.ceil(retryAfterMs / 1000))]. *)
Definition retryAfterSeconds (ms : Z) : Z := Z.max 1 (ceil_seconds ms).

(** The wait carried by an error that is a [TooManyRequestsError]. *)
Definition too_many_requests (d : DomainError) : option Z :=
  match d with
  | TooManyRequestsError ms => Some (retryAfterSeconds ms)
  | LoginThrottleUnavailableError => Some (retryAfterSeconds 1000)
  | _ => None
  end.

(** ** Everything the service throws *)

(** The [message] member of a Nest exception body: a string, an array of
    which the string members are kept, or something else. *)
Inductive MessageValue :=
  | MsgString (s : string)
  | MsgArray (ms : list (option string))
  | MsgOther.

(** [HttpException.getResponse()]. *)
Inductive HttpBody :=
  | BodyString (s : string)
  | BodyObject (message : option MessageValue)
  | BodyOther.

#[export] Instance MessageValue_eq_dec : EqDecision MessageValue.
Proof. solve_decision. Defined.
#[export] Instance HttpBody_eq_dec : EqDecision HttpBody.
Proof. solve_decision. Defined.

Inductive exn :=
  | EDomain (d : DomainError)
  | EHttp (status : Z) (body : HttpBody)
  | ETokenVerification (reason : string)
  | ENoActiveKey (purpose : string)
  | ETenantDatabaseConflict (databaseName reason : string)
  | EPrismaKnown (code : string)        (* PrismaClientKnownRequestError *)
  | EPg (sqlstate : string)             (* an error of the pg driver *)
  | EError (msg : string).

#[export] Instance exn_eq_dec : EqDecision exn.
Proof. solve_decision. Defined.

Abbreviation M := (result exn) (only parsing).

(** What the HTTP edge answers as a fault of its own, with a 500. *)
Definition internal (e : exn) : bool :=
  match e with EDomain _ | EHttp _ _ => false | _ => true end.

(** ** Lemmas *)

(** The advertised wait is the least whole number of seconds that is at
    least one and covers the requested milliseconds, so a client that waits it
    is never told to come back early, and never told to retry at once. *)
Theorem retryAfterSeconds_least ms :
  1 ≤ retryAfterSeconds ms ∧ ms ≤ 1000 * retryAfterSeconds ms ∧
  (∀ s, 1 ≤ s → ms ≤ 1000 * s → retryAfterSeconds ms ≤ s).
Proof.
  unfold retryAfterSeconds, ceil_seconds.
  pose proof (Z.div_mod (- ms) 1000 ltac:(lia)).
  pose proof (Z.mod_pos_bound (- ms) 1000 ltac:(lia)).
  split_and!; [lia..|]. intros s Hs Hms.
  assert (- s ≤ - ms / 1000) by (apply Z.div_le_lower_bound; lia). lia.
Qed.
