(* ===== verification/Dates.v ===== *)
(** Dates as JavaScript writes them and a database reads them: the text of
    [Date.prototype.toISOString] and a reader of such texts, which undo each other. *)
From S2P Require Import Prelude.
#[local] Open Scope Z_scope.

(** ** Writing *)

(** [n] in decimal, with zeros to at least [w] digits. *)
Definition pad (w : nat) (n : Z) : string :=
  let s := decZ n in String.concat "" (replicate (w - String.length s) "0") +:+ s.

(** Year, month and day of a number of days since 1970-01-01, counting years from
    March so that the leap day comes last. *)
Definition civil (days : Z) : Z * Z * Z :=
  let z := days + 719468 in
  let era := z / 146097 in
  let doe := z mod 146097 in
  let yoe := (doe - doe / 1460 + doe / 36524 - doe / 146096) / 365 in
  let doy := doe - (365 * yoe + yoe / 4 - yoe / 100) in
  let mp := (5 * doy + 2) / 153 in
  let month := if mp <? 10 then mp + 3 else mp - 9 in
  (yoe + era * 400 + (if month <=? 2 then 1 else 0), month, doy - (153 * mp + 2) / 5 + 1).

(** [new Date(ms).toISOString()] *)
Definition toISOString (ms : Z) : string :=
  let '(y, m, d) := civil (ms / 86400000) in
  let t := ms mod 86400000 in
  let year := if (0 <=? y) && (y <=? 9999) then pad 4 y
              else (if 0 <=? y then "+" else "-") +:+ pad 6 (Z.abs y) in
  year +:+ "-" +:+ pad 2 m +:+ "-" +:+ pad 2 d +:+ "T" +:+ pad 2 (t / 3600000) +:+ ":" +:+
  pad 2 (t / 60000 mod 60) +:+ ":" +:+ pad 2 (t / 1000 mod 60) +:+ "." +:+ pad 3 (t mod 1000) +:+ "Z".

Example dates :
  map toISOString [0; 951782400000; 1785212120123; -1; 253402300800000] =
  [ "1970-01-01T00:00:00.000Z"; "2000-02-29T00:00:00.000Z"; "2026-07-28T04:15:20.123Z";
    "1969-12-31T23:59:59.999Z"; "+010000-01-01T00:00:00.000Z" ].
Proof. vm_compute. reflexivity. Qed.

(** ** Reading *)

(** Days since 1970-01-01 of a year, month and day. *)
Definition days_of (ymd : Z * Z * Z) : Z :=
  let '(y, m, d) := ymd in
  let y' := if m <=? 2 then y - 1 else y in
  let mp := if m <=? 2 then m + 9 else m - 3 in
  let yoe := y' mod 400 in
  y' / 400 * 146097 + (yoe * 365 + yoe / 4 - yoe / 100 + ((153 * mp + 2) / 5 + d - 1)) - 719468.

(** Exactly [w] digits, with what the digits before them were worth. *)
Fixpoint number (w : nat) (acc : Z) (s : string) : option (Z * string) :=
  match w, s with
  | O, _ => Some (acc, s)
  | S w, String c s =>
      if is_digit c then number w (acc * 10 + (Z.of_N (code c) - 48)) s else None
  | S _, EmptyString => None
  end.

Definition literal (c : ascii) (s : string) : option string :=
  match s with String d s => if Ascii.eqb c d then Some s else None | EmptyString => None end.

(** Microseconds are kept: one to six digits after the point. *)
Fixpoint fraction (w : nat) (acc scale : Z) (s : string) : option (Z * string) :=
  match s with
  | String c s' =>
      if is_digit c
      then match w with
           | S w => fraction w (acc * 10 + (Z.of_N (code c) - 48)) (scale / 10) s'
           | O => None
           end
      else Some (acc * scale, s)
  | EmptyString => None
  end.

(** [YYYY-MM-DDTHH:MM:SS.ffffffZ], in microseconds since 1970. *)
Definition read_iso (s : string) : option Z :=
  '(y, s) ← number 4 0 s; s ← literal "-" s;
  '(mo, s) ← number 2 0 s; s ← literal "-" s;
  '(d, s) ← number 2 0 s; s ← literal "T" s;
  '(h, s) ← number 2 0 s; s ← literal ":" s;
  '(mi, s) ← number 2 0 s; s ← literal ":" s;
  '(sec, s) ← number 2 0 s; s ← literal "." s;
  '(us, s) ← fraction 6 0 1000000 s; s ← literal "Z" s;
  match s with
  | EmptyString => Some (((days_of (y, mo, d) * 24 + h) * 60 + mi) * 60000000 + sec * 1000000 + us)
  | String _ _ => None
  end.

Example microseconds : read_iso "2026-07-28T04:15:20.123456Z" = Some 1785212120123456.
Proof. vm_compute. reflexivity. Qed.

(** ** They undo each other *)

(** lia with the defining equations of the divisions. *)
Ltac div_lia := Z.to_euclidean_division_equations; lia.

Lemma yoe_bounds doe :
  0 ≤ doe ≤ 146096 → 0 ≤ (doe - doe / 1460 + doe / 36524 - doe / 146096) / 365 ≤ 399.
Proof. intros H. div_lia. Qed.

Lemma doy_bounds doe :
  0 ≤ doe ≤ 146096 →
  let yoe := (doe - doe / 1460 + doe / 36524 - doe / 146096) / 365 in
  0 ≤ doe - (365 * yoe + yoe / 4 - yoe / 100) ≤ 365.
Proof. intros H yoe. unfold yoe. div_lia. Qed.

Lemma month_bounds doy : 0 ≤ doy ≤ 365 → 0 ≤ (5 * doy + 2) / 153 ≤ 11.
Proof. intros H. div_lia. Qed.

Lemma day_bounds doy : 0 ≤ doy ≤ 365 → 1 ≤ doy - (153 * ((5 * doy + 2) / 153) + 2) / 5 + 1 ≤ 31.
Proof. intros H. div_lia. Qed.

(** The last year of the 9999s ends before March: the era's own last year has no
    January in it. *)
Lemma last_year doe :
  0 ≤ doe ≤ 146036 →
  let yoe := (doe - doe / 1460 + doe / 36524 - doe / 146096) / 365 in
  yoe = 399 → (5 * (doe - (365 * yoe + yoe / 4 - yoe / 100)) + 2) / 153 < 10.
Proof. intros H yoe. unfold yoe. div_lia. Qed.

Lemma days_of_civil days : days_of (civil days) = days.
Proof.
  unfold civil. set (z := days + 719468). set (doe := z mod 146097). set (era := z / 146097).
  assert (Hdoe : 0 ≤ doe ≤ 146096) by (pose proof (Z.mod_pos_bound z 146097 ltac:(lia)); lia).
  pose proof (yoe_bounds doe Hdoe) as Hyoe. pose proof (doy_bounds doe Hdoe) as Hdoy. cbv zeta in Hdoy.
  set (yoe := (doe - doe / 1460 + doe / 36524 - doe / 146096) / 365) in *.
  set (doy := doe - (365 * yoe + yoe / 4 - yoe / 100)) in *.
  pose proof (month_bounds doy Hdoy) as Hmp. set (mp := (5 * doy + 2) / 153) in *.
  set (m := if mp <? 10 then mp + 3 else mp - 9).
  assert (Hm : (if m <=? 2 then m + 9 else m - 3) = mp).
  { unfold m. destruct (Z.ltb_spec mp 10); case_match; lia. }
  unfold days_of. rewrite Hm.
  replace (if m <=? 2 then _ else _) with (yoe + era * 400) by (destruct (m <=? 2); lia).
  rewrite Z.div_add, Z.mod_add, (Z.div_small yoe), (Z.mod_small yoe) by lia.
  assert (Hz : z = 146097 * era + doe) by (apply Z.div_mod; lia).
  unfold doy, z in *. lia.
Qed.

Lemma civil_bounds days y m d :
  0 ≤ days ≤ 2932896 → civil days = (y, m, d) → 0 ≤ y ≤ 9999 ∧ 1 ≤ m ≤ 12 ∧ 1 ≤ d ≤ 31.
Proof.
  intros Hd. unfold civil. set (z := days + 719468). set (doe := z mod 146097). set (era := z / 146097).
  assert (Hdoe : 0 ≤ doe ≤ 146096) by (pose proof (Z.mod_pos_bound z 146097 ltac:(lia)); lia).
  assert (Hz : z = 146097 * era + doe) by (apply Z.div_mod; lia).
  pose proof (yoe_bounds doe Hdoe) as Hyoe. pose proof (doy_bounds doe Hdoe) as Hdoy. cbv zeta in Hdoy.
  pose proof (last_year doe) as Hlast. cbv zeta in Hlast.
  set (yoe := (doe - doe / 1460 + doe / 36524 - doe / 146096) / 365) in *.
  set (doy := doe - (365 * yoe + yoe / 4 - yoe / 100)) in *.
  pose proof (month_bounds doy Hdoy) as Hmp. pose proof (day_bounds doy Hdoy) as Hday.
  set (mp := (5 * doy + 2) / 153) in *. intros [= <- <- <-].
  assert (Hera : 4 ≤ era ≤ 24) by (unfold z in Hz; lia).
  assert (Hend : era = 24 → doe ≤ 146036) by (unfold z in Hz; lia).
  split_and!; try lia; destruct (Z.ltb_spec mp 10); try lia; case_match; lia.
Qed.

(** *** Numbers of fixed width *)

Definition in_width (w : nat) (n : Z) : bool :=
  bool_decide (number w 0 (pad w n) = Some (n, EmptyString)).

Definition all_in_width (w : nat) (n : Z) : Prop := forallb (in_width w) (seqZ 0 n) = true.

Lemma width_2 : all_in_width 2 100.
Proof. vm_compute. reflexivity. Qed.
Lemma width_3 : all_in_width 3 1000.
Proof. vm_compute. reflexivity. Qed.
Lemma width_4 : all_in_width 4 10000.
Proof. vm_compute. reflexivity. Qed.

Lemma number_app w acc s t n u :
  number w acc s = Some (n, u) → number w acc (s +:+ t) = Some (n, u +:+ t).
Proof.
  revert acc s. induction w as [|w IH]; intros acc s.
  - intros [= <- <-]. by destruct s.
  - destruct s as [|c s]; [done|]. cbn. destruct (is_digit c); [apply IH|done].
Qed.

Lemma in_width_pad w n t :
  in_width w n = true → number w 0 (pad w n +:+ t) = Some (n, t).
Proof. intros H%bool_decide_eq_true. by rewrite (number_app _ _ _ _ _ _ H). Qed.

Lemma number_below w m n t : all_in_width w m → 0 ≤ n < m → number w 0 (pad w n +:+ t) = Some (n, t).
Proof.
  intros Hw Hn. apply in_width_pad. apply (proj1 (forallb_forall _ _) Hw).
  apply list_elem_of_In, elem_of_seqZ. lia.
Qed.

Lemma number_pad w n t :
  (w = 4%nat ∧ 0 ≤ n < 10000) ∨ (w = 3%nat ∧ 0 ≤ n < 1000) ∨ (w = 2%nat ∧ 0 ≤ n < 100) →
  number w 0 (pad w n +:+ t) = Some (n, t).
Proof.
  intros [[-> H]|[[-> H]|[-> H]]]; [exact (number_below 4 10000 n t width_4 H)
    |exact (number_below 3 1000 n t width_3 H)|exact (number_below 2 100 n t width_2 H)].
Qed.

Lemma fraction_of_number w w' acc scale s n c t :
  number w acc s = Some (n, String c t) → is_digit c = false → (w ≤ w')%nat →
  fraction w' acc scale s = Some (n * Nat.iter w (λ x, x / 10) scale, String c t).
Proof.
  revert w' acc scale s. induction w as [|w IH]; intros w' acc scale s.
  - intros [= <- ->] Hc _. destruct w'; cbn; by rewrite Hc.
  - destruct s as [|d s]; [done|]. cbn [number]. destruct (is_digit d) eqn:Hd; [|done].
    destruct w' as [|w']; [lia|]. intros Hn Hc Hw. cbn [fraction]. rewrite Hd, (IH w' _ _ _ Hn Hc) by lia.
    by rewrite Nat.iter_succ_r.
Qed.

Lemma fraction_pad n t :
  0 ≤ n < 1000 → fraction 6 0 1000000 (pad 3 n +:+ String "Z" t) = Some (n * 1000, String "Z" t).
Proof.
  intros Hn. rewrite (fraction_of_number 3 6 0 1000000 _ n "Z" t); [done| |done|lia].
  apply number_pad. auto.
Qed.

Lemma literal_app c s : literal c (String c EmptyString +:+ s) = Some s.
Proof. cbn. by rewrite Ascii.eqb_refl. Qed.

(** The least time after the four-digit years: 10000-01-01T00:00:00Z. *)
Definition YEAR_10000 : Z := 253402300800000.

(** What JavaScript writes is read back to the millisecond, from 1970 to the last
    of the four-digit years. *)
Theorem read_toISOString ms :
  0 ≤ ms < YEAR_10000 → read_iso (toISOString ms) = Some (ms * 1000).
Proof.
  unfold YEAR_10000. intros Hms. unfold toISOString.
  assert (Hdays : 0 ≤ ms / 86400000 ≤ 2932896) by div_lia.
  pose proof (days_of_civil (ms / 86400000)) as Hback.
  destruct (civil (ms / 86400000)) as [[y m] d] eqn:Hc.
  destruct (civil_bounds _ y m d Hdays Hc) as (Hy & Hm & Hd).
  set (t := ms mod 86400000). assert (Ht : 0 ≤ t < 86400000) by (unfold t; div_lia).
  replace ((0 <=? y) && (y <=? 9999)) with true by (symmetry; apply andb_true_iff; lia).
  unfold read_iso. rewrite number_pad by lia. cbn [mbind option_bind]. rewrite literal_app. cbn [mbind option_bind].
  rewrite number_pad by lia. cbn [mbind option_bind]. rewrite literal_app. cbn [mbind option_bind].
  rewrite number_pad by lia. cbn [mbind option_bind]. rewrite literal_app. cbn [mbind option_bind].
  rewrite number_pad by div_lia. cbn [mbind option_bind]. rewrite literal_app. cbn [mbind option_bind].
  rewrite number_pad by div_lia. cbn [mbind option_bind]. rewrite literal_app. cbn [mbind option_bind].
  rewrite number_pad by div_lia. cbn [mbind option_bind]. rewrite literal_app. cbn [mbind option_bind].
  rewrite fraction_pad by div_lia. cbn [mbind option_bind literal Ascii.eqb Bool.eqb].
  rewrite Hback. f_equal. unfold t. div_lia.
Qed.

(** So two times of a clock that has run since 1970 never have one text. *)
Lemma toISOString_inj ms ms' :
  0 ≤ ms < YEAR_10000 → 0 ≤ ms' < YEAR_10000 → toISOString ms = toISOString ms' → ms = ms'.
Proof.
  intros H H' He. apply (f_equal read_iso) in He. rewrite !read_toISOString in He by done.
  injection He. lia.
Qed.
