(* ===== verification/Base64.v ===== *)
(** base64url without padding, as Node's [Buffer] reads and writes it: the
    encoding of the 256-bit keys in configuration and of the throttle's keys. *)
From S2P Require Import Prelude.
#[local] Open Scope N_scope.

(** ** Sextets and characters *)

Definition alphabet (n : N) : ascii :=
  if n <? 26 then ascii_of_N (n + 65)
  else if n <? 52 then ascii_of_N (n + 71)
  else if n <? 62 then ascii_of_N (n - 4)
  else if n =? 62 then "-"%char else "_"%char.

Definition sextet (c : ascii) : option N :=
  if is_upper c then Some (code c - 65)
  else if is_lower c then Some (code c - 71)
  else if is_digit c then Some (code c + 4)
  else if Ascii.eqb c "-" then Some 62
  else if Ascii.eqb c "_" then Some 63
  else None.

(** ** Bytes and sextets *)

Fixpoint bytes_to_sextets (bs : list N) : list N :=
  match bs with
  | x :: y :: z :: bs =>
      x / 4 :: x mod 4 * 16 + y / 16 :: y mod 16 * 4 + z / 64 :: z mod 64 :: bytes_to_sextets bs
  | [x; y] => [x / 4; x mod 4 * 16 + y / 16; y mod 16 * 4]
  | [x] => [x / 4; x mod 4 * 16]
  | [] => []
  end.

(** The bits a last, incomplete group has over are ignored. *)
Fixpoint sextets_to_bytes (ss : list N) : list N :=
  match ss with
  | a :: b :: c :: d :: ss =>
      a * 4 + b / 16 :: b mod 16 * 16 + c / 4 :: c mod 4 * 64 + d :: sextets_to_bytes ss
  | [a; b; c] => [a * 4 + b / 16; b mod 16 * 16 + c / 4]
  | [a; b] => [a * 4 + b / 16]
  | [_] | [] => []
  end.

Fixpoint to_bytes (s : string) : list N :=
  match s with EmptyString => [] | String c s => code c :: to_bytes s end.
Fixpoint of_bytes (bs : list N) : string :=
  match bs with [] => EmptyString | b :: bs => String (ascii_of_N b) (of_bytes bs) end.

(** [buffer.toString("base64url")]. *)
Definition to_base64url (b : Buffer) : string :=
  String.string_of_list_ascii (alphabet <$> bytes_to_sextets (to_bytes b)).

(** [Buffer.from(s, "base64url")] on a string of the alphabet; other characters
    are skipped. *)
Definition from_base64url (s : string) : Buffer :=
  of_bytes (sextets_to_bytes (omap sextet (String.list_ascii_of_string s))).

(** ** Lemmas *)

Lemma sextet_alphabet n : n < 64 → sextet (alphabet n) = Some n.
Proof.
  intros Hn. assert (Hall : forallb (λ m, match sextet (alphabet (N.of_nat m)) with
    | Some k => k =? N.of_nat m | None => false end) (seq 0 64) = true) by (vm_compute; reflexivity).
  rewrite forallb_forall in Hall. specialize (Hall (N.to_nat n)).
  rewrite N2Nat.id in Hall. destruct (sextet (alphabet n)) as [k|].
  - f_equal. apply N.eqb_eq, Hall. apply in_seq. lia.
  - exfalso. enough (false = true) by done. apply Hall. apply in_seq. lia.
Qed.

Lemma sextet_bound c n : sextet c = Some n → n < 64.
Proof.
  intros Hs. assert (Hall : forallb (λ m, match sextet (ascii_of_nat m) with
    | Some k => k <? 64 | None => true end) (seq 0 256) = true) by (vm_compute; reflexivity).
  rewrite forallb_forall in Hall. specialize (Hall (nat_of_ascii c)).
  rewrite ascii_nat_embedding, Hs in Hall. apply N.ltb_lt, Hall, in_seq.
  pose proof (nat_ascii_bounded c). lia.
Qed.

Lemma sextet_inj c d n : sextet c = Some n → sextet d = Some n → c = d.
Proof.
  assert (Hall : forallb (λ m, match sextet (ascii_of_nat m) with
    | Some k => Ascii.eqb (alphabet k) (ascii_of_nat m) | None => true end) (seq 0 256) = true)
    by (vm_compute; reflexivity).
  rewrite forallb_forall in Hall.
  assert (H : ∀ c n, sextet c = Some n → alphabet n = c).
  { intros c' n' Hs. specialize (Hall (nat_of_ascii c')).
    rewrite ascii_nat_embedding, Hs in Hall. apply Ascii.eqb_eq, Hall, in_seq.
    pose proof (nat_ascii_bounded c'). lia. }
  intros Hc Hd. rewrite <- (H c n Hc). by apply H.
Qed.

Definition is_byte (b : N) : Prop := b < 256.
Definition is_sextet (a : N) : Prop := a < 64.

Lemma to_bytes_bound s : Forall is_byte (to_bytes s).
Proof.
  induction s as [|c s IH]; constructor; [|done]. unfold is_byte, code.
  apply N_ascii_bounded.
Qed.

Lemma of_to_bytes s : of_bytes (to_bytes s) = s.
Proof. induction s as [|c s IH]; [done|]. simpl. unfold code. by rewrite ascii_N_embedding, IH. Qed.

Lemma of_bytes_inj bs bs' : Forall is_byte bs → Forall is_byte bs' → of_bytes bs = of_bytes bs' → bs = bs'.
Proof.
  revert bs'. induction bs as [|b bs IH]; intros [|b' bs'] H1 H2 He; try done.
  apply Forall_cons in H1 as [Hb H1], H2 as [Hb' H2]. simpl in He. injection He as Hc He.
  f_equal; [|by apply IH].
  apply (f_equal N_of_ascii) in Hc. by rewrite !N_ascii_embedding in Hc.
Qed.

(** Induction by groups. *)
Lemma group3_ind {A} (P : list A → Prop) :
  P [] → (∀ x, P [x]) → (∀ x y, P [x; y]) →
  (∀ x y z l, P l → P (x :: y :: z :: l)) → ∀ l, P l.
Proof.
  intros H0 H1 H2 H3.
  fix IH 1. intros [|x [|y [|z l]]]; [done|done|done|]. apply H3, IH.
Qed.
Lemma group4_ind {A} (P : list A → Prop) :
  P [] → (∀ x, P [x]) → (∀ x y, P [x; y]) → (∀ x y z, P [x; y; z]) →
  (∀ x y z u l, P l → P (x :: y :: z :: u :: l)) → ∀ l, P l.
Proof.
  intros H0 H1 H2 H3 H4.
  fix IH 1. intros [|x [|y [|z [|u l]]]]; [done|done|done|done|]. apply H4, IH.
Qed.

Ltac sextet_arith :=
  unfold is_byte, is_sextet in *; zify; Z.to_euclidean_division_equations; lia.

Lemma bytes_sextets_bound bs : Forall is_byte bs → Forall is_sextet (bytes_to_sextets bs).
Proof.
  induction bs as [|x|x y|x y z bs IH] using group3_ind; simpl; intros Hb;
    repeat match goal with H : Forall _ (_ :: _) |- _ => apply Forall_cons in H as [? H] end;
    repeat constructor; try sextet_arith; auto.
Qed.

Lemma sextets_bytes bs : Forall is_byte bs → sextets_to_bytes (bytes_to_sextets bs) = bs.
Proof.
  induction bs as [|x|x y|x y z bs IH] using group3_ind; simpl; intros Hb;
    repeat match goal with H : Forall _ (_ :: _) |- _ => apply Forall_cons in H as [? H] end;
    try done; repeat (f_equal; [sextet_arith|..]); auto.
Qed.

Lemma omap_sextet_alphabet ss : Forall is_sextet ss → omap sextet (alphabet <$> ss) = ss.
Proof.
  induction 1 as [|a ss Ha _ IH]; [done|]. rewrite fmap_cons. simpl.
  rewrite sextet_alphabet by done. f_equal. done.
Qed.

(** Decoding what was encoded gives the bytes back. *)
Lemma from_to_base64url b : from_base64url (to_base64url b) = b.
Proof.
  unfold from_base64url, to_base64url. rewrite String.list_ascii_of_string_of_list_ascii.
  rewrite omap_sextet_alphabet, sextets_bytes, of_to_bytes by
    auto using bytes_sextets_bound, to_bytes_bound. done.
Qed.

Lemma to_base64url_inj b b' : to_base64url b = to_base64url b' → b = b'.
Proof. intros He. by rewrite <- (from_to_base64url b), He, from_to_base64url. Qed.

Example base64url_works : to_base64url "any carnal pleas" = "YW55IGNhcm5hbCBwbGVhcw".
Proof. vm_compute. reflexivity. Qed.
