(* ===== verification/AuditHash.v ===== *)
(** The hash chain of the audit log: packages/crypto/src/audit-hash.ts. *)
From S2P Require Import Prelude.

(** ** What node:crypto supplies *)

(** [createHash("sha256").update(..).digest()], of which the code relies on the
    width of the digest. *)
Class Sha256 := {
  sha256 : string → Buffer;
  sha256_length s : String.length (sha256 s) = 32%nat;
}.

Definition HASH_DOMAIN : string := "crbk.audit.v1".
Definition AUDIT_HASH_BYTES : nat := 32.

Fixpoint zeros (n : nat) : Buffer :=
  match n with O => "" | S n => String Ascii.zero (zeros n) end.

(** [Buffer.alloc(AUDIT_HASH_BYTES, 0)] *)
Definition GENESIS_HASH : Buffer := zeros AUDIT_HASH_BYTES.

(** ** The evidence an event records *)

(** Own properties of the metadata object, in insertion order. *)
Abbreviation AuditMetadata := (list (string * string)) (only parsing).

Record AuditEventInput := {
  action : string;
  actorType : string;
  actorId : option string;
  resourceType : option string;
  resourceId : option string;
  traceId : option string;
  sourceIp : option string;
  occurredAt : string;
  metadata : AuditMetadata;
}.

#[export] Instance AuditEventInput_eq_dec : EqDecision AuditEventInput.
Proof. solve_decision. Defined.

(** ** Key order

    [Array.prototype.sort] compares UTF-16 code units. On UTF-8 text that is
    the byte order, except that the lead bytes 0xEE and 0xEF (U+E000..U+FFFF)
    come after 0xF0..0xF4, whose characters are surrogate pairs (0xD800..). *)
Definition utf16_rank (c : ascii) : ascii :=
  let b := code c in
  if N.eqb b 238 || N.eqb b 239 then ascii_of_N (b + 16)
  else if N.leb 240 b then ascii_of_N (b - 2) else c.

Definition utf16_le (s t : string) : Prop :=
  String.le (smap utf16_rank s) (smap utf16_rank t).

#[export] Instance utf16_le_dec : RelDecision utf16_le.
Proof. intros s t. unfold utf16_le. apply _. Defined.

(** Properties sorted by key, as [Object.keys(o).sort()] followed by [o[key]]. *)
Definition key_le {A} (p q : string * A) : Prop := utf16_le p.1 q.1.

#[export] Instance key_le_dec {A} : RelDecision (@key_le A).
Proof. intros p q. unfold key_le. apply _. Defined.

Definition sorted_entries {A} (o : list (string * A)) : list (string * A) :=
  merge_sort key_le o.

(** ** Canonical form *)

(** [`${byteLength(value)}:${value}`] *)
Definition netstring (v : string) : string := dec (byteLength v) +:+ ":" +:+ v.

Definition scalar_part (p : string * option string) : string :=
  match p.2 with
  | None => p.1 +:+ ":null"
  | Some v => p.1 +:+ ":" +:+ netstring v
  end.

Definition meta_part (p : string * string) : string :=
  "meta." +:+ netstring p.1 +:+ ":" +:+ netstring p.2.

Definition scalars (e : AuditEventInput) : list (string * option string) :=
  [ ("action", Some (action e));
    ("actorType", Some (actorType e));
    ("actorId", actorId e);
    ("occurredAt", Some (occurredAt e));
    ("resourceId", resourceId e);
    ("resourceType", resourceType e);
    ("sourceIp", sourceIp e);
    ("traceId", traceId e) ].

Definition newline : string := String (ascii_of_N 10) "".

Definition canonicalAuditForm (e : AuditEventInput) : string :=
  let parts := (scalar_part <$> sorted_entries (scalars e))
                 ++ (meta_part <$> sorted_entries (metadata e)) in
  HASH_DOMAIN +:+ newline +:+ String.concat newline parts.

(** ** The chain *)

Inductive hash_error := PrevHashWidth (got : nat).

Record StoredAuditEvent := {
  input : AuditEventInput;
  seq : Z;
  prevHash : Buffer;
  hash : Buffer;
}.

#[export] Instance StoredAuditEvent_eq_dec : EqDecision StoredAuditEvent.
Proof. solve_decision. Defined.

Inductive break_reason :=
  | NotFromGenesis        (* "first event does not start from the genesis hash ..." *)
  | PrevMismatch          (* "prev_hash does not match the previous event's hash ..." *)
  | HashMismatch.         (* "stored hash does not match the event's contents ..." *)

Record ChainBreak := {
  break_seq : Z;
  break_why : break_reason;
  expected : Buffer;
  actual : Buffer;
}.

Section chain.
Context `{Sha256}.

Definition computeAuditHash (e : AuditEventInput) (prev : Buffer) : result hash_error Buffer :=
  if decide (byteLength prev = AUDIT_HASH_BYTES)
  then Ok (sha256 (prev +:+ canonicalAuditForm e))
  else Throw (PrevHashWidth (byteLength prev)).

Fixpoint verifyAuditChain (events : list StoredAuditEvent) (expectedPrev : Buffer)
    : result hash_error (option ChainBreak) :=
  match events with
  | [] => Ok None
  | e :: rest =>
      if decide (prevHash e = expectedPrev) then
        recomputed ← computeAuditHash (input e) (prevHash e);
        if decide (recomputed = hash e)
        then verifyAuditChain rest (hash e)
        else Ok (Some {| break_seq := seq e; break_why := HashMismatch;
                         expected := recomputed; actual := hash e |})
      else
        Ok (Some {| break_seq := seq e;
                    break_why := if decide (expectedPrev = GENESIS_HASH)
                                 then NotFromGenesis else PrevMismatch;
                    expected := expectedPrev; actual := prevHash e |})
  end.
End chain.

(** ** Evidence up to the insertion order of metadata *)

Record same_evidence (e1 e2 : AuditEventInput) : Prop := {
  same_scalars : scalars e1 = scalars e2;
  same_metadata : metadata e1 ≡ₚ metadata e2;
}.

(** An object has each key once. *)
Definition wf_event (e : AuditEventInput) : Prop := NoDup (metadata e).*1.

#[export] Instance same_evidence_equiv : Equivalence same_evidence.
Proof.
  split.
  - intros e. by split.
  - intros e1 e2 [? ?]. by split.
  - intros e1 e2 e3 [? ?] [? ?]. split; by etrans.
Qed.

(** ** Sorting *)

(** The byte a rank comes from. *)
Definition utf16_unrank (c : ascii) : option nat :=
  List.find (λ i, Ascii.eqb (utf16_rank (ascii_of_nat i)) c) (List.seq 0 256).

Lemma utf16_unrank_rank :
  forallb (λ i, bool_decide (utf16_unrank (utf16_rank (ascii_of_nat i)) = Some i)) (List.seq 0 256)
    = true.
Proof. vm_compute. reflexivity. Qed.

Lemma utf16_rank_inj c d : utf16_rank c = utf16_rank d → c = d.
Proof.
  assert (Hu : ∀ c, utf16_unrank (utf16_rank c) = Some (nat_of_ascii c)).
  { intros x. pose proof utf16_unrank_rank as Hall. rewrite forallb_forall in Hall.
    specialize (Hall (nat_of_ascii x)). rewrite ascii_nat_embedding in Hall.
    assert (Hin : In (nat_of_ascii x) (List.seq 0 256))
      by (apply List.in_seq; pose proof (nat_ascii_bounded x); lia).
    specialize (Hall Hin). by apply bool_decide_eq_true in Hall. }
  intros Heq. pose proof (Hu c) as Hc. rewrite Heq, Hu in Hc. injection Hc as Hc.
  by rewrite <- (ascii_nat_embedding c), <- (ascii_nat_embedding d), Hc.
Qed.

#[export] Instance utf16_le_trans : Transitive utf16_le.
Proof. intros s t u. unfold utf16_le. apply (transitivity (R:=String.le)). Qed.
#[export] Instance utf16_le_total : Total utf16_le.
Proof. intros s t. unfold utf16_le. apply (total String.le). Qed.

Lemma utf16_le_antisymm s t : utf16_le s t → utf16_le t s → s = t.
Proof.
  intros H1 H2. apply (smap_inj utf16_rank); [apply utf16_rank_inj|].
  by apply (anti_symm String.le).
Qed.

#[export] Instance key_le_trans {A} : Transitive (@key_le A).
Proof. intros p q r. apply utf16_le_trans. Qed.
#[export] Instance key_le_total {A} : Total (@key_le A).
Proof. intros p q. apply utf16_le_total. Qed.

Lemma sorted_entries_perm {A} (o : list (string * A)) : sorted_entries o ≡ₚ o.
Proof. apply merge_sort_Permutation. Qed.

(** With each key once, sorting depends only on the set of entries. *)
Lemma sorted_entries_unique {A} (o1 o2 : list (string * A)) :
  NoDup o1.*1 → o1 ≡ₚ o2 → sorted_entries o1 = sorted_entries o2.
Proof.
  intros Hnd Hperm. apply (StronglySorted_unique_strong key_le).
  - intros p q Hp%list_elem_of_lookup Hq%list_elem_of_lookup Hpq Hqp.
    destruct Hp as [i Hi], Hq as [j Hj].
    assert (Hk : p.1 = q.1) by (by apply utf16_le_antisymm).
    assert (Hnd1 : NoDup (sorted_entries o1).*1) by (by rewrite sorted_entries_perm).
    assert (Hq' : q ∈ sorted_entries o1).
    { rewrite sorted_entries_perm, Hperm, <- (sorted_entries_perm o2).
      apply list_elem_of_lookup. by exists j. }
    apply list_elem_of_lookup in Hq' as [k Hk'].
    assert (i = k) as ->; [|congruence].
    eapply (NoDup_lookup _ i k p.1 Hnd1).
    + by rewrite list_lookup_fmap, Hi.
    + rewrite list_lookup_fmap, Hk'. simpl. by rewrite Hk.
  - apply StronglySorted_merge_sort; apply _.
  - apply StronglySorted_merge_sort; apply _.
  - by rewrite !sorted_entries_perm.
Qed.

(** ** Injectivity of the canonical form *)

Lemma netstring_inj v1 v2 t1 t2 :
  netstring v1 +:+ t1 = netstring v2 +:+ t2 → v1 = v2 ∧ t1 = t2.
Proof.
  unfold netstring. rewrite !sapp_assoc. simpl. intros H.
  apply (prefix_upto_inj is_digit) in H as [Hn H]; auto using dec_digits.
  apply sapp_inj_length in H; [done|]. by apply dec_inj.
Qed.

Lemma null_not_netstring v t1 t2 : "null" +:+ t1 ≠ netstring v +:+ t2.
Proof.
  unfold netstring. destruct (dec_cons (byteLength v)) as (c & s & -> & Hc).
  simpl. intros [= <- _]. discriminate Hc.
Qed.

Lemma scalar_part_inj k o1 o2 t1 t2 :
  scalar_part (k, o1) +:+ t1 = scalar_part (k, o2) +:+ t2 → o1 = o2 ∧ t1 = t2.
Proof.
  unfold scalar_part. simpl.
  destruct o1 as [v1|], o2 as [v2|]; rewrite !sapp_assoc; intros H;
    apply (inj (String.app k)) in H; simpl in H; injection H as H.
  - apply netstring_inj in H as [-> ->]. done.
  - by apply eq_sym, (null_not_netstring v1 t2 t1) in H.
  - by apply (null_not_netstring v2 t1 t2) in H.
  - done.
Qed.

Lemma meta_part_inj p1 p2 t1 t2 :
  meta_part p1 +:+ t1 = meta_part p2 +:+ t2 → p1 = p2 ∧ t1 = t2.
Proof.
  unfold meta_part. destruct p1 as [k1 v1], p2 as [k2 v2]. simpl.
  rewrite !sapp_assoc. intros H. injection H as H.
  apply netstring_inj in H as [-> H]. simpl in H. injection H as H.
  apply netstring_inj in H as [-> ->]. done.
Qed.

(** Each part on a line of its own. *)
Definition lines (parts : list string) : string :=
  foldr (λ p acc, newline +:+ p +:+ acc) "" parts.

Lemma concat_lines p ps :
  newline +:+ String.concat newline (p :: ps) = lines (p :: ps).
Proof.
  revert p. induction ps as [|q ps IH]; intros p.
  - simpl. by autorewrite with kit_str.
  - change (String.concat newline (p :: q :: ps))
      with (p +:+ newline +:+ String.concat newline (q :: ps)).
    by rewrite IH.
Qed.

Lemma lines_cons p ps : lines (p :: ps) = newline +:+ p +:+ lines ps.
Proof. done. Qed.

Lemma lines_app l1 l2 : lines (l1 ++ l2) = lines l1 +:+ lines l2.
Proof. induction l1; simpl; [done|]. by rewrite IHl1, !sapp_assoc. Qed.

Lemma meta_lines_inj l1 l2 :
  lines (meta_part <$> l1) = lines (meta_part <$> l2) → l1 = l2.
Proof.
  revert l2. induction l1 as [|p1 l1 IH]; intros [|p2 l2]; try done.
  rewrite !fmap_cons, !lines_cons. intros H. apply (inj (String.app newline)) in H.
  apply meta_part_inj in H as [-> H].
  f_equal. by apply IH.
Qed.

Lemma scalar_lines_inj l1 l2 t1 t2 :
  l1.*1 = l2.*1 →
  lines (scalar_part <$> l1) +:+ t1 = lines (scalar_part <$> l2) +:+ t2 →
  l1 = l2 ∧ t1 = t2.
Proof.
  revert l2. induction l1 as [|[k o1] l1 IH]; intros [|[k' o2] l2]; try done.
  rewrite !fmap_cons, !lines_cons. intros [= <- Hk]. rewrite !sapp_assoc. intros H.
  apply (inj (String.app newline)) in H.
  apply scalar_part_inj in H as [-> H].
  destruct (IH _ Hk H) as [-> ->]. done.
Qed.

Lemma sorted_scalars e :
  sorted_entries (scalars e) =
    [ ("action", Some (action e)); ("actorId", actorId e);
      ("actorType", Some (actorType e)); ("occurredAt", Some (occurredAt e));
      ("resourceId", resourceId e); ("resourceType", resourceType e);
      ("sourceIp", sourceIp e); ("traceId", traceId e) ].
Proof. vm_compute. reflexivity. Qed.

Lemma canonical_lines e :
  canonicalAuditForm e =
    HASH_DOMAIN +:+ lines (scalar_part <$> sorted_entries (scalars e))
                +:+ lines (meta_part <$> sorted_entries (metadata e)).
Proof.
  unfold canonicalAuditForm. rewrite <- lines_app, sorted_scalars.
  simpl app. by rewrite concat_lines.
Qed.

Lemma sorted_scalars_inj e1 e2 :
  sorted_entries (scalars e1) = sorted_entries (scalars e2) → scalars e1 = scalars e2.
Proof. rewrite !sorted_scalars. unfold scalars. by intros [= -> -> -> -> -> -> -> ->]. Qed.

Lemma canonical_form_inj e1 e2 :
  wf_event e1 → wf_event e2 →
  (canonicalAuditForm e1 = canonicalAuditForm e2 ↔ same_evidence e1 e2).
Proof.
  intros Hw1 Hw2. rewrite !canonical_lines. split.
  - intros H. apply (inj (String.app HASH_DOMAIN)) in H.
    apply scalar_lines_inj in H as [Hs H]; [|by rewrite !sorted_scalars].
    split; [by apply sorted_scalars_inj|].
    apply meta_lines_inj in H.
    by rewrite <- (sorted_entries_perm (metadata e1)), H, sorted_entries_perm.
  - intros [Hs Hm]. by rewrite Hs, (sorted_entries_unique _ _ Hw1 Hm).
Qed.

(** C12. The canonical form is injective on evidence: two events have the same
    form exactly when every scalar field agrees (a null apart from an empty
    string) and their metadata hold the same entries, in whatever order the
    properties were inserted. *)
Theorem canonicalAuditForm_injective e1 e2 :
  wf_event e1 → wf_event e2 →
  (canonicalAuditForm e1 = canonicalAuditForm e2 ↔ same_evidence e1 e2).
Proof. apply canonical_form_inj. Qed.

(** ** What the walk decides *)

Section chain_facts.
Context `{Sha256}.

(** The bytes hashed for a stored event, and their digest. *)
Definition hash_input (e : StoredAuditEvent) : string :=
  prevHash e +:+ canonicalAuditForm (input e).
Definition digest (e : StoredAuditEvent) : Buffer := sha256 (hash_input e).

(** The hash a following event must point at. *)
Definition head_hash (p : Buffer) (es : list StoredAuditEvent) : Buffer :=
  match last es with Some e => hash e | None => p end.

(** Every link holds, starting from [p]. *)
Fixpoint chain_ok (p : Buffer) (es : list StoredAuditEvent) : Prop :=
  match es with
  | [] => True
  | e :: rest => prevHash e = p ∧ hash e = digest e ∧ chain_ok (hash e) rest
  end.

(** What is wrong with one event that should follow [prev]. *)
Inductive broken_link (prev : Buffer) (e : StoredAuditEvent) : ChainBreak → Prop :=
  | broken_genesis : prevHash e ≠ prev → prev = GENESIS_HASH →
      broken_link prev e {| break_seq := seq e; break_why := NotFromGenesis;
                            expected := prev; actual := prevHash e |}
  | broken_prev : prevHash e ≠ prev → prev ≠ GENESIS_HASH →
      broken_link prev e {| break_seq := seq e; break_why := PrevMismatch;
                            expected := prev; actual := prevHash e |}
  | broken_hash : prevHash e = prev → hash e ≠ digest e →
      broken_link prev e {| break_seq := seq e; break_why := HashMismatch;
                            expected := digest e; actual := hash e |}.

Lemma genesis_width : byteLength GENESIS_HASH = AUDIT_HASH_BYTES.
Proof. done. Qed.

Lemma digest_width e : byteLength (digest e) = AUDIT_HASH_BYTES.
Proof. apply sha256_length. Qed.

Lemma computeAuditHash_ok e :
  byteLength (prevHash e) = AUDIT_HASH_BYTES →
  computeAuditHash (input e) (prevHash e) = Ok (digest e).
Proof. intros Hw. unfold computeAuditHash. by rewrite decide_True. Qed.

Lemma head_hash_cons p e es : head_hash p (e :: es) = head_hash (hash e) es.
Proof. unfold head_hash. rewrite last_cons. by destruct (last es). Qed.

Lemma head_hash_snoc p es e : head_hash p (es ++ [e]) = hash e.
Proof. unfold head_hash. by rewrite last_snoc. Qed.

Lemma chain_ok_app p es1 es2 :
  chain_ok p (es1 ++ es2) ↔ chain_ok p es1 ∧ chain_ok (head_hash p es1) es2.
Proof.
  revert p. induction es1 as [|e es1 IH]; intros p; simpl; [naive_solver|].
  rewrite head_hash_cons, IH. naive_solver.
Qed.

Lemma chain_ok_head_width p es :
  byteLength p = AUDIT_HASH_BYTES → chain_ok p es →
  byteLength (head_hash p es) = AUDIT_HASH_BYTES.
Proof.
  revert p. induction es as [|e es IH]; intros p Hp; [done|].
  intros (_ & He & Hes). rewrite head_hash_cons. apply IH; [|done].
  rewrite He. apply digest_width.
Qed.

(** One step of the walk, when the predecessor's hash has the right width. *)
Lemma verify_cons p e es :
  byteLength p = AUDIT_HASH_BYTES →
  (prevHash e = p ∧ hash e = digest e ∧
     verifyAuditChain (e :: es) p = verifyAuditChain es (hash e)) ∨
  (∃ b, broken_link p e b ∧ verifyAuditChain (e :: es) p = Ok (Some b)).
Proof.
  intros Hp. simpl. destruct (decide (prevHash e = p)) as [Heq|Hne].
  - rewrite computeAuditHash_ok by congruence. simpl.
    destruct (decide (digest e = hash e)) as [Hh|Hh]; [by left|].
    right. eexists. split; [|done]. by apply broken_hash.
  - right. case_decide; (eexists; split; [|done]); by constructor.
Qed.

Lemma verify_spec p es :
  byteLength p = AUDIT_HASH_BYTES →
  (verifyAuditChain es p = Ok None ↔ chain_ok p es) ∧
  (∀ b, verifyAuditChain es p = Ok (Some b) ↔
     ∃ pre e post, es = pre ++ e :: post ∧ chain_ok p pre ∧
                   broken_link (head_hash p pre) e b) ∧
  (∀ err, verifyAuditChain es p ≠ Throw err).
Proof.
  revert p. induction es as [|e es IH]; intros p Hp.
  { split; [done|]. split; [|done]. intros b. split; [done|].
    intros ([|? ?] & ? & ? & [=] & _). }
  destruct (verify_cons p e es Hp) as [(He & Hh & ->)|(b & Hb & ->)].
  - assert (Hw : byteLength (hash e) = AUDIT_HASH_BYTES) by (rewrite Hh; apply digest_width).
    destruct (IH _ Hw) as (IHn & IHb & IHt). split; [|split]; [|intros b|done].
    + rewrite IHn. simpl. tauto.
    + rewrite IHb. split.
      * intros (pre & e' & post & -> & Hc & Hbr).
        exists (e :: pre), e', post. by rewrite head_hash_cons.
      * intros ([|e0 pre] & e' & post & [= -> ->] & Hc & Hbr).
        { unfold head_hash in Hbr. simpl in Hbr. by destruct Hbr. }
        destruct Hc as (_ & _ & Hc). rewrite head_hash_cons in Hbr. by exists pre, e', post.
  - split; [|split]; [|intros b'|done].
    + split; [done|]. intros (? & ? & _). by destruct Hb.
    + split.
      * intros [= <-]. by exists [], e, es.
      * intros ([|e0 pre] & e' & post & [= -> ->] & Hc & Hbr).
        { unfold head_hash in Hbr. simpl in Hbr. by destruct Hb, Hbr. }
        destruct Hc as (? & ? & _). by destruct Hb.
Qed.

(** C13. The walk decides the chain, and reports the first break: it returns
    null exactly on a chain whose every link holds, and a break exactly when
    the events before it hold and that event does not follow them, with the
    reason and the two hashes of that event. It never throws. *)
Theorem verifyAuditChain_spec p es :
  byteLength p = AUDIT_HASH_BYTES →
  (verifyAuditChain es p = Ok None ↔ chain_ok p es) ∧
  (∀ b, verifyAuditChain es p = Ok (Some b) ↔
     ∃ pre e post, es = pre ++ e :: post ∧ chain_ok p pre ∧
                   broken_link (head_hash p pre) e b) ∧
  (∀ err, verifyAuditChain es p ≠ Throw err).
Proof. apply verify_spec. Qed.

Lemma verify_app p es1 es2 :
  chain_ok p es1 → byteLength p = AUDIT_HASH_BYTES →
  verifyAuditChain (es1 ++ es2) p = verifyAuditChain es2 (head_hash p es1).
Proof.
  revert p. induction es1 as [|e es1 IH]; intros p Hc Hp; [done|].
  destruct Hc as (He & Hh & Hc). rewrite <- app_comm_cons, head_hash_cons.
  destruct (verify_cons p e (es1 ++ es2) Hp) as [(_ & _ & ->)|(b & Hb & _)].
  - apply IH; [done|]. rewrite Hh. apply digest_width.
  - by destruct Hb.
Qed.

Lemma chain_ok_hash_in p es e :
  chain_ok p es → e ∈ es → hash e = digest e.
Proof.
  revert p. induction es as [|e' es IH]; intros p Hc Hin; [by apply not_elem_of_nil in Hin|].
  destruct Hc as (_ & Hh & Hc). apply elem_of_cons in Hin as [->|Hin]; eauto.
Qed.
End chain_facts.

(** ** Tamper evidence

    Relative to the hash: no two different inputs among those actually hashed
    collide, and none hashes to the genesis value. *)
Section tamper.
Context `{Sha256}.

Definition collision_free (inputs : list string) : Prop :=
  ∀ x y, x ∈ inputs → y ∈ inputs → sha256 x = sha256 y → x = y.

Definition no_genesis_preimage (inputs : list string) : Prop :=
  ∀ x, x ∈ inputs → sha256 x ≠ GENESIS_HASH.

Lemma hash_inputs_mono (es es' : list StoredAuditEvent) : es ⊆ es' → hash_input <$> es ⊆ hash_input <$> es'.
Proof. intros Hs x. rewrite !list_elem_of_fmap. naive_solver. Qed.

(** The stored evidence of two events agrees; [seq] is not hashed. *)
Definition same_record (a b : StoredAuditEvent) : Prop :=
  prevHash a = prevHash b ∧ hash a = hash b ∧ same_evidence (input a) (input b).

Lemma same_digest_same_record inputs a b :
  collision_free inputs → hash_input a ∈ inputs → hash_input b ∈ inputs →
  byteLength (prevHash a) = byteLength (prevHash b) →
  wf_event (input a) → wf_event (input b) → digest a = digest b →
  prevHash a = prevHash b ∧ same_evidence (input a) (input b).
Proof.
  intros Hcf Ha Hb Hw Hwa Hwb Hd. apply Hcf in Hd; [|done..].
  apply sapp_inj_length in Hd as [Hp Hform]; [|done].
  by apply canonical_form_inj in Hform.
Qed.

Lemma chain_ok_prev_width p es e :
  byteLength p = AUDIT_HASH_BYTES → chain_ok p es → e ∈ es →
  byteLength (prevHash e) = AUDIT_HASH_BYTES.
Proof.
  revert p. induction es as [|e' es IH]; intros p Hp Hc Hin.
  { by apply not_elem_of_nil in Hin. }
  destruct Hc as (He & Hh & Hc). apply elem_of_cons in Hin as [->|Hin]; [congruence|].
  eapply IH; [|done..]. rewrite Hh. apply digest_width.
Qed.

(** The head of a non-empty chain is the digest of an event of it. *)
Lemma head_not_genesis es :
  chain_ok GENESIS_HASH es → es ≠ [] → no_genesis_preimage (hash_input <$> es) →
  head_hash GENESIS_HASH es ≠ GENESIS_HASH.
Proof.
  intros Hc Hne Hng. destruct es as [|e es' _] using rev_ind; [done|].
  rewrite head_hash_snoc. rewrite (chain_ok_hash_in _ _ e Hc) by set_solver.
  apply Hng. rewrite fmap_app. set_solver.
Qed.

(** C28. The head hash pins the whole history: two chains that both verify
    from genesis and end at the same head hold the same evidence, event by
    event, as long as the hash does not collide on what they hash. *)
Theorem head_determines_history es1 es2 :
  chain_ok GENESIS_HASH es1 → chain_ok GENESIS_HASH es2 →
  Forall (λ e, wf_event (input e)) (es1 ++ es2) →
  collision_free (hash_input <$> (es1 ++ es2)) →
  no_genesis_preimage (hash_input <$> (es1 ++ es2)) →
  head_hash GENESIS_HASH es1 = head_hash GENESIS_HASH es2 →
  Forall2 same_record es1 es2.
Proof.
  revert es2. induction es1 as [|a es1 IH] using rev_ind; intros es2 H1 H2 Hw Hcf Hng Hh.
  - destruct es2 as [|b es2]; [constructor|].
    by apply eq_sym, head_not_genesis in Hh.
  - destruct es2 as [|b es2 _] using rev_ind.
    { rewrite app_nil_r in *. apply head_not_genesis in Hh; [done..| |done]. by destruct es1. }
    rewrite !head_hash_snoc in Hh.
    assert (Ha : a ∈ (es1 ++ [a]) ++ es2 ++ [b]) by set_solver.
    assert (Hb : b ∈ (es1 ++ [a]) ++ es2 ++ [b]) by set_solver.
    pose proof (chain_ok_hash_in _ _ a H1 ltac:(set_solver)) as Hda.
    pose proof (chain_ok_hash_in _ _ b H2 ltac:(set_solver)) as Hdb.
    rewrite Forall_forall in Hw.
    destruct (same_digest_same_record (hash_input <$> (es1 ++ [a]) ++ es2 ++ [b]) a b)
      as [Hp He]; try (done || congruence || by apply list_elem_of_fmap_2 || by apply Hw).
    { rewrite (chain_ok_prev_width _ _ a genesis_width H1), (chain_ok_prev_width _ _ b genesis_width H2);
        [done|set_solver|set_solver]. }
    apply chain_ok_app in H1 as [H1 (Hpa & _)], H2 as [H2 (Hpb & _)].
    apply Forall2_app; [|by constructor; [split_and!|constructor]].
    assert (Hsub : es1 ++ es2 ⊆ (es1 ++ [a]) ++ es2 ++ [b]) by set_solver.
    apply IH; [done..| | | |congruence].
    + apply Forall_forall. intros e Hin. by apply Hw, Hsub.
    + intros x y Hx Hy. apply Hcf; by apply (hash_inputs_mono _ _ Hsub).
    + intros x Hx. apply Hng. by apply (hash_inputs_mono _ _ Hsub).
Qed.

(** Editing one event is reported at that event: if its recorded evidence
    no longer is what its hash was computed from, the walk stops there and
    says the contents do not match, whatever follows. *)
Theorem altered_event_detected pre e post e' :
  chain_ok GENESIS_HASH (pre ++ e :: post) →
  prevHash e' = prevHash e → hash e' = hash e →
  wf_event (input e) → wf_event (input e') →
  ¬ same_evidence (input e) (input e') →
  collision_free [hash_input e; hash_input e'] →
  verifyAuditChain (pre ++ e' :: post) GENESIS_HASH =
    Ok (Some {| break_seq := seq e'; break_why := HashMismatch;
                expected := digest e'; actual := hash e' |}).
Proof.
  intros Hc Hp Hh Hw Hw' Hne Hcf.
  pose proof (chain_ok_prev_width _ _ e genesis_width Hc ltac:(set_solver)) as Hpw.
  apply chain_ok_app in Hc as [Hpre (Hep & Heh & _)].
  apply verify_spec; [done|].
  exists pre, e', post. split; [done|]. split; [done|].
  apply broken_hash; [congruence|]. intros Hd. apply Hne.
  eapply same_digest_same_record; [apply Hcf| | | | | |]; try set_solver; congruence.
Qed.

(** Removing events is reported where the gap closes: the first event
    after the removed run is named, as not following its new predecessor. *)
Theorem removed_events_detected pre gone g e post :
  chain_ok GENESIS_HASH (pre ++ (gone ++ [g]) ++ e :: post) →
  hash g ≠ head_hash GENESIS_HASH pre →
  ∃ why, verifyAuditChain (pre ++ e :: post) GENESIS_HASH =
    Ok (Some {| break_seq := seq e; break_why := why;
                expected := head_hash GENESIS_HASH pre; actual := hash g |}) ∧
    (why = NotFromGenesis ↔ head_hash GENESIS_HASH pre = GENESIS_HASH).
Proof.
  intros Hc Hne. apply chain_ok_app in Hc as [Hpre Hc].
  apply chain_ok_app in Hc as [_ (Hep & _)]. rewrite head_hash_snoc in Hep.
  destruct (decide (head_hash GENESIS_HASH pre = GENESIS_HASH)) as [Hg|Hg].
  - exists NotFromGenesis. split; [|done]. rewrite <- Hep.
    apply verify_spec; [done|].
    exists pre, e, post. repeat split; [done|]. by apply broken_genesis; [congruence|].
  - exists PrevMismatch. split; [|done]. rewrite <- Hep.
    apply verify_spec; [done|].
    exists pre, e, post. repeat split; [done|]. by apply broken_prev; [congruence|].
Qed.
End tamper.

(** ** A concrete digest and chain *)

Module Sample.
(** A positional checksum rendered on 32 bytes, the first of them non-zero. *)
Fixpoint le_bytes (n : nat) (v : N) : string :=
  match n with
  | O => ""
  | S n => String (ascii_of_N (N.modulo v 256)) (le_bytes n (N.div v 256))
  end.

Fixpoint checksum (s : string) (acc : N) : N :=
  match s with
  | EmptyString => acc
  | String c s' => checksum s' (N.land (acc * 257 + code c + 1) 18446744073709551615)
  end.

Definition toy_sha256 (s : string) : Buffer := String "#" (le_bytes 31 (checksum s 7)).

Lemma toy_length s : String.length (toy_sha256 s) = 32%nat.
Proof. done. Qed.

#[export] Instance toy : Sha256 := { sha256 := toy_sha256; sha256_length := toy_length }.

Definition collision_freeb (inputs : list string) : bool :=
  let ds := (λ x, (x, sha256 x)) <$> inputs in
  forallb (λ x, forallb (λ y, bool_decide (x.1 = y.1) || negb (bool_decide (x.2 = y.2))) ds) ds.

Lemma collision_freeb_ok inputs : collision_freeb inputs = true → collision_free inputs.
Proof.
  unfold collision_freeb. rewrite forallb_forall. intros Hb x y Hx Hy Hxy.
  specialize (Hb (x, sha256 x) ltac:(by apply list_elem_of_In, (list_elem_of_fmap_2 (λ x, (x, sha256 x))))).
  rewrite forallb_forall in Hb.
  specialize (Hb (y, sha256 y) ltac:(by apply list_elem_of_In, (list_elem_of_fmap_2 (λ x, (x, sha256 x))))).
  cbv beta in Hb. cbn [fst snd] in Hb. apply orb_true_iff in Hb as [Hb|Hb]; [by apply bool_decide_eq_true in Hb|].
  by rewrite Hxy, bool_decide_true in Hb.
Qed.

Definition no_genesisb (inputs : list string) : bool :=
  forallb (λ x, negb (bool_decide (sha256 x = GENESIS_HASH))) inputs.

Lemma no_genesisb_ok inputs : no_genesisb inputs = true → no_genesis_preimage inputs.
Proof.
  unfold no_genesisb. rewrite forallb_forall. intros Hb x Hx Hxy.
  specialize (Hb x ltac:(by apply list_elem_of_In)). by rewrite Hxy, bool_decide_true in Hb.
Qed.

Definition event (act : string) (who : option string) (md : AuditMetadata) : AuditEventInput :=
  {| action := act; actorType := if who then "user" else "system"; actorId := who;
     resourceType := None; resourceId := None; traceId := None; sourceIp := Some "203.0.113.7";
     occurredAt := "2026-07-30T10:00:52.000Z"; metadata := md |}.

Fixpoint build (p : Buffer) (n : Z) (es : list AuditEventInput) : list StoredAuditEvent :=
  match es with
  | [] => []
  | e :: es' =>
      let h := sha256 (p +:+ canonicalAuditForm e) in
      {| input := e; seq := n; prevHash := p; hash := h |} :: build h (n + 1) es'
  end.

Definition e1 := event "auth.login.failed" (Some "u1") [("reason", "wrong_password"); ("email", "a@b.c")].
Definition e1' := event "auth.login.failed" (Some "u1") [("email", "a@b.c"); ("reason", "wrong_password")].
Definition e2 := event "user.registered" None [].
Definition e3 := event "auth.login.succeeded" (Some "u1") [("roles", "")].
Definition chain := build GENESIS_HASH 1 [e1; e2; e3].
Definition chain' := build GENESIS_HASH 5 [e1'; e2; e3].
End Sample.

(** ** The properties on concrete chains *)

#[local] Existing Instance Sample.toy.

Lemma canonicalAuditForm_injective_witness :
  canonicalAuditForm Sample.e1 = canonicalAuditForm Sample.e1'.
Proof.
  apply (canonicalAuditForm_injective Sample.e1 Sample.e1').
  - compute_decide.
  - compute_decide.
  - split; [reflexivity|apply Permutation_swap].
Defined.

Lemma verifyAuditChain_spec_witness :
  byteLength GENESIS_HASH = AUDIT_HASH_BYTES ∧ chain_ok GENESIS_HASH Sample.chain.
Proof.
  split; [reflexivity|].
  apply (verifyAuditChain_spec GENESIS_HASH Sample.chain eq_refl).
  vm_compute. reflexivity.
Defined.

Lemma head_determines_history_witness : Forall2 same_record Sample.chain Sample.chain'.
Proof.
  apply head_determines_history.
  - vm_compute. done.
  - vm_compute. done.
  - repeat constructor; compute_decide.
  - apply Sample.collision_freeb_ok. vm_compute. reflexivity.
  - apply Sample.no_genesisb_ok. vm_compute. reflexivity.
  - vm_compute. reflexivity.
Defined.

(** The second event of the chain, edited to hide who failed to log in. *)
Definition forged : StoredAuditEvent :=
  match Sample.chain with
  | e :: _ => {| input := Sample.event "auth.login.failed" None []; seq := seq e;
                 prevHash := prevHash e; hash := hash e |}
  | [] => {| input := Sample.e1; seq := 0; prevHash := ""; hash := "" |}
  end.

Lemma altered_event_detected_witness :
  ∃ b, verifyAuditChain (forged :: tail Sample.chain) GENESIS_HASH = Ok (Some b) ∧
       break_why b = HashMismatch ∧ break_seq b = 1%Z.
Proof.
  eexists. split; [|split; [|]].
  - apply (altered_event_detected [] (List.hd forged Sample.chain) (tail Sample.chain) forged).
    + vm_compute. done.
    + reflexivity.
    + reflexivity.
    + compute_decide.
    + compute_decide.
    + intros [Hs _]. vm_compute in Hs. discriminate Hs.
    + apply Sample.collision_freeb_ok. vm_compute. reflexivity.
  - reflexivity.
  - reflexivity.
Defined.

Lemma removed_events_detected_witness :
  ∃ b, verifyAuditChain (List.skipn 2 Sample.chain) GENESIS_HASH = Ok (Some b) ∧ break_seq b = 3%Z.
Proof.
  destruct (removed_events_detected [] (List.firstn 1 Sample.chain)
              (List.nth 1 Sample.chain forged) (List.nth 2 Sample.chain forged) [])
    as (why & Hv & _).
  - vm_compute. done.
  - vm_compute. discriminate.
  - eexists. split; [exact Hv|reflexivity].
Defined.
