(* ===== verification/Http.v ===== *)
(** What goes on the wire: services/auth/src/common (the problem-details filter,
    the response envelope, the validation exception factory and the default
    response headers). *)
From S2P Require Import Prelude Domain.
#[local] Open Scope Z_scope.

(** ** Validation failures (validation-exception.factory.ts) *)

(** class-validator's [ValidationError]: the constraints are read with
    [Object.values], so only their messages matter. *)
Inductive ValidationError := VError {
  property : string;
  constraints : list string;
  children : list ValidationError;
}.

Definition escape_segment (s : string) : string :=
  replace_char "/" "~1" (replace_char "~" "~0" s).

Definition pointerFor (segments : list string) : string :=
  "#/" +:+ String.concat "/" (escape_segment <$> segments).

Fixpoint flatten_error (path : list string) (e : ValidationError) : list FieldProblem :=
  let here := path ++ [property e] in
  ((λ d, {| detail := d; pointer := pointerFor here |}) <$> constraints e)
    ++ mjoin (flatten_error here <$> children e).

Definition flatten (errors : list ValidationError) (path : list string) : list FieldProblem :=
  mjoin (flatten_error path <$> errors).

Definition validationExceptionFactory (errors : list ValidationError) : DomainError :=
  ValidationFailedError (flatten errors []).

(** ** Problem details (problem-details.filter.ts) *)

Record ProblemDetails := {
  p_type : string;
  p_title : string;
  p_status : Z;
  p_detail : string;
  p_instance : string;
  p_code : string;
  p_traceId : string;
  p_errors : option (list FieldProblem);
}.

Definition STATUS_BY_ERROR (d : DomainError) : option Z :=
  match d with
  | InvalidCredentialsError => Some 401
  | InvalidAccessTokenError => Some 401
  | CrossTenantTokenError => Some 401
  | ControlPlaneUnauthorizedError => Some 401
  | TenantNotFoundError _ => Some 404
  | TenantAlreadyExistsError _ => Some 409
  | TenantProvisioningInProgressError _ => Some 409
  | EmailAlreadyRegisteredError => Some 409
  | ValidationFailedError _ => Some 422
  | TenantContextMissingError => Some 400
  | TooManyRequestsError _ => Some 429
  | LoginThrottleUnavailableError => Some 429
  end.

Definition CODE_BY_STATUS (status : Z) : option string :=
  match status with
  | 400 => Some "MALFORMED_REQUEST"
  | 403 => Some "FORBIDDEN"
  | 404 => Some "ROUTE_NOT_FOUND"
  | 405 => Some "METHOD_NOT_ALLOWED"
  | 406 => Some "NOT_ACCEPTABLE"
  | 413 => Some "PAYLOAD_TOO_LARGE"
  | 415 => Some "UNSUPPORTED_MEDIA_TYPE"
  | 429 => Some "TOO_MANY_REQUESTS"
  | _ => None
  end.

Definition TITLE_BY_STATUS (status : Z) : option string :=
  match status with
  | 400 => Some "Malformed request"
  | 403 => Some "Insufficient permissions"
  | 404 => Some "Resource not found"
  | 405 => Some "Method not allowed"
  | 406 => Some "Not acceptable"
  | 413 => Some "Request body too large"
  | 415 => Some "Unsupported media type"
  | 429 => Some "Too many requests"
  | _ => None
  end.

Definition httpDetail (body : HttpBody) (path : string) : string :=
  match body with
  | BodyString s => s
  | BodyObject (Some (MsgString s)) => s
  | BodyObject (Some (MsgArray ms)) => String.concat "; " (omap id ms)
  | _ => "Request to " +:+ path +:+ " could not be completed."
  end.

Definition typeUri (baseUri code : string) : string :=
  baseUri +:+ "#" +:+ replace_char "_" "-" (toLowerCase code).

Definition toProblem (baseUri : string) (e : exn) (traceId path : string) : ProblemDetails :=
  let inst := "urn:uuid:" +:+ traceId in
  match e with
  | EDomain d =>
      {| p_type := typeUri baseUri (error_code d);
         p_title := title d;
         p_status := default 400 (STATUS_BY_ERROR d);
         p_detail := message d;
         p_instance := inst;
         p_code := error_code d;
         p_traceId := traceId;
         p_errors := match d with ValidationFailedError es => Some es | _ => None end |}
  | EHttp status body =>
      let code := default ("HTTP_" +:+ decZ status) (CODE_BY_STATUS status) in
      {| p_type := typeUri baseUri code;
         p_title := default ("HTTP " +:+ decZ status) (TITLE_BY_STATUS status);
         p_status := status;
         p_detail := httpDetail body path;
         p_instance := inst;
         p_code := code;
         p_traceId := traceId;
         p_errors := None |}
  | _ =>
      {| p_type := typeUri baseUri "INTERNAL_ERROR";
         p_title := "Internal server error";
         p_status := 500;
         p_detail := "An unexpected error occurred. Quote traceId " +:+ traceId +:+
                     " when reporting it.";
         p_instance := inst;
         p_code := "INTERNAL_ERROR";
         p_traceId := traceId;
         p_errors := None |}
  end.

(** A Fastify reply: header names are lower case, and setting one replaces it. *)
Record Reply (B : Type) := {
  reply_status : Z;
  reply_headers : gmap string string;
  reply_body : option B;
}.
Arguments reply_status {B}. Arguments reply_headers {B}. Arguments reply_body {B}.

Definition set_header {B} (k v : string) (r : Reply B) : Reply B :=
  {| reply_status := reply_status r; reply_headers := <[k := v]> (reply_headers r);
     reply_body := reply_body r |}.

(** [ProblemDetailsFilter.catch]: the reply, and whether the cause was logged. *)
Definition filter_catch (baseUri : string) (e : exn) (traceId url : string)
    (headers : gmap string string) : Reply ProblemDetails * bool :=
  let problem := toProblem baseUri e traceId url in
  let logged := 500 <=? p_status problem in
  let h1 :=
    match e with
    | EDomain d =>
        match too_many_requests d with
        | Some s => <["cache-control" := "no-store"]> (<["retry-after" := decZ s]> headers)
        | None => headers
        end
    | _ => headers
    end in
  ({| reply_status := p_status problem;
      reply_headers :=
        <["content-type" := "application/problem+json; charset=utf-8"]> h1;
      reply_body := Some problem |}, logged).

(** ** Success envelope (response-envelope.interceptor.ts, common's withMeta) *)

Inductive json :=
  | JNull
  | JBool (b : bool)
  | JNum (n : Z)
  | JString (s : string)
  | JArray (l : list json)
  | JObject (o : list (string * json)).

(** What a handler returns; [WithMeta] carries the [META_MARKER] symbol. *)
Inductive payload :=
  | Undefined
  | Bare (j : json)
  | WithMeta (data : json) (meta : list (string * json)).

Definition withMeta (data : json) (meta : list (string * json)) : payload := WithMeta data meta.

Definition hasMeta (p : payload) : bool :=
  match p with WithMeta _ _ => true | _ => false end.

Record SuccessEnvelope := { env_data : json; env_meta : list (string * json) }.

Definition defaultMeta (p : payload) : list (string * json) :=
  match p with
  | Bare (JArray l) => [("totalCount", JNum (Z.of_nat (length l)))]
  | _ => []
  end.

Definition envelope (p : payload) : SuccessEnvelope :=
  match p with
  | WithMeta data meta => {| env_data := data; env_meta := meta |}
  | Bare j => {| env_data := j; env_meta := defaultMeta p |}
  | Undefined => {| env_data := JNull; env_meta := defaultMeta p |}
  end.

(** [intercept]: a route marked [@RawResponse()] answers its payload as it is. *)
Definition intercept (raw : bool) (p : payload) : payload + SuccessEnvelope :=
  if raw then inl p else inr (envelope p).

(** ** Default headers (default-response-headers.ts) *)

Definition default_header (k v : string) (headers : gmap string string) : gmap string string :=
  match headers !! k with Some _ => headers | None => <[k := v]> headers end.

Definition onSend (headers : gmap string string) : gmap string string :=
  default_header "x-content-type-options" "nosniff"
    (default_header "cache-control" "no-store" headers).

(** ** JSON Pointers read back *)

(** RFC 6901 section 4: [~1] stands for [/] and [~0] for [~]. *)
Fixpoint unescape_segment (s : string) : string :=
  match s with
  | String "~" (String "1" s') => String "/" (unescape_segment s')
  | String "~" (String "0" s') => String "~" (unescape_segment s')
  | String c s' => String c (unescape_segment s')
  | EmptyString => EmptyString
  end.

(** The reference tokens of a [#/...] pointer. *)
Definition read_pointer (p : string) : option (list string) :=
  match p with
  | String "#" (String "/" rest) => Some (unescape_segment <$> split_on "/" rest)
  | _ => None
  end.

Lemma escape_cons c s :
  escape_segment (String c s) =
    (if Ascii.eqb c "~" then "~0" else if Ascii.eqb c "/" then "~1" else String c "")
      +:+ escape_segment s.
Proof.
  unfold escape_segment. simpl.
  destruct (Ascii.eqb_spec c "~") as [->|Hn]; [done|].
  simpl. by destruct (Ascii.eqb_spec c "/") as [->|Hs].
Qed.

Lemma unescape_other c s : c ≠ "~"%char →
  unescape_segment (String c s) = String c (unescape_segment s).
Proof.
  intros Hc. destruct c as [b0 b1 b2 b3 b4 b5 b6 b7].
  destruct b0, b1, b2, b3, b4, b5, b6, b7; try done.
Qed.

Lemma unescape_escape s : unescape_segment (escape_segment s) = s.
Proof.
  induction s as [|c s IH]; [done|]. rewrite escape_cons.
  destruct (Ascii.eqb_spec c "~") as [->|Hn]; [by simpl; rewrite IH|].
  destruct (Ascii.eqb_spec c "/") as [->|Hs]; [by simpl; rewrite IH|].
  simpl String.append. by rewrite unescape_other, IH.
Qed.

Lemma escape_free s : free_of "/" (escape_segment s) = true.
Proof.
  induction s as [|c s IH]; [done|]. unfold free_of in *. rewrite escape_cons, sall_app, IH.
  destruct (Ascii.eqb_spec c "~"); [done|]. destruct (Ascii.eqb_spec c "/") as [->|Hs]; [done|].
  simpl. by destruct (Ascii.eqb_spec c "/").
Qed.

(** A pointer in a validation problem names its field exactly: reading it
    back as RFC 6901 prescribes gives the path of properties it was built from,
    whatever slashes and tildes the property names contain. *)
Theorem pointerFor_roundtrip segments :
  segments ≠ [] → read_pointer (pointerFor segments) = Some segments.
Proof.
  intros Hne. simpl. f_equal. rewrite split_on_concat.
  - rewrite <- list_fmap_compose. rewrite <- (list_fmap_id segments) at 2.
    apply list_fmap_ext. intros i s _. apply unescape_escape.
  - by destruct segments.
  - apply Forall_fmap, Forall_true. apply escape_free.
Qed.

Lemma pointerFor_roundtrip_witness :
  read_pointer (pointerFor ["a/b"; "~1"; ""]) = Some ["a/b"; "~1"; ""].
Proof. apply pointerFor_roundtrip. discriminate. Defined.

(** ** Flattening *)

Section verror_ind.
Variable P : ValidationError → Prop.
Hypothesis Hstep : ∀ e, Forall P (children e) → P e.

Fixpoint verror_ind (e : ValidationError) : P e :=
  Hstep e ((fix go (l : list ValidationError) : Forall P l :=
    match l with
    | [] => Forall_nil_2 P
    | x :: l' => Forall_cons_2 P x l' (verror_ind x) (go l')
    end) (children e)).
End verror_ind.

(** The constraint with message [d] failed at the property path [here] below
    one of the errors. *)
Inductive failure_at (es : list ValidationError) : list string → string → Prop :=
  | failure_here e d : e ∈ es → d ∈ constraints e → failure_at es [property e] d
  | failure_below e path d : e ∈ es → failure_at (children e) path d →
      failure_at es (property e :: path) d.

Lemma flatten_error_spec e path fp :
  fp ∈ flatten_error path e ↔
  ∃ below d, failure_at [e] below d ∧ fp = {| detail := d; pointer := pointerFor (path ++ below) |}.
Proof.
  revert path. induction e as [e IH] using verror_ind. intros path.
  destruct e as [p cs ch]; simpl in *.
  rewrite elem_of_app, list_elem_of_fmap, list_elem_of_join. split.
  - intros [(d & -> & Hd)|(fs & Hfp & Hfs)].
    + exists [p], d. split; [|done]. apply (failure_here _ (VError p cs ch)); set_solver.
    + apply list_elem_of_fmap in Hfs as (c & -> & Hc).
      rewrite Forall_forall in IH. apply (IH _ Hc) in Hfp as (below & d & Hf & ->).
      exists (p :: below), d. rewrite <- app_assoc. split; [|done].
      apply (failure_below _ (VError p cs ch)); [set_solver|]. simpl.
      inversion Hf; subst; [eapply failure_here|eapply failure_below]; set_solver.
  - intros (below & d & Hf & ->). inversion Hf as [e' d' He' Hd|e' path' d' He' Hbelow]; subst;
      apply list_elem_of_singleton in He' as ->; simpl in *; [left; eauto|].
    right. inversion Hbelow as [c d' Hc Hd|c path'' d' Hc Hbelow']; subst;
      eexists; (split; [|by apply list_elem_of_fmap_2, Hc]);
      rewrite Forall_forall in IH; apply (IH _ Hc); (do 2 eexists);
      (split; [|by rewrite <- app_assoc]).
    + by apply failure_here; [set_solver|].
    + by apply failure_below; [set_solver|].
Qed.

(** Flattening reports every failed constraint, at any depth of nested
    objects and array members, with the path of its own field, and nothing
    else. *)
Theorem flatten_complete errors path fp :
  fp ∈ flatten errors path ↔
  ∃ below d, failure_at errors below d ∧
    fp = {| detail := d; pointer := pointerFor (path ++ below) |}.
Proof.
  unfold flatten. rewrite list_elem_of_join. setoid_rewrite list_elem_of_fmap. split.
  - intros (? & Hfp & e & -> & He). apply flatten_error_spec in Hfp as (below & d & Hf & ->).
    exists below, d. split; [|done].
    inversion Hf; subst; [eapply failure_here|eapply failure_below]; set_solver.
  - intros (below & d & Hf & ->).
    assert (∃ e, e ∈ errors ∧ failure_at [e] below d) as (e & He & Hfe).
    { inversion Hf; subst; eexists; (split; [done|]);
        [eapply failure_here|eapply failure_below]; set_solver. }
    eexists. split; [apply flatten_error_spec; eauto|]. eauto.
Qed.

(** ** Error replies *)

(** An exception the filter has no public rendering for. *)
Definition internal (e : exn) : bool :=
  match e with EDomain _ | EHttp _ _ => false | _ => true end.

(** Every exception is rendered as one problem document: the status line
    agrees with the body, the media type is problem+json, [type] is the
    documented anchor of [code]; a 429 raised by a limit carries a whole-second
    Retry-After of at least one and forbids caching; and only 5xx causes are
    logged, which no domain error is. *)
Theorem filter_catch_uniform base e traceId url hs :
  ∃ reply problem logged,
    filter_catch base e traceId url hs = (reply, logged) ∧
    reply_body reply = Some problem ∧
    reply_status reply = p_status problem ∧
    reply_headers reply !! "content-type" = Some "application/problem+json; charset=utf-8" ∧
    p_type problem = typeUri base (p_code problem) ∧
    p_instance problem = "urn:uuid:" +:+ p_traceId problem ∧
    (logged = true ↔ 500 ≤ p_status problem) ∧
    (∀ d, e = EDomain d →
       400 ≤ p_status problem < 500 ∧ p_code problem = error_code d ∧
       STATUS_BY_ERROR d = Some (p_status problem) ∧
       (p_status problem = 429 ↔ ∃ s, too_many_requests d = Some s) ∧
       (∀ s, too_many_requests d = Some s →
          1 ≤ s ∧ reply_headers reply !! "retry-after" = Some (decZ s) ∧
          reply_headers reply !! "cache-control" = Some "no-store")).
Proof.
  do 3 eexists. split; [reflexivity|]. split_and!; try reflexivity.
  - simpl. by rewrite lookup_insert_eq.
  - by destruct e.
  - by destruct e.
  - apply Z.leb_le.
  - intros d ->. simpl. split_and!.
    1-4: by destruct d.
    + destruct d; simpl; split; try done; try (intros [s ?]; done); intros _; eauto.
    + intros s Hs. rewrite Hs. simpl.
      assert (Hs1 : 1 ≤ s) by (destruct d; simplify_eq/=; unfold retryAfterSeconds; lia).
      by simplify_map_eq.
Qed.

(** An unexpected exception discloses nothing: the body the client gets is
    the same whatever was thrown, and it is a 500 whose cause is logged. *)
Theorem internal_errors_indistinguishable base e1 e2 traceId url hs :
  internal e1 = true → internal e2 = true →
  filter_catch base e1 traceId url hs = filter_catch base e2 traceId url hs ∧
  p_status (toProblem base e1 traceId url) = 500 ∧
  (filter_catch base e1 traceId url hs).2 = true.
Proof. destruct e1, e2; try done; intros _ _; split_and!; reflexivity. Qed.

Lemma internal_errors_indistinguishable_witness :
  filter_catch "b" (EError "relation users does not exist") "t" "/u" ∅ =
  filter_catch "b" (EPg "42P01") "t" "/u" ∅.
Proof. apply (internal_errors_indistinguishable "b"); reflexivity. Defined.

(** ** Envelope and default headers *)

(** A success body keeps what the handler returned: the envelope carries the
    data unchanged ([null] for no value), the handler's own [meta] when it
    attached one, and otherwise a total count exactly for a list; a raw route is
    untouched. *)
Theorem intercept_faithful raw p :
  (raw = true → intercept raw p = inl p) ∧
  (raw = false → ∃ env, intercept raw p = inr env ∧
     (∀ data meta, p = withMeta data meta → env = {| env_data := data; env_meta := meta |}) ∧
     (∀ l, p = Bare (JArray l) →
        env_data env = JArray l ∧ env_meta env = [("totalCount", JNum (Z.of_nat (length l)))]) ∧
     (∀ j, p = Bare j → env_data env = j ∧ ((∀ l, j ≠ JArray l) → env_meta env = [])) ∧
     (p = Undefined → env_data env = JNull ∧ env_meta env = [])).
Proof.
  split; [by intros ->|]. intros ->. eexists. split; [reflexivity|].
  split_and!.
  - by intros data meta ->.
  - by intros l ->.
  - intros j ->. split; [done|]. intros Hj. destruct j; try done. by destruct (Hj l).
  - by intros ->.
Qed.

Lemma intercept_faithful_witness :
  intercept false (Bare (JArray [JNull])) =
    inr {| env_data := JArray [JNull]; env_meta := [("totalCount", JNum 1)] |}.
Proof.
  destruct (proj2 (intercept_faithful false (Bare (JArray [JNull]))) eq_refl)
    as (env & -> & _ & Hl & _).
  destruct env as [d m]. destruct (Hl [JNull] eq_refl) as [Hd Hm]. simpl in Hd, Hm. by subst.
Defined.

Lemma default_header_lookup k v hs k' :
  default_header k v hs !! k' =
    if decide (k = k') then Some (default v (hs !! k)) else hs !! k'.
Proof.
  unfold default_header. destruct (hs !! k) as [w|] eqn:E; case_decide; subst;
    by simplify_map_eq.
Qed.

(** After the hook every response says how it may be cached and how it may
    be sniffed: a header its route set is kept as it is, a missing one gets the
    strict default, and no other header changes. *)
Theorem onSend_defaults hs :
  onSend hs !! "cache-control" = Some (default "no-store" (hs !! "cache-control")) ∧
  onSend hs !! "x-content-type-options" =
    Some (default "nosniff" (hs !! "x-content-type-options")) ∧
  (∀ k, k ≠ "cache-control" → k ≠ "x-content-type-options" → onSend hs !! k = hs !! k).
Proof.
  unfold onSend. split_and!; rewrite ?default_header_lookup; simpl; [done|done|].
  intros k H1 H2. rewrite !default_header_lookup.
  by rewrite !decide_False by done.
Qed.

Lemma onSend_defaults_witness :
  onSend {["cache-control" := "public, max-age=300"]} !! "cache-control"
    = Some "public, max-age=300".
Proof. rewrite (proj1 (onSend_defaults _)). reflexivity. Defined.
