(* ===== verification/ClientAddress.v ===== *)
(** The identity a per-address limit counts against:
    services/auth/src/ratelimit/client-address.ts. *)
From S2P Require Import Prelude Domain.
From Stdlib Require Import HexadecimalString HexadecimalN DecimalN.
#[local] Open Scope N_scope.

(** ** node:net's address grammars *)

(** [d], [1d], [dd], ... up to 255, without leading zeros. *)
Definition dec_value (s : string) : N :=
  (fix go s acc := match s with
   | EmptyString => acc
   | String c s' => go s' (acc * 10 + (code c - 48))
   end) s 0.

Definition is_octet (s : string) : bool :=
  match s with
  | EmptyString => false
  | String c s' =>
      sall is_digit s && (N.leb (dec_value s) 255) && (Nat.leb (String.length s) 3) &&
      (negb (Ascii.eqb c "0") || bool_decide (s' = ""))
  end.

Definition isIPv4 (s : string) : bool :=
  match split_on "." s with
  | [a; b; c; d] => is_octet a && is_octet b && is_octet c && is_octet d
  | _ => false
  end.

Definition is_hex (c : ascii) : bool :=
  is_digit c || in_range 97 102 c || in_range 65 70 c.

(** One to four hexadecimal digits. *)
Definition is_h16 (s : string) : bool :=
  negb (bool_decide (s = "")) && Nat.leb (String.length s) 4 && sall is_hex s.

Definition includes (c : ascii) (s : string) : bool := negb (sall (λ d, negb (Ascii.eqb d c)) s).

(** Put a character back on the first piece of a split. *)
Definition cons_head (c : ascii) (l : list string) : list string :=
  match l with w :: ws => String c w :: ws | [] => [String c ""] end.

(** [s.split("::")] *)
Fixpoint split_dcolon (s : string) : list string :=
  match s with
  | String c ((String d s2) as s1) =>
      if Ascii.eqb c ":" && Ascii.eqb d ":" then "" :: split_dcolon s2
      else cons_head c (split_dcolon s1)
  | String c EmptyString => [String c ""]
  | EmptyString => [""]
  end.

(** How many 16-bit groups a run of [:]-separated tokens holds; a dotted quad
    counts for two and is accepted only as the last token. *)
Fixpoint count_groups (v4 : bool) (tokens : list string) : option nat :=
  match tokens with
  | [] => Some O
  | [t] => if is_h16 t then Some 1%nat
           else if v4 && isIPv4 t then Some 2%nat else None
  | t :: rest => if is_h16 t then S <$> count_groups v4 rest else None
  end.

Definition count_part (v4 : bool) (part : string) : option nat :=
  if bool_decide (part = "") then Some O else count_groups v4 (split_on ":" part).

Definition is_zone_char (c : ascii) : bool :=
  is_digit c || is_lower c || is_upper c ||
  Ascii.eqb c "-" || Ascii.eqb c "." || Ascii.eqb c ":".

(** The address without its zone, when the zone is well formed or absent. *)
Fixpoint split_zone (s : string) : string * option string :=
  match s with
  | EmptyString => ("", None)
  | String c s' =>
      if Ascii.eqb c "%" then ("", Some s')
      else let '(a, z) := split_zone s' in (String c a, z)
  end.

Definition valid_groups (body : string) : bool :=
  match split_dcolon body with
  | [one] => bool_decide (one ≠ "" ∧ count_part true one = Some 8%nat)
  | [h; t] =>
      match count_part false h, count_part true t with
      | Some n, Some m => Nat.leb (n + m) 7
      | _, _ => false
      end
  | _ => false
  end.

Definition isIPv6 (s : string) : bool :=
  let '(body, zone) := split_zone s in
  valid_groups body &&
  match zone with
  | None => true
  | Some z => negb (bool_decide (z = "")) && sall is_zone_char z
  end.

(** ** expandIPv6 *)

Definition hex_digit (c : ascii) : N :=
  if is_digit c then code c - 48
  else if in_range 97 102 c then code c - 87
  else code c - 55.

(** [parseInt(group, 16)], on hexadecimal digits. *)
Definition parse_hex (s : string) : N :=
  (fix go s acc := match s with
   | EmptyString => acc
   | String c s' => go s' (acc * 16 + hex_digit c)
   end) s 0.

Definition pack (hi lo : N) : N := N.lor (N.shiftl hi 8) lo.

Definition parse_group (group : string) : list N :=
  if includes "." group then
    let ns := dec_value <$> split_on "." group in
    [pack (nth 0 ns 0) (nth 1 ns 0); pack (nth 2 ns 0) (nth 3 ns 0)]
  else [parse_hex group].

Definition parse_part (part : string) : list N :=
  if bool_decide (part = "") then [] else mjoin (parse_group <$> split_on ":" part).

(** [new Array(n)] throws on a negative length. *)
Definition expandIPv6 (address : string) : M (list N) :=
  match split_dcolon address with
  | head :: tail :: _ =>
      let front := parse_part head in
      let back := parse_part tail in
      if Nat.leb (length front + length back) 8
      then Ok (front ++ replicate (8 - length front - length back) 0 ++ back)
      else Throw (EError "RangeError: Invalid array length")
  | _ => Ok (parse_part address)
  end.

(** ** rateLimitIdentity *)

Definition hexN (n : N) : string := NilEmpty.string_of_uint (N.to_hex_uint n).
Definition decN (n : N) : string := DecimalString.NilEmpty.string_of_uint (N.to_uint n).

Definition is_mapped (groups : list N) : bool :=
  forallb (λ g, N.eqb g 0) (firstn 5 groups) && bool_decide (groups !! 5%nat = Some 65535).

Definition group_at (groups : list N) (i : nat) : N := default 0 (groups !! i).

Definition dotted (groups : list N) : string :=
  let g6 := group_at groups 6 in let g7 := group_at groups 7 in
  String.concat "." (decN <$> [N.shiftr g6 8; N.land g6 255; N.shiftr g7 8; N.land g7 255]).

Definition rateLimitIdentity (address : string) : M string :=
  if isIPv4 address then Ok address
  else if negb (isIPv6 address) then Ok address
  else
    groups ← expandIPv6 (split_zone address).1;
    if is_mapped groups then Ok (dotted groups)
    else Ok (String.concat ":" (hexN <$> firstn 4 groups) +:+ "::/64").

Example identity_v4 : rateLimitIdentity "203.0.113.7" = Ok "203.0.113.7".
Proof. reflexivity. Qed.
Example identity_mapped : rateLimitIdentity "::ffff:cb00:7107" = Ok "203.0.113.7".
Proof. vm_compute. reflexivity. Qed.
Example identity_mapped' : rateLimitIdentity "0:0:0:0:0:ffff:203.0.113.7" = Ok "203.0.113.7".
Proof. vm_compute. reflexivity. Qed.
Example identity_64 : rateLimitIdentity "2001:DB8:0:1::5%eth0" = Ok "2001:db8:0:1::/64".
Proof. vm_compute. reflexivity. Qed.
Example identity_unknown : rateLimitIdentity "unknown" = Ok "unknown".
Proof. vm_compute. reflexivity. Qed.

(** ** Bounds *)

Lemma code_bound c : code c < 256.
Proof. apply N_ascii_bounded. Qed.

Lemma in_range_spec lo hi c : in_range lo hi c = true ↔ lo ≤ code c ≤ hi.
Proof. unfold in_range. rewrite andb_true_iff, !N.leb_le. done. Qed.

Lemma hex_digit_bound c : is_hex c = true → hex_digit c < 16.
Proof.
  unfold is_hex, hex_digit, is_digit. rewrite !orb_true_iff, !in_range_spec. intros H.
  destruct (in_range 48 57 c) eqn:E1; [apply in_range_spec in E1; lia|].
  destruct (in_range 97 102 c) eqn:E2; [apply in_range_spec in E2; lia|].
  assert (¬ (48 ≤ code c ≤ 57)) by (rewrite <- in_range_spec; congruence).
  assert (¬ (97 ≤ code c ≤ 102)) by (rewrite <- in_range_spec; congruence).
  lia.
Qed.

Lemma parse_hex_bound s :
  sall is_hex s = true → parse_hex s < 16 ^ N.of_nat (String.length s).
Proof.
  unfold parse_hex.
  enough (∀ s acc, sall is_hex s = true →
    (fix go s acc := match s with
       | EmptyString => acc | String c s' => go s' (acc * 16 + hex_digit c) end) s acc
      < (acc + 1) * 16 ^ N.of_nat (String.length s)) as Hgo
    by (intros H; specialize (Hgo s 0 H); simpl in Hgo; lia).
  clear s. intros s. induction s as [|c s IH]; intros acc; simpl String.length.
  { change (16 ^ N.of_nat 0) with 1. simpl. lia. }
  cbn [sall]. intros [Hc Hs]%andb_true_iff. apply hex_digit_bound in Hc.
  rewrite Nat2N.inj_succ, N.pow_succ_r'. specialize (IH (acc * 16 + hex_digit c) Hs).
  assert (0 < 16 ^ N.of_nat (String.length s)) by (apply N.neq_0_lt_0, N.pow_nonzero; lia).
  nia.
Qed.

Lemma h16_bound t : is_h16 t = true → parse_hex t < 65536.
Proof.
  unfold is_h16. rewrite !andb_true_iff. intros [[_ Hl] Hs].
  apply parse_hex_bound in Hs. apply Nat.leb_le in Hl.
  eapply N.lt_le_trans; [exact Hs|]. change 65536 with (16 ^ 4).
  apply N.pow_le_mono_r; lia.
Qed.

Lemma pack_add hi lo : lo < 256 → pack hi lo = hi * 256 + lo.
Proof.
  intros Hlo. unfold pack. rewrite <- N.lxor_lor, <- N.add_nocarry_lxor.
  1: by rewrite N.shiftl_mul_pow2.
  all: apply N.bits_inj_0; intros n; rewrite N.land_spec;
    destruct (N.lt_ge_cases n 8) as [Hn|Hn];
    [by rewrite N.shiftl_spec_low|
     rewrite (N.testbit_eqb lo), N.div_small;
     [by rewrite andb_false_r|
      eapply N.lt_le_trans; [exact Hlo|]; change 256 with (2 ^ 8); apply N.pow_le_mono_r; lia]].
Qed.

Lemma pack_bound hi lo : hi < 256 → lo < 256 → pack hi lo < 65536.
Proof. intros. rewrite pack_add by done. lia. Qed.

Lemma pack_hi hi lo : lo < 256 → N.shiftr (pack hi lo) 8 = hi.
Proof.
  intros. rewrite pack_add by done. rewrite N.shiftr_div_pow2. change (2 ^ 8) with 256.
  rewrite N.div_add_l, N.div_small by lia. lia.
Qed.

Lemma pack_lo hi lo : lo < 256 → N.land (pack hi lo) 255 = lo.
Proof.
  intros. rewrite pack_add by done. change 255 with (N.ones 8). rewrite N.land_ones.
  change (2 ^ 8) with 256. rewrite N.add_comm, N.Div0.mod_add, N.mod_small; lia.
Qed.

Lemma octet_bound s : is_octet s = true → dec_value s < 256.
Proof.
  unfold is_octet. destruct s as [|c s]; [done|]. rewrite !andb_true_iff, N.leb_le. lia.
Qed.

(** ** Groups of a valid address *)

Lemma hex_no_dot t : sall is_hex t = true → includes "." t = false.
Proof.
  intros H. unfold includes. rewrite (sall_impl is_hex); [done| |done].
  intros c Hc. destruct (Ascii.eqb_spec c "."); [subst; done|done].
Qed.

Lemma parse_group_h16 t :
  is_h16 t = true → parse_group t = [parse_hex t].
Proof.
  unfold is_h16, parse_group. rewrite !andb_true_iff. intros [_ Hs]. by rewrite hex_no_dot.
Qed.

Lemma isIPv4_octets t :
  isIPv4 t = true → ∃ a b c d, split_on "." t = [a; b; c; d] ∧
    is_octet a = true ∧ is_octet b = true ∧ is_octet c = true ∧ is_octet d = true.
Proof.
  unfold isIPv4. destruct (split_on "." t) as [|a [|b [|c [|d [|? ?]]]]]; try done.
  rewrite !andb_true_iff. intros [[[? ?] ?] ?]. by exists a, b, c, d.
Qed.

Lemma isIPv4_includes t : isIPv4 t = true → includes "." t = true.
Proof.
  intros (a & b & c & d & Hs & _)%isIPv4_octets. unfold includes.
  destruct (sall _ t) eqn:E; [|done]. by rewrite split_on_free in Hs.
Qed.

Definition groups_ok (n : nat) (gs : list N) : Prop :=
  length gs = n ∧ Forall (λ g, g < 65536) gs.

Lemma groups_ok_app n m gs hs :
  groups_ok n gs → groups_ok m hs → groups_ok (n + m) (gs ++ hs).
Proof. intros [<- ?] [<- ?]. split; [apply length_app|by apply Forall_app]. Qed.

Lemma parse_group_v4 t : isIPv4 t = true → groups_ok 2 (parse_group t).
Proof.
  intros Ht. unfold parse_group. rewrite isIPv4_includes by done.
  apply isIPv4_octets in Ht as (a & b & c & d & -> & Ha & Hb & Hc & Hd). simpl.
  split; [done|]. repeat constructor; apply pack_bound; by apply octet_bound.
Qed.

Lemma h16_ok t : is_h16 t = true → groups_ok 1 (parse_group t).
Proof.
  intros Ht. rewrite parse_group_h16 by done. split; [done|].
  constructor; [by apply h16_bound|constructor].
Qed.

Lemma count_groups_ok v4 tokens n :
  count_groups v4 tokens = Some n → groups_ok n (mjoin (parse_group <$> tokens)).
Proof.
  revert n. induction tokens as [|t rest IH]; intros n; [by intros [= <-]|].
  destruct rest as [|t' rest].
  - simpl. rewrite app_nil_r. destruct (is_h16 t) eqn:Eh; [intros [= <-]; by apply h16_ok|].
    destruct (v4 && isIPv4 t) eqn:Ev; [|done]. intros [= <-].
    apply andb_true_iff in Ev as [_ Ev]. by apply parse_group_v4.
  - change (count_groups v4 (t :: t' :: rest))
      with (if is_h16 t then S <$> count_groups v4 (t' :: rest) else None).
    destruct (is_h16 t) eqn:Eh; [|done].
    destruct (count_groups v4 (t' :: rest)) as [m|]; [|done]. intros [= <-].
    rewrite fmap_cons. simpl mjoin.
    apply (groups_ok_app 1 m); [by apply h16_ok|by apply IH].
Qed.

Lemma count_part_ok v4 part n : count_part v4 part = Some n → groups_ok n (parse_part part).
Proof.
  unfold count_part, parse_part. case_bool_decide; [by intros [= <-]|].
  apply count_groups_ok.
Qed.

Lemma split_dcolon_ne s : split_dcolon s ≠ [].
Proof.
  destruct s as [|c [|d s]]; [done..|]. cbn [split_dcolon].
  unfold cons_head. repeat case_match; done.
Qed.

Lemma split_dcolon_one s one : split_dcolon s = [one] → one = s.
Proof.
  revert one. induction s as [|c s IH]; intros one; [by intros [= <-]|].
  destruct s as [|d s]; [by intros [= <-]|].
  change (split_dcolon (String c (String d s)))
    with (if Ascii.eqb c ":" && Ascii.eqb d ":" then "" :: split_dcolon s
          else cons_head c (split_dcolon (String d s))).
  destruct (_ && _).
  - intros [= _ Hnil]. by apply split_dcolon_ne in Hnil.
  - destruct (split_dcolon (String d s)) as [|w [|? ?]] eqn:E; simpl.
    + by apply split_dcolon_ne in E.
    + intros [= <-]. f_equal. by apply IH.
    + done.
Qed.

Lemma valid_groups_expand body :
  valid_groups body = true → ∃ gs, expandIPv6 body = Ok gs ∧ groups_ok 8 gs.
Proof.
  unfold valid_groups, expandIPv6.
  destruct (split_dcolon body) as [|h [|t [|? ?]]] eqn:E; try done.
  - apply split_dcolon_one in E as ->. rewrite bool_decide_eq_true. intros [_ Hc].
    eexists. split; [done|]. by apply (count_part_ok true).
  - destruct (count_part false h) as [n|] eqn:Eh; [|done].
    destruct (count_part true t) as [m|] eqn:Et; [|done]. intros Hle%Nat.leb_le.
    apply count_part_ok in Eh as [Hlh Hfh], Et as [Hlt Hft].
    rewrite Hlh, Hlt. rewrite (proj2 (Nat.leb_le (n + m) 8)) by lia.
    eexists. split; [done|]. split.
    + rewrite !length_app, length_replicate, Hlh, Hlt. lia.
    + apply Forall_app; split; [done|]. apply Forall_app; split; [|done].
      apply Forall_replicate. lia.
Qed.

(** Every address node accepts as IPv6, in any spelling (compressed, with
    leading zeros, with an embedded dotted quad, with a zone), expands to exactly
    eight groups of sixteen bits: the fill between the two halves is never
    negative, so the expansion never throws. *)
Theorem expandIPv6_groups address :
  isIPv6 address = true →
  ∃ groups, expandIPv6 (split_zone address).1 = Ok groups ∧
    length groups = 8%nat ∧ Forall (λ g, g < 65536) groups.
Proof.
  unfold isIPv6. destruct (split_zone address) as [body zone].
  rewrite andb_true_iff. intros [Hv _]. by apply valid_groups_expand.
Qed.

Lemma expandIPv6_groups_witness :
  ∃ groups, expandIPv6 "64:ff9b::192.0.2.33" = Ok groups ∧
    length groups = 8%nat ∧ Forall (λ g, g < 65536) groups.
Proof. apply (expandIPv6_groups "64:ff9b::192.0.2.33%1"). vm_compute. reflexivity. Defined.

(** ** Identities *)

Lemma hexN_hex n : sall is_hex (hexN n) = true.
Proof. unfold hexN. induction (N.to_hex_uint n); simpl; auto. Qed.

Lemma hexN_inj n m : hexN n = hexN m → n = m.
Proof.
  unfold hexN. intros H. apply HexadecimalN.Unsigned.to_uint_inj.
  apply (f_equal NilEmpty.uint_of_string) in H. rewrite !NilEmpty.usu in H. congruence.
Qed.

Lemma hex_free t : sall is_hex t = true → free_of ":" t = true.
Proof.
  apply sall_impl. intros c Hc. destruct (Ascii.eqb_spec c ":"); [by subst|done].
Qed.

Lemma decN_octet n : n < 256 → is_octet (decN n) = true ∧ dec_value (decN n) = n.
Proof.
  intros Hn.
  assert (Hall : forallb (λ i, let n := N.of_nat i in
      is_octet (decN n) && N.eqb (dec_value (decN n)) n) (seq 0 256) = true)
    by (vm_compute; reflexivity).
  rewrite forallb_forall in Hall. specialize (Hall (N.to_nat n)).
  rewrite N2Nat.id in Hall.
  apply andb_true_iff in Hall as [? ?%N.eqb_eq]; [done|]. apply in_seq. lia.
Qed.

Lemma is_octet_free s : is_octet s = true → free_of "." s = true.
Proof.
  unfold is_octet. destruct s as [|c s]; [done|]. rewrite !andb_true_iff.
  intros [[[Hd _] _] _]. apply (sall_impl is_digit); [|done].
  intros d Hc. destruct (Ascii.eqb_spec d "."); [by subst|done].
Qed.

(** The four bytes of the last two groups. *)
Definition low_bytes (gs : list N) : list N :=
  let g6 := group_at gs 6 in let g7 := group_at gs 7 in
  [N.shiftr g6 8; N.land g6 255; N.shiftr g7 8; N.land g7 255].

Lemma group_at_bound gs i : Forall (λ g, g < 65536) gs → group_at gs i < 65536.
Proof.
  intros Hf. unfold group_at. destruct (gs !! i) as [g|] eqn:E; simpl; [|lia].
  by apply (Forall_lookup_1 _ _ _ _ Hf E).
Qed.

Lemma low_bytes_bound gs : Forall (λ g, g < 65536) gs → Forall (λ b, b < 256) (low_bytes gs).
Proof.
  intros Hf. pose proof (group_at_bound gs 6 Hf). pose proof (group_at_bound gs 7 Hf).
  assert (Hhi : ∀ g, g < 65536 → N.shiftr g 8 < 256).
  { intros g Hg. rewrite N.shiftr_div_pow2. change (2 ^ 8) with 256.
    apply N.Div0.div_lt_upper_bound. lia. }
  assert (Hlo : ∀ g, N.land g 255 < 256).
  { intros g. change 255 with (N.ones 8). rewrite N.land_ones. apply N.mod_lt. done. }
  unfold low_bytes. repeat constructor; auto.
Qed.

Lemma dotted_split gs : Forall (λ g, g < 65536) gs →
  split_on "." (dotted gs) = decN <$> low_bytes gs ∧
  Forall (λ s, is_octet s = true) (decN <$> low_bytes gs).
Proof.
  intros Hf%low_bytes_bound.
  assert (Ho : Forall (λ s, is_octet s = true) (decN <$> low_bytes gs)).
  { apply Forall_fmap. eapply Forall_impl; [exact Hf|]. intros n Hn. by apply decN_octet. }
  split; [|done]. change (dotted gs) with (String.concat "." (decN <$> low_bytes gs)).
  apply split_on_concat; [done|]. eapply Forall_impl; [exact Ho|]. apply is_octet_free.
Qed.

Lemma dotted_isIPv4 gs : Forall (λ g, g < 65536) gs → isIPv4 (dotted gs) = true.
Proof.
  intros Hf. destruct (dotted_split gs Hf) as [Hs Ho]. unfold isIPv4. rewrite Hs.
  unfold low_bytes in *. simpl in *.
  rewrite !Forall_cons in Ho. by destruct Ho as (-> & -> & -> & -> & _).
Qed.

(** An IPv6 address of the given groups; [isIPv4] is asked first. *)
Definition ipv6_with (address : string) (gs : list N) : Prop :=
  isIPv4 address = false ∧ isIPv6 address = true ∧ expandIPv6 (split_zone address).1 = Ok gs.

Lemma ipv6_groups address gs : ipv6_with address gs → groups_ok 8 gs.
Proof.
  unfold ipv6_with, isIPv6. destruct (split_zone address) as [body zone].
  intros (_ & Hv & He). apply andb_true_iff in Hv as [Hv _].
  apply valid_groups_expand in Hv as (gs' & He' & Hok). simpl in He. congruence.
Qed.

Lemma identity_ipv6 address gs :
  ipv6_with address gs →
  rateLimitIdentity address =
    Ok (if is_mapped gs then dotted gs
        else String.concat ":" (hexN <$> firstn 4 gs) +:+ "::/64").
Proof.
  intros (H4 & H6 & He). unfold rateLimitIdentity. rewrite H4, H6, He. simpl.
  by destruct (is_mapped gs).
Qed.

(** C33. Two IPv6 clients share a rate-limit bucket exactly when they are in the
    same /64: no host can leave its bucket by rotating the low 64 bits, and no
    two networks are merged. *)
Theorem same_bucket_iff_same_64 a b gs hs :
  ipv6_with a gs → ipv6_with b hs → is_mapped gs = false → is_mapped hs = false →
  (rateLimitIdentity a = rateLimitIdentity b ↔ firstn 4 gs = firstn 4 hs).
Proof.
  intros Ha Hb Hma Hmb.
  pose proof (ipv6_groups a gs Ha) as [Hla _]. pose proof (ipv6_groups b hs Hb) as [Hlb _].
  rewrite (identity_ipv6 a gs), (identity_ipv6 b hs), Hma, Hmb by done.
  split; [|by intros ->]. intros H. injection H as H. apply sapp_inj_r in H.
  assert (Hsplit : ∀ l : list N, length l = 8%nat →
    split_on ":" (String.concat ":" (hexN <$> firstn 4 l)) = hexN <$> firstn 4 l).
  { intros l Hl. apply split_on_concat.
    - by destruct l.
    - apply Forall_fmap, Forall_true. intros n. apply hex_free, hexN_hex. }
  apply (f_equal (split_on ":")) in H. rewrite !Hsplit in H by done.
  apply (list_fmap_eq_inj hexN) in H; [done|]. intros n m. apply hexN_inj.
Qed.

Lemma same_bucket_iff_same_64_witness :
  rateLimitIdentity "2001:db8:1:2::1" = rateLimitIdentity "2001:DB8:01:2:aaaa:bbbb:cccc:dddd".
Proof.
  apply (same_bucket_iff_same_64 "2001:db8:1:2::1" "2001:DB8:01:2:aaaa:bbbb:cccc:dddd"
    [8193; 3512; 1; 2; 0; 0; 0; 1] [8193; 3512; 1; 2; 43690; 48059; 52428; 56797]).
  - vm_compute. done.
  - vm_compute. done.
  - reflexivity.
  - reflexivity.
  - reflexivity.
Defined.

(** An IPv4-mapped address is charged to the IPv4 client it stands for: in
    whatever way it was spelled, its identity is the dotted quad of its last
    four bytes, which is a plain IPv4 address that keeps the same identity. *)
Theorem mapped_folds_to_ipv4 a gs :
  ipv6_with a gs → is_mapped gs = true →
  ∃ q, rateLimitIdentity a = Ok q ∧ rateLimitIdentity q = Ok q ∧ isIPv4 q = true ∧
       (dec_value <$> split_on "." q) = low_bytes gs.
Proof.
  intros Ha Hm. destruct (ipv6_groups a gs Ha) as [_ Hf].
  exists (dotted gs). rewrite (identity_ipv6 a gs), Hm by done.
  pose proof (dotted_isIPv4 gs Hf) as H4. split_and!; [done| |done|].
  - unfold rateLimitIdentity. by rewrite H4.
  - rewrite (proj1 (dotted_split gs Hf)), <- list_fmap_compose.
    rewrite <- (list_fmap_id (low_bytes gs)) at 2.
    apply list_fmap_ext. intros i n Hi. simpl.
    apply decN_octet. apply (Forall_lookup_1 _ _ _ _ (low_bytes_bound gs Hf) Hi).
Qed.

Lemma mapped_folds_to_ipv4_witness :
  ∃ q, rateLimitIdentity "0:0:0:0:0:ffff:203.0.113.7" = Ok q ∧
       (dec_value <$> split_on "." q) = [203; 0; 113; 7].
Proof.
  destruct (mapped_folds_to_ipv4 "0:0:0:0:0:ffff:203.0.113.7" [0; 0; 0; 0; 0; 65535; 51968; 28935])
    as (q & Hq & _ & _ & Hb).
  - vm_compute. done.
  - reflexivity.
  - exists q. split; [exact Hq|exact Hb].
Defined.

(** Every address, valid or not, has an identity. *)
Lemma rateLimitIdentity_total a : ∃ q, rateLimitIdentity a = Ok q.
Proof.
  destruct (isIPv4 a) eqn:H4; [exists a; unfold rateLimitIdentity; by rewrite H4|].
  destruct (isIPv6 a) eqn:H6; [|exists a; unfold rateLimitIdentity; by rewrite H4, H6].
  pose proof H6 as Hv. unfold isIPv6 in Hv. destruct (split_zone a) as [body zone] eqn:Ez.
  apply andb_true_iff in Hv as [Hv _].
  apply valid_groups_expand in Hv as (gs & He & _).
  eexists. apply (identity_ipv6 a gs). split_and!; [done|done|]. by rewrite Ez.
Qed.
