(* ===== verification/RateLimit.v ===== *)
(** The sliding-window limiter: services/auth/src/ratelimit/rate-limit.store.ts.

    Redis is the interface [Redis]: what a key holds at a server time, and how
    the commands of the two Lua scripts change it. The scripts and the store's
    methods are translated on top of it, and the theorems are proved from the
    interface; [Redis_map] is an implementation of it that satisfies the laws. *)
From S2P Require Import Prelude Domain.
#[local] Open Scope Z_scope.

(** ** Redis sorted sets *)

(** Members with their scores in increasing order, and when the key expires. *)
Abbreviation bucket := (list (string * Z) * option Z)%type (only parsing).

(** ZADD on the entries: a member already present changes its score, ties are
    ordered by member. *)
Definition zentry_le (p q : string * Z) : Prop :=
  p.2 < q.2 ∨ (p.2 = q.2 ∧ String.le p.1 q.1).
#[export] Instance zentry_le_dec : RelDecision zentry_le.
Proof. intros p q. unfold zentry_le. apply _. Defined.

Definition zinsert (m : string) (score : Z) (es : list (string * Z)) : list (string * Z) :=
  merge_sort zentry_le ((m, score) :: filter (λ e, e.1 ≠ m) es).

Class Redis := {
  redis : Type;
  load : Z → string → redis → option bucket;
  zremrangebyscore : Z → string → Z → Z → redis → redis;
  zadd : Z → string → Z → string → redis → redis;
  pexpire : Z → string → Z → redis → redis;
  del : string → redis → redis;
  (** A key is gone after its expiry time, and until then a key stays as it is. *)
  load_later now now' k s : now ≤ now' →
    load now' k s =
      match load now k s with
      | Some (es, Some t) => if t <? now' then None else Some (es, Some t)
      | b => b
      end;
  (** Entries are listed by increasing score. *)
  load_sorted now k s es t : load now k s = Some (es, t) → Sorted (λ p q, p.2 ≤ q.2) es;
  load_zrem now k lo hi s :
    load now k (zremrangebyscore now k lo hi s) =
      match load now k s with
      | Some (es, t) =>
          let es' := filter (λ e, ¬ (lo ≤ e.2 ≤ hi)) es in
          if bool_decide (es' = []) then None else Some (es', t)
      | None => None
      end;
  load_zadd now k score m s :
    load now k (zadd now k score m s) =
      match load now k s with
      | Some (es, t) => Some (zinsert m score es, t)
      | None => Some ([(m, score)], None)
      end;
  load_pexpire now k ms s : 0 < ms →
    load now k (pexpire now k ms s) =
      match load now k s with Some (es, _) => Some (es, Some (now + ms)) | None => None end;
  load_del now k s : load now k (del k s) = None;
  (** Commands on one key leave the others alone. *)
  load_zrem_ne now k k' lo hi s : k ≠ k' → load now k' (zremrangebyscore now k lo hi s) = load now k' s;
  load_zadd_ne now k k' score m s : k ≠ k' → load now k' (zadd now k score m s) = load now k' s;
  load_pexpire_ne now k k' ms s : k ≠ k' → load now k' (pexpire now k ms s) = load now k' s;
  load_del_ne now k k' s : k ≠ k' → load now k' (del k s) = load now k' s;
}.

(** ** The scripts and the store *)

Record RateLimitResult := {
  allowed : bool;
  count : Z;
  limit : Z;
  retryAfterMs : Z;
  degraded : bool;
}.

Section store.
Context `{Redis}.

(** ZCARD, and ZRANGE key 0 0 WITHSCORES. *)
Definition entries (now : Z) (k : string) (s : redis) : list (string * Z) :=
  match load now k s with Some (es, _) => es | None => [] end.
Definition zcard (now : Z) (k : string) (s : redis) : Z := Z.of_nat (length (entries now k s)).
Definition oldest (now : Z) (k : string) (s : redis) : option (string * Z) :=
  head (entries now k s).

(** [window - (now - tonumber(oldest[2]))], floored at zero. *)
Definition retry_after (window now score : Z) : Z :=
  let retry := window - (now - score) in if retry <? 0 then 0 else retry.

(** SLIDING_WINDOW; [None] is a script error ([tonumber(nil)]). *)
Definition slidingWindow (now : Z) (key : string) (window limit : Z) (member : string)
    (s : redis) : redis * option (Z * Z * Z) :=
  let s1 := zremrangebyscore now key 0 (now - window) s in
  let count := zcard now key s1 in
  if limit <=? count then
    match oldest now key s1 with
    | Some (_, score) => (s1, Some (0, count, retry_after window now score))
    | None => (s1, None)
    end
  else
    let s2 := zadd now key now member s1 in
    let s3 := pexpire now key window s2 in
    (s3, Some (1, count + 1, 0)).

(** PEEK_WINDOW *)
Definition peekWindow (now : Z) (key : string) (window : Z) (s : redis)
    : redis * option (Z * Z) :=
  let s1 := zremrangebyscore now key 0 (now - window) s in
  let count := zcard now key s1 in
  if count =? 0 then (s1, Some (0, 0))
  else
    match oldest now key s1 with
    | Some (_, score) => (s1, Some (count, retry_after window now score))
    | None => (s1, None)
    end.

(** The server answers at a time, or cannot be reached. *)
Abbreviation server := (option Z) (only parsing).

Definition peek (at_ : server) (key : string) (lim windowMs : Z) (s : redis)
    : redis * RateLimitResult :=
  let failed := {| allowed := true; count := 0; limit := lim; retryAfterMs := 0;
                   degraded := true |} in
  match at_ with
  | None => (s, failed)
  | Some now =>
      match peekWindow now key windowMs s with
      | (s', Some (c, r)) =>
          (s', {| allowed := c <? lim; count := c; limit := lim; retryAfterMs := r;
                  degraded := false |})
      | (s', None) => (s', failed)
      end
  end.

Definition consume (failOpen : bool) (at_ : server) (member : string) (key : string)
    (lim windowMs : Z) (s : redis) : redis * RateLimitResult :=
  let failed := {| allowed := failOpen; count := 0; limit := lim;
                   retryAfterMs := if failOpen then 0 else 1000; degraded := true |} in
  match at_ with
  | None => (s, failed)
  | Some now =>
      match slidingWindow now key windowMs lim member s with
      | (s', Some (a, c, r)) =>
          (s', {| allowed := a =? 1; count := c; limit := lim; retryAfterMs := r;
                  degraded := false |})
      | (s', None) => (s', failed)
      end
  end.

Definition reset (at_ : server) (key : string) (s : redis) : redis :=
  match at_ with None => s | Some _ => del key s end.
End store.

(** ** Member ids *)

(** [newMemberIdFactory]: the random instance id, and the counter's next value. *)
Record MemberIds := { instanceId : string; counter : nat }.

Definition nextMemberId (f : MemberIds) : MemberIds * string :=
  let c := S (counter f) in
  ({| instanceId := instanceId f; counter := c |}, instanceId f +:+ ":" +:+ dec c).

(** The ids a factory hands out in [n] calls. *)
Fixpoint member_ids (f : MemberIds) (n : nat) : list string :=
  match n with
  | O => []
  | S n => let '(f', m) := nextMemberId f in m :: member_ids f' n
  end.

(** ** The window as a log

    The reference: the events accepted so far, as (member, time). *)
Definition window_log (w now : Z) (log : list (string * Z)) : list (string * Z) :=
  filter (λ e, now - w < e.2) log.

#[export] Instance window_log_Permutation w now :
  Proper ((≡ₚ) ==> (≡ₚ)) (window_log w now).
Proof. intros l l' Hl. unfold window_log. by rewrite Hl. Qed.

Section window.
Context `{Redis} (k : string) (w : Z).
Hypothesis w_pos : 0 < w.

(** What a bucket holds is the part of the log still inside the window, plus
    events that have aged out and were not swept yet; the key outlives every
    event in it. *)
Record window_inv (s : redis) (log : list (string * Z)) (now : Z) : Prop := {
  inv_live : window_log w now (entries now k s) ≡ₚ window_log w now log;
  inv_log : ∀ e, e ∈ entries now k s → e ∈ log;
  inv_past : ∀ e, e ∈ log → 0 ≤ e.2 ≤ now;
  inv_ttl : ∀ es t, load now k s = Some (es, t) →
    ∃ t', t = Some t' ∧ ∀ e, e ∈ es → e.2 + w ≤ t';
}.

Lemma window_log_later now now' log : now ≤ now' →
  window_log w now' log = window_log w now' (window_log w now log).
Proof.
  intros Hle. unfold window_log. rewrite list_filter_filter.
  apply list_filter_iff. intros e. lia.
Qed.

Lemma window_log_nil now log : (∀ e, e ∈ log → e.2 + w ≤ now) → window_log w now log = [].
Proof.
  intros Hall. unfold window_log. induction log as [|e log IH]; [done|].
  rewrite filter_cons_False; [apply IH; intros e' He'; apply Hall; set_solver|]. specialize (Hall e ltac:(set_solver)). lia.
Qed.

Lemma entries_later now now' s : now ≤ now' →
  entries now' k s = entries now k s ∨
  (entries now' k s = [] ∧ ∃ es t, load now k s = Some (es, Some t) ∧ t < now').
Proof.
  intros Hle. unfold entries. rewrite (load_later now now' k s Hle).
  destruct (load now k s) as [[es [t|]]|]; try by left.
  destruct (Z.ltb_spec t now'); [right; split; [done|]; by exists es, t|by left].
Qed.

Lemma inv_later s log now now' : now ≤ now' → window_inv s log now → window_inv s log now'.
Proof.
  intros Hle [Hlive Hlog Hpast Httl]. split.
  - rewrite (window_log_later now now' log Hle), <- Hlive.
    rewrite <- (window_log_later now now' _ Hle).
    destruct (entries_later now now' s Hle) as [->|(-> & es & t & Hl & Ht)]; [done|].
    unfold entries. rewrite Hl. destruct (Httl _ _ Hl) as (t' & [= <-] & Hes).
    rewrite (window_log_nil now' es); [done|]. intros e He. apply Hes in He. lia.
  - destruct (entries_later now now' s Hle) as [->|(-> & _)]; [done|set_solver].
  - intros e He. apply Hpast in He. lia.
  - intros es t. rewrite (load_later now now' k s Hle).
    destruct (load now k s) as [[es' [t'|]]|] eqn:El; [|by intros [= <- <-]; eauto|done].
    destruct (t' <? now'); [done|]. intros [= <- <-]. eauto.
Qed.

Lemma inv_empty s now : load now k s = None → window_inv s [] now.
Proof.
  intros Hl. assert (He : entries now k s = []) by (unfold entries; by rewrite Hl).
  split; rewrite ?He; [done|set_solver|set_solver|congruence].
Qed.

(** The sweep leaves exactly the window. *)
Lemma sweep_entries s log now : window_inv s log now →
  entries now k (zremrangebyscore now k 0 (now - w) s) = window_log w now (entries now k s).
Proof.
  intros [_ Hlog Hpast _]. unfold entries in *. rewrite load_zrem.
  destruct (load now k s) as [[es t]|]; [|done]. simpl.
  assert (Hf : filter (λ e : string * Z, ¬ (0 ≤ e.2 ≤ now - w)) es = window_log w now es).
  { unfold window_log. clear -Hlog Hpast. induction es as [|e es IH]; [done|].
    pose proof (Hpast e (Hlog e ltac:(set_solver))).
    assert (IH' := IH ltac:(set_solver)).
    destruct (decide (now - w < e.2)).
    - rewrite !filter_cons_True by lia. by f_equal.
    - rewrite !filter_cons_False by lia. done. }
  rewrite Hf. by case_bool_decide as Hn; [rewrite Hn|].
Qed.

Lemma sweep_inv s log now : window_inv s log now →
  window_inv (zremrangebyscore now k 0 (now - w) s) log now.
Proof.
  intros Hinv. pose proof (sweep_entries s log now Hinv) as He.
  destruct Hinv as [Hlive Hlog Hpast Httl]. split.
  - rewrite He, <- (window_log_later now now) by lia. done.
  - intros e. rewrite He. unfold window_log. rewrite list_elem_of_filter. naive_solver.
  - done.
  - intros es t. rewrite load_zrem. destruct (load now k s) as [[es' t']|]; [|done].
    simpl. case_bool_decide; [done|]. intros [= <- <-].
    destruct (Httl es' t' eq_refl) as (t0 & -> & Hes). eexists. split; [done|].
    intros e [_ Hin]%list_elem_of_filter. by apply Hes.
Qed.

Lemma sweep_perm s log now : window_inv s log now →
  entries now k (zremrangebyscore now k 0 (now - w) s) ≡ₚ window_log w now log.
Proof. intros Hinv. rewrite (sweep_entries s log now Hinv). by destruct Hinv. Qed.

Lemma sweep_card s log now : window_inv s log now →
  zcard now k (zremrangebyscore now k 0 (now - w) s) = Z.of_nat (length (window_log w now log)).
Proof. intros Hinv. unfold zcard. by rewrite (sweep_perm s log now Hinv). Qed.

(** The first entry is the oldest of the window. *)
Lemma oldest_spec s log now :
  window_inv s log now → window_log w now log ≠ [] →
  ∃ m score, oldest now k (zremrangebyscore now k 0 (now - w) s) = Some (m, score) ∧
    (m, score) ∈ window_log w now log ∧ ∀ e, e ∈ window_log w now log → score ≤ e.2.
Proof.
  intros Hinv Hne. pose proof (sweep_perm s log now Hinv) as Hp.
  unfold oldest. destruct (entries now k _) as [|[m score] es] eqn:E.
  { apply Permutation_nil_l in Hp. by rewrite <- Hp in Hne. }
  exists m, score. split; [done|]. rewrite <- Hp. split; [set_solver|].
  intros e He. rewrite <- Hp in He. apply elem_of_cons in He as [->|He]; [done|].
  assert (Hs : StronglySorted (λ p q : string * Z, p.2 ≤ q.2) ((m, score) :: es)).
  { unfold entries in E. destruct (load now k _) as [[es' t]|] eqn:El; [|done]. subst es'.
    apply Sorted_StronglySorted; [intros ? ? ?; lia|]. by apply load_sorted in El. }
  apply StronglySorted_inv in Hs as [_ Hs]. rewrite Forall_forall in Hs. by apply (Hs e).
Qed.

Lemma zinsert_perm m score es : m ∉ es.*1 → zinsert m score es ≡ₚ (m, score) :: es.
Proof.
  intros Hm. unfold zinsert. rewrite merge_sort_Permutation. f_equiv.
  rewrite lfilter_true; [done|]. intros e He Hem. apply Hm. subst m.
  by apply list_elem_of_fmap_2.
Qed.

(** Recording an event whose member is new. *)
Lemma add_inv s log now m : window_inv s log now → 0 ≤ now → m ∉ log.*1 →
  window_inv (pexpire now k w (zadd now k now m s)) (log ++ [(m, now)]) now.
Proof.
  intros [Hlive Hlog Hpast Httl] Hnow Hm.
  assert (Hmem : m ∉ (entries now k s).*1).
  { intros (e & -> & He)%list_elem_of_fmap. apply Hm. by apply list_elem_of_fmap_2, Hlog. }
  assert (Hload : load now k (pexpire now k w (zadd now k now m s)) =
    Some (match load now k s with Some (es, _) => zinsert m now es | None => [(m, now)] end,
          Some (now + w))).
  { rewrite load_pexpire, load_zadd by done. by destruct (load now k s) as [[? ?]|]. }
  assert (Hes : entries now k (pexpire now k w (zadd now k now m s)) ≡ₚ
                (m, now) :: entries now k s).
  { unfold entries in *. rewrite Hload. destruct (load now k s) as [[es t]|]; [|done].
    by apply zinsert_perm. }
  split.
  - unfold window_log in *. rewrite Hes, filter_app, filter_cons_True by (simpl; lia).
    rewrite Hlive, filter_cons_True by (simpl; lia). rewrite filter_nil. solve_Permutation.
  - intros e. rewrite Hes. set_solver.
  - intros e [He|He]%elem_of_app; [by apply Hpast|].
    apply list_elem_of_singleton in He as ->. simpl. lia.
  - intros es t. rewrite Hload. intros [= <- <-]. eexists. split; [done|].
    intros e He. unfold entries in *. rewrite Hload in Hes. rewrite Hes in He.
    apply elem_of_cons in He as [->|He]; [simpl; lia|].
    apply Hlog, Hpast in He. lia.
Qed.
End window.

(** ** The scripts against the log *)

Section scripts.
Context `{Redis} (k : string) (w lim : Z).
Hypothesis w_pos : 0 < w.
Hypothesis lim_pos : 0 < lim.

(** What one SLIDING_WINDOW call does, in terms of the log. *)
Lemma slidingWindow_spec s log now m :
  window_inv k w s log now → 0 ≤ now → m ∉ log.*1 →
  let n := Z.of_nat (length (window_log w now log)) in
  (lim ≤ n ∧ ∃ s' score, slidingWindow now k w lim m s = (s', Some (0, n, w - (now - score))) ∧
     window_inv k w s' log now ∧ now - w < score ≤ now ∧
     (∃ e, e ∈ window_log w now log ∧ e.2 = score) ∧
     (∀ e, e ∈ window_log w now log → score ≤ e.2)) ∨
  (n < lim ∧ ∃ s', slidingWindow now k w lim m s = (s', Some (1, n + 1, 0)) ∧
     window_inv k w s' (log ++ [(m, now)]) now).
Proof.
  intros Hinv Hnow Hm n. unfold slidingWindow.
  rewrite (sweep_card k w s log now Hinv). fold n.
  pose proof (sweep_inv k w s log now Hinv) as Hinv'.
  destruct (Z.leb_spec lim n) as [Hge|Hlt]; [left|right]; split; [done| |done|].
  - destruct (oldest_spec k w w_pos s log now Hinv) as (mo & score & -> & Hin & Hmin).
    { intros Hnil. subst n. rewrite Hnil in Hge. simpl in Hge. lia. }
    eexists _, score. unfold retry_after.
    assert (Hs : now - w < score ≤ now).
    { unfold window_log in Hin. apply list_elem_of_filter in Hin as [Hgt Hin].
      apply (inv_past _ _ _ _ _ Hinv) in Hin. simpl in *. lia. }
    rewrite (proj2 (Z.ltb_ge (w - (now - score)) 0)) by lia.
    split_and!; try done; try lia. by exists (mo, score).
  - eexists. split; [done|]. by apply add_inv.
Qed.

Lemma peekWindow_spec s log now :
  window_inv k w s log now →
  let n := Z.of_nat (length (window_log w now log)) in
  ∃ s' r, peekWindow now k w s = (s', Some (n, r)) ∧ window_inv k w s' log now ∧
          0 ≤ r ≤ w.
Proof.
  intros Hinv n. unfold peekWindow. rewrite (sweep_card k w s log now Hinv). fold n.
  pose proof (sweep_inv k w s log now Hinv) as Hinv'.
  destruct (Z.eqb_spec n 0) as [->|Hne].
  - do 2 eexists. split_and!; [done|done|lia|lia].
  - destruct (oldest_spec k w w_pos s log now Hinv) as (mo & score & -> & Hin & Hmin).
    { intros Hnil. subst n. by rewrite Hnil in Hne. }
    apply list_elem_of_filter in Hin as [Hgt Hin].
    apply (inv_past _ _ _ _ _ Hinv) in Hin. simpl in *.
    do 2 eexists. split; [done|]. split; [done|]. unfold retry_after.
    destruct (Z.ltb_spec (w - (now - score)) 0); lia.
Qed.

(** Commands on other keys. *)
Lemma inv_frame s s' log now :
  load now k s' = load now k s → window_inv k w s log now → window_inv k w s' log now.
Proof.
  intros Hl [H1 H2 H3 H4]. assert (He : entries now k s' = entries now k s).
  { unfold entries. by rewrite Hl. }
  split; rewrite ?He, ?Hl; done.
Qed.

Lemma slidingWindow_other s now k' w' lim' m :
  k' ≠ k → load now k (slidingWindow now k' w' lim' m s).1 = load now k s.
Proof.
  intros Hne. unfold slidingWindow.
  destruct (lim' <=? _); [destruct (oldest _ _ _) as [[? ?]|]|]; simpl;
    rewrite ?load_pexpire_ne, ?load_zadd_ne, load_zrem_ne by done; done.
Qed.

Lemma peekWindow_other s now k' w' :
  k' ≠ k → load now k (peekWindow now k' w' s).1 = load now k s.
Proof.
  intros Hne. unfold peekWindow.
  destruct (_ =? 0); [|destruct (oldest _ _ _) as [[? ?]|]]; simpl;
    rewrite load_zrem_ne by done; done.
Qed.
End scripts.

(** ** Traffic

    Calls on the store in the order Redis executes them, on any keys, with the
    server time of each and whether the server could be reached. *)
Inductive rl_op :=
  | OpConsume (key : string) (lim windowMs : Z) (member : string)
  | OpPeek (key : string) (lim windowMs : Z)
  | OpReset (key : string).

Record rl_call := { call_time : Z; call_up : bool; call_op : rl_op }.

Definition call_server (c : rl_call) : option Z :=
  if call_up c then Some (call_time c) else None.

Definition call_members (c : rl_call) : list string :=
  match call_op c with OpConsume _ _ _ m => [m] | _ => [] end.

(** The call uses key [k], if at all, to consume or peek with this window. *)
Definition uses_window (k : string) (lim w : Z) (c : rl_call) : Prop :=
  match call_op c with
  | OpConsume key lim' w' _ => key = k → lim' = lim ∧ w' = w
  | OpPeek key _ w' => key = k → w' = w
  | OpReset key => key ≠ k
  end.

Fixpoint in_order (now : Z) (calls : list rl_call) : Prop :=
  match calls with
  | [] => True
  | c :: cs => now ≤ call_time c ∧ in_order (call_time c) cs
  end.

Section traffic.
Context `{Redis} (failOpen : bool).

Definition exec_call (c : rl_call) (s : redis) : redis * option RateLimitResult :=
  match call_op c with
  | OpConsume key lim w m =>
      let '(s', r) := consume failOpen (call_server c) m key lim w s in (s', Some r)
  | OpPeek key lim w => let '(s', r) := peek (call_server c) key lim w s in (s', Some r)
  | OpReset key => (reset (call_server c) key s, None)
  end.

(** The events on [k] that were counted and allowed, with their times. *)
Definition counted (k : string) (c : rl_call) (r : option RateLimitResult) : list (string * Z) :=
  match call_op c, r with
  | OpConsume key _ _ m, Some r =>
      if bool_decide (key = k) && allowed r && negb (degraded r) then [(m, call_time c)] else []
  | _, _ => []
  end.

Section bound.
Context (k : string) (w lim : Z).
Hypothesis w_pos : 0 < w.
Hypothesis lim_pos : 0 < lim.

(** No window of length [w] holds more than [lim] of the events. *)
Definition within_limit (log : list (string * Z)) : Prop :=
  ∀ t, Z.of_nat (length (filter (λ e, t - w < e.2 ≤ t) log)) ≤ lim.

Lemma within_limit_snoc log m now :
  within_limit log → (∀ e, e ∈ log → e.2 ≤ now) →
  Z.of_nat (length (window_log w now log)) < lim →
  within_limit (log ++ [(m, now)]).
Proof.
  intros Hw Hpast Hn t. rewrite filter_app, length_app.
  destruct (decide (now ≤ t)) as [Ht|Ht].
  - assert (Nat.le (length (filter (λ e : string * Z, (t - w < e.2 ≤ t)%Z) log))
                   (length (window_log w now log)))
      by (apply filter_length_mono; intros e _; lia).
    assert (Nat.le (length (filter (λ e : string * Z, (t - w < e.2 ≤ t)%Z) [(m, now)])) 1)
      by (etrans; [apply length_filter|done]).
    lia.
  - rewrite filter_cons_False by (simpl; lia). rewrite filter_nil.
    specialize (Hw t). simpl. lia.
Qed.

(** One call keeps the bucket in step with the log it extends. *)
Lemma exec_call_inv s log now c :
  window_inv k w s log now → within_limit log → now ≤ call_time c → 0 ≤ call_time c →
  uses_window k lim w c → NoDup (log.*1 ++ call_members c) →
  let '(s', r) := exec_call c s in
  let log' := log ++ counted k c r in
  window_inv k w s' log' (call_time c) ∧ within_limit log' ∧ NoDup log'.*1 ∧
  (∀ m, m ∈ log'.*1 → m ∈ log.*1 ∨ m ∈ call_members c).
Proof.
  intros Hinv Hlim Hnow H0 Huse Hnd.
  assert (NoDup log.*1) by (by apply NoDup_app in Hnd as [? _]).
  apply (inv_later k w w_pos s log now (call_time c) Hnow) in Hinv.
  destruct c as [t up o]; simpl in *.
  unfold exec_call, counted, call_members, call_server, uses_window in *. simpl in *.
  destruct o as [key lim' w' m|key lim' w'|key]; destruct up; simpl.
  - destruct (decide (key = k)) as [->|Hne].
    + destruct (Huse eq_refl) as [-> ->].
      assert (Hm : m ∉ log.*1) by (apply NoDup_app in Hnd; set_solver).
      destruct (slidingWindow_spec k w lim w_pos lim_pos s log t m Hinv H0 Hm)
        as [(Hge & s' & score & -> & Hinv' & _)|(Hlt & s' & -> & Hinv')]; simpl;
        rewrite bool_decide_true by done; simpl.
      * rewrite app_nil_r. auto.
      * split; [done|]. rewrite fmap_app.
        split; [|split; [done|intros m'; set_solver]].
        apply within_limit_snoc; [done| |done].
        intros e He. apply (inv_past _ _ _ _ _ Hinv) in He. lia.
    + pose proof (slidingWindow_other k s t key w' lim' m Hne) as Hl.
      destruct (slidingWindow t key w' lim' m s) as [s' [[[a c] r]|]]; simpl in *;
        rewrite (bool_decide_false (key = k)) by done; simpl; rewrite app_nil_r;
        (split; [by apply (inv_frame k w s)|auto]).
  - rewrite andb_false_r, app_nil_r. auto.
  - rewrite app_nil_r. destruct (decide (key = k)) as [->|Hne].
    + rewrite (Huse eq_refl).
      destruct (peekWindow_spec k w w_pos s log t Hinv) as (s' & r & -> & Hinv' & _).
      simpl. auto.
    + pose proof (peekWindow_other k s t key w' Hne) as Hl.
      destruct (peekWindow t key w' s) as [s' [[c r]|]]; simpl in *;
        (split; [by apply (inv_frame k w s)|auto]).
  - rewrite app_nil_r. auto.
  - rewrite app_nil_r. split; [|auto]. apply (inv_frame k w s); [|done].
    by apply load_del_ne.
  - rewrite app_nil_r. auto.
Qed.
End bound.

(** ** The guarantee *)

(** How many of some instants lie in the window of [w] milliseconds that ends at
    [t]. *)
Definition in_window (w t : Z) (times : list Z) : Z :=
  Z.of_nat (length (filter (λ x, t - w < x ≤ t) times)).

Lemma in_window_nonneg w t l : 0 ≤ in_window w t l.
Proof. unfold in_window. lia. Qed.
Lemma in_window_app w t l1 l2 : in_window w t (l1 ++ l2) = in_window w t l1 + in_window w t l2.
Proof. unfold in_window. rewrite filter_app, length_app. lia. Qed.
Lemma in_window_cons w t x l : in_window w t (x :: l) = in_window w t [x] + in_window w t l.
Proof. apply (in_window_app w t [x]). Qed.
Lemma in_window_in w t x : t - w < x ≤ t → in_window w t [x] = 1.
Proof. intros. unfold in_window. by rewrite filter_cons_True, filter_nil. Qed.
Lemma in_window_out w t l : (∀ x, x ∈ l → ¬ (t - w < x ≤ t)) → in_window w t l = 0.
Proof.
  unfold in_window. induction l as [|x l IH]; [done|]. intros Hl.
  rewrite filter_cons_False by (apply Hl; left). apply IH. intros y Hy. apply Hl. by right.
Qed.
Lemma in_window_fmap {A} (f : A → Z) w t (l : list A) :
  in_window w t (f <$> l) = Z.of_nat (length (filter (λ a, t - w < f a ≤ t) l)).
Proof. unfold in_window. by rewrite (filter_length_fmap f (λ x : Z, t - w < x ≤ t)). Qed.
Lemma within_limit_times w lim log : within_limit w lim log ↔ ∀ t, in_window w t log.*2 ≤ lim.
Proof. split; intros Hl t; [rewrite in_window_fmap|rewrite <- in_window_fmap]; apply Hl. Qed.

(** Emptying a bucket at [c] costs at most one more limit, and only in the windows
    that hold [c]: [before] came earlier and [after] came later. *)
Lemma in_window_reset w lim t c before after r x :
  0 < lim → 0 ≤ r → 0 ≤ x → (∀ u, u ∈ before → u ≤ c) → (∀ u, u ∈ after → c ≤ u) →
  in_window w t before ≤ lim → in_window w t after ≤ lim * (1 + r) + x →
  in_window w t before + in_window w t after ≤ lim * (1 + (in_window w t [c] + r)) + x.
Proof.
  intros Hlim Hr Hx Hb Ha Hbw Haw. destruct (decide (c ≤ t - w)) as [|Hw].
  { rewrite (in_window_out w t before), (in_window_out w t [c]); [lia|set_solver by lia|].
    intros u Hu%Hb. lia. }
  destruct (decide (t < c)) as [|Ht].
  { rewrite (in_window_out w t after) by (intros u Hu%Ha; lia).
    pose proof (in_window_nonneg w t [c]). nia. }
  rewrite (in_window_in w t c) by lia. nia.
Qed.

(** The traffic's use of key [k]: with one limit and one window, reset at will. *)
Definition same_window (k : string) (lim w : Z) (c : rl_call) : Prop :=
  match call_op c with
  | OpConsume key lim' w' _ => key = k → lim' = lim ∧ w' = w
  | OpPeek key _ w' => key = k → w' = w
  | OpReset _ => True
  end.

(** When events on [k] were allowed, counted or not. *)
Definition allowed_at (k : string) (c : rl_call) (r : option RateLimitResult) : list Z :=
  match call_op c, r with
  | OpConsume key _ _ _, Some r => if bool_decide (key = k) && allowed r then [call_time c] else []
  | _, _ => []
  end.
Fixpoint admitted (k : string) (s : redis) (calls : list rl_call) : list Z :=
  match calls with
  | [] => []
  | c :: cs => let '(s', r) := exec_call c s in allowed_at k c r ++ admitted k s' cs
  end.

(** When [k] was emptied, and when Redis could not be asked about an event on it. *)
Definition reset_at (k : string) (c : rl_call) : list Z :=
  match call_op c with
  | OpReset key => if bool_decide (key = k) && call_up c then [call_time c] else []
  | _ => []
  end.
Definition unasked_at (k : string) (c : rl_call) : list Z :=
  match call_op c with
  | OpConsume key _ _ _ => if bool_decide (key = k) && negb (call_up c) then [call_time c] else []
  | _ => []
  end.
Definition resets (k : string) (calls : list rl_call) : list Z := mjoin (reset_at k <$> calls).
Definition unasked (k : string) (calls : list rl_call) : list Z := mjoin (unasked_at k <$> calls).

Lemma admitted_later k s now calls u : in_order now calls → u ∈ admitted k s calls → now ≤ u.
Proof.
  revert s now. induction calls as [|c calls IH]; intros s now; [by intros _ ?%not_elem_of_nil|].
  intros [Hle Hord]. cbn [admitted]. destruct (exec_call c s) as [s' r].
  intros [Hu|Hu]%elem_of_app; [|specialize (IH s' _ Hord Hu); lia].
  unfold allowed_at in Hu. destruct (call_op c), r; try by apply not_elem_of_nil in Hu.
  destruct (_ && _); [|by apply not_elem_of_nil in Hu]. by apply list_elem_of_singleton in Hu as ->.
Qed.

Section guarantee.
Context (k : string) (w lim : Z).
Hypothesis w_pos : 0 < w.
Hypothesis lim_pos : 0 < lim.

(** What Redis did not decide, the configuration did. *)
Definition unmetered (calls : list rl_call) : list Z := if failOpen then unasked k calls else [].

Lemma unmetered_cons c calls :
  unmetered (c :: calls) = (if failOpen then unasked_at k c else []) ++ unmetered calls.
Proof. unfold unmetered, unasked. by destruct failOpen. Qed.

(** An allowed event was counted, or came while Redis could not be asked. *)
Lemma allowed_counted s log now c :
  window_inv k w s log now → now ≤ call_time c → 0 ≤ call_time c → same_window k lim w c →
  NoDup (log.*1 ++ call_members c) →
  allowed_at k c (exec_call c s).2 =
    (counted k c (exec_call c s).2).*2 ++ (if failOpen then unasked_at k c else []).
Proof.
  intros Hinv Hle H0 Hu Hnd. apply (inv_later k w w_pos s log now (call_time c) Hle) in Hinv.
  destruct c as [u up o]. unfold exec_call, allowed_at, counted, unasked_at, call_server, same_window, call_members in *.
  cbn in *. destruct o as [key lim' w' m|key lim' w'|key].
  2: { destruct (peek (if up then Some u else None) key lim' w' s); by destruct failOpen. }
  2: { by destruct failOpen. }
  unfold consume. destruct up.
  - destruct (decide (key = k)) as [->|Hne].
    + destruct (Hu eq_refl) as [-> ->]. assert (Hm : m ∉ log.*1) by (apply NoDup_app in Hnd; set_solver).
      rewrite bool_decide_true by done.
      destruct (slidingWindow_spec k w lim w_pos lim_pos s log u m Hinv H0 Hm)
        as [(_ & s' & score & -> & _)|(_ & s' & -> & _)]; cbn; by destruct failOpen.
    + rewrite bool_decide_false by done. cbn. destruct (slidingWindow _ _ _ _ _ _) as [? [[[? ?] ?]|]]; by destruct failOpen.
  - cbn. rewrite !andb_true_r, andb_false_r. by destruct failOpen, (bool_decide (key = k)).
Qed.

(** A call empties the bucket, or leaves it in step with the log it extends. *)
Lemma reset_cases c :
  (call_op c = OpReset k ∧ call_up c = true ∧ reset_at k c = [call_time c]) ∨
  (reset_at k c = [] ∧
   (same_window k lim w c → uses_window k lim w c ∨ ∃ key, call_op c = OpReset key ∧ call_up c = false)).
Proof.
  unfold reset_at, same_window, uses_window. destruct (call_op c) as [| |key]; [right; auto..|].
  destruct (call_up c); [|right; rewrite andb_false_r; split; [done|]; eauto].
  case_bool_decide as Hk; [subst key; by left|right; auto].
Qed.

Lemma metered_step s log now c :
  window_inv k w s log now → within_limit w lim log → 0 ≤ now → now ≤ call_time c → same_window k lim w c →
  reset_at k c = [] → NoDup (log.*1 ++ call_members c) →
  let r := (exec_call c s).2 in let log' := log ++ counted k c r in
  window_inv k w (exec_call c s).1 log' (call_time c) ∧ within_limit w lim log' ∧ NoDup log'.*1 ∧
  (∀ m, m ∈ log'.*1 → m ∈ log.*1 ∨ m ∈ call_members c) ∧
  allowed_at k c r = (counted k c r).*2 ++ (if failOpen then unasked_at k c else []).
Proof.
  intros Hinv Hlim H0 Hle Hu Hno Hnd r log'.
  pose proof (allowed_counted s log now c Hinv Hle ltac:(lia) Hu Hnd) as Hac. subst log' r.
  destruct (reset_cases c) as [(_ & _ & He)|[_ Hc]]; [congruence|]. destruct (Hc Hu) as [Hw|(key & Hop & Hup)].
  - pose proof (exec_call_inv k w lim w_pos lim_pos s log now c Hinv Hlim Hle ltac:(lia) Hw Hnd) as Hs.
    destruct (exec_call c s). cbn [fst snd] in *. destruct Hs as (? & ? & ? & ?). by split_and!.
  - assert (Hs : exec_call c s = (s, None)) by (unfold exec_call, call_server; by rewrite Hop, Hup).
    assert (Hco : counted k c None = []) by (unfold counted; by rewrite Hop).
    rewrite Hs in Hac |- *. cbn [fst snd] in *. rewrite Hco in Hac |- *. rewrite app_nil_r.
    split_and!; [by apply (inv_later k w w_pos s log now)|done|by apply NoDup_app in Hnd as [? _]|auto|done].
Qed.

Lemma admitted_bound calls s log now t :
  window_inv k w s log now → within_limit w lim log → 0 ≤ now → in_order now calls →
  Forall (same_window k lim w) calls → NoDup (log.*1 ++ mjoin (call_members <$> calls)) →
  in_window w t log.*2 + in_window w t (admitted k s calls)
    ≤ lim * (1 + in_window w t (resets k calls)) + in_window w t (unmetered calls).
Proof.
  revert s log now. induction calls as [|c calls IH]; intros s log now Hinv Hlim H0 Hord Huse Hnd.
  { pose proof (proj1 (within_limit_times w lim log) Hlim t) as Hl. unfold unmetered.
    replace (if failOpen then _ else _) with (@nil Z) by by destruct failOpen.
    change (admitted k s []) with (@nil Z). change (resets k []) with (@nil Z). change (in_window w t []) with 0. lia. }
  destruct Hord as [Hle Hord]. apply Forall_cons in Huse as [Hu Huse].
  rewrite fmap_cons in Hnd. cbn in Hnd. rewrite app_assoc in Hnd.
  assert (Hnd1 : NoDup (log.*1 ++ call_members c)) by (by apply NoDup_app in Hnd as [? _]).
  apply NoDup_app in Hnd as (_ & Hdisj & Hnd).
  rewrite unmetered_cons, in_window_app. unfold resets. rewrite fmap_cons. cbn [mjoin list_join]. rewrite in_window_app.
  change (mjoin (reset_at k <$> calls)) with (resets k calls). cbn [admitted]. destruct (reset_cases c) as [(Hop & Hup & Hre)|[Hre _]]; rewrite Hre.
  - assert (Hs : exec_call c s = (del k s, None)) by (unfold exec_call, call_server; by rewrite Hop, Hup).
    assert (Hun : unasked_at k c = []) by (unfold unasked_at; by rewrite Hop).
    assert (Hat : allowed_at k c None = []) by (unfold allowed_at; by rewrite Hop).
    rewrite Hs, Hun, Hat. replace (if failOpen then [] else []) with (@nil Z) by by destruct failOpen.
    assert (Hnew : window_inv k w (del k s) [] (call_time c)) by (apply inv_empty; [done|apply load_del]).
    assert (Hnone : within_limit w lim []) by (apply within_limit_times; intros u; change (in_window w u [].*2) with 0; lia).
    specialize (IH (del k s) [] (call_time c) Hnew Hnone ltac:(lia) Hord Huse Hnd).
    change (in_window w t []) with 0. change (in_window w t [].*2) with 0 in IH. rewrite !Z.add_0_l in *. cbn [app].
    apply in_window_reset; try done; try apply in_window_nonneg; [| |by apply within_limit_times].
    + intros u (e & -> & He)%list_elem_of_fmap. apply (inv_past _ _ _ _ _ Hinv) in He. lia.
    + intros u Hin. by apply (admitted_later k (del k s) _ calls).
  - destruct (metered_step s log now c Hinv Hlim H0 Hle Hu Hre Hnd1) as (Hinv' & Hlim' & Hnd' & Hmem & Hac).
    destruct (exec_call c s) as [s' r]. cbn [fst snd] in *. rewrite Hac, !in_window_app. change (in_window w t []) with 0.
    assert (Hnd2 : NoDup ((log ++ counted k c r).*1 ++ mjoin (call_members <$> calls))).
    { apply NoDup_app. split_and!; [done| |done]. intros m Hm. apply Hdisj, elem_of_app. by apply Hmem. }
    specialize (IH s' _ (call_time c) Hinv' Hlim' ltac:(lia) Hord Huse Hnd2).
    rewrite fmap_app, in_window_app in IH. rewrite Z.add_0_l. fold (resets k calls). lia.
Qed.
End guarantee.

(** C14. The limiter's guarantee, in any traffic on any keys, through outages and
    resets, with one unique member per call: the events allowed on a key in any
    window of [w] milliseconds, counted or not, are at most [lim] for every reset
    of that key inside the window and one more; and, only where the configuration
    fails open, those that came while Redis could not be asked. Failing closed,
    and without a reset, that is [lim]. The window slides: the bound is for
    every instant [t], not only for aligned windows. *)
Theorem sliding_window_bound k w lim s t0 calls :
  0 < w → 0 < lim → 0 ≤ t0 → load t0 k s = None → in_order t0 calls →
  Forall (same_window k lim w) calls → NoDup (mjoin (call_members <$> calls)) →
  ∀ t, in_window w t (admitted k s calls)
       ≤ lim * (1 + in_window w t (resets k calls)) +
         (if failOpen then in_window w t (unasked k calls) else 0).
Proof.
  intros Hw Hl H0 Hload Hord Huse Hnd t.
  pose proof (admitted_bound k w lim Hw Hl calls s [] t0 t ltac:(by apply inv_empty)
    ltac:(intros u; simpl; lia) H0 Hord Huse Hnd) as Hb.
  unfold unmetered in Hb. cbn [fmap list_fmap] in Hb. change (in_window w t []) with 0 in Hb.
  destruct failOpen; [lia|]. change (in_window w t []) with 0 in Hb. lia.
Qed.
End traffic.

(** ** Waiting, peeking *)

Section admission.
Context `{Redis} (failOpen : bool) (k : string) (w lim : Z).

(** A bucket in step with the events it counted, as traffic leaves it
    ([exec_call_inv]). *)
Definition bucket_ok (s : redis) (log : list (string * Z)) (now : Z) : Prop :=
  0 < w ∧ 0 < lim ∧ 0 ≤ now ∧ window_inv k w s log now ∧ within_limit w lim log.

Lemma bucket_ok_length s log now :
  bucket_ok s log now → Z.of_nat (length (window_log w now log)) ≤ lim.
Proof.
  intros (_ & _ & _ & Hinv & Hlim). specialize (Hlim now). etrans; [|exact Hlim].
  apply Nat2Z.inj_le. unfold window_log. apply filter_length_mono.
  intros e He. apply (inv_past _ _ _ _ _ Hinv) in He. lia.
Qed.

Lemma window_log_mono now now' log : now ≤ now' →
  (length (window_log w now' log) ≤ length (window_log w now log))%nat.
Proof. intros. apply filter_length_mono. intros e _. lia. Qed.

(** A refusal says exactly how long it lasts: the wait is positive and at
    most the window, the refused attempt is not recorded (so retrying cannot
    extend it), an attempt any time before the wait is over is refused, and the
    first attempt at or after its end is allowed. *)
Theorem retry_after_exact s log now m s' r :
  bucket_ok s log now → m ∉ log.*1 →
  consume failOpen (Some now) m k lim w s = (s', r) → allowed r = false →
  0 < retryAfterMs r ≤ w ∧ bucket_ok s' log now ∧
  ∀ now' m', now ≤ now' → m' ∉ log.*1 →
    allowed (consume failOpen (Some now') m' k lim w s').2
      = bool_decide (now + retryAfterMs r ≤ now').
Proof.
  intros Hok Hm. pose proof (bucket_ok_length _ _ _ Hok) as Hlen.
  destruct Hok as (Hw & Hl & H0 & Hinv & Hlim). unfold consume.
  destruct (slidingWindow_spec k w lim Hw Hl s log now m Hinv H0 Hm)
    as [(Hge & s0 & score & -> & Hinv' & Hs & (e & He & Hes) & Hmin)|(Hlt & s0 & -> & Hinv')];
    intros [= <- <-]; simpl; [|done].
  intros _. split_and!; [lia|lia|by split_and!|]. intros now' m' Hle Hm'.
  pose proof (inv_later k w Hw s0 log now now' Hle Hinv') as Hinv''.
  destruct (slidingWindow_spec k w lim Hw Hl s0 log now' m' Hinv'' ltac:(lia) Hm')
    as [(Hge' & s'' & score' & -> & _)|(Hlt' & s'' & -> & _)]; simpl; symmetry.
  - apply bool_decide_eq_false. intros Hend.
    enough (length (window_log w now' log) < length (window_log w now log))%nat by lia.
    rewrite (window_log_later w now now' log Hle). apply (length_filter_lt _ _ e); [done|lia].
  - apply bool_decide_eq_true. destruct (decide (now + (w - (now - score)) ≤ now')) as [|Hn]; [done|].
    enough (window_log w now' log = window_log w now log) as Heq by (rewrite Heq in Hlt'; lia).
    rewrite (window_log_later w now now' log Hle). apply lfilter_true.
    intros x Hx. apply Hmin in Hx. lia.
Qed.

(** Looking does not count and does not lie: when Redis answers, a peek
    reports as allowed exactly what a consume at that instant would allow, and
    leaves the window as it was. When Redis cannot be read the two differ on
    purpose: a peek only reports that it could not tell, a consume follows the
    configured policy. *)
Theorem peek_agrees_with_consume s log now m :
  bucket_ok s log now → m ∉ log.*1 →
  let p := (peek (Some now) k lim w s).2 in
  let c := (consume failOpen (Some now) m k lim w s).2 in
  degraded p = false ∧ degraded c = false ∧ allowed p = allowed c ∧
  bucket_ok (peek (Some now) k lim w s).1 log now ∧ count p = Z.of_nat (length (window_log w now log)) ∧
  (peek None k lim w s).2 = {| allowed := true; count := 0; limit := lim;
                               retryAfterMs := 0; degraded := true |} ∧
  (consume failOpen None m k lim w s).2
    = {| allowed := failOpen; count := 0; limit := lim;
         retryAfterMs := if failOpen then 0 else 1000; degraded := true |}.
Proof.
  intros (Hw & Hl & H0 & Hinv & Hlim) Hm. unfold peek, consume.
  destruct (peekWindow_spec k w Hw s log now Hinv) as (s' & r & -> & Hinv' & _). simpl.
  destruct (slidingWindow_spec k w lim Hw Hl s log now m Hinv H0 Hm)
    as [(Hge & s'' & score & -> & _)|(Hlt & s'' & -> & _)]; simpl;
    split_and!; try done; lia.
Qed.
End admission.

(** ** Member ids never repeat *)

Lemma member_ids_elem f n m :
  m ∈ member_ids f n → ∃ i, (counter f < i)%nat ∧ m = instanceId f +:+ ":" +:+ dec i.
Proof.
  revert f. induction n as [|n IH]; intros f; [set_solver|]. simpl.
  intros [->|Hin]%elem_of_cons; [by exists (S (counter f)); split; [lia|]|].
  apply IH in Hin as (i & Hi & ->). simpl in *. exists i. split; [lia|done].
Qed.

(** No two members ever collide, within a process or across processes with
    different instance ids: whatever number of events each factory has numbered,
    their ids are pairwise distinct, so every event counts. *)
Theorem member_ids_distinct (factories : list (MemberIds * nat)) :
  NoDup (instanceId ∘ fst <$> factories) →
  Forall (λ f, free_of ":" (instanceId f.1) = true) factories →
  NoDup (mjoin ((λ f, member_ids f.1 f.2) <$> factories)).
Proof.
  intros Hnd Hfree. induction factories as [|[f n] fs IH]; [constructor|].
  apply NoDup_cons in Hnd as [Hnotin Hnd]. apply Forall_cons in Hfree as [Hf Hfree].
  rewrite fmap_cons. simpl. apply NoDup_app. split_and!; [| |by apply IH].
  - clear. revert f. induction n as [|n IHn]; intros f; simpl; [constructor|].
    constructor; [|apply IHn]. intros (i & Hi & He)%member_ids_elem. simpl in *.
    apply (inj (String.app (instanceId f))) in He. injection He as He. apply dec_inj in He. lia.
  - intros m Hm Hin. apply Hnotin.
    apply list_elem_of_join in Hin as (l & Hml & Hl).
    apply list_elem_of_fmap in Hl as ([g n'] & -> & Hg). simpl in *.
    apply member_ids_elem in Hm as (i & _ & ->), Hml as (j & _ & He).
    rewrite Forall_forall in Hfree. specialize (Hfree _ Hg). simpl in *.
    apply (prefix_upto_inj (λ d, negb (Ascii.eqb d ":"))) in He as [He _]; [|done..].
    apply list_elem_of_fmap. exists (g, n'). done.
Qed.

(** ** An implementation of the Redis interface *)

#[export] Instance zentry_le_trans : Transitive zentry_le.
Proof.
  intros p q r [?|[? H1]] [?|[? H2]]; try (left; lia).
  right. split; [congruence|]. by etrans.
Qed.
#[export] Instance zentry_le_anti : AntiSymm (=) zentry_le.
Proof.
  intros [a x] [b y] [?|[? H1]] [?|[? H2]]; simpl in *; try lia. subst. f_equal. by apply (anti_symm String.le).
Qed.
#[export] Instance zentry_le_total : Total zentry_le.
Proof.
  intros [a x] [b y]. unfold zentry_le. simpl. 
  destruct (Z.lt_total x y) as [?|[?|?]]; [by left; left| |by right; left].
  destruct (total String.le a b); [left|right]; by right.
Qed.

Lemma zsort_sorted es : Sorted zentry_le es → merge_sort zentry_le es = es.
Proof. intros. apply (Sorted_unique zentry_le); [apply Sorted_merge_sort; apply _|done|apply merge_sort_Permutation]. Qed.

Lemma zsort_filter (P : string * Z → Prop) `{!∀ e, Decision (P e)} es :
  Sorted zentry_le es → Sorted zentry_le (filter P es).
Proof.
  intros Hs. apply StronglySorted_Sorted. apply Sorted_StronglySorted in Hs; [|apply _].
  induction Hs as [|e es Hs IH He]; [constructor|]. rewrite filter_cons.
  case_decide; [|done]. constructor; [done|]. rewrite Forall_forall in He |- *.
  intros x [_ Hx]%list_elem_of_filter. by apply He.
Qed.

Module RedisMap.
Abbreviation db := (gmap string bucket) (only parsing).

Definition get (now : Z) (k : string) (s : db) : option bucket :=
  match s !! k with
  | Some (es, Some t) => if t <? now then None else Some (merge_sort zentry_le es, Some t)
  | Some (es, None) => Some (merge_sort zentry_le es, None)
  | None => None
  end.
Definition put (k : string) (b : option bucket) (s : db) : db :=
  match b with Some b => <[k := b]> s | None => delete k s end.

Definition zrem (now : Z) (k : string) (lo hi : Z) (s : db) : db :=
  put k (match get now k s with
         | Some (es, t) =>
             let es' := filter (λ e, ¬ (lo ≤ e.2 ≤ hi)) es in
             if bool_decide (es' = []) then None else Some (es', t)
         | None => None
         end) s.
Definition add (now : Z) (k : string) (score : Z) (m : string) (s : db) : db :=
  put k (Some match get now k s with
              | Some (es, t) => (zinsert m score es, t)
              | None => ([(m, score)], None)
              end) s.
Definition expire (now : Z) (k : string) (ms : Z) (s : db) : db :=
  put k (match get now k s with Some (es, _) => Some (es, Some (now + ms)) | None => None end) s.

(** A bucket that can be read: sorted and not expired. *)
Definition fresh (now : Z) (b : option bucket) : Prop :=
  match b with
  | Some (es, t) => Sorted zentry_le es ∧ match t with Some t => now ≤ t | None => True end
  | None => True
  end.

Lemma get_fresh now k s : fresh now (get now k s).
Proof.
  unfold get. destruct (s !! k) as [[es [t|]]|]; simpl; [|by split; [apply Sorted_merge_sort; apply _|]|done].
  destruct (Z.ltb_spec t now); [done|]. split; [apply Sorted_merge_sort; apply _|done].
Qed.

Lemma get_put now k b s : fresh now b → get now k (put k b s) = b.
Proof.
  unfold get, put. destruct b as [[es [t|]]|]; simpl; intros Hf.
  - rewrite lookup_insert_eq. destruct Hf as [Hs Ht].
    rewrite (proj2 (Z.ltb_ge t now)) by lia. by rewrite zsort_sorted.
  - rewrite lookup_insert_eq. by rewrite zsort_sorted by apply Hf.
  - by rewrite lookup_delete_eq.
Qed.

Lemma get_put_ne now k k' b s : k ≠ k' → get now k' (put k b s) = get now k' s.
Proof.
  intros. unfold get, put.
  destruct b; [by rewrite lookup_insert_ne|by rewrite lookup_delete_ne].
Qed.

#[export] Program Instance Redis_map : Redis := {|
  redis := db; load := get; zremrangebyscore := zrem; zadd := add; pexpire := expire;
  del := delete |}.
Next Obligation.
  intros now now' k s Hle. unfold get. destruct (s !! k) as [[es [t|]]|]; try done.
  destruct (Z.ltb_spec t now), (Z.ltb_spec t now'); try done; lia.
Qed.
Next Obligation.
  intros now k s es t Hl. pose proof (get_fresh now k s) as Hf. rewrite Hl in Hf.
  destruct Hf as [Hs _]. clear Hl. induction Hs as [|e es Hs IH Hh]; constructor; [done|].
  destruct Hh as [|e' es Hr]; constructor. destruct Hr; lia.
Qed.
Next Obligation.
  intros now k lo hi s. unfold zrem. rewrite get_put; [by destruct (get now k s) as [[? ?]|]|].
  pose proof (get_fresh now k s) as Hf. destruct (get now k s) as [[es t]|]; [|done]. simpl.
  case_bool_decide; [done|]. simpl. destruct Hf. split; [by apply zsort_filter|done].
Qed.
Next Obligation.
  intros now k score m s. unfold add. pose proof (get_fresh now k s) as Hf.
  rewrite get_put; destruct (get now k s) as [[es t]|]; try done; simpl.
  - destruct Hf. split; [apply Sorted_merge_sort; apply _|done].
  - split; [by repeat constructor|done].
Qed.
Next Obligation.
  intros now k ms s Hms. unfold expire. rewrite get_put; [done|].
  pose proof (get_fresh now k s) as Hf. destruct (get now k s) as [[es t]|]; [|done].
  simpl in *. destruct Hf. split; [done|lia].
Qed.
Next Obligation. intros now k s. unfold get. by rewrite lookup_delete_eq. Qed.
Next Obligation. intros. by apply get_put_ne. Qed.
Next Obligation. intros. by apply get_put_ne. Qed.
Next Obligation. intros. by apply get_put_ne. Qed.
Next Obligation. intros now k k' s Hne. unfold get. by rewrite lookup_delete_ne. Qed.
End RedisMap.

(** ** The theorems at work *)

Module RateLimitSample.
#[export] Existing Instance RedisMap.Redis_map.

Definition calls : list rl_call :=
  [ {| call_time := 100; call_up := true; call_op := OpConsume "k" 2 1000 "a:1" |};
    {| call_time := 150; call_up := true; call_op := OpPeek "k" 2 1000 |};
    {| call_time := 200; call_up := true; call_op := OpConsume "other" 9 50 "a:2" |};
    {| call_time := 900; call_up := true; call_op := OpConsume "k" 2 1000 "b:1" |};
    {| call_time := 950; call_up := true; call_op := OpConsume "k" 2 1000 "b:2" |};
    {| call_time := 990; call_up := false; call_op := OpConsume "k" 2 1000 "b:3" |};
    {| call_time := 1100; call_up := true; call_op := OpConsume "k" 2 1000 "a:3" |};
    {| call_time := 1110; call_up := false; call_op := OpReset "k" |};
    {| call_time := 1120; call_up := true; call_op := OpConsume "k" 2 1000 "b:4" |};
    {| call_time := 1130; call_up := true; call_op := OpReset "k" |};
    {| call_time := 1140; call_up := true; call_op := OpConsume "k" 2 1000 "b:5" |} ].

(** The fourth event is refused and so is the seventh; the fifth is let through
    unasked, or not; the reset that reaches the server makes room for the last. *)
Example calls_admitted :
  admitted true "k" ∅ calls = [100; 900; 990; 1100; 1140] ∧ admitted false "k" ∅ calls = [100; 900; 1100; 1140] ∧
  resets "k" calls = [1130] ∧ unasked "k" calls = [990].
Proof. vm_compute. auto. Qed.

(** A full bucket, and the log it stands for. *)
Definition full_log : list (string * Z) := [("a:1", 100); ("b:1", 900)].
Definition full : gmap string (list (string * Z) * option Z) :=
  {[ "k" := (full_log, Some 1900) ]}.

Lemma full_ok : bucket_ok "k" 1000 2 full full_log 950.
Proof.
  split_and!; try lia; [split|].
  - reflexivity.
  - vm_compute entries. done.
  - intros e He. repeat (apply elem_of_cons in He as [->|He]; [simpl; lia|]). by apply elem_of_nil in He.
  - assert (load 950 "k" full = Some (full_log, Some 1900)) as -> by (vm_compute; reflexivity).
    intros es t [= <- <-]. exists 1900. split; [done|]. intros e He.
    repeat (apply elem_of_cons in He as [->|He]; [simpl; lia|]). by apply elem_of_nil in He.
  - intros t. etrans; [apply Nat2Z.inj_le, length_filter|]. done.
Qed.
End RateLimitSample.

#[local] Existing Instance RedisMap.Redis_map.

Lemma sliding_window_bound_witness :
  in_window 1000 1140 (admitted true "k" (∅ : redis) RateLimitSample.calls) = 4 ∧
  in_window 1000 1140 (admitted true "k" (∅ : redis) RateLimitSample.calls)
    ≤ 2 * (1 + in_window 1000 1140 (resets "k" RateLimitSample.calls))
      + in_window 1000 1140 (unasked "k" RateLimitSample.calls).
Proof.
  split; [vm_compute; reflexivity|].
  apply (sliding_window_bound true "k" 1000 2 ∅ 0 RateLimitSample.calls); try lia.
  - reflexivity.
  - simpl. lia.
  - repeat constructor; simpl; try done; vm_compute; discriminate.
  - compute_decide.
Defined.

Lemma retry_after_exact_witness :
  let c := consume true (Some 950) "b:2" "k" 2 1000 (RateLimitSample.full : redis) in
  retryAfterMs c.2 = 150 ∧ 0 < retryAfterMs c.2 ≤ 1000.
Proof.
  intros c. split; [vm_compute; reflexivity|].
  apply (retry_after_exact true "k" 1000 2 _ _ 950 "b:2" c.1 c.2 RateLimitSample.full_ok);
    [compute_decide|apply surjective_pairing|vm_compute; reflexivity].
Defined.

Lemma peek_agrees_with_consume_witness :
  bucket_ok "k" 1000 2 (peek (Some 950) "k" 2 1000 (RateLimitSample.full : redis)).1
    RateLimitSample.full_log 950.
Proof.
  apply (peek_agrees_with_consume true "k" 1000 2 _ _ 950 "b:2" RateLimitSample.full_ok).
  compute_decide.
Defined.

Lemma member_ids_distinct_witness :
  NoDup (mjoin ((λ f, member_ids f.1 f.2) <$>
    [({| instanceId := "kQx-_w"; counter := 0 |}, 3%nat); ({| instanceId := "Zz19aa"; counter := 0 |}, 2%nat)])).
Proof.
  apply member_ids_distinct; [compute_decide|]. repeat constructor.
Defined.
