(* ===== verification/Limiter.v ===== *)
(** The store as its callers hold it (services/auth/src/ratelimit/rate-limit.store.ts):
    the shared Redis and the process's member id factory, threaded through the
    calls of the guard and of the login throttle. *)
From S2P Require Import Prelude Domain RateLimit.
#[local] Open Scope Z_scope.

(** When a command reaches the server, and whether it does. *)
Record moment := { time : Z; reachable : bool }.

Definition server_of (t : moment) : option Z := if reachable t then Some (time t) else None.

Section limiter.
Context `{Redis} (failOpen : bool).

Record Limiter := { store : redis; ids : MemberIds }.

(** [RateLimitStore.consume] takes its member from the process's factory before
    it talks to Redis. *)
Definition storeConsume (t : moment) (key : string) (lim windowMs : Z) (L : Limiter)
    : Limiter * RateLimitResult :=
  let '(ids', member) := nextMemberId (ids L) in
  let '(s', r) := consume failOpen (server_of t) member key lim windowMs (store L) in
  ({| store := s'; ids := ids' |}, r).

Definition storePeek (t : moment) (key : string) (lim windowMs : Z) (L : Limiter)
    : Limiter * RateLimitResult :=
  let '(s', r) := peek (server_of t) key lim windowMs (store L) in
  ({| store := s'; ids := ids L |}, r).

Definition storeReset (t : moment) (key : string) (L : Limiter) : Limiter :=
  {| store := reset (server_of t) key (store L); ids := ids L |}.

(** ** What a key has seen

    [key_inv k w lim L log now]: the bucket of [k] is in step with [log], the
    events counted on it, none of the members still to come is in it, and no
    window holds more than [lim] of them. *)
Section key.
Context (k : string) (w lim : Z).
Hypothesis w_pos : 0 < w.
Hypothesis lim_pos : 0 < lim.

Record key_inv (L : Limiter) (log : list (string * Z)) (now : Z) : Prop := {
  key_now : 0 ≤ now;
  key_window : window_inv k w (store L) log now;
  key_limit : within_limit w lim log;
  key_fresh : ∀ n, (counter (ids L) < n)%nat →
    instanceId (ids L) +:+ ":" +:+ dec n ∉ log.*1;
  key_nodup : NoDup log.*1;
}.

Lemma key_inv_empty L now : 0 ≤ now → load now k (store L) = None → key_inv L [] now.
Proof.
  intros Hnow Hl. split; [done|by apply inv_empty| | |constructor].
  - intros t. simpl. lia.
  - intros n _. set_solver.
Qed.

Lemma key_inv_later L log now now' : now ≤ now' → key_inv L log now → key_inv L log now'.
Proof.
  intros Hle []. split; try done; [lia|]. by eapply inv_later.
Qed.

(** A call with no member to record. *)
Lemma key_inv_call L c log now :
  key_inv L log now → now ≤ call_time c → uses_window k lim w c →
  call_members c = [] →
  let '(s', r) := exec_call failOpen c (store L) in
  key_inv {| store := s'; ids := ids L |} log (call_time c).
Proof.
  intros [H0 Hw Hl Hf Hnd] Hle Hu Hm.
  pose proof (exec_call_inv failOpen k w lim w_pos lim_pos (store L) log now c Hw Hl Hle
                ltac:(lia) Hu) as Hs.
  rewrite Hm, app_nil_r in Hs. specialize (Hs Hnd).
  destruct (exec_call failOpen c (store L)) as [s' r].
  replace (counted k c r) with (@nil (string * Z)) in Hs
    by (unfold counted, call_members in *; by destruct (call_op c)).
  rewrite app_nil_r in Hs. destruct Hs as (Hw' & Hl' & Hnd' & _).
  by split; [lia| | | |].
Qed.

Lemma storePeek_inv L t key lim' w' log now :
  key_inv L log now → now ≤ time t → (key = k → w' = w) →
  key_inv (storePeek t key lim' w' L).1 log (time t).
Proof.
  intros Hinv Hle Hk.
  pose proof (key_inv_call L {| call_time := time t; call_up := reachable t;
    call_op := OpPeek key lim' w' |} log now Hinv Hle Hk eq_refl) as Hs.
  unfold exec_call, call_server, storePeek, server_of in *. simpl in *.
  by destruct (peek _ key lim' w' (store L)).
Qed.

Lemma storeReset_inv L t key log now :
  key_inv L log now → now ≤ time t → key ≠ k →
  key_inv (storeReset t key L) log (time t).
Proof.
  intros Hinv Hle Hk.
  exact (key_inv_call L {| call_time := time t; call_up := reachable t;
    call_op := OpReset key |} log now Hinv Hle Hk eq_refl).
Qed.

(** The event a consume counts on [k], if it does. *)
Definition counts (key : string) (r : RateLimitResult) : bool :=
  bool_decide (key = k) && allowed r && negb (degraded r).

Lemma storeConsume_inv L t key lim' w' log now :
  key_inv L log now → now ≤ time t → (key = k → lim' = lim ∧ w' = w) →
  let '(L', r) := storeConsume t key lim' w' L in
  ∃ m, key_inv L' (log ++ if counts key r then [(m, time t)] else []) (time t).
Proof.
  intros [H0 Hw Hl Hf Hnd] Hle Hk. unfold storeConsume, nextMemberId. cbv zeta.
  set (m := instanceId (ids L) +:+ ":" +:+ dec (S (counter (ids L)))).
  set (c := {| call_time := time t; call_up := reachable t; call_op := OpConsume key lim' w' m |}).
  assert (Hm : m ∉ log.*1) by (apply Hf; lia).
  assert (Hnd' : NoDup (log.*1 ++ call_members c)).
  { change (call_members c) with [m]. apply NoDup_app. split_and!; [done| |by apply NoDup_singleton].
    intros x Hx [Hin|Hin]%elem_of_cons; [by subst x|by apply elem_of_nil in Hin]. }
  pose proof (exec_call_inv failOpen k w lim w_pos lim_pos (store L) log now c Hw Hl Hle
                ltac:(simpl; lia) Hk Hnd') as Hs.
  unfold exec_call, call_server, server_of in *. simpl in *.
  destruct (consume failOpen _ m key lim' w' (store L)) as [s' r]. exists m.
  unfold counted in Hs. simpl in Hs. unfold counts.
  destruct Hs as (Hw' & Hl' & Hnd'' & Hmem). split; simpl; try done; [lia|].
  intros n Hn Hin. apply Hmem in Hin as [Hin|Hin].
  - eapply Hf, Hin. lia.
  - apply list_elem_of_singleton in Hin. unfold m in Hin.
    apply (inj (String.app _)) in Hin. injection Hin as Hin. apply dec_inj in Hin. lia.
Qed.

(** While a key is below its limit, a consume that reaches the server counts. *)
Lemma storeConsume_counts L t lim' log now :
  key_inv L log now → now ≤ time t → reachable t = true → lim' = lim →
  Z.of_nat (length (window_log w (time t) log)) < lim →
  counts k (storeConsume t k lim' w L).2 = true.
Proof.
  intros [H0 Hw Hl Hf Hnd] Hle Ht -> Hlt. unfold storeConsume, nextMemberId, server_of, consume.
  rewrite Ht. cbv beta iota zeta.
  apply (inv_later k w w_pos _ _ _ _ Hle) in Hw.
  destruct (slidingWindow_spec k w lim w_pos lim_pos (store L) log (time t) _ Hw
    ltac:(lia) (Hf (S (counter (ids L))) ltac:(lia))) as [(Hge & _)|(_ & s' & -> & _)]; [lia|].
  unfold counts. simpl. by rewrite bool_decide_true.
Qed.

(** A consume that reaches the server with the bucket in step can be read. *)
Lemma storeConsume_readable L t log now :
  key_inv L log now → now ≤ time t → reachable t = true →
  degraded (storeConsume t k lim w L).2 = false.
Proof.
  intros [H0 Hw Hl Hf Hnd] Hle Ht. unfold storeConsume, nextMemberId, server_of, consume.
  rewrite Ht. cbv beta iota zeta.
  apply (inv_later k w w_pos _ _ _ _ Hle) in Hw.
  by destruct (slidingWindow_spec k w lim w_pos lim_pos (store L) log (time t) _ Hw
    ltac:(lia) (Hf (S (counter (ids L))) ltac:(lia))) as [(_ & s' & x & -> & _)|(_ & s' & -> & _)].
Qed.

(** What a peek that reached the server reports. *)
Lemma storePeek_count L t lim' log now :
  key_inv L log now → now ≤ time t → reachable t = true →
  degraded (storePeek t k lim' w L).2 = false ∧
  count (storePeek t k lim' w L).2 = Z.of_nat (length (window_log w (time t) log)) ∧
  allowed (storePeek t k lim' w L).2 = (Z.of_nat (length (window_log w (time t) log)) <? lim').
Proof.
  intros [H0 Hw Hl Hf Hnd] Hle Ht. unfold storePeek, server_of, peek. rewrite Ht. simpl.
  apply (inv_later k w w_pos _ _ _ _ Hle) in Hw.
  by destruct (peekWindow_spec k w w_pos _ _ _ Hw) as (s' & r & -> & _).
Qed.
(** A peek at [k] that could be read and allows the event means there is room. *)
Lemma storePeek_allowed L t key lim' log now :
  key_inv L log now → now ≤ time t → key = k →
  degraded (storePeek t key lim' w L).2 = false → allowed (storePeek t key lim' w L).2 = true →
  Z.of_nat (length (window_log w (time t) log)) < lim'.
Proof.
  intros Hinv Hle -> Hd Ha. destruct (reachable t) eqn:Er.
  - destruct (storePeek_count L t lim' log now Hinv Hle Er) as (_ & _ & Hal).
    rewrite Ha in Hal. by apply eq_sym, Z.ltb_lt in Hal.
  - unfold storePeek, server_of, peek in Hd. rewrite Er in Hd. done.
Qed.
(** Everything a peek at [k] reports about being readable and having room. *)
Lemma storePeek_report L t lim' log now :
  key_inv L log now → now ≤ time t →
  if reachable t then
    degraded (storePeek t k lim' w L).2 = false ∧
    allowed (storePeek t k lim' w L).2 = (Z.of_nat (length (window_log w (time t) log)) <? lim')
  else degraded (storePeek t k lim' w L).2 = true.
Proof.
  intros Hinv Hle. destruct (reachable t) eqn:Er.
  - by destruct (storePeek_count L t lim' log now Hinv Hle Er) as (? & _ & ?).
  - unfold storePeek, server_of, peek. by rewrite Er.
Qed.
End key.
End limiter.
