(* ===== verification/RateLimitGuard.v ===== *)
(** The global rate-limit guard: services/auth/src/ratelimit/rate-limit.guard.ts,
    with the decorators' metadata (rate-limit.decorator.ts) as a record. *)
From S2P Require Import Prelude Domain ClientAddress RateLimit Limiter.
#[local] Open Scope Z_scope.

Record RateLimitOptions := { opt_limit : Z; opt_windowMs : Z }.

(** What the reflector finds on the handler or its class. *)
Record RouteMetadata := {
  isHttp : bool;
  noRateLimit : bool;
  rateLimit : option RateLimitOptions;
}.

Record FastifyRequest := {
  req_method : string;
  routeOptionsUrl : option string;
  req_url : string;
  req_ip : option string;
}.

Abbreviation Headers := (gmap string string) (only parsing).

Definition clientId (request : FastifyRequest) : M string :=
  match req_ip request with
  | Some ip => if (0 <? Z.of_nat (String.length ip)) then rateLimitIdentity ip else Ok "unknown"
  | None => Ok "unknown"
  end.

(** [request.routeOptions?.url ?? request.url.split("?")[0]] *)
Definition pattern (request : FastifyRequest) : string :=
  match routeOptionsUrl request with
  | Some u => u
  | None => default "" (head (split_on "?" (req_url request)))
  end.

Definition setHeaders (result : RateLimitResult) (reply : Headers) : Headers :=
  if degraded result then
    <["x-ratelimit-degraded" := "true"]>
      (delete "x-ratelimit-remaining" (delete "x-ratelimit-limit" reply))
  else match reply !! "x-ratelimit-degraded" with
  | Some _ => reply
  | None =>
      <["x-ratelimit-remaining" := decZ (Z.max 0 (limit result - count result))]>
        (<["x-ratelimit-limit" := decZ (limit result)]> reply)
  end.

Definition clientKey (client : string) : string := "rl:client:" +:+ client.
Definition routeKey (request : FastifyRequest) (client : string) : string :=
  "rl:route:" +:+ req_method request +:+ ":" +:+ pattern request +:+ ":" +:+ client.

Record GuardConfig := {
  rateLimitDefaultLimit : Z;
  rateLimitDefaultWindowMs : Z;
  rateLimitFailOpen : bool;
}.

Section guard.
Context `{Redis} (config : GuardConfig).

(** [canActivate]: the limiter and the reply's headers after it, and its
    outcome. [t1] and [t2] are when the two checks reach Redis. *)
Definition canActivate (meta : RouteMetadata) (request : FastifyRequest) (t1 t2 : moment)
    (L : Limiter) (reply : Headers) : Limiter * Headers * M bool :=
  if negb (isHttp meta) then (L, reply, Ok true)
  else if noRateLimit meta then (L, reply, Ok true)
  else match clientId request with
  | Throw e => (L, reply, Throw e)
  | Ok client =>
      let '(L1, global) := storeConsume (rateLimitFailOpen config) t1 (clientKey client)
        (rateLimitDefaultLimit config) (rateLimitDefaultWindowMs config) L in
      let reply1 := setHeaders global reply in
      if negb (allowed global)
      then (L1, reply1, Throw (EDomain (TooManyRequestsError (retryAfterMs global))))
      else match rateLimit meta with
      | None => (L1, reply1, Ok true)
      | Some route =>
          let '(L2, scoped) := storeConsume (rateLimitFailOpen config) t2 (routeKey request client)
            (opt_limit route) (opt_windowMs route) L1 in
          let reply2 := setHeaders scoped reply1 in
          if negb (allowed scoped)
          then (L2, reply2, Throw (EDomain (TooManyRequestsError (retryAfterMs scoped))))
          else (L2, reply2, Ok true)
      end
  end.

(** ** Headers never claim what was not checked *)

(** The results the guard consulted, in order. *)
Definition consulted (meta : RouteMetadata) (request : FastifyRequest) (t1 t2 : moment)
    (L : Limiter) : list RateLimitResult :=
  match clientId request with
  | Ok client =>
      let '(L1, global) := storeConsume (rateLimitFailOpen config) t1 (clientKey client)
        (rateLimitDefaultLimit config) (rateLimitDefaultWindowMs config) L in
      match rateLimit meta with
      | Some route =>
          if allowed global then
            [global; (storeConsume (rateLimitFailOpen config) t2 (routeKey request client)
                        (opt_limit route) (opt_windowMs route) L1).2]
          else [global]
      | None => [global]
      end
  | Throw _ => []
  end.

Definition untouched (reply : Headers) : Prop :=
  reply !! "x-ratelimit-degraded" = None ∧ reply !! "x-ratelimit-limit" = None ∧
  reply !! "x-ratelimit-remaining" = None.

(** What the headers say about the budgets consulted so far. *)
Definition headers_ok (rs : list RateLimitResult) (reply : Headers) : Prop :=
  if existsb degraded rs then
    reply !! "x-ratelimit-degraded" = Some "true" ∧
    reply !! "x-ratelimit-limit" = None ∧ reply !! "x-ratelimit-remaining" = None
  else match last rs with
  | Some r =>
      reply !! "x-ratelimit-degraded" = None ∧
      reply !! "x-ratelimit-limit" = Some (decZ (limit r)) ∧
      reply !! "x-ratelimit-remaining" = Some (decZ (Z.max 0 (limit r - count r)))
  | None => untouched reply
  end.

Lemma setHeaders_ok rs r reply :
  headers_ok rs reply → headers_ok (rs ++ [r]) (setHeaders r reply).
Proof.
  unfold headers_ok, setHeaders. rewrite existsb_app, last_snoc. simpl.
  destruct (degraded r), (existsb degraded rs) eqn:E; simpl.
  - intros (H1 & H2 & H3). by simplify_map_eq.
  - intros _. by simplify_map_eq.
  - intros (H1 & H2 & H3). rewrite H1. by split_and!.
  - intros Hl. assert (reply !! "x-ratelimit-degraded" = None) as ->.
    { destruct (last rs); [apply Hl|apply Hl]. }
    simplify_map_eq. split; [|done]. destruct (last rs); apply Hl.
Qed.

Lemma canActivate_headers meta request t1 t2 L reply :
  isHttp meta = true → noRateLimit meta = false → untouched reply →
  headers_ok (consulted meta request t1 t2 L) (canActivate meta request t1 t2 L reply).1.2.
Proof.
  intros Hh Hn Hu. unfold canActivate, consulted. rewrite Hh, Hn. simpl.
  destruct (clientId request) as [client|e]; [|done].
  destruct (storeConsume _ t1 _ _ _ L) as [L1 g].
  pose proof (setHeaders_ok [] g reply Hu) as H1.
  destruct (allowed g); simpl; destruct (rateLimit meta) as [o|]; try done.
  destruct (storeConsume _ t2 _ _ _ L1) as [L2 r].
  pose proof (setHeaders_ok [g] r _ H1) as H2. by destruct (allowed r).
Qed.

(** The response's rate-limit headers are truthful: they carry the figures
    of the last budget consulted when every consulted budget could be read, and
    no figures but the degraded flag as soon as one could not, whichever one it
    was. *)
Theorem guard_headers_truthful meta request t1 t2 L reply :
  isHttp meta = true → noRateLimit meta = false → untouched reply →
  headers_ok (consulted meta request t1 t2 L) (canActivate meta request t1 t2 L reply).1.2.
Proof. apply canActivate_headers. Qed.

(** ** Traffic through the guard *)

Record visit := {
  v_meta : RouteMetadata; v_request : FastifyRequest; v_first : moment; v_second : moment;
}.

(** Requests in arrival order, each with a fresh reply: the time of the checks
    that passed, for the requests of [client] whose budget could be read. *)
Fixpoint served (client : string) (L : Limiter) (vs : list visit) : list Z :=
  match vs with
  | [] => []
  | v :: vs =>
      let '(L', hs, r) := canActivate (v_meta v) (v_request v) (v_first v) (v_second v) L ∅ in
      (if bool_decide (clientId (v_request v) = Ok client) &&
          match r with Ok _ => true | Throw _ => false end &&
          reachable (v_first v) && isHttp (v_meta v) && negb (noRateLimit (v_meta v))
       then [time (v_first v)] else [])
      ++ served client L' vs
  end.

Fixpoint visits_in_order (now : Z) (vs : list visit) : Prop :=
  match vs with
  | [] => True
  | v :: vs =>
      now ≤ time (v_first v) ∧ time (v_first v) ≤ time (v_second v) ∧
      visits_in_order (time (v_second v)) vs
  end.

Lemma clientKey_routeKey c request c' : routeKey request c' ≠ clientKey c.
Proof. unfold routeKey, clientKey. intros He. vm_compute in He. discriminate He. Qed.

Lemma clientKey_inj c c' : clientKey c = clientKey c' → c = c'.
Proof. intros He. by apply (inj (String.app "rl:client:")) in He. Qed.

Section budget.
Context (client : string).
Hypothesis window_pos : 0 < rateLimitDefaultWindowMs config.
Hypothesis limit_pos : 0 < rateLimitDefaultLimit config.

#[local] Abbreviation key_inv_client :=
  (key_inv (clientKey client) (rateLimitDefaultWindowMs config) (rateLimitDefaultLimit config)).

(** One request: what it adds to the client's log covers what it was served. *)
Lemma canActivate_inv v L log now :
  key_inv_client L log now → now ≤ time (v_first v) → time (v_first v) ≤ time (v_second v) →
  ∃ log', key_inv_client
      (canActivate (v_meta v) (v_request v) (v_first v) (v_second v) L ∅).1.1
      (log ++ log') (time (v_second v)) ∧
    ∀ vs, served client L (v :: vs) `sublist_of` log'.*2 ++ served client
      (canActivate (v_meta v) (v_request v) (v_first v) (v_second v) L ∅).1.1 vs.
Proof.
  intros Hinv H1 H2. simpl served. unfold canActivate.
  assert (Hlater : ∀ L' l t, key_inv_client L' l t → t ≤ time (v_second v) →
    key_inv_client L' l (time (v_second v))).
  { intros L' l t [] Ht. split; try done; [lia|].
    by eapply inv_later. }
  destruct (isHttp (v_meta v)) eqn:Eh; simpl.
  2: { exists []. rewrite app_nil_r. split; [eapply Hlater; [done|lia]|].
       intros vs. by rewrite !andb_false_r. }
  destruct (noRateLimit (v_meta v)) eqn:En; simpl.
  { exists []. rewrite app_nil_r. split; [eapply Hlater; [done|lia]|].
    intros vs. by rewrite !andb_false_r. }
  destruct (clientId (v_request v)) as [c|e] eqn:Ec; simpl.
  2: { exists []. rewrite app_nil_r. split; [eapply Hlater; [done|lia]|].
       intros vs. done. }
  pose proof (storeConsume_inv (rateLimitFailOpen config) (clientKey client) _ _ window_pos limit_pos
    L (v_first v) (clientKey c) _ _ log now Hinv H1 (λ _, conj eq_refl eq_refl)) as Hs.
  assert (Hread : c = client → reachable (v_first v) = true →
    degraded (storeConsume (rateLimitFailOpen config) (v_first v) (clientKey c)
      (rateLimitDefaultLimit config) (rateLimitDefaultWindowMs config) L).2 = false).
  { intros -> Hr. by eapply storeConsume_readable. }
  destruct (storeConsume _ (v_first v) _ _ _ L) as [L1 g]. destruct Hs as (m & Hinv1).
  set (log' := if counts (clientKey client) (clientKey c) g then [(m, time (v_first v))] else []) in *.
  assert (Hcover : allowed g = true → ∀ l : list Z,
    (if bool_decide (Ok c = Ok client :> M string) && true && reachable (v_first v) && true && true
     then [time (v_first v)] else []) ++ l `sublist_of` log'.*2 ++ l).
  { intros Ha l. apply sublist_app; [|done]. case_bool_decide as Hc; [|apply sublist_nil_l].
    injection Hc as ->. destruct (reachable (v_first v)); [|apply sublist_nil_l].
    specialize (Hread eq_refl eq_refl). simpl in Hread. unfold log', counts.
    by rewrite bool_decide_true, Ha, Hread by done. }
  destruct (allowed g) eqn:Ea; simpl.
  2: { exists log'. split; [by eapply Hlater|]. intros vs. rewrite !andb_false_r.
       by apply sublist_inserts_l. }
  destruct (rateLimit (v_meta v)) as [o|]; simpl.
  2: { exists log'. split; [by eapply Hlater|]. intros vs. by apply Hcover. }
  pose proof (storeConsume_inv (rateLimitFailOpen config) (clientKey client) _ _ window_pos limit_pos
    L1 (v_second v) (routeKey (v_request v) c) (opt_limit o) (opt_windowMs o) (log ++ log') _ Hinv1 H2
    (λ He, False_ind _ (clientKey_routeKey _ _ _ He))) as Hs.
  destruct (storeConsume _ (v_second v) _ _ _ L1) as [L2 r]. destruct Hs as (m2 & Hinv2).
  unfold counts in Hinv2. rewrite bool_decide_false in Hinv2 by apply clientKey_routeKey.
  simpl in Hinv2. rewrite app_nil_r in Hinv2.
  destruct (allowed r); simpl; exists log'; (split; [done|]); intros vs.
  - by apply Hcover.
  - rewrite !andb_false_r. by apply sublist_inserts_l.
Qed.

Lemma served_log vs L log now :
  key_inv_client L log now → visits_in_order now vs →
  ∃ log', within_limit (rateLimitDefaultWindowMs config) (rateLimitDefaultLimit config) (log ++ log') ∧
    served client L vs `sublist_of` log'.*2.
Proof.
  revert L log now. induction vs as [|v vs IH]; intros L log now Hinv Hord.
  { exists []. rewrite app_nil_r. split; [apply Hinv|done]. }
  destruct Hord as (H1 & H2 & Hord).
  destruct (canActivate_inv v L log now Hinv H1 H2) as (l1 & Hinv1 & Hsub).
  destruct (IH _ _ _ Hinv1 Hord) as (l2 & Hl & Hs2). exists (l1 ++ l2).
  rewrite app_assoc. split; [done|]. rewrite fmap_app. etrans; [apply Hsub|].
  by apply sublist_app.
Qed.

Lemma window_count_sublist w t (l : list Z) (log : list (string * Z)) :
  l `sublist_of` log.*2 →
  (length (filter (λ x, (t - w < x ≤ t)%Z) l)
    ≤ length (filter (λ e : string * Z, (t - w < e.2 ≤ t)%Z) log))%nat.
Proof.
  intros Hs. etrans; [by apply filter_length_sublist|].
  by rewrite (filter_length_fmap snd (λ x : Z, (t - w < x ≤ t)%Z)).
Qed.
End budget.

(** The denial-of-service control: whatever routes a client's requests hit
    and however they are annotated, in no window of the configured length does
    the guard let through more of them than the default budget. *)
Theorem client_budget_bound client L vs t0 :
  0 < rateLimitDefaultWindowMs config → 0 < rateLimitDefaultLimit config →
  0 ≤ t0 → load t0 (clientKey client) (store L) = None → visits_in_order t0 vs →
  ∀ t, Z.of_nat (length (filter (λ x, t - rateLimitDefaultWindowMs config < x ≤ t)
                   (served client L vs))) ≤ rateLimitDefaultLimit config.
Proof.
  intros Hw Hl H0 Hload Hord t.
  destruct (served_log client Hw Hl vs L [] t0) as (log & Hlim & Hsub); [|done|].
  - by apply key_inv_empty.
  - specialize (Hlim t). apply (window_count_sublist (rateLimitDefaultWindowMs config) t) in Hsub.
    simpl in Hlim. lia.
Qed.
End guard.

(** ** The guard at work *)

#[local] Existing Instance RedisMap.Redis_map.

Module GuardSample.
Definition config : GuardConfig :=
  {| rateLimitDefaultLimit := 2; rateLimitDefaultWindowMs := 1000; rateLimitFailOpen := true |}.
Definition login_route : RouteMetadata :=
  {| isHttp := true; noRateLimit := false;
     rateLimit := Some {| opt_limit := 20; opt_windowMs := 60000 |} |}.
Definition from_ip (ip : string) : FastifyRequest :=
  {| req_method := "POST"; routeOptionsUrl := Some "/api/auth/login"; req_url := "/api/auth/login?x=1";
     req_ip := Some ip |}.
Definition visit_at (ip : string) (t : Z) : visit :=
  {| v_meta := login_route; v_request := from_ip ip;
     v_first := {| time := t; reachable := true |}; v_second := {| time := t; reachable := true |} |}.

(** Three addresses of one /64, and one of another. *)
Definition visits : list visit :=
  [ visit_at "2001:db8::1" 10; visit_at "2001:db8::2" 20; visit_at "2001:db8:0:1::1" 30;
    visit_at "2001:db8::3" 40; visit_at "2001:db8::4" 1010 ].
Definition L0 : Limiter := {| store := (∅ : redis); ids := {| instanceId := "abc"; counter := 0 |} |}.

Example visits_served : served config "2001:db8:0:0::/64" L0 visits = [10; 20; 1010].
Proof. vm_compute. reflexivity. Qed.

(** The headers name the route's budget even when the general one is the tighter:
    with 2 requests a second for the client and 20 a minute for the route, the
    second request is told that 18 remain, and the third is refused. *)
Definition after (n : nat) : Headers * M bool :=
  let run := fix run (n : nat) (L : Limiter) : Headers * M bool :=
    let '(L', hs, r) := canActivate config login_route (from_ip "203.0.113.7")
      {| time := 10; reachable := true |} {| time := 10; reachable := true |} L ∅ in
    match n with O => (hs, r) | S n => run n L' end in
  run n L0.

Example headers_not_the_tighter :
  ((after 1).1 !! "x-ratelimit-remaining", (after 1).2, (after 2).2)
    = (Some "18", Ok true, Throw (EDomain (TooManyRequestsError 1000))).
Proof. vm_compute. reflexivity. Qed.
End GuardSample.

Lemma guard_headers_truthful_witness :
  headers_ok (consulted GuardSample.config GuardSample.login_route (GuardSample.from_ip "10.0.0.1")
      {| time := 10; reachable := true |} {| time := 11; reachable := false |} GuardSample.L0)
    (canActivate GuardSample.config GuardSample.login_route (GuardSample.from_ip "10.0.0.1")
      {| time := 10; reachable := true |} {| time := 11; reachable := false |} GuardSample.L0 ∅).1.2.
Proof. apply guard_headers_truthful; [reflexivity|reflexivity|by split_and!]. Defined.

Lemma client_budget_bound_witness :
  Z.of_nat (length (filter (λ x, 1010 - 1000 < x ≤ 1010)
    (served GuardSample.config "2001:db8:0:0::/64" GuardSample.L0 GuardSample.visits))) ≤ 2.
Proof.
  apply (client_budget_bound GuardSample.config "2001:db8:0:0::/64" GuardSample.L0
           GuardSample.visits 0); vm_compute; done.
Defined.
