(* ===== verification/LoginThrottle.v ===== *)
(** The login throttle: services/auth/src/auth/login-throttle.service.ts. *)
From S2P Require Import Prelude Domain AuditHash Base64 ClientAddress RateLimit Limiter.
#[local] Open Scope Z_scope.

Record ThrottleConfig := {
  loginThrottleLimit : Z;
  loginThrottleWindowMs : Z;
  throttleFailOpen : bool;      (* RATE_LIMIT_FAIL_OPEN, which [consume] reads *)
}.

Section throttle.
Context `{Sha256} `{Redis} (config : ThrottleConfig).

Definition accountKey (tenantId email : string) : string :=
  "login:acct:" +:+
    String.substring 0 32 (to_base64url (sha256 (tenantId +:+ ":" +:+ toLowerCase (trim email)))).

(** [rateLimitIdentity] throws on an address it cannot expand. *)
Definition addressKey (ip : string) : M string :=
  identity ← rateLimitIdentity ip; mret ("login:addr:" +:+ identity).

Abbreviation peekCounter t key L :=
  (storePeek t key (loginThrottleLimit config) (loginThrottleWindowMs config) L).
Abbreviation countFailure t key L :=
  (storeConsume (throttleFailOpen config) t key (loginThrottleLimit config)
     (loginThrottleWindowMs config) L).

(** [Promise.all] sends both commands; the account's is sent first, and neither
    rejects. *)
Definition assertWithinLimits (tenantId email ip : string) (ta td : moment) (L : Limiter)
    : Limiter * M unit :=
  let '(L1, account) := peekCounter ta (accountKey tenantId email) L in
  match addressKey ip with
  | Throw e => (L1, Throw e)
  | Ok addrKey =>
      let '(L2, address) := peekCounter td addrKey L1 in
      (L2,
       if degraded account || degraded address then Throw (EDomain LoginThrottleUnavailableError)
       else if negb (allowed account) || negb (allowed address) then
         let wait := Z.max (if allowed account then 0 else retryAfterMs account)
                           (if allowed address then 0 else retryAfterMs address) in
         Throw (EDomain (TooManyRequestsError wait))
       else Ok ())
  end.

Definition recordFailure (tenantId email ip : string) (ta td : moment) (L : Limiter)
    : Limiter * M unit :=
  let '(L1, _) := countFailure ta (accountKey tenantId email) L in
  match addressKey ip with
  | Throw e => (L1, Throw e)
  | Ok addrKey =>
      let '(L2, _) := countFailure td addrKey L1 in
      (L2, Ok ())
  end.

Definition recordSuccess (tenantId email : string) (t : moment) (L : Limiter) : Limiter :=
  storeReset t (accountKey tenantId email) L.

(** ** The keys of the two counters *)

Lemma account_not_address t e ip k : addressKey ip = Ok k → accountKey t e ≠ k.
Proof.
  unfold addressKey, accountKey. destruct (rateLimitIdentity ip) as [q|x]; [|done].
  simpl. intros [= <-] He. vm_compute in He. discriminate He.
Qed.

Lemma addressKey_total ip : ∃ k, addressKey ip = Ok k.
Proof.
  unfold addressKey. destruct (rateLimitIdentity_total ip) as [q ->]. simpl. eauto.
Qed.

(** ** Login attempts

    One attempt after another, as the service sees them: the check, then the
    password, then the record of the outcome. *)
Record attempt := {
  a_tenant : string; a_email : string; a_ip : string;
  a_check_acct : moment; a_check_addr : moment;
  a_correct : bool;
  a_record_acct : moment; a_record_addr : moment;
}.

Inductive verdict := Refused (e : exn) | Failed | Succeeded.

Definition attempt_step (a : attempt) (L : Limiter) : Limiter * verdict :=
  let '(L1, r) := assertWithinLimits (a_tenant a) (a_email a) (a_ip a)
                    (a_check_acct a) (a_check_addr a) L in
  match r with
  | Throw e => (L1, Refused e)
  | Ok _ =>
      if a_correct a
      then (recordSuccess (a_tenant a) (a_email a) (a_record_acct a) L1, Succeeded)
      else ((recordFailure (a_tenant a) (a_email a) (a_ip a)
               (a_record_acct a) (a_record_addr a) L1).1, Failed)
  end.

(** When the wrong passwords charged to key [k] were charged, and whether the
    record reached Redis. *)
Definition charged (k : string) (a : attempt) (v : verdict) : list moment :=
  match v with
  | Failed =>
      (if bool_decide (accountKey (a_tenant a) (a_email a) = k) then [a_record_acct a] else []) ++
      (if bool_decide (addressKey (a_ip a) = Ok k) then [a_record_addr a] else [])
  | _ => []
  end.

(** When a proven password emptied key [k]. *)
Definition forgiven (k : string) (a : attempt) (v : verdict) : list Z :=
  match v with
  | Succeeded =>
      if bool_decide (accountKey (a_tenant a) (a_email a) = k) && reachable (a_record_acct a)
      then [time (a_record_acct a)] else []
  | _ => []
  end.

Fixpoint failures (k : string) (L : Limiter) (az : list attempt) : list moment :=
  match az with
  | [] => []
  | a :: az => let '(L', v) := attempt_step a L in charged k a v ++ failures k L' az
  end.
Fixpoint successes (k : string) (L : Limiter) (az : list attempt) : list Z :=
  match az with
  | [] => []
  | a :: az => let '(L', v) := attempt_step a L in forgiven k a v ++ successes k L' az
  end.

(** The times of the records that were lost. *)
Definition unrecorded (ms : list moment) : list Z := time <$> filter (λ m, reachable m = false) ms.

(** Attempts one after another. *)
Fixpoint sequential (now : Z) (az : list attempt) : Prop :=
  match az with
  | [] => True
  | a :: az =>
      now ≤ time (a_check_acct a) ∧ time (a_check_acct a) ≤ time (a_check_addr a) ∧
      time (a_check_addr a) ≤ time (a_record_acct a) ∧
      time (a_record_acct a) ≤ time (a_record_addr a) ∧ sequential (time (a_record_addr a)) az
  end.

(** ** No key is charged more than the limit *)
Section bound.
Context (k : string).
Hypothesis window_pos : 0 < loginThrottleWindowMs config.
Hypothesis limit_pos : 0 < loginThrottleLimit config.

#[local] Abbreviation inv := (key_inv k (loginThrottleWindowMs config) (loginThrottleLimit config)).
#[local] Abbreviation room L log t :=
  (Z.of_nat (length (window_log (loginThrottleWindowMs config) t log)) < loginThrottleLimit config).

Lemma room_later L log now t t' : inv L log now → t ≤ t' → room L log t → room L log t'.
Proof.
  intros _ Hle Hr. eapply Z.le_lt_trans; [|exact Hr].
  apply Nat2Z.inj_le. by apply window_log_mono.
Qed.

(** A check that passes leaves [k] in step, and with room if it was checked. *)
Lemma check_inv a L log now :
  inv L log now → now ≤ time (a_check_acct a) → time (a_check_acct a) ≤ time (a_check_addr a) →
  let '(L', r) := assertWithinLimits (a_tenant a) (a_email a) (a_ip a)
                    (a_check_acct a) (a_check_addr a) L in
  inv L' log (time (a_check_addr a)) ∧
  (r = Ok () → (accountKey (a_tenant a) (a_email a) = k ∨ addressKey (a_ip a) = Ok k) →
   room L' log (time (a_check_addr a))).
Proof.
  intros Hinv H1 H2. unfold assertWithinLimits.
  destruct (addressKey_total (a_ip a)) as [ak Hak]. rewrite Hak.
  pose proof (storePeek_inv (throttleFailOpen config) k _ _ window_pos limit_pos L (a_check_acct a)
    (accountKey (a_tenant a) (a_email a)) (loginThrottleLimit config) _ log now Hinv H1 (λ _, eq_refl))
    as Hinv1.
  pose proof (storePeek_allowed k _ _ window_pos L (a_check_acct a)
    (accountKey (a_tenant a) (a_email a)) (loginThrottleLimit config) log now Hinv H1) as Hp1.
  destruct (storePeek (a_check_acct a) _ _ _ L) as [L1 p1].
  pose proof (storePeek_inv (throttleFailOpen config) k _ _ window_pos limit_pos L1 (a_check_addr a)
    ak (loginThrottleLimit config) _ log _ Hinv1 H2 (λ _, eq_refl)) as Hinv2.
  pose proof (storePeek_allowed k _ _ window_pos L1 (a_check_addr a)
    ak (loginThrottleLimit config) log _ Hinv1 H2) as Hp2.
  destruct (storePeek (a_check_addr a) _ _ _ L1) as [L2 p2]. simpl in *.
  split; [done|]. destruct (degraded p1), (degraded p2); try done. simpl.
  destruct (allowed p1), (allowed p2); try done. intros _ [He|[= He]].
  - eapply room_later; [exact Hinv1|exact H2|by apply Hp1].
  - by apply Hp2.
Qed.
(** A proven password forgives its account and nobody else. *)
Lemma success_inv tenant email t L log now :
  inv L log now → now ≤ time t →
  inv (recordSuccess tenant email t L)
    (if bool_decide (accountKey tenant email = k) && reachable t then [] else log) (time t).
Proof.
  intros Hinv Hle. destruct (decide (accountKey tenant email = k)) as [Hk|Hk].
  - rewrite bool_decide_true by done. unfold recordSuccess, storeReset, server_of. destruct (reachable t) eqn:Er; cbn [andb reset].
    + destruct Hinv as [Hn _ _ _ _]. split; simpl; [lia| | | |constructor].
      * apply inv_empty; [done|]. rewrite Hk. apply load_del.
      * intros u. simpl. lia.
      * intros n _. set_solver.
    + replace {| store := store L; ids := ids L |} with L by by destruct L. by eapply key_inv_later.
  - rewrite bool_decide_false by done. cbn.
    by apply (storeReset_inv (throttleFailOpen config) k _ _ window_pos limit_pos L t _ log now).
Qed.

(** One failure, on whichever key: counted when it reaches Redis. *)
Lemma count_inv L t key log now :
  inv L log now → now ≤ time t → (key = k → room L log (time t)) →
  ∃ log', inv (storeConsume (throttleFailOpen config) t key (loginThrottleLimit config)
                 (loginThrottleWindowMs config) L).1 (log ++ log') (time t) ∧
    log'.*2 = if bool_decide (key = k) && reachable t then [time t] else [].
Proof.
  intros Hinv Hle Hroom.
  pose proof (storeConsume_inv (throttleFailOpen config) k _ _ window_pos limit_pos L t key
    (loginThrottleLimit config) _ log now Hinv Hle (λ _, conj eq_refl eq_refl)) as Hs.
  assert (Hc : counts k key (storeConsume (throttleFailOpen config) t key (loginThrottleLimit config)
                 (loginThrottleWindowMs config) L).2 = bool_decide (key = k) && reachable t).
  { case_bool_decide as Hk; [subst key|by unfold counts; rewrite bool_decide_false].
    destruct (reachable t) eqn:Er; [by eapply storeConsume_counts; eauto|].
    unfold counts, storeConsume, server_of, consume, nextMemberId. rewrite Er. cbn. by rewrite andb_false_r. }
  destruct (storeConsume _ t key _ _ L) as [L' r]. destruct Hs as (m & Hinv').
  simpl in *. rewrite Hc in Hinv'. eexists. split; [exact Hinv'|]. by destruct (_ && _).
Qed.

Definition recorded (ms : list moment) : list Z := time <$> filter (λ m, reachable m = true) ms.

Lemma recorded_app l1 l2 : recorded (l1 ++ l2) = recorded l1 ++ recorded l2.
Proof. unfold recorded. by rewrite filter_app, fmap_app. Qed.
Lemma recorded_one m (b : bool) :
  recorded (if b then [m] else []) = if b && reachable m then [time m] else [].
Proof. destruct b; [|done]. unfold recorded. rewrite filter_cons. by case_decide; destruct (reachable m). Qed.

(** An attempt empties the bucket of [k], or counts its recorded charges on it. *)
Lemma attempt_inv a L log now :
  inv L log now → sequential now [a] →
  let v := (attempt_step a L).2 in let L' := (attempt_step a L).1 in
  (forgiven k a v = [time (a_record_acct a)] ∧ charged k a v = [] ∧ inv L' [] (time (a_record_addr a))) ∨
  (forgiven k a v = [] ∧
   ∃ log', inv L' (log ++ log') (time (a_record_addr a)) ∧ recorded (charged k a v) = log'.*2).
Proof.
  intros Hinv (H1 & H2 & H3 & H4 & _). unfold attempt_step.
  pose proof (check_inv a L log now Hinv H1 H2) as Hcheck.
  destruct (assertWithinLimits _ _ _ _ _ L) as [L1 [[]|e]]; destruct Hcheck as [Hinv1 Hroom].
  2: { right. split; [done|]. exists []. rewrite app_nil_r. split; [|done].
       eapply key_inv_later; [done| |exact Hinv1]; lia. }
  destruct (a_correct a); cbn [fst snd forgiven charged].
  - pose proof (success_inv (a_tenant a) (a_email a) (a_record_acct a) L1 log _ Hinv1 H3) as Hs.
    destruct (bool_decide _ && reachable _); [left|right]; (split; [done|]);
      [split; [done|]|exists []; rewrite app_nil_r; split; [|done]]; by eapply key_inv_later.
  - right. split; [done|]. unfold recordFailure.
    destruct (addressKey_total (a_ip a)) as [ak Hak]. rewrite Hak. specialize (Hroom eq_refl).
    destruct (count_inv L1 (a_record_acct a) (accountKey (a_tenant a) (a_email a)) log _ Hinv1 H3) as (l1 & Hinv2 & Hl1).
    { intros He. eapply room_later; [exact Hinv1|exact H3|]. apply Hroom. by left. }
    destruct (storeConsume _ (a_record_acct a) _ _ _ L1) as [L2 r1]. simpl in Hinv2.
    destruct (count_inv L2 (a_record_addr a) ak (log ++ l1) _ Hinv2 H4) as (l2 & Hinv3 & Hl2).
    { intros ->. assert (l1 = []) as ->.
      { rewrite bool_decide_false in Hl1 by (by eapply account_not_address). by destruct l1. }
      rewrite app_nil_r.
      apply (room_later L1 log _ (time (a_check_addr a)) _ Hinv1); [lia|]. apply Hroom. by right. }
    destruct (storeConsume _ (a_record_addr a) _ _ _ L2) as [L3 r2]. simpl in *.
    exists (l1 ++ l2). rewrite app_assoc. split; [done|].
    rewrite fmap_app, Hl1, Hl2, recorded_app, !recorded_one. f_equal.
    by rewrite (bool_decide_ext (Ok ak = Ok k :> M string) (ak = k)) by naive_solver.
Qed.

Lemma charged_later a L now m : sequential now [a] → m ∈ charged k a (attempt_step a L).2 → now ≤ time m.
Proof.
  intros (H1 & H2 & H3 & H4 & _). unfold charged. destruct (attempt_step a L).2; try by intros ?%not_elem_of_nil.
  intros [Hm|Hm]%elem_of_app; case_bool_decide; try (by apply not_elem_of_nil in Hm);
    apply list_elem_of_singleton in Hm as ->; lia.
Qed.
Lemma failures_later az L now m : sequential now az → m ∈ failures k L az → now ≤ time m.
Proof.
  revert L now. induction az as [|a az IH]; intros L now; [by intros _ ?%not_elem_of_nil|].
  intros (H1 & H2 & H3 & H4 & Hs). pose proof (charged_later a L now m) as Hc. cbn [failures].
  destruct (attempt_step a L) as [L' v]. intros [Hm|Hm]%elem_of_app; [apply Hc; [|done]; by split_and!|].
  specialize (IH L' _ Hs Hm). lia.
Qed.

Lemma in_window_recorded w t ms :
  in_window w t (time <$> ms) = in_window w t (recorded ms) + in_window w t (unrecorded ms).
Proof.
  unfold recorded, unrecorded. induction ms as [|m ms IH]; [done|]. rewrite fmap_cons, in_window_cons, IH, !filter_cons.
  destruct (reachable m) eqn:Er; repeat case_decide; try congruence; rewrite fmap_cons, (in_window_cons w t (time m) (time <$> _)); lia.
Qed.
Lemma unrecorded_app l1 l2 : unrecorded (l1 ++ l2) = unrecorded l1 ++ unrecorded l2.
Proof. unfold unrecorded. by rewrite filter_app, fmap_app. Qed.

Lemma failures_bound az L log now t :
  inv L log now → sequential now az →
  let w := loginThrottleWindowMs config in
  in_window w t log.*2 + in_window w t (time <$> failures k L az)
    ≤ loginThrottleLimit config * (1 + in_window w t (successes k L az)) + in_window w t (unrecorded (failures k L az)).
Proof.
  intros Hinv Hs w. subst w. revert L log now Hinv Hs. induction az as [|a az IH]; intros L log now Hinv Hs.
  { pose proof (proj1 (within_limit_times _ _ _) (key_limit _ _ _ _ _ _ Hinv) t). cbn [failures successes].
    change (in_window (loginThrottleWindowMs config) t []) with 0.
    change (in_window (loginThrottleWindowMs config) t (time <$> [])) with 0.
    change (in_window (loginThrottleWindowMs config) t (unrecorded [])) with 0. lia. }
  assert (Hs1 : sequential now [a]) by (simpl in *; tauto).
  assert (Hs2 : sequential (time (a_record_addr a)) az) by (simpl in Hs; tauto).
  pose proof (attempt_inv a L log now Hinv Hs1) as Hstep. cbn [failures successes].
  pose proof (λ u, charged_later a L now u Hs1) as Hlater. destruct (attempt_step a L) as [L' v]. cbn [fst snd] in *.
  rewrite unrecorded_app, fmap_app, !in_window_app.
  destruct Hstep as [(Hf & Hc & Hinv')|(Hf & log' & Hinv' & Hc)]; rewrite Hf.
  - rewrite Hc. specialize (IH L' [] _ Hinv' Hs2). change (in_window (loginThrottleWindowMs config) t [].*2) with 0 in IH.
    change (in_window _ _ (time <$> [])) with 0. change (in_window _ _ (unrecorded [])) with 0. rewrite !Z.add_0_l in *.
    destruct Hs1 as (H1 & H2 & H3 & H4 & _).
    apply in_window_reset; try done; try apply in_window_nonneg; [| |by apply within_limit_times; destruct Hinv].
    + intros u (e & -> & He)%list_elem_of_fmap. destruct Hinv as [_ Hw _ _ _]. apply (inv_past _ _ _ _ _ Hw) in He. lia.
    + intros u (m & -> & Hm)%list_elem_of_fmap. pose proof (failures_later az L' _ m Hs2 Hm). lia.
  - specialize (IH L' _ _ Hinv' Hs2). rewrite fmap_app, in_window_app, <- Hc in IH.
    rewrite in_window_recorded. change (in_window (loginThrottleWindowMs config) t []) with 0. rewrite Z.add_0_l. lia.
Qed.
End bound.

(** C15. Guessing is bounded on both axes. For attempts made one after another, on
    any accounts from any addresses and through any outages of Redis: the wrong
    passwords verified against an account, or from an address, in any window of
    the configured length are at most the limit for every time the account's
    password was proven inside the window and one more, and those whose record
    was lost because Redis stopped answering between the check and the record.
    Nothing proven and nothing lost, that is the limit; and an address is never
    forgiven. *)
Theorem login_failures_bounded k az L t0 :
  0 < loginThrottleWindowMs config → 0 < loginThrottleLimit config →
  0 ≤ t0 → load t0 k (store L) = None → sequential t0 az →
  (∀ t, in_window (loginThrottleWindowMs config) t (time <$> failures k L az)
    ≤ loginThrottleLimit config * (1 + in_window (loginThrottleWindowMs config) t (successes k L az))
      + in_window (loginThrottleWindowMs config) t (unrecorded (failures k L az))) ∧
  ((∃ ip, addressKey ip = Ok k) → successes k L az = []).
Proof.
  intros Hw Hl Ht0 Hload Hs. split.
  - intros t. assert (Hinv : key_inv k (loginThrottleWindowMs config) (loginThrottleLimit config) L [] t0)
      by by apply key_inv_empty.
    pose proof (failures_bound k Hw Hl az L [] t0 t Hinv Hs) as Hb. cbv zeta in Hb.
    by change (in_window (loginThrottleWindowMs config) t [].*2) with 0 in Hb.
  - intros [ip Hip]. clear -Hip. revert L. induction az as [|a az IH]; intros L; [done|]. cbn [successes].
    destruct (attempt_step a L) as [L' v]. rewrite IH, app_nil_r. destruct v; [done..|]. cbn.
    by rewrite bool_decide_false by (by eapply account_not_address).
Qed.

(** What the throttle knows of a request's two counters. *)
Definition counters_read (la ld : list (string * Z)) (ta td : moment) : Prop :=
  reachable ta = true ∧ reachable td = true ∧
  Z.of_nat (length (window_log (loginThrottleWindowMs config) (time ta) la)) < loginThrottleLimit config ∧
  Z.of_nat (length (window_log (loginThrottleWindowMs config) (time td) ld)) < loginThrottleLimit config.

#[local] Abbreviation counter_inv k := (key_inv k (loginThrottleWindowMs config) (loginThrottleLimit config)).

(** The check fails closed: it passes exactly when both counters could be
    read and both are below the limit. An unreadable counter is refused, whatever
    RATE_LIMIT_FAIL_OPEN says, with a wait of one second; a full one is refused
    with the longer of the two waits. The check itself counts nothing. *)
Theorem assert_fails_closed tenant email ip ak ta td L la ld now :
  0 < loginThrottleWindowMs config → 0 < loginThrottleLimit config → addressKey ip = Ok ak →
  counter_inv (accountKey tenant email) L la now → counter_inv ak L ld now →
  now ≤ time ta → time ta ≤ time td →
  let '(L', r) := assertWithinLimits tenant email ip ta td L in
  (r = Ok () ↔ counters_read la ld ta td) ∧
  (reachable ta && reachable td = false → r = Throw (EDomain LoginThrottleUnavailableError)) ∧
  (reachable ta && reachable td = true → r ≠ Ok () →
   ∃ wait, r = Throw (EDomain (TooManyRequestsError wait))) ∧
  counter_inv (accountKey tenant email) L' la (time td) ∧ counter_inv ak L' ld (time td).
Proof.
  intros Hw Hl Hak Hia Hid H1 H2. unfold assertWithinLimits. rewrite Hak.
  pose proof (storePeek_inv (throttleFailOpen config) (accountKey tenant email) _ _ Hw Hl L ta
    (accountKey tenant email) (loginThrottleLimit config) _ la now Hia H1 (λ _, eq_refl)) as Hia1.
  pose proof (storePeek_inv (throttleFailOpen config) ak _ _ Hw Hl L ta
    (accountKey tenant email) (loginThrottleLimit config) _ ld now Hid H1 (λ _, eq_refl)) as Hid1.
  pose proof (storePeek_report _ _ _ Hw L ta (loginThrottleLimit config) la now Hia H1) as Hp1.
  destruct (storePeek ta _ _ _ L) as [L1 p1]. simpl in *.
  pose proof (storePeek_inv (throttleFailOpen config) (accountKey tenant email) _ _ Hw Hl L1 td
    ak (loginThrottleLimit config) _ la _ Hia1 H2 (λ _, eq_refl)) as Hia2.
  pose proof (storePeek_inv (throttleFailOpen config) ak _ _ Hw Hl L1 td
    ak (loginThrottleLimit config) _ ld _ Hid1 H2 (λ _, eq_refl)) as Hid2.
  pose proof (storePeek_report _ _ _ Hw L1 td (loginThrottleLimit config) ld _ Hid1 H2) as Hp2.
  destruct (storePeek td _ _ _ L1) as [L2 p2]. simpl in *.
  unfold counters_read.
  destruct (reachable ta); [destruct Hp1 as [Hp1 Ha1]|];
    (destruct (reachable td); [destruct Hp2 as [Hp2 Ha2]|]); rewrite Hp1, Hp2; simpl;
    try (split_and!; try done; naive_solver).
  destruct (Z.ltb_spec (Z.of_nat (length (window_log (loginThrottleWindowMs config) (time ta) la)))
              (loginThrottleLimit config)), (Z.ltb_spec (Z.of_nat (length
                (window_log (loginThrottleWindowMs config) (time td) ld))) (loginThrottleLimit config));
    rewrite Ha1, Ha2; simpl; split_and!; try done; try (split; [done|lia]); eauto.
Qed.

(** Proving the password forgives the account and nobody else: after a
    success that reaches Redis the account's counter starts again from nothing,
    and every other counter, the address's among them, still holds what it held. *)
Theorem success_clears_only_account tenant email t L k log now :
  0 < loginThrottleWindowMs config → 0 < loginThrottleLimit config →
  counter_inv k L log now → now ≤ time t → reachable t = true →
  counter_inv k (recordSuccess tenant email t L)
    (if bool_decide (accountKey tenant email = k) then [] else log) (time t).
Proof.
  intros Hw Hl Hinv Hle Ht. pose proof (success_inv k Hw Hl tenant email t L log now Hinv Hle) as Hs.
  by rewrite Ht, andb_true_r in Hs.
Qed.

(** The text whose digest names an account's counter. *)
Definition account_text (tenantId email : string) : string :=
  tenantId +:+ ":" +:+ toLowerCase (trim email).

(** Two accounts share a failure counter only if they are one account: the
    same tenant (whose id holds no colon) and, up to case and surrounding space,
    the same email address, as long as their texts do not collide on the 192
    bits of the digest that are kept. *)
Theorem account_counters_distinct t1 e1 t2 e2 :
  free_of ":" t1 = true → free_of ":" t2 = true →
  (String.substring 0 32 (to_base64url (sha256 (account_text t1 e1)))
     = String.substring 0 32 (to_base64url (sha256 (account_text t2 e2))) →
   account_text t1 e1 = account_text t2 e2) →
  accountKey t1 e1 = accountKey t2 e2 →
  t1 = t2 ∧ toLowerCase (trim e1) = toLowerCase (trim e2).
Proof.
  intros H1 H2 Hcol He. unfold accountKey in He.
  apply (inj (String.app "login:acct:")) in He. apply Hcol in He. unfold account_text in He.
  by apply (prefix_upto_inj (λ d, negb (Ascii.eqb d ":"))) in He.
Qed.
End throttle.

(** ** The throttle at work *)

#[local] Existing Instance RedisMap.Redis_map.
#[local] Existing Instance Sample.toy.

Module ThrottleSample.
Definition config : ThrottleConfig :=
  {| loginThrottleLimit := 2; loginThrottleWindowMs := 1000; throttleFailOpen := true |}.
Definition at_ (t : Z) : moment := {| time := t; reachable := true |}.
Definition guess (tenant email ip : string) (t : Z) : attempt :=
  {| a_tenant := tenant; a_email := email; a_ip := ip; a_check_acct := at_ t; a_check_addr := at_ t;
     a_correct := false; a_record_acct := at_ (t + 5); a_record_addr := at_ (t + 5) |}.
Definition guesses : list attempt :=
  [ guess "t1" "a@x" "10.0.0.1" 10; guess "t1" " A@x" "10.0.0.2" 20; guess "t1" "a@x" "10.0.0.3" 30;
    guess "t1" "b@x" "10.0.0.1" 40; guess "t1" "a@x" "10.0.0.1" 1020 ].
Definition L0 : Limiter := {| store := (∅ : redis); ids := {| instanceId := "abc"; counter := 0 |} |}.

Example guesses_charged : time <$> failures config (accountKey "t1" "a@x") L0 guesses = [15; 25; 1025].
Proof. vm_compute. reflexivity. Qed.

(** Check-then-count is two steps: attempts that are checked before either is
    counted all pass, so with a limit of 2 three concurrent wrong passwords are
    verified where a sequence of attempts is refused its third. *)
Definition concurrent_checks : list (M unit) :=
  let c L := assertWithinLimits config "t1" "a@x" "10.0.0.1" (at_ 10) (at_ 10) L in
  let '(L1, r1) := c L0 in let '(L2, r2) := c L1 in let '(L3, r3) := c L2 in [r1; r2; r3].

Example concurrent_checks_pass : concurrent_checks = [Ok (); Ok (); Ok ()].
Proof. vm_compute. reflexivity. Qed.
End ThrottleSample.

(** With two failures, a success and two more inside one window; the last record is
    lost. *)
Definition mixed_attempts : list attempt :=
  let good t := {| a_tenant := "t1"; a_email := "a@x"; a_ip := "10.0.0.9"; a_check_acct := ThrottleSample.at_ t;
                   a_check_addr := ThrottleSample.at_ t; a_correct := true;
                   a_record_acct := ThrottleSample.at_ (t + 5); a_record_addr := ThrottleSample.at_ (t + 5) |} in
  let lost t := {| a_tenant := "t1"; a_email := "a@x"; a_ip := "10.0.0.4"; a_check_acct := ThrottleSample.at_ t;
                   a_check_addr := ThrottleSample.at_ t; a_correct := false;
                   a_record_acct := {| time := t + 5; reachable := false |};
                   a_record_addr := {| time := t + 5; reachable := false |} |} in
  [ ThrottleSample.guess "t1" "a@x" "10.0.0.1" 10; good 20; ThrottleSample.guess "t1" "a@x" "10.0.0.2" 30; lost 40;
    ThrottleSample.guess "t1" "a@x" "10.0.0.3" 50 ].

Lemma login_failures_bounded_witness :
  time <$> failures ThrottleSample.config (accountKey "t1" "a@x") ThrottleSample.L0 mixed_attempts = [15; 35; 45; 55] ∧
  in_window 1000 55 (time <$> failures ThrottleSample.config (accountKey "t1" "a@x") ThrottleSample.L0 mixed_attempts)
    ≤ 2 * (1 + 1) + 1.
Proof.
  split; [vm_compute; reflexivity|].
  pose proof (proj1 (login_failures_bounded ThrottleSample.config (accountKey "t1" "a@x") mixed_attempts ThrottleSample.L0 0
    ltac:(done) ltac:(done) ltac:(done) ltac:(vm_compute; reflexivity)
    ltac:(cbv [sequential mixed_attempts ThrottleSample.guess ThrottleSample.at_ a_check_acct a_check_addr a_record_acct
                 a_record_addr time]; split_and!; first [lia | exact I])) 55) as Hb.
  replace (in_window _ 55 (successes _ _ _ _)) with 1 in Hb by (vm_compute; reflexivity).
  replace (in_window _ 55 (unrecorded _)) with 1 in Hb by (vm_compute; reflexivity). exact Hb.
Defined.

Lemma assert_fails_closed_witness :
  (assertWithinLimits ThrottleSample.config "t1" "a@x" "10.0.0.1" (ThrottleSample.at_ 10)
     {| time := 10; reachable := false |} ThrottleSample.L0).2
  = Throw (EDomain LoginThrottleUnavailableError).
Proof.
  pose proof (assert_fails_closed ThrottleSample.config "t1" "a@x" "10.0.0.1" "login:addr:10.0.0.1"
    (ThrottleSample.at_ 10) {| time := 10; reachable := false |} ThrottleSample.L0 [] [] 0
    ltac:(done) ltac:(done) ltac:(vm_compute; reflexivity)) as Ht.
  destruct (assertWithinLimits _ _ _ _ _ _ _) as [L' r]. apply Ht; try done;
    apply key_inv_empty; try done; vm_compute; reflexivity.
Defined.

Lemma success_clears_only_account_witness :
  key_inv "login:addr:10.0.0.1" 1000 2
    (recordSuccess "t1" "a@x" (ThrottleSample.at_ 10) ThrottleSample.L0) [] 10.
Proof.
  apply (success_clears_only_account ThrottleSample.config "t1" "a@x" (ThrottleSample.at_ 10)
    ThrottleSample.L0 "login:addr:10.0.0.1" [] 0); try done.
  apply key_inv_empty; [done..|vm_compute; reflexivity].
Defined.

Lemma account_counters_distinct_witness :
  toLowerCase (trim "Bob@x.io ") = toLowerCase (trim "bob@x.io").
Proof.
  refine (proj2 (account_counters_distinct "t1" "Bob@x.io " "t1" "bob@x.io" _ _ _ _));
    [reflexivity|reflexivity|intros _; vm_compute; reflexivity|vm_compute; reflexivity].
Defined.
