(* ===== verification/AuditWriter.v ===== *)
(** Appending to an audit chain: packages/db/src/audit/audit-writer.ts on the
    table packages/db/sql/audit-immutability.sql and the Prisma schema define.

    An append is one transaction of four statements (lock, read the head,
    insert, commit). The transactions of every process interleave statement by
    statement; [run] executes any such interleaving. *)
From S2P Require Import Prelude AuditHash.
#[local] Open Scope Z_scope.

(** ** Events *)

Inductive ActorType := actor_user | actor_control_plane | actor_system | actor_anonymous.

Definition actor_text (a : ActorType) : string :=
  match a with
  | actor_user => "user"
  | actor_control_plane => "control_plane"
  | actor_system => "system"
  | actor_anonymous => "anonymous"
  end.

(** Optional members are [None] when absent; [null] and absent are stored alike. *)
Record AppendAuditEvent := {
  ev_action : string;
  ev_actorType : ActorType;
  ev_actorId : option string;
  ev_resourceType : option string;
  ev_resourceId : option string;
  ev_traceId : option string;
  ev_sourceIp : option string;
  ev_metadata : option (list (string * string));
}.

Record AppendedAuditEvent := {
  appended_seq : Z; appended_occurredAt : string; appended_hash : Buffer; appended_prevHash : Buffer;
}.

(** The record that is hashed and stored; [now_at] is the ISO text of the
    transaction's [now()]. *)
Definition auditInput (now_at : string) (ev : AppendAuditEvent) : AuditEventInput :=
  {| action := ev_action ev; actorType := actor_text (ev_actorType ev);
     actorId := ev_actorId ev; resourceType := ev_resourceType ev;
     resourceId := ev_resourceId ev; traceId := ev_traceId ev; sourceIp := ev_sourceIp ev;
     occurredAt := now_at; metadata := default [] (ev_metadata ev) |}.

(** A JavaScript object holds each key once. *)
Definition wf_append (ev : AppendAuditEvent) : Prop := NoDup (default [] (ev_metadata ev)).*1.

(** ** The database *)

(** What jsonb gives back for an object: its entries, in an order of its own. *)
Class Jsonb := {
  jsonb : list (string * string) → list (string * string);
  jsonb_perm m : jsonb m ≡ₚ m;
}.

(** audit_events_hash_width_ck, audit_events_actor_ck, audit_events_action_ck;
    audit_events_metadata_flat_ck holds of every [AuditMetadata]. *)
Definition row_ck (r : StoredAuditEvent) : bool :=
  bool_decide (byteLength (prevHash r) = 32%nat) && bool_decide (byteLength (hash r) = 32%nat) &&
  ((bool_decide (actorType (input r) = "user") && bool_decide (actorId (input r) ≠ None)) ||
   ((bool_decide (actorType (input r) = "control_plane") ||
     bool_decide (actorType (input r) = "anonymous")) && bool_decide (actorId (input r) = None)) ||
   bool_decide (actorType (input r) = "system")) &&
  bool_decide (action (input r) ≠ "").

(** audit_events_prev_hash_unique, audit_events_hash_unique, the primary key. *)
Definition row_unique (rs : list StoredAuditEvent) (r : StoredAuditEvent) : bool :=
  bool_decide (prevHash r ∉ prevHash <$> rs) && bool_decide (hash r ∉ hash <$> rs) &&
  bool_decide (seq r ∉ seq <$> rs).

(** [ORDER BY seq DESC LIMIT 1] *)
Definition head_row (rs : list StoredAuditEvent) : option StoredAuditEvent :=
  foldl (λ acc r, match acc with
                  | Some a => if seq a <? seq r then Some r else acc
                  | None => Some r
                  end) None rs.

(** How far a transaction has come. Its event and its [now()] are its own. *)
Inductive phase :=
  | Began
  | Locked
  | HeadRead (prev_hash : option Buffer)
  | Inserted (row : StoredAuditEvent).

#[export] Instance phase_eq_dec : EqDecision phase.
Proof. solve_decision. Defined.

Record tx := { tx_now : string; tx_event : AppendAuditEvent; tx_phase : phase }.

Record audit_db := {
  rows : list StoredAuditEvent;        (* committed, in commit order *)
  next_seq : Z;                        (* the sequence; a rollback does not give back *)
  lock : option nat;                   (* pg_advisory_xact_lock(AUDIT_CHAIN_LOCK_KEY) *)
  txs : gmap nat tx;
}.

Definition empty_db : audit_db := {| rows := []; next_seq := 1; lock := None; txs := ∅ |}.

Section writer.
Context `{Sha256} `{Jsonb}.

(** The row the INSERT proposes, on the head the transaction read. *)
Definition new_row (now_at : string) (ev : AppendAuditEvent) (prev_hash : option Buffer) (n : Z)
    : result hash_error StoredAuditEvent :=
  let prev := default GENESIS_HASH prev_hash in
  let e := auditInput now_at ev in
  h ← computeAuditHash e prev;
  mret {| input := {| action := action e; actorType := actorType e; actorId := actorId e;
                      resourceType := resourceType e; resourceId := resourceId e;
                      traceId := traceId e; sourceIp := sourceIp e; occurredAt := occurredAt e;
                      metadata := jsonb (metadata e) |};
          seq := n; prevHash := prev; hash := h |}.

Definition set_tx (p : nat) (t : tx) (s : audit_db) : audit_db :=
  {| rows := rows s; next_seq := next_seq s; lock := lock s; txs := <[p := t]> (txs s) |}.

(** The end of a transaction, committed or not: its lock goes with it. *)
Definition end_tx (p : nat) (s : audit_db) : audit_db :=
  {| rows := rows s; next_seq := next_seq s;
     lock := if decide (lock s = Some p) then None else lock s; txs := delete p (txs s) |}.

Definition at_phase (t : tx) (ph : phase) : tx :=
  {| tx_now := tx_now t; tx_event := tx_event t; tx_phase := ph |}.

(** Rows inserted by transactions that have not ended. *)
Definition pending (s : audit_db) : list StoredAuditEvent :=
  omap (λ pt : nat * tx, match tx_phase pt.2 with Inserted r => Some r | _ => None end)
    (map_to_list (txs s)).

(** One statement of one process, or an autocommitted INSERT by something that is
    not this writer. [None]: the statement cannot run now (it waits). *)
Inductive label :=
  | Begin (p : nat) (now_at : string) (ev : AppendAuditEvent)
  | Lock (p : nat)
  | ReadHead (p : nat)
  | Insert (p : nat)
  | Commit (p : nat)
  | Rollback (p : nat)
  | Foreign (r : StoredAuditEvent).

Definition db_step (l : label) (s : audit_db) : option audit_db :=
  match l with
  | Begin p now_at ev =>
      match txs s !! p with
      | Some _ => None
      | None => Some (set_tx p {| tx_now := now_at; tx_event := ev; tx_phase := Began |} s)
      end
  | Lock p =>
      match txs s !! p, lock s with
      | Some {| tx_now := now_at; tx_event := ev; tx_phase := Began |}, None =>
          Some {| rows := rows s; next_seq := next_seq s; lock := Some p;
                  txs := <[p := {| tx_now := now_at; tx_event := ev; tx_phase := Locked |}]> (txs s) |}
      | _, _ => None
      end
  | ReadHead p =>
      match txs s !! p with
      | Some {| tx_now := now_at; tx_event := ev; tx_phase := Locked |} =>
          Some (set_tx p {| tx_now := now_at; tx_event := ev;
                            tx_phase := HeadRead (hash <$> head_row (rows s)) |} s)
      | _ => None
      end
  | Insert p =>
      match txs s !! p with
      | Some {| tx_now := now_at; tx_event := ev; tx_phase := HeadRead prev |} =>
          match new_row now_at ev prev (next_seq s) with
          | Throw _ => Some (end_tx p s)
          | Ok r =>
              let s' := {| rows := rows s; next_seq := next_seq s + 1; lock := lock s;
                           txs := txs s |} in
              if negb (row_unique (pending s) r) then None
              else if row_ck r && row_unique (rows s) r
              then Some (set_tx p {| tx_now := now_at; tx_event := ev; tx_phase := Inserted r |} s')
              else Some (end_tx p s')
          end
      | _ => None
      end
  | Commit p =>
      match txs s !! p with
      | Some {| tx_phase := Inserted r |} =>
          Some (end_tx p {| rows := rows s ++ [r]; next_seq := next_seq s; lock := lock s;
                            txs := txs s |})
      | _ => None
      end
  | Rollback p =>
      match txs s !! p with
      | Some _ => Some (end_tx p s)
      | None => None
      end
  | Foreign r =>
      if row_unique (pending s) r && row_ck r && row_unique (rows s) r
      then Some {| rows := rows s ++ [r]; next_seq := next_seq s; lock := lock s; txs := txs s |}
      else None
  end.

Fixpoint run (tr : list label) (s : audit_db) : option audit_db :=
  match tr with
  | [] => Some s
  | l :: tr => match db_step l s with Some s' => run tr s' | None => None end
  end.

(** [appendAuditEvent]: the statements of one transaction, one after another. *)
Definition append_statements (p : nat) (now_at : string) (ev : AppendAuditEvent) : list label :=
  [Begin p now_at ev; Lock p; ReadHead p; Insert p; Commit p].

(** What the caller is given: the row its transaction committed. *)
Definition appended (r : StoredAuditEvent) : AppendedAuditEvent :=
  {| appended_seq := seq r; appended_occurredAt := occurredAt (input r);
     appended_hash := hash r; appended_prevHash := prevHash r |}.

(** ** No fork, whoever writes *)

(** The rows that are, or may become, part of the table never share a
    predecessor, and neither does a row that is about to. *)
Definition no_fork_inv (s : audit_db) : Prop :=
  NoDup (prevHash <$> rows s) ∧
  ∀ p t r, txs s !! p = Some t → tx_phase t = Inserted r →
    prevHash r ∉ prevHash <$> rows s ∧
    ∀ q t' r', txs s !! q = Some t' → tx_phase t' = Inserted r' → prevHash r = prevHash r' → p = q.

Lemma elem_of_pending s r :
  r ∈ pending s ↔ ∃ p t, txs s !! p = Some t ∧ tx_phase t = Inserted r.
Proof.
  unfold pending. rewrite list_elem_of_omap. split.
  - intros ([p t] & Hin%elem_of_map_to_list & Hr). simpl in Hr.
    destruct (tx_phase t) eqn:E; simplify_eq. eauto.
  - intros (p & t & Hin & Hr). exists (p, t). rewrite elem_of_map_to_list. simpl. by rewrite Hr.
Qed.

Lemma row_unique_prev rs r : row_unique rs r = true → prevHash r ∉ prevHash <$> rs.
Proof. unfold row_unique. rewrite !andb_true_iff, !bool_decide_eq_true. tauto. Qed.

(** Replacing a transaction that proposes no row by one that proposes none. *)
Lemma no_fork_set p t s :
  (∀ r, tx_phase t ≠ Inserted r) → no_fork_inv s → no_fork_inv (set_tx p t s).
Proof.
  intros Ht [Hnd Hp]. split; [done|]. simpl. intros q t' r Hq Hr.
  destruct (decide (p = q)) as [->|Hne]; simplify_map_eq; [by apply Ht in Hr|].
  destruct (Hp q t' r Hq Hr) as [H1 H2]. split; [done|].
  intros q' t'' r' Hq' Hr' He. destruct (decide (p = q')) as [->|]; simplify_map_eq; [by apply Ht in Hr'|].
  eauto.
Qed.

Lemma no_fork_end p s : no_fork_inv s → no_fork_inv (end_tx p s).
Proof.
  intros [Hnd Hp]. split; [done|]. simpl. intros q t r [Hne Hq]%lookup_delete_Some Hr.
  destruct (Hp q t r Hq Hr) as [H1 H2]. split; [done|].
  intros q' t' r' [_ Hq']%lookup_delete_Some. eauto.
Qed.

Lemma no_fork_step l s s' : db_step l s = Some s' → no_fork_inv s → no_fork_inv s'.
Proof.
  intros Hstep Hinv. destruct l as [p now_at ev|p|p|p|p|p|r]; simpl in Hstep.
  - destruct (txs s !! p); simplify_eq. by apply no_fork_set.
  - destruct (txs s !! p) as [[n e []]|] eqn:Et; try done. destruct (lock s); simplify_eq.
    by apply (no_fork_set p {| tx_now := n; tx_event := e; tx_phase := Locked |} s).
  - destruct (txs s !! p) as [[n e []]|]; simplify_eq. by apply no_fork_set.
  - destruct (txs s !! p) as [[n e [| |prev|]]|] eqn:Et; try done.
    destruct (new_row n e prev (next_seq s)) as [r|]; simplify_eq; [|by apply no_fork_end].
    destruct (row_unique (pending s) r) eqn:Eup; try done. simpl in Hstep.
    destruct (row_ck r && row_unique (rows s) r) eqn:Eck; simplify_eq; [|by apply (no_fork_end p s)].
    apply andb_true_iff in Eck as [_ Eu]. apply row_unique_prev in Eu, Eup.
    destruct Hinv as [Hnd Hp]. split; [done|]. simpl. intros q t r' Hq Hr.
    assert (Hnew : ∀ q t' r', q ≠ p → txs s !! q = Some t' → tx_phase t' = Inserted r' →
      prevHash r ≠ prevHash r').
    { intros q' t' r1 _ Hq' Hr1 He. apply Eup. rewrite He. apply list_elem_of_fmap_2.
      apply elem_of_pending. eauto. }
    destruct (decide (p = q)) as [->|Hne]; simplify_map_eq.
    + split; [done|]. intros q' t' r1 Hq' Hr1 He. destruct (decide (q = q')) as [|Hne]; [done|].
      simplify_map_eq. exfalso. by eapply Hnew, He.
    + destruct (Hp q t r' Hq Hr) as [H1 H2]. split; [done|].
      intros q' t' r1 Hq' Hr1 He. destruct (decide (p = q')) as [->|]; simplify_map_eq; [|eauto].
      exfalso. by eapply Hnew, eq_sym, He.
  - destruct (txs s !! p) as [[n e [| | |r]]|] eqn:Et; simplify_eq.
    destruct Hinv as [Hnd Hp]. destruct (Hp p _ r Et eq_refl) as [H1 H2]. split; simpl.
    + rewrite fmap_app. simpl. apply NoDup_app. split_and!; [done| |apply NoDup_singleton].
      intros x Hx ->%list_elem_of_singleton. done.
    + intros q t r' [Hne Hq]%lookup_delete_Some Hr.
      destruct (Hp q t r' Hq Hr) as [H1' H2']. rewrite fmap_app, not_elem_of_app. simpl. split.
      * split; [done|]. intros He%list_elem_of_singleton. apply Hne. symmetry.
        by eapply H2'.
      * intros q' t' r1 [_ Hq']%lookup_delete_Some. eauto.
  - destruct (txs s !! p); simplify_eq. by apply no_fork_end.
  - destruct (row_unique (pending s) r && row_ck r && row_unique (rows s) r) eqn:E; simplify_eq.
    rewrite !andb_true_iff in E. destruct E as [[Eup _] Eu]. apply row_unique_prev in Eu, Eup.
    destruct Hinv as [Hnd Hp]. split; simpl.
    + rewrite fmap_app. simpl. apply NoDup_app. split_and!; [done| |apply NoDup_singleton].
      intros x Hx ->%list_elem_of_singleton. done.
    + intros q t r' Hq Hr. destruct (Hp q t r' Hq Hr) as [H1 H2]. split; [|done].
      rewrite fmap_app, not_elem_of_app. simpl. split; [done|].
      intros He%list_elem_of_singleton. apply Eup. rewrite <- He. apply list_elem_of_fmap_2.
      apply elem_of_pending. eauto.
Qed.

Lemma no_fork_run tr s s' : run tr s = Some s' → no_fork_inv s → no_fork_inv s'.
Proof.
  revert s. induction tr as [|l tr IH]; intros s; simpl; [by intros [= ->]|].
  destruct (db_step l s) as [s1|] eqn:E; [|done]. intros Hr Hinv.
  by eapply IH, no_fork_step.
Qed.

(** The second line of defence: even if other code inserts into the table
    without the lock, at any moment and with any contents, and any transactions
    fail, the committed rows never fork: no two have the same predecessor. *)
Theorem no_fork tr s : run tr empty_db = Some s → NoDup (prevHash <$> rows s).
Proof.
  intros Hr. apply (no_fork_run tr empty_db s Hr). split; [constructor|].
  simpl. intros p t r Hp. by rewrite lookup_empty in Hp.
Qed.

(** No statement takes a committed row away or changes it. *)
Lemma db_step_prefix l s s' : db_step l s = Some s' → rows s `prefix_of` rows s'.
Proof.
  intros Hstep. destruct l as [p now_at ev|p|p|p|p|p|r]; simpl in Hstep.
  - destruct (txs s !! p); by simplify_eq.
  - destruct (txs s !! p) as [[n e []]|]; try done. destruct (lock s); by simplify_eq.
  - destruct (txs s !! p) as [[n e []]|]; by simplify_eq.
  - destruct (txs s !! p) as [[n e [| |prev|]]|]; try done.
    destruct (new_row n e prev (next_seq s)); [|by simplify_eq].
    destruct (negb _); [done|]. destruct (_ && _); by simplify_eq.
  - destruct (txs s !! p) as [[n e [| | |r]]|]; simplify_eq. by apply prefix_app_r.
  - destruct (txs s !! p); by simplify_eq.
  - destruct (_ && _ && _); simplify_eq. by apply prefix_app_r.
Qed.

Lemma run_prefix tr s s' : run tr s = Some s' → rows s `prefix_of` rows s'.
Proof.
  revert s. induction tr as [|l tr IH]; intros s; cbn [run]; [by intros [= ->]|].
  destruct (db_step l s) as [s1|] eqn:E; [|done]. intros Hr.
  transitivity (rows s1); [by eapply db_step_prefix|by apply IH].
Qed.

(** ** The chain under any interleaving of appends *)

(** Only this writer's statements, on well-formed events. *)
Definition writer_label (l : label) : Prop :=
  match l with
  | Begin _ _ ev => wf_append ev
  | Foreign _ => False
  | _ => True
  end.

(** The specification: the events in the order their transactions commit. *)
Fixpoint committed (begun : gmap nat (string * AppendAuditEvent)) (tr : list label)
    : list (string * AppendAuditEvent) :=
  match tr with
  | [] => []
  | Begin p now_at ev :: tr => committed (<[p := (now_at, ev)]> begun) tr
  | Commit p :: tr => option_list (begun !! p) ++ committed begun tr
  | _ :: tr => committed begun tr
  end.

(** A stored row holds an event. *)
Definition holds (now_ev : string * AppendAuditEvent) (r : StoredAuditEvent) : Prop :=
  same_evidence (auditInput now_ev.1 now_ev.2) (input r) ∧ wf_event (input r).

(** A row that may be added to the table's end. *)
Definition extends (rs : list StoredAuditEvent) (r : StoredAuditEvent) : Prop :=
  prevHash r = head_hash GENESIS_HASH rs ∧ hash r = digest r ∧ Forall (λ r', seq r' < seq r) rs.

Record writer_inv (s : audit_db) : Prop := {
  wi_chain : chain_ok GENESIS_HASH (rows s);
  wi_sorted : StronglySorted Z.lt (seq <$> rows s);
  wi_seq : Forall (λ r, seq r < next_seq s) (rows s);
  wi_lock : ∀ p t, txs s !! p = Some t → tx_phase t ≠ Began → lock s = Some p;
  wi_held : ∀ p, lock s = Some p → ∃ t, txs s !! p = Some t ∧ tx_phase t ≠ Began;
  wi_tx : ∀ p t, txs s !! p = Some t →
    wf_append (tx_event t) ∧
    match tx_phase t with
    | HeadRead prev => default GENESIS_HASH prev = head_hash GENESIS_HASH (rows s)
    | Inserted r => extends (rows s) r ∧ seq r < next_seq s ∧ holds (tx_now t, tx_event t) r
    | _ => True
    end;
}.

Lemma head_row_last rs :
  StronglySorted Z.lt (seq <$> rs) → head_row rs = last rs.
Proof.
  induction rs as [|r rs IH] using rev_ind; [done|]. intros Hs.
  unfold head_row. rewrite foldl_app, last_snoc. simpl.
  rewrite fmap_app in Hs. fold (head_row rs).
  rewrite IH by (by eapply StronglySorted_app_1_l).
  destruct (last rs) as [a|] eqn:El; [|done].
  apply last_Some in El as [rs' ->].
  assert (seq a < seq r); [|by rewrite (proj2 (Z.ltb_lt _ _))].
  eapply (StronglySorted_app_1_elem_of Z.lt _ _ (seq a) (seq r) Hs); set_solver.
Qed.

(** The row an INSERT proposes on the true head extends the table. *)
Lemma new_row_extends now_at ev rs n :
  wf_append ev → chain_ok GENESIS_HASH rs → Forall (λ r, seq r < n) rs →
  ∃ r, new_row now_at ev (Some (head_hash GENESIS_HASH rs)) n = Ok r ∧
    extends rs r ∧ seq r = n ∧ holds (now_at, ev) r.
Proof.
  intros Hwf Hc Hseq. set (e := auditInput now_at ev). set (p := head_hash GENESIS_HASH rs).
  assert (Hp : byteLength p = AUDIT_HASH_BYTES) by (by apply chain_ok_head_width).
  unfold new_row. rewrite mbind_rbind. simpl default. unfold computeAuditHash.
  rewrite decide_True by done. simpl. eexists. split; [done|].
  assert (Hsame : holds (now_at, ev) {| input := {| action := action e; actorType := actorType e;
      actorId := actorId e; resourceType := resourceType e; resourceId := resourceId e;
      traceId := traceId e; sourceIp := sourceIp e; occurredAt := occurredAt e;
      metadata := jsonb (metadata e) |}; seq := n; prevHash := p;
      hash := sha256 (p +:+ canonicalAuditForm e) |}).
  { split; [split; [done|]|]; simpl.
    - by rewrite jsonb_perm.
    - unfold wf_event. simpl. by rewrite jsonb_perm. }
  split_and!; try done. split_and!; [done| |done].
  unfold digest, hash_input. simpl. do 2 f_equal.
  apply canonical_form_inj; [exact Hwf|apply Hsame|apply Hsame].
Qed.

Lemma head_default rs : StronglySorted Z.lt (seq <$> rs) →
  default GENESIS_HASH (hash <$> head_row rs) = head_hash GENESIS_HASH rs.
Proof. intros Hs. rewrite head_row_last by done. unfold head_hash. by destruct (last rs). Qed.

(** A committed row keeps the table a chain. *)
Lemma extends_commit rs r n :
  chain_ok GENESIS_HASH rs → StronglySorted Z.lt (seq <$> rs) → Forall (λ r, seq r < n) rs →
  extends rs r → seq r < n →
  chain_ok GENESIS_HASH (rs ++ [r]) ∧ StronglySorted Z.lt (seq <$> rs ++ [r]) ∧
  Forall (λ r, seq r < n) (rs ++ [r]).
Proof.
  intros Hc Hs Hn (H1 & H2 & H3) Hr. split_and!.
  - apply chain_ok_app. by split_and!.
  - rewrite fmap_app. apply StronglySorted_app_2; [|done|by repeat constructor].
    simpl. intros x y Hx ->%list_elem_of_singleton.
    apply list_elem_of_fmap in Hx as (r' & -> & Hr'). rewrite Forall_forall in H3. by apply H3.
  - apply Forall_app. by repeat constructor.
Qed.

(** Ending a transaction. *)
Lemma writer_end p s :
  writer_inv s → writer_inv (end_tx p s).
Proof.
  intros [Hc Hs Hn Hl Hh Ht]. split; simpl; try done.
  - intros q t [Hne Hq]%lookup_delete_Some Hph. rewrite (Hl q t Hq Hph).
    rewrite decide_False; [done|]. by intros [=].
  - intros q. case_decide as Hd; [done|]. intros Hq. destruct (Hh q Hq) as (t & Htq & Hph).
    exists t. split; [|done]. rewrite lookup_delete_ne; [done|]. intros ->. done.
  - intros q t [Hne Hq]%lookup_delete_Some. exact (Ht q t Hq).
Qed.

(** The holder moving to its next phase, the table as it was. *)
Lemma writer_advance p t ph s n :
  writer_inv s → txs s !! p = Some t → tx_phase t ≠ Began → ph ≠ Began → next_seq s ≤ n →
  match ph with
  | HeadRead prev => default GENESIS_HASH prev = head_hash GENESIS_HASH (rows s)
  | Inserted r => extends (rows s) r ∧ seq r < n ∧ holds (tx_now t, tx_event t) r
  | _ => True
  end →
  writer_inv {| rows := rows s; next_seq := n; lock := lock s;
                txs := <[p := at_phase t ph]> (txs s) |}.
Proof.
  intros [Hc Hs Hn Hl Hh Ht] Hp Hph Hph' Hle Hok. split; simpl; try done.
  - eapply Forall_impl; [exact Hn|]. intros r. simpl. lia.
  - intros q t' Hq Hq'. destruct (decide (p = q)) as [->|]; simplify_map_eq; eauto.
  - intros q Hq. destruct (Hh q Hq) as (t' & Hq' & Hph''). rewrite (Hl p t Hp Hph) in Hq.
    injection Hq as <-. exists (at_phase t ph). by simplify_map_eq.
  - intros q t' Hq. destruct (decide (p = q)) as [->|Hne]; simplify_map_eq.
    + split; [by eapply (Ht q t)|done].
    + destruct (Ht q t' Hq) as [Hw Hm]. split; [done|].
      destruct (tx_phase t') eqn:Eph; try done. destruct Hm as (? & ? & ?). split_and!; [done|lia|done].
Qed.

Lemma writer_step l s s' :
  db_step l s = Some s' → writer_label l → writer_inv s → writer_inv s'.
Proof.
  intros Hstep Hw Hinv. destruct l as [p now_at ev|p|p|p|p|p|r]; simpl in Hstep; [..|done].
  - destruct (txs s !! p) as [t|] eqn:Et; simplify_eq. destruct Hinv as [Hc Hs Hn Hl Hh Ht].
    split; simpl; try done.
    + intros q t' Hq Hph. destruct (decide (p = q)) as [->|]; simplify_map_eq; eauto.
    + intros q Hq. destruct (Hh q Hq) as (t' & Hq' & Hph). exists t'. split; [|done].
      rewrite lookup_insert_ne; [done|]. intros ->. congruence.
    + intros q t' Hq. destruct (decide (p = q)) as [->|]; simplify_map_eq; eauto.
  - destruct (txs s !! p) as [[n e []]|] eqn:Et; try done. destruct (lock s) eqn:El; simplify_eq.
    destruct Hinv as [Hc Hs Hn Hl Hh Ht]. split; simpl; try done.
    + intros q t' Hq Hph. destruct (decide (p = q)) as [->|]; simplify_map_eq; [done|].
      by rewrite (Hl q t' Hq Hph) in El.
    + intros q [= <-]. eexists. rewrite lookup_insert_eq. by split.
    + intros q t' Hq. destruct (decide (p = q)) as [->|]; simplify_map_eq; [|eauto].
      split; [|done]. exact (proj1 (Ht q _ Et)).
  - destruct (txs s !! p) as [[n e []]|] eqn:Et; simplify_eq.
    apply (writer_advance p _ _ s (next_seq s) Hinv Et); try done.
    by apply head_default, Hinv.
  - destruct (txs s !! p) as [[n e [| |prev|]]|] eqn:Et; try done.
    destruct (wi_tx s Hinv p _ Et) as [Hwf Hprev]. simpl in Hwf, Hprev.
    destruct (new_row_extends n e (rows s) (next_seq s) Hwf (wi_chain s Hinv) (wi_seq s Hinv))
      as (r & Hr & Hext & Hseq & Hholds).
    assert (Hr' : new_row n e prev (next_seq s) = Ok r).
    { unfold new_row in Hr |- *. simpl in Hr. by rewrite Hprev. }
    rewrite Hr' in Hstep. destruct (row_unique (pending s) r); [|done]. simpl in Hstep.
    destruct (row_ck r && row_unique (rows s) r); simplify_eq.
    + apply (writer_advance p _ (Inserted r) s (next_seq s + 1) Hinv Et); try done; try lia.
      split_and!; [done|lia|done].
    + apply (writer_end p) in Hinv. destruct Hinv as [Hc Hs Hn Hl Hh Ht].
      split; simpl in *; try done.
      * eapply Forall_impl; [exact Hn|]. intros r'. simpl. lia.
      * intros q t' Hq. destruct (Ht q t' Hq) as [Hw' Hm]. split; [done|].
        destruct (tx_phase t'); try done. destruct Hm as (? & ? & ?). split_and!; [done|lia|done].
  - destruct (txs s !! p) as [[n e [| | |r]]|] eqn:Et; simplify_eq.
    destruct (wi_tx s Hinv p _ Et) as [Hwf (Hext & Hseq & Hholds)].
    pose proof (extends_commit (rows s) r (next_seq s) (wi_chain s Hinv) (wi_sorted s Hinv)
      (wi_seq s Hinv) Hext Hseq) as (Hc' & Hs' & Hn').
    pose proof (wi_lock s Hinv p _ Et) as Hlock.
    destruct Hinv as [Hc Hs Hn Hl Hh Ht].
    split; simpl; try done.
    + intros q t' [Hne Hq]%lookup_delete_Some Hph. pose proof (Hl q t' Hq Hph) as Hq'.
      rewrite Hlock in Hq' by done. congruence.
    + intros q. rewrite decide_True by (by apply Hlock). done.
    + intros q t' [Hne Hq]%lookup_delete_Some. destruct (Ht q t' Hq) as [Hw' Hm]. split; [done|].
      destruct (decide (tx_phase t' = Began)) as [->|Hph]; [done|].
      pose proof (Hl q t' Hq Hph) as Hq'. rewrite Hlock in Hq' by done. congruence.
  - destruct (txs s !! p); simplify_eq. by apply writer_end.
Qed.

(** ** Refinement: the table is the list of committed events *)

Definition tracked (begun : gmap nat (string * AppendAuditEvent)) (s : audit_db) : Prop :=
  ∀ p t, txs s !! p = Some t → begun !! p = Some (tx_now t, tx_event t).

Definition begun_after (l : label) (begun : gmap nat (string * AppendAuditEvent)) :=
  match l with Begin p now_at ev => <[p := (now_at, ev)]> begun | _ => begun end.

Lemma tracked_end begun p s : tracked begun s → tracked begun (end_tx p s).
Proof. intros Ht q t. simpl. intros [_ Hq]%lookup_delete_Some. by apply Ht. Qed.

Lemma tracked_set begun p t t' s rs n l :
  tracked begun s → txs s !! p = Some t → tx_now t' = tx_now t → tx_event t' = tx_event t →
  tracked begun {| rows := rs; next_seq := n; lock := l; txs := <[p := t']> (txs s) |}.
Proof.
  intros Ht Hp Hn He q t1. simpl. intros Hq. destruct (decide (p = q)) as [->|]; simplify_map_eq.
  - rewrite Hn, He. apply Ht in Hp. congruence.
  - apply Ht in Hq. congruence.
Qed.

Lemma tracked_step l s s' begun :
  db_step l s = Some s' → writer_label l → tracked begun s → tracked (begun_after l begun) s'.
Proof.
  intros Hstep Hw Ht. destruct l as [p now_at ev|p|p|p|p|p|r]; simpl in Hstep; [..|done].
  - destruct (txs s !! p) eqn:E; simplify_eq. simpl. intros q t Hq.
    simpl in Hq. destruct (decide (p = q)) as [->|]; simplify_map_eq; [done|]. apply Ht in Hq. congruence.
  - destruct (txs s !! p) as [[n e []]|] eqn:E; try done. destruct (lock s); simplify_eq.
    by eapply tracked_set.
  - destruct (txs s !! p) as [[n e []]|] eqn:E; simplify_eq. by eapply tracked_set.
  - destruct (txs s !! p) as [[n e [| |prev|]]|] eqn:E; try done.
    destruct (new_row n e prev (next_seq s)); simplify_eq; [|by apply tracked_end].
    destruct (negb _); [done|]. destruct (_ && _); simplify_eq; [by eapply tracked_set|].
    by apply (tracked_end _ p s) in Ht.
  - destruct (txs s !! p) as [[n e [| | |r]]|] eqn:E; simplify_eq.
    by apply (tracked_end _ p s) in Ht.
  - destruct (txs s !! p); simplify_eq. by apply tracked_end.
Qed.

(** What one statement adds to the table is what it adds to the specification. *)
Lemma rows_step l s s' begun tr :
  db_step l s = Some s' → writer_label l → writer_inv s → tracked begun s →
  ∃ new spec, rows s' = rows s ++ new ∧ Forall2 holds spec new ∧
    committed begun (l :: tr) = spec ++ committed (begun_after l begun) tr.
Proof.
  intros Hstep Hw Hinv Ht.
  assert (Hsame : rows s' = rows s → committed begun (l :: tr) = committed (begun_after l begun) tr →
    ∃ new spec, rows s' = rows s ++ new ∧ Forall2 holds spec new ∧
      committed begun (l :: tr) = spec ++ committed (begun_after l begun) tr).
  { intros Hr Hc. exists [], []. by rewrite Hr, app_nil_r. }
  destruct l as [p now_at ev|p|p|p|p|p|r]; simpl in Hstep; [..|done].
  - destruct (txs s !! p); simplify_eq. by apply Hsame.
  - destruct (txs s !! p) as [[n e []]|]; try done. destruct (lock s); simplify_eq. by apply Hsame.
  - destruct (txs s !! p) as [[n e []]|]; simplify_eq. by apply Hsame.
  - destruct (txs s !! p) as [[n e [| |prev|]]|]; try done.
    destruct (new_row n e prev (next_seq s)); simplify_eq; [|by apply Hsame].
    destruct (negb _); [done|]. destruct (_ && _); simplify_eq; by apply Hsame.
  - destruct (txs s !! p) as [[n e [| | |r]]|] eqn:E; simplify_eq.
    destruct (wi_tx s Hinv p _ E) as [_ (_ & _ & Hh)].
    exists [r], [(n, e)]. simpl. rewrite (Ht p _ E). simpl. split_and!; [done|by apply Forall2_cons|done].
  - destruct (txs s !! p); simplify_eq. by apply Hsame.
Qed.

Lemma run_spec tr s s' begun :
  run tr s = Some s' → Forall writer_label tr → writer_inv s → tracked begun s →
  writer_inv s' ∧ ∃ new, rows s' = rows s ++ new ∧ Forall2 holds (committed begun tr) new.
Proof.
  revert s begun. induction tr as [|l tr IH]; intros s begun Hr Hw Hinv Ht.
  { simpl in Hr. injection Hr as ->. split; [done|]. exists []. by rewrite app_nil_r. }
  cbn [run] in Hr. apply Forall_cons in Hw as [Hl Hw].
  destruct (db_step l s) as [s1|] eqn:E; [|done].
  destruct (rows_step l s s1 begun tr E Hl Hinv Ht) as (new & spec & Hrows & Hspec & Hcomm).
  destruct (IH s1 (begun_after l begun) Hr Hw (writer_step _ _ _ E Hl Hinv)
    (tracked_step _ _ _ _ E Hl Ht)) as (Hinv' & new' & Hrows' & Hspec').
  split; [done|]. exists (new ++ new'). rewrite Hrows', Hrows, app_assoc, Hcomm.
  split; [done|]. by apply Forall2_app.
Qed.

Lemma run_writer tr s s' :
  run tr s = Some s' → Forall writer_label tr → writer_inv s → writer_inv s'.
Proof.
  revert s. induction tr as [|l tr IH]; intros s Hr Hw Hinv; [by injection Hr as <-|].
  cbn [run] in Hr. apply Forall_cons in Hw as [Hl Hw].
  destruct (db_step l s) as [s1|] eqn:E; [|done].
  by eapply IH, writer_step.
Qed.

Lemma empty_inv : writer_inv empty_db.
Proof.
  split; simpl; [done|constructor|constructor| |done|]; intros p t; rewrite lookup_empty; done.
Qed.

Lemma run_empty tr s :
  run tr empty_db = Some s → Forall writer_label tr →
  writer_inv s ∧ Forall2 holds (committed ∅ tr) (rows s).
Proof.
  intros Hr Hw. destruct (run_spec tr empty_db s ∅ Hr Hw empty_inv) as (Hinv & new & Hn & Hs).
  - intros p t. simpl. by rewrite lookup_empty.
  - split; [done|]. by rewrite Hn.
Qed.

(** C4. Whatever the interleaving of the appends of any number of processes,
    and whichever of them fail, the table is one chain from the genesis hash to
    its head that the verifier accepts, in sequence order. *)
Theorem appends_form_a_chain tr s :
  run tr empty_db = Some s → Forall writer_label tr →
  verifyAuditChain (rows s) GENESIS_HASH = Ok None ∧ StronglySorted Z.lt (seq <$> rows s).
Proof.
  intros Hr Hw. destruct (run_empty tr s Hr Hw) as [Hinv _]. split; [|apply Hinv].
  by apply verify_spec, Hinv.
Qed.

(** C24. The table refines the list of committed events: one row per transaction
    that committed, in commit order, holding the event it was given and the time
    its transaction read, however jsonb reorders the metadata. Nothing is lost,
    duplicated or recorded by a transaction that failed. *)
Theorem appends_refine_log tr s :
  run tr empty_db = Some s → Forall writer_label tr →
  Forall2 holds (committed ∅ tr) (rows s).
Proof. intros Hr Hw. by destruct (run_empty tr s Hr Hw). Qed.

(** ** Every append can finish *)

(** The statements that take a transaction on (not new ones, not failures). *)
Definition forward (l : label) : Prop :=
  match l with Lock _ | ReadHead _ | Insert _ | Commit _ => True | _ => False end.

Definition can_finish (n : nat) (p : nat) (s : audit_db) : Prop :=
  ∃ tr s', (length tr ≤ n)%nat ∧ Forall forward tr ∧ run tr s = Some s' ∧
    txs s' = delete p (txs s).

Lemma can_finish_step n p l s s1 :
  db_step l s = Some s1 → forward l → delete p (txs s1) = delete p (txs s) →
  can_finish n p s1 → can_finish (S n) p s.
Proof.
  intros Hs Hl Hd (tr & s' & Hlen & Hf & Hr & Ht). exists (l :: tr), s'. simpl. rewrite Hs.
  split_and!; [lia|by constructor|done|congruence].
Qed.

Lemma can_finish_now p l s s' :
  db_step l s = Some s' → forward l → txs s' = delete p (txs s) → can_finish 1 p s.
Proof.
  intros Hs Hl Ht. exists [l], s'. simpl. rewrite Hs. split_and!; [lia|by constructor|done|done].
Qed.

(** Only the holder of the lock can have a row pending. *)
Lemma no_pending s p t : writer_inv s → txs s !! p = Some t → tx_phase t ≠ Began →
  (∀ r, tx_phase t ≠ Inserted r) → pending s = [].
Proof.
  intros Hinv Hp Hph Hni. destruct (pending s) as [|r rs] eqn:E; [done|].
  assert (Hr : r ∈ pending s) by (rewrite E; set_solver).
  apply elem_of_pending in Hr as (q & t' & Hq & Hr).
  pose proof (wi_lock s Hinv p t Hp Hph) as H1.
  pose proof (wi_lock s Hinv q t' Hq ltac:(congruence)) as H2.
  simplify_eq. by apply Hni in Hr.
Qed.

Lemma finish_inserted p n e r s :
  txs s !! p = Some {| tx_now := n; tx_event := e; tx_phase := Inserted r |} → can_finish 1 p s.
Proof. intros Hp. eapply (can_finish_now p (Commit p)); [simpl; by rewrite Hp|done|done]. Qed.

Lemma finish_head_read p n e prev s :
  writer_inv s → txs s !! p = Some {| tx_now := n; tx_event := e; tx_phase := HeadRead prev |} →
  can_finish 2 p s.
Proof.
  intros Hinv Hp.
  assert (Hone : can_finish 1 p s → can_finish 2 p s).
  { intros (tr & s' & Hlen & Hrest). exists tr, s'. split; [lia|done]. }
  pose proof (no_pending s p _ Hinv Hp ltac:(done) ltac:(done)) as Hpend.
  destruct (new_row n e prev (next_seq s)) as [r|x] eqn:Er.
  2: { apply Hone. eapply (can_finish_now p (Insert p)); [simpl; by rewrite Hp, Er|done|done]. }
  destruct (row_ck r && row_unique (rows s) r) eqn:Ec.
  - eapply (can_finish_step 1 p (Insert p)).
    + simpl. rewrite Hp, Er, Hpend. simpl. by rewrite Ec.
    + done.
    + simpl. by rewrite delete_insert_eq.
    + eapply (finish_inserted p n e r). simpl. apply lookup_insert_eq.
  - apply Hone. eapply (can_finish_now p (Insert p)); [|done|].
    + simpl. rewrite Hp, Er, Hpend. simpl. by rewrite Ec.
    + done.
Qed.

Lemma finish_locked p n e s :
  writer_inv s → txs s !! p = Some {| tx_now := n; tx_event := e; tx_phase := Locked |} →
  can_finish 3 p s.
Proof.
  intros Hinv Hp.
  assert (Hs : db_step (ReadHead p) s = Some (set_tx p {| tx_now := n; tx_event := e;
    tx_phase := HeadRead (hash <$> head_row (rows s)) |} s)) by (simpl; by rewrite Hp).
  eapply (can_finish_step 2 p (ReadHead p)); [exact Hs|done|simpl; by rewrite delete_insert_eq|].
  eapply (finish_head_read p n e).
  - by eapply writer_step.
  - simpl. apply lookup_insert_eq.
Qed.

Lemma finish_one s :
  writer_inv s → txs s ≠ ∅ → ∃ p t, txs s !! p = Some t ∧ can_finish 4 p s.
Proof.
  intros Hinv Hne.
  assert (Hmono : ∀ m p, (m ≤ 4)%nat → can_finish m p s → can_finish 4 p s).
  { intros m p Hm (tr & s' & Hlen & Hrest). exists tr, s'. split; [lia|done]. }
  destruct (lock s) as [p|] eqn:El.
  - destruct (wi_held s Hinv p El) as ([n e ph] & Hp & Hph). exists p, {| tx_now := n; tx_event := e; tx_phase := ph |}.
    split; [done|]. destruct ph as [| |prev|r]; [done| | |].
    + eapply (Hmono 3%nat); [lia|]. by eapply finish_locked.
    + eapply (Hmono 2%nat); [lia|]. by eapply finish_head_read.
    + eapply (Hmono 1%nat); [lia|]. by eapply finish_inserted.
  - apply map_choose in Hne as (p & [n e ph] & Hp). exists p, {| tx_now := n; tx_event := e; tx_phase := ph |}.
    split; [done|].
    assert (ph = Began) as ->.
    { destruct (decide (ph = Began)) as [|Hph]; [done|].
      pose proof (wi_lock s Hinv p _ Hp Hph). congruence. }
    assert (Hs : db_step (Lock p) s = Some {| rows := rows s; next_seq := next_seq s; lock := Some p;
      txs := <[p := {| tx_now := n; tx_event := e; tx_phase := Locked |}]> (txs s) |})
      by (simpl; by rewrite Hp, El).
    eapply (can_finish_step 3 p (Lock p)); [exact Hs|done|simpl; by rewrite delete_insert_eq|].
    eapply (finish_locked p n e); [by eapply writer_step|simpl; apply lookup_insert_eq].
Qed.

Lemma run_app tr1 tr2 s s1 : run tr1 s = Some s1 → run (tr1 ++ tr2) s = run tr2 s1.
Proof.
  revert s. induction tr1 as [|l tr1 IH]; intros s; [by intros [= ->]|].
  rewrite <- app_comm_cons. cbn [run]. destruct (db_step l s); [apply IH|done].
Qed.

Lemma forward_writer l : forward l → writer_label l.
Proof. by destruct l. Qed.

Lemma drain s : writer_inv s →
  ∃ tr s', Forall forward tr ∧ (length tr ≤ 4 * size (txs s))%nat ∧
    run tr s = Some s' ∧ txs s' = ∅.
Proof.
  remember (size (txs s)) as n eqn:En. revert s En.
  induction n as [|n IH]; intros s En Hinv.
  { exists [], s. split_and!; [constructor|simpl; lia|done|]. by apply map_size_empty_inv. }
  destruct (finish_one s Hinv) as (p & t & Hp & tr1 & s1 & Hlen & Hf & Hr & Ht).
  { intros He. by rewrite He, map_size_empty in En. }
  assert (Hinv1 : writer_inv s1).
  { eapply (run_writer tr1 s s1); [done| |done]. eapply Forall_impl; [exact Hf|]. apply forward_writer. }
  destruct (IH s1) as (tr2 & s2 & Hf2 & Hlen2 & Hr2 & Ht2); [|done|].
  { rewrite Ht, map_size_delete_Some by (by eexists). lia. }
  exists (tr1 ++ tr2), s2. split_and!.
  - by apply Forall_app.
  - rewrite length_app. lia.
  - by rewrite (run_app _ _ _ _ Hr).
  - done.
Qed.

(** C27. No deadlock and no starvation by design: from any state the appends can
    reach, at most four statements per transaction in flight bring every one of
    them to its end, committed or refused by a constraint, and free the lock. *)
Theorem appends_terminate tr s :
  run tr empty_db = Some s → Forall writer_label tr →
  ∃ tr' s', Forall forward tr' ∧ (length tr' ≤ 4 * size (txs s))%nat ∧
    run tr' s = Some s' ∧ txs s' = ∅ ∧ lock s' = None.
Proof.
  intros Hr Hw. destruct (run_empty tr s Hr Hw) as [Hinv _].
  destruct (drain s Hinv) as (tr' & s' & Hf & Hlen & Hr' & Ht).
  exists tr', s'. split_and!; try done.
  assert (Hinv' : writer_inv s').
  { eapply (run_writer tr' s s'); [done| |done]. eapply Forall_impl; [exact Hf|]. apply forward_writer. }
  destruct (lock s') as [p|] eqn:El; [|done].
  destruct (wi_held s' Hinv' p El) as (t & Hp & _). by rewrite Ht, lookup_empty in Hp.
Qed.

(** ** An append that nothing interrupts *)

(** What audit_events_actor_ck and audit_events_action_ck ask of an event. *)
Definition event_ck (ev : AppendAuditEvent) : bool :=
  match ev_actorType ev, ev_actorId ev with
  | actor_user, Some _ | actor_control_plane, None | actor_anonymous, None | actor_system, _ => true
  | _, _ => false
  end && negb (bool_decide (ev_action ev = "")).

(** The hashes a row may point at, in order: the genesis hash, then each row's. *)
Definition links (rs : list StoredAuditEvent) : list Buffer := GENESIS_HASH :: (hash <$> rs).

Lemma links_prev p rs i r : chain_ok p rs → rs !! i = Some r → (p :: (hash <$> rs)) !! i = Some (prevHash r).
Proof.
  revert p i. induction rs as [|r0 rs IH]; intros p i Hc Hi; [done|].
  destruct Hc as (Hp & Hh & Hc). destruct i as [|i]; simpl in *; [by simplify_eq|]. by apply IH.
Qed.

Lemma links_head rs : links rs !! length rs = Some (head_hash GENESIS_HASH rs).
Proof.
  unfold links, head_hash. destruct rs as [|r rs] using rev_ind; [done|].
  rewrite last_snoc, length_app, fmap_app. simpl. rewrite Nat.add_1_r. simpl.
  rewrite lookup_app_r by (rewrite length_fmap; lia). by rewrite length_fmap, Nat.sub_diag.
Qed.

(** Without collisions no hash of a chain repeats. *)
Lemma links_distinct rs :
  chain_ok GENESIS_HASH rs → collision_free (hash_input <$> rs) →
  no_genesis_preimage (hash_input <$> rs) → NoDup (links rs).
Proof.
  induction rs as [|r rs IH] using rev_ind; intros Hc Hcf Hng; [apply NoDup_singleton|].
  apply chain_ok_app in Hc as [Hc (Hp & Hh & _)].
  rewrite fmap_app in Hcf, Hng.
  assert (Hnd : NoDup (links rs)).
  { apply IH; [done| |]; [intros x y Hx Hy; apply Hcf; set_solver|intros x Hx; apply Hng; set_solver]. }
  unfold links in *. rewrite fmap_app, app_comm_cons. apply NoDup_app. split_and!; [done| |apply NoDup_singleton].
  intros x Hx ->%list_elem_of_singleton. apply elem_of_cons in Hx as [Hg|Hx].
  { apply (Hng (hash_input r)); [set_solver|]. change (digest r = GENESIS_HASH). by rewrite <- Hh. }
  apply list_elem_of_fmap in Hx as (r' & He & Hr').
  assert (Hin : hash_input r = hash_input r').
  { apply Hcf; [set_solver|apply elem_of_app; left; by apply list_elem_of_fmap_2|].
    change (digest r = digest r'). rewrite <- Hh, He. by eapply chain_ok_hash_in. }
  apply list_elem_of_lookup in Hr' as [i Hi].
  pose proof (links_prev _ _ _ _ Hc Hi) as Hl.
  apply sapp_inj_length in Hin as [Hprev _].
  2: { rewrite Hp, (chain_ok_head_width _ rs) by done. symmetry.
       exact (chain_ok_prev_width _ _ r' genesis_width Hc (list_elem_of_lookup_2 _ _ _ Hi)). }
  rewrite <- Hprev, Hp in Hl. pose proof (links_head rs) as Hl2.
  pose proof (NoDup_lookup _ _ _ _ Hnd Hl Hl2) as ->.
  apply lookup_lt_Some in Hi. lia.
Qed.

Lemma row_unique_end rs r :
  chain_ok GENESIS_HASH (rs ++ [r]) → NoDup (links (rs ++ [r])) →
  Forall (λ r', seq r' < seq r) rs → row_unique rs r = true.
Proof.
  intros Hc Hnd Hseq. unfold row_unique. rewrite !andb_true_iff, !bool_decide_eq_true.
  pose proof Hnd as Hnd'. unfold links in Hnd. rewrite fmap_app, app_comm_cons in Hnd.
  apply NoDup_app in Hnd as (_ & Hdisj & _). split_and!.
  - intros (r' & He & Hr')%list_elem_of_fmap. apply list_elem_of_lookup in Hr' as [i Hi].
    assert (Hi' : (rs ++ [r]) !! i = Some r') by (by apply lookup_app_l_Some).
    pose proof (links_prev _ _ _ _ Hc Hi') as H1.
    assert (Hl : (rs ++ [r]) !! length rs = Some r) by (by apply list_lookup_middle).
    pose proof (links_prev _ _ _ _ Hc Hl) as H2. rewrite He in H2.
    pose proof (NoDup_lookup _ _ _ _ Hnd' H1 H2) as ->. apply lookup_lt_Some in Hi. lia.
  - intros Hin. apply (Hdisj (hash r)); [by right|]. by left.
  - intros (r' & He & Hr')%list_elem_of_fmap. rewrite Forall_forall in Hseq.
    specialize (Hseq r' Hr'). simpl in Hseq. lia.
Qed.

(** A transaction that took the free lock and read the head. *)
Lemma read_head_state p now_at ev s :
  writer_inv s → lock s = None → txs s !! p = None → wf_append ev →
  ∃ s3, run [Begin p now_at ev; Lock p; ReadHead p] s = Some s3 ∧
    txs s3 !! p = Some {| tx_now := now_at; tx_event := ev;
                          tx_phase := HeadRead (hash <$> head_row (rows s)) |} ∧
    rows s3 = rows s ∧ next_seq s3 = next_seq s ∧ delete p (txs s3) = txs s ∧ pending s3 = [] ∧
    lock s3 = Some p.
Proof.
  intros Hinv Hl Hp Hwf.
  set (head := HeadRead (hash <$> head_row (rows s))).
  set (t ph := {| tx_now := now_at; tx_event := ev; tx_phase := ph |}).
  exists {| rows := rows s; next_seq := next_seq s; lock := Some p;
       txs := <[p := t head]> (<[p := t Locked]> (<[p := t Began]> (txs s))) |}.
  match goal with |- run _ _ = Some ?s3 ∧ _ =>
    assert (Hrun : run [Begin p now_at ev; Lock p; ReadHead p] s = Some s3) end.
  { cbn [run]. simpl. rewrite Hp. simpl. rewrite lookup_insert_eq, Hl. simpl.
    by rewrite lookup_insert_eq. }
  split; [exact Hrun|]. simpl. rewrite lookup_insert_eq. split_and!; try done.
  - rewrite !delete_insert_eq. by apply delete_id.
  - eapply (no_pending _ p); [|simpl; apply lookup_insert_eq|done|done].
    eapply run_writer; [exact Hrun| |done]. by repeat constructor.
Qed.

Lemma event_ck_row now_at ev r :
  event_ck ev = true → holds (now_at, ev) r → byteLength (prevHash r) = 32%nat →
  hash r = digest r → row_ck r = true.
Proof.
  intros Hev [[Hs _] _] Hp Hh. unfold row_ck. rewrite Hh, digest_width, Hp.
  unfold scalars in Hs. simpl in Hs. injection Hs as Ha Ht Hi _ _ _ _ _.
  rewrite <- Ha, <- Ht, <- Hi. unfold event_ck in Hev. apply andb_true_iff in Hev as [Hev Hn].
  rewrite !bool_decide_not, Hn. by destruct (ev_actorType ev), (ev_actorId ev).
Qed.

(** The row proposed on the head meets every constraint: what it takes for a
    unique index to refuse it is a collision of digests. *)
Lemma proposal_accepted s now_at ev :
  writer_inv s → wf_append ev → event_ck ev = true →
  (∀ r, new_row now_at ev (hash <$> head_row (rows s)) (next_seq s) = Ok r →
     collision_free (hash_input <$> (rows s ++ [r])) ∧
     no_genesis_preimage (hash_input <$> (rows s ++ [r]))) →
  ∃ r, new_row now_at ev (hash <$> head_row (rows s)) (next_seq s) = Ok r ∧ seq r = next_seq s ∧
    prevHash r = head_hash GENESIS_HASH (rows s) ∧ hash r = digest r ∧
    row_ck r = true ∧ row_unique (rows s) r = true ∧ holds (now_at, ev) r.
Proof.
  intros Hinv Hwf Hck Hcol.
  pose proof (head_default (rows s) (wi_sorted s Hinv)) as Hhead.
  destruct (new_row_extends now_at ev (rows s) (next_seq s) Hwf (wi_chain s Hinv) (wi_seq s Hinv))
    as (r & Hnew & (He1 & He2 & He3) & Hseq & Hh).
  assert (Hnew' : new_row now_at ev (hash <$> head_row (rows s)) (next_seq s) = Ok r).
  { unfold new_row in Hnew |- *. simpl in Hnew. by rewrite Hhead. }
  destruct (Hcol r Hnew') as [Hcf Hng].
  assert (Hpw : byteLength (prevHash r) = 32%nat).
  { rewrite He1. by apply (chain_ok_head_width GENESIS_HASH (rows s)), Hinv. }
  assert (Hchain : chain_ok GENESIS_HASH (rows s ++ [r]))
    by (apply chain_ok_app; split; [apply Hinv|by split_and!]).
  exists r. split_and!; try done; [by eapply event_ck_row|].
  by apply row_unique_end; [|apply links_distinct|].
Qed.

Lemma append_from s p now_at ev :
  writer_inv s → lock s = None → txs s !! p = None → wf_append ev → event_ck ev = true →
  (∀ r, new_row now_at ev (hash <$> head_row (rows s)) (next_seq s) = Ok r →
     collision_free (hash_input <$> (rows s ++ [r])) ∧
     no_genesis_preimage (hash_input <$> (rows s ++ [r]))) →
  ∃ r s', run (append_statements p now_at ev) s = Some s' ∧
    rows s' = rows s ++ [r] ∧ lock s' = None ∧ txs s' = txs s ∧
    holds (now_at, ev) r ∧
    appended r = {| appended_seq := next_seq s; appended_occurredAt := now_at;
                    appended_hash := digest r;
                    appended_prevHash := head_hash GENESIS_HASH (rows s) |}.
Proof.
  intros Hinv Hlock Hp Hwf Hck Hcol.
  destruct (proposal_accepted s now_at ev Hinv Hwf Hck Hcol)
    as (r & Hnew & Hseq & He1 & He2 & Hrow & Huniq & Hh).
  destruct (read_head_state p now_at ev s Hinv Hlock Hp Hwf) as (s3 & H3 & Hs3 & Hrows & Hn & Htx & Hpend & Hl3).
  eexists r, _. split.
  { etrans; [exact (run_app [_; _; _] [Insert p; Commit p] s s3 H3)|]. cbn [run].
    simpl. rewrite Hs3, Hn, Hnew, Hpend, Hrows, Hrow, Huniq. simpl. rewrite lookup_insert_eq. done. }
  simpl. split_and!; try done.
  - rewrite Hl3. by rewrite decide_True.
  - by rewrite delete_insert_eq.
  - destruct Hh as [[Hs _] _]. unfold scalars in Hs. simpl in Hs.
    assert (occurredAt (input r) = now_at) as Hoc by congruence.
    unfold appended. congruence.
Qed.

(** An append that nobody interrupts is recorded: from any state in which the
    lock is free, a well-formed event that meets the constraints is committed as
    one new row on the head, and what the caller is told is that row. No unique
    constraint can refuse it unless the digest collides. *)
Theorem append_records tr s p now_at ev :
  run tr empty_db = Some s → Forall writer_label tr →
  lock s = None → txs s !! p = None → wf_append ev → event_ck ev = true →
  (∀ r, new_row now_at ev (hash <$> head_row (rows s)) (next_seq s) = Ok r →
     collision_free (hash_input <$> (rows s ++ [r])) ∧
     no_genesis_preimage (hash_input <$> (rows s ++ [r]))) →
  ∃ r s', run (append_statements p now_at ev) s = Some s' ∧
    rows s' = rows s ++ [r] ∧ lock s' = None ∧ txs s' = txs s ∧
    holds (now_at, ev) r ∧
    appended r = {| appended_seq := next_seq s; appended_occurredAt := now_at;
                    appended_hash := digest r;
                    appended_prevHash := head_hash GENESIS_HASH (rows s) |}.
Proof.
  intros Hr Hw. destruct (run_empty tr s Hr Hw) as [Hinv _]. by apply append_from.
Qed.
End writer.

(** ** Two processes at work *)

(** An order such as jsonb's: keys by length, then by bytes. *)
Definition jsonb_le (p q : string * string) : Prop :=
  (String.length p.1 < String.length q.1)%nat ∨
  (String.length p.1 = String.length q.1 ∧ String.le p.1 q.1).
#[export] Instance jsonb_le_dec : RelDecision jsonb_le.
Proof. intros p q. unfold jsonb_le. apply _. Defined.

Module WriterSample.
#[export] Instance by_length : Jsonb :=
  {| jsonb := merge_sort jsonb_le; jsonb_perm := merge_sort_Permutation jsonb_le |}.
#[export] Existing Instance Sample.toy.

Definition failed : AppendAuditEvent :=
  {| ev_action := "auth.login.failed"; ev_actorType := actor_anonymous; ev_actorId := None;
     ev_resourceType := None; ev_resourceId := None; ev_traceId := None;
     ev_sourceIp := Some "203.0.113.7";
     ev_metadata := Some [("reason", "no_such_user"); ("email", "a@b.c")] |}.
Definition registered : AppendAuditEvent :=
  {| ev_action := "user.registered"; ev_actorType := actor_system; ev_actorId := None;
     ev_resourceType := Some "user"; ev_resourceId := Some "u1"; ev_traceId := None;
     ev_sourceIp := None; ev_metadata := None |}.

Definition t1 : string := "2026-07-30T10:00:01.000Z".
Definition t2 : string := "2026-07-30T10:00:02.000Z".
Definition t3 : string := "2026-07-30T10:00:03.000Z".

(** Process 1 begins first and waits; process 2 appends; a third is rolled back. *)
Definition trace : list label :=
  [ Begin 1 t1 failed; Begin 2 t2 registered; Lock 2; ReadHead 2; Begin 3 t3 failed; Insert 2; Commit 2;
    Lock 3; ReadHead 3; Insert 3; Rollback 3; Lock 1; ReadHead 1; Insert 1; Commit 1 ].
Definition final : audit_db := default empty_db (run trace empty_db).

Lemma trace_runs : run trace empty_db = Some final.
Proof. vm_compute. reflexivity. Qed.

Lemma trace_writer : Forall writer_label trace.
Proof.
  unfold trace. repeat (apply Forall_cons; split; [first [exact I | compute_decide]|]). constructor.
Qed.

(** The sequence skips the value the rollback used; and the event begun first is
    recorded second, so along the chain [occurredAt] goes back in time. *)
Example chain_order_is_not_time_order :
  (seq <$> rows final, occurredAt ∘ input <$> rows final) = ([1; 3], [t2; t1]).
Proof. vm_compute. reflexivity. Qed.

(** Code that inserts on the head without the lock, and a row that does not link. *)
Definition rogue (prev : Buffer) : StoredAuditEvent :=
  {| input := auditInput t3 registered; seq := 77; prevHash := prev; hash := sha256 ("rogue" +:+ prev) |}.
Definition rogue_trace : list label :=
  [ Begin 1 t1 failed; Lock 1; ReadHead 1; Foreign (rogue GENESIS_HASH); Insert 1; Begin 2 t2 registered;
    Lock 2; ReadHead 2; Insert 2; Commit 2 ].
Definition rogue_final : audit_db := default empty_db (run rogue_trace empty_db).
End WriterSample.

#[local] Existing Instance WriterSample.by_length.
#[local] Existing Instance Sample.toy.

Lemma no_fork_witness : NoDup (prevHash <$> rows WriterSample.rogue_final).
Proof.
  apply (no_fork WriterSample.rogue_trace WriterSample.rogue_final). vm_compute. reflexivity.
Defined.

Lemma appends_form_a_chain_witness :
  verifyAuditChain (rows WriterSample.final) GENESIS_HASH = Ok None.
Proof.
  apply (appends_form_a_chain WriterSample.trace WriterSample.final);
    [apply WriterSample.trace_runs|apply WriterSample.trace_writer].
Defined.

Lemma appends_refine_log_witness :
  Forall2 holds [(WriterSample.t2, WriterSample.registered); (WriterSample.t1, WriterSample.failed)]
    (rows WriterSample.final).
Proof.
  apply (appends_refine_log WriterSample.trace WriterSample.final);
    [apply WriterSample.trace_runs|apply WriterSample.trace_writer].
Defined.

Lemma appends_terminate_witness :
  ∃ tr' s', Forall forward tr' ∧ (length tr' ≤ 4 * 0)%nat ∧
    run tr' WriterSample.final = Some s' ∧ txs s' = ∅ ∧ lock s' = None.
Proof.
  apply (appends_terminate WriterSample.trace WriterSample.final);
    [apply WriterSample.trace_runs|apply WriterSample.trace_writer].
Defined.

Lemma append_records_witness :
  ∃ r s', run (append_statements 9 WriterSample.t3 WriterSample.registered) WriterSample.final = Some s' ∧
    rows s' = rows WriterSample.final ++ [r].
Proof.
  destruct (append_records WriterSample.trace WriterSample.final 9 WriterSample.t3
              WriterSample.registered) as (r & s' & Hr & Hrows & _).
  - apply WriterSample.trace_runs.
  - apply WriterSample.trace_writer.
  - reflexivity.
  - reflexivity.
  - compute_decide.
  - reflexivity.
  - intros r Hr. vm_compute in Hr. injection Hr as <-. split.
    + apply Sample.collision_freeb_ok. vm_compute. reflexivity.
    + apply Sample.no_genesisb_ok. vm_compute. reflexivity.
  - exists r, s'. by split.
Defined.
