(* ===== verification/Cli.v ===== *)
(** The command lines of the operator tools: [parseArgs] of
    packages/db/src/seed/seed-tenant-admin.ts, keys/manage-keys.ts (the same
    text) and audit/verify-chain.ts (where a flag without a value is [true]). *)
From S2P Require Import Prelude.

(** [arg.startsWith("--")], and what follows it. *)
Definition flag_body (arg : string) : option string :=
  match arg with
  | String "-" (String "-" body) => Some body
  | _ => None
  end.

(** [const [flag, inline] = arg.slice(2).split("=", 2)] *)
Definition split_flag (body : string) : string * option string :=
  match firstn 2 (split_on "=" body) with
  | [flag; inline] => (flag, Some inline)
  | [flag] => (flag, None)
  | _ => ("", None)
  end.

(** [out[flag] = inline ?? argv[++i] ?? ""] *)
Fixpoint parseArgs (argv : list string) (out : gmap string string) : gmap string string :=
  match argv with
  | [] => out
  | arg :: rest =>
      match flag_body arg with
      | None => parseArgs rest out
      | Some body =>
          match split_flag body with
          | (flag, Some inline) => parseArgs rest (<[flag := inline]> out)
          | (flag, None) =>
              match rest with
              | next :: rest' => parseArgs rest' (<[flag := next]> out)
              | [] => <[flag := ""]> out
              end
          end
      end
  end.

(** A value, or the bare flag. *)
Inductive flag_value := Given (v : string) | Bare.

#[export] Instance flag_value_eq_dec : EqDecision flag_value.
Proof. solve_decision. Defined.

(** verify-chain.ts: a following argument that is itself a flag is not a value. *)
Fixpoint parseFlags (argv : list string) (out : gmap string flag_value) : gmap string flag_value :=
  match argv with
  | [] => out
  | arg :: rest =>
      match flag_body arg with
      | None => parseFlags rest out
      | Some body =>
          match split_flag body with
          | (flag, Some inline) => parseFlags rest (<[flag := Given inline]> out)
          | (flag, None) =>
              match rest with
              | next :: rest' =>
                  match flag_body next with
                  | None => parseFlags rest' (<[flag := Given next]> out)
                  | Some _ => parseFlags rest (<[flag := Bare]> out)
                  end
              | [] => <[flag := Bare]> out
              end
          end
      end
  end.

(** ** A command line reads back to the options it was written from *)

(** How an option is written: as one argument or as two. *)
Inductive spelling := Inline | Separate.

Definition write_option (o : string * string * spelling) : list string :=
  match o with
  | (flag, v, Inline) => ["--" +:+ flag +:+ "=" +:+ v]
  | (flag, v, Separate) => ["--" +:+ flag; v]
  end.

(** An option [parseArgs] can read: the flag has no "=", and neither has an
    inline value. *)
Definition readable (o : string * string * spelling) : bool :=
  free_of "=" o.1.1 &&
  match o.2 with Inline => free_of "=" o.1.2 | Separate => true end.

Lemma split_flag_inline flag v :
  free_of "=" flag = true → free_of "=" v = true → split_flag (flag +:+ "=" +:+ v) = (flag, Some v).
Proof.
  intros Hf Hv. unfold split_flag. change (flag +:+ "=" +:+ v) with (flag +:+ String "=" v).
  by rewrite split_on_app, split_on_free.
Qed.

Lemma split_flag_bare flag : free_of "=" flag = true → split_flag flag = (flag, None).
Proof. intros Hf. unfold split_flag. by rewrite split_on_free. Qed.

Lemma parseArgs_written os out :
  forallb readable os = true →
  parseArgs (mjoin (write_option <$> os)) out = foldl (λ m o, <[o.1.1 := o.1.2]> m) out os.
Proof.
  revert out. induction os as [|[[flag v] sp] os IH]; intros out Hr; [done|].
  simpl in Hr. apply andb_true_iff in Hr as [Ho Hr]. unfold readable in Ho. simpl in Ho.
  apply andb_true_iff in Ho as [Hf Hv]. rewrite fmap_cons.
  destruct sp; simpl; cbn [flag_body].
  - change (String "=" v) with ("=" +:+ v). rewrite split_flag_inline by done. by apply IH.
  - rewrite split_flag_bare by done. by apply IH.
Qed.

(** Options reach the tools as written: a command line made of flags with
    separate values, whatever the values hold, or with inline values without an
    equals sign, parses to exactly those options, the last one of a name
    winning. *)
Theorem parseArgs_reads_options os :
  forallb readable os = true →
  parseArgs (mjoin (write_option <$> os)) ∅ = foldl (λ m o, <[o.1.1 := o.1.2]> m) ∅ os.
Proof. apply parseArgs_written. Qed.

Lemma parseArgs_reads_options_witness :
  parseArgs ["--tenant"; "acme"; "--email=a@b.c"; "--password"; "--x=y"] ∅
  = <["password" := "--x=y"]> (<["email" := "a@b.c"]> (<["tenant" := "acme"]> ∅)).
Proof.
  apply (parseArgs_reads_options
    [("tenant", "acme", Separate); ("email", "a@b.c", Inline); ("password", "--x=y", Separate)]).
  reflexivity.
Defined.

(** [split("=", 2)] drops what follows the second "=" instead of keeping it in
    the value, so an inline value is cut at its first "=". *)
Lemma inline_value_is_cut flag v w :
  free_of "=" flag = true → free_of "=" v = true →
  parseArgs ["--" +:+ flag +:+ "=" +:+ v +:+ "=" +:+ w] ∅ = {[ flag := v ]}.
Proof.
  intros Hf Hv. cbn [parseArgs flag_body String.append]. unfold split_flag.
  rewrite split_on_app by done. change (v +:+ String "=" w) with (v +:+ String "=" w).
  by rewrite split_on_app.
Qed.

Example password_is_cut :
  parseArgs ["--password=correct=horse battery"] ∅ !! "password" = Some "correct".
Proof. vm_compute. reflexivity. Qed.

(** ** What the probes share *)

(** [message.includes(t)] *)
Definition includes (t s : string) : bool :=
  match String.index 0 t s with Some _ => true | None => false end.

(** [failures > 0]: the exit code after a list of checks. *)
Definition exitCode {A} (report : list (A * bool)) : Z :=
  if Nat.ltb 0 (length (List.filter (λ r, negb r.2) report)) then 1%Z else 0%Z.

Lemma exitCode_zero {A} (report : list (A * bool)) : exitCode report = 0%Z ↔ Forall (λ r, r.2 = true) report.
Proof.
  unfold exitCode. induction report as [|[ch b] report IH]; [by split; [constructor|]|].
  rewrite Forall_cons, <- IH. destruct b; simpl.
  - split; [by split|]. by intros [_ ?].
  - split; [discriminate|]. by intros [? _].
Qed.
