(* ===== verification/VerifyChain.v ===== *)
(** Walking a chain page by page: packages/db/src/audit/verify-chain.ts. *)
From S2P Require Import Prelude AuditHash Cli.
#[local] Open Scope Z_scope.

(** ** What to verify *)

Inductive target := Master | Tenant (idOrSlug : string).

Inductive usage_error :=
  | NoMasterUrl | TenantWithoutValue | NotExactlyOne | PageSizeWithoutValue | BadPageSize.

Definition truthy_flag (v : option flag_value) : bool :=
  match v with Some (Given s) => negb (bool_decide (s = "")) | Some Bare => true | None => false end.

(** The checks of [main] before anything is opened. [number] is what [Number]
    makes of the page size, [None] when that is not an integer. *)
Definition readOptions (number : string → option Z) (masterUrl : option string)
    (args : gmap string flag_value) : result usage_error (target * Z) :=
  let wantsMaster := bool_decide (args !! "master" = Some Bare) ||
                     bool_decide (args !! "master" = Some (Given "true")) in
  _ ← throw_if (negb (truthy_flag (Given <$> masterUrl))) NoMasterUrl;
  _ ← throw_if (bool_decide (args !! "tenant" = Some Bare)) TenantWithoutValue;
  _ ← throw_if (Bool.eqb wantsMaster (truthy_flag (args !! "tenant"))) NotExactlyOne;
  raw ← match args !! "page-size" with
        | Some Bare => Throw PageSizeWithoutValue
        | Some (Given s) => Ok s
        | None => Ok "1000"
        end;
  match number raw with
  | Some pageSize =>
      if pageSize <? 1 then Throw BadPageSize
      else Ok (match args !! "tenant" with
               | Some (Given t) => if wantsMaster then Master else Tenant t
               | _ => Master
               end, pageSize)
  | None => Throw BadPageSize
  end.

(** ** Pages *)

Definition seq_le (a b : StoredAuditEvent) : Prop := seq a ≤ seq b.
#[export] Instance seq_le_dec : RelDecision seq_le.
Proof. intros a b. unfold seq_le. apply _. Defined.
#[export] Instance seq_le_trans : Transitive seq_le.
Proof. intros a b c. unfold seq_le. lia. Qed.
#[export] Instance seq_le_total : Total seq_le.
Proof. intros a b. unfold seq_le. lia. Qed.

(** [WHERE seq > $1 ORDER BY audit_events.seq ASC LIMIT $2], with [toStored]. *)
Definition readPage (table : list StoredAuditEvent) (afterSeq : Z) (limit : nat)
    : list StoredAuditEvent :=
  firstn limit (merge_sort seq_le (filter (λ r, afterSeq < seq r) table)).

(** What the tool reports. *)
Inductive verdict :=
  | ChainOk (total : nat) (headHash : option Buffer)
  | Empty
  | Broken (at_ : ChainBreak) (verifiedBefore : nat).

Definition findIndex (p : StoredAuditEvent → bool) (es : list StoredAuditEvent) : option nat :=
  fst <$> list_find (λ e, p e = true) es.

Section walk.
Context `{Sha256} (pageSize : nat).

(** The loop, reading the table as it is at each page; [None] when the list of
    reads runs out before the loop ends. *)
Fixpoint walk (tables : list (list StoredAuditEvent)) (afterSeq : Z) (expectedPrev : Buffer)
    (total : nat) (headHash : option Buffer) : option (result hash_error verdict) :=
  match tables with
  | [] => None
  | table :: tables =>
      let events := readPage table afterSeq pageSize in
      match last events with
      | None => Some (Ok (if decide (total = 0%nat) then Empty else ChainOk total headHash))
      | Some last =>
          match verifyAuditChain events expectedPrev with
          | Throw e => Some (Throw e)
          | Ok (Some broken) =>
              let indexOfBreak := findIndex (λ e, seq e =? break_seq broken) events in
              Some (Ok (Broken broken (total + default 0%nat indexOfBreak)))
          | Ok None =>
              walk tables (seq last) (hash last) (total + length events) (Some (hash last))
          end
      end
  end.

Definition verifyTable (fuel : nat) (table : list StoredAuditEvent) : option (result hash_error verdict) :=
  walk (replicate fuel table) 0 GENESIS_HASH 0 None.

(** ** A table whose pages are slices *)

(** The table in sequence order. *)
Definition table_of (table es : list StoredAuditEvent) : Prop :=
  table ≡ₚ es ∧ StronglySorted Z.lt (seq <$> es) ∧ Forall (λ r, 0 < seq r) es.

(** Where the walk has come to once these events are verified. *)
Definition after (done_ : list StoredAuditEvent) : Z :=
  match last done_ with Some l => seq l | None => 0 end.

Lemma sorted_split es done_ rest :
  StronglySorted Z.lt (seq <$> es) → es = done_ ++ rest →
  Forall (λ r, 0 < seq r) es →
  filter (λ r, match last done_ with Some l => seq l | None => 0 end < seq r) es = rest.
Proof.
  intros Hs -> Hpos. rewrite filter_app. rewrite fmap_app in Hs.
  assert (Hdone : filter (λ r, match last done_ with Some l => seq l | None => 0 end < seq r) done_ = []).
  { destruct done_ as [|l done_] using rev_ind; [done|].
    rewrite last_snoc. apply StronglySorted_app_1_l in Hs. rewrite fmap_app in Hs.
    rewrite filter_app, filter_cons_False by lia. rewrite filter_nil, app_nil_r.
    clear -Hs. assert (Hall : ∀ r, r ∈ done_ → seq r < seq l).
    { intros r Hr. eapply (StronglySorted_app_1_elem_of Z.lt _ _ _ _ Hs);
        [by apply list_elem_of_fmap_2|simpl; set_solver]. }
    clear Hs. induction done_ as [|r done_ IH]; [done|].
    rewrite filter_cons_False by (specialize (Hall r ltac:(set_solver)); lia). apply IH.
    intros r' Hr'. apply Hall. set_solver. }
  rewrite Hdone. simpl. apply lfilter_true. intros r Hr.
  destruct (last done_) as [l|] eqn:El.
  - apply last_Some in El as [d' ->].
    eapply (StronglySorted_app_1_elem_of Z.lt _ _ _ _ Hs);
      [rewrite fmap_app; simpl; set_solver|by apply list_elem_of_fmap_2].
  - rewrite Forall_forall in Hpos. apply Hpos. set_solver.
Qed.

Lemma readPage_slice table es done_ rest :
  table_of table es → es = done_ ++ rest →
  readPage table (after done_) pageSize = firstn pageSize rest.
Proof.
  intros (Hp & Hs & Hpos) Hes. unfold readPage. f_equal. unfold after.
  assert (Hf : filter (λ r, match last done_ with Some l => seq l | None => 0 end < seq r) table ≡ₚ rest).
  { rewrite Hp. by rewrite (sorted_split es done_ rest). }
  assert (Hsr : StronglySorted Z.lt (seq <$> rest)).
  { rewrite Hes, fmap_app in Hs. by apply StronglySorted_app_1_r in Hs. }
  apply (StronglySorted_unique_strong seq_le).
  - intros a b Ha Hb Hab Hba.
    rewrite merge_sort_Permutation, Hf in Ha.
    assert (seq a = seq b) as Heq by (unfold seq_le in *; lia).
    apply list_elem_of_lookup in Ha as [i Hi], Hb as [j Hj].
    assert (i = j) as ->; [|congruence].
    assert (Hnd : NoDup (seq <$> rest)).
    { clear -Hsr. induction Hsr as [|x l Hl IH Hx]; constructor; [|done].
      intros Hin. rewrite Forall_forall in Hx. specialize (Hx x Hin). lia. }
    eapply (NoDup_lookup _ i j (seq a) Hnd); rewrite list_lookup_fmap; [by rewrite Hi|by rewrite Hj, Heq].
  - apply StronglySorted_merge_sort; apply _.
  - clear -Hsr. induction rest as [|r rest IH]; [constructor|].
    rewrite fmap_cons in Hsr. apply StronglySorted_inv in Hsr as [Hl Hx]. constructor; [by apply IH|].
    rewrite Forall_fmap in Hx. eapply Forall_impl; [exact Hx|].
    intros a Ha. unfold seq_le. simpl in Ha. lia.
  - by rewrite merge_sort_Permutation.
Qed.

(** ** The paged walk is the one walk *)

(** A verdict is right about a chain: for a break, the events before it hold and
    are counted; otherwise every event holds and the head is reported. *)
Definition right_about (es : list StoredAuditEvent) (v : verdict) : Prop :=
  match v with
  | Empty => es = []
  | ChainOk n h =>
      es ≠ [] ∧ chain_ok GENESIS_HASH es ∧ n = length es ∧ h = Some (head_hash GENESIS_HASH es)
  | Broken b n =>
      ∃ pre e post, es = pre ++ e :: post ∧ chain_ok GENESIS_HASH pre ∧
        broken_link (head_hash GENESIS_HASH pre) e b ∧ n = length pre
  end.

Lemma findIndex_at p pre e post :
  p e = true → (∀ e', e' ∈ pre → p e' = false) → findIndex p (pre ++ e :: post) = Some (length pre).
Proof.
  intros He Hpre. unfold findIndex. rewrite list_find_app_r.
  - simpl. rewrite decide_True by done. simpl. f_equal.
  - apply list_find_None, Forall_forall. intros e' He'. by rewrite Hpre.
Qed.

Lemma broken_seq prev e b : broken_link prev e b → break_seq b = seq e.
Proof. by destruct 1. Qed.

Lemma sorted_before (pre : list StoredAuditEvent) e post :
  StronglySorted Z.lt (seq <$> pre ++ e :: post) → ∀ e', e' ∈ pre → seq e' < seq e.
Proof.
  intros Hs e' He'. rewrite fmap_app in Hs.
  eapply (StronglySorted_app_1_elem_of Z.lt _ _ _ _ Hs);
    [by apply list_elem_of_fmap_2|simpl; set_solver].
Qed.

(** Snapshots of an append-only table: each extends the one before. *)
Fixpoint growing (prev : list StoredAuditEvent) (ess : list (list StoredAuditEvent)) : Prop :=
  match ess with
  | [] => True
  | es :: ess => (∃ rest, es = prev ++ rest) ∧ growing es ess
  end.

Lemma growing_weaken prev prev' ess :
  (∃ rest, prev = prev' ++ rest) → growing prev ess → growing prev' ess.
Proof.
  intros [r ->]. destruct ess as [|es ess]; [done|]. simpl. intros [[rest ->] Hg].
  split; [|done]. exists (r ++ rest). by rewrite app_assoc.
Qed.

(** The verdict at a break of the page read after [done_]. *)
Lemma break_right es done_ page rest b :
  StronglySorted Z.lt (seq <$> es) → es = done_ ++ page ++ rest → chain_ok GENESIS_HASH done_ →
  byteLength (head_hash GENESIS_HASH done_) = AUDIT_HASH_BYTES →
  verifyAuditChain page (head_hash GENESIS_HASH done_) = Ok (Some b) →
  right_about es (Broken b (length done_ +
    default 0%nat (findIndex (λ e, seq e =? break_seq b) page))).
Proof.
  intros Hs -> Hc Hw Hv. apply (verify_spec _ _ Hw) in Hv as (pre & e & post & -> & Hpre & Hbr).
  pose proof (broken_seq _ _ _ Hbr) as Hb.
  assert (Hh : head_hash (head_hash GENESIS_HASH done_) pre = head_hash GENESIS_HASH (done_ ++ pre)).
  { unfold head_hash. rewrite last_app. by destruct (last pre). }
  exists (done_ ++ pre), e, (post ++ rest). rewrite <- !app_assoc. simpl. split_and!; [done| |by rewrite <- Hh|].
  - apply chain_ok_app. by split.
  - rewrite findIndex_at; [simpl; by rewrite length_app|by rewrite Hb, Z.eqb_refl|].
    intros e' He'. apply Z.eqb_neq. rewrite Hb.
    assert (seq e' < seq e); [|lia]. rewrite <- app_assoc, app_assoc in Hs. simpl in Hs.
    eapply sorted_before; [exact Hs|set_solver].
Qed.

Lemma walk_spec tables ess done_ :
  (0 < pageSize)%nat → Forall2 table_of tables ess → growing done_ ess → chain_ok GENESIS_HASH done_ →
  match walk tables (after done_) (head_hash GENESIS_HASH done_) (length done_) (hash <$> last done_) with
  | None => ∃ es, last (done_ :: ess) = Some es ∧ (length done_ + length tables ≤ length es)%nat
  | Some (Ok v) => ∃ es, es ∈ ess ∧ right_about es v
  | Some (Throw _) => False
  end.
Proof.
  intros Hps Ht. revert done_. induction Ht as [|table es tables ess Htab Ht IH]; intros done_ Hg Hc.
  { simpl. exists done_. split; [done|lia]. }
  destruct Hg as [[rest Hes] Hg]. simpl walk.
  rewrite (readPage_slice table es done_ rest Htab Hes).
  assert (Hw : byteLength (head_hash GENESIS_HASH done_) = AUDIT_HASH_BYTES)
    by (by apply chain_ok_head_width).
  destruct Htab as (_ & Hs & _).
  destruct (last (firstn pageSize rest)) as [l|] eqn:El.
  2: { apply last_None in El. assert (rest = []) as ->.
       { destruct rest; [done|]. destruct pageSize; [lia|done]. }
       rewrite app_nil_r in Hes. subst es. exists done_. split; [by left|].
       case_decide as Hd; [by destruct done_|].
       assert (Hne : done_ ≠ []) by (by intros ->). split_and!; try done.
       unfold head_hash. destruct (last done_) eqn:E; [done|]. by apply last_None in E. }
  set (page := firstn pageSize rest) in *.
  assert (Hrest : rest = page ++ skipn pageSize rest) by (symmetry; apply firstn_skipn).
  destruct (verifyAuditChain page (head_hash GENESIS_HASH done_)) as [[b|]|e] eqn:Ev.
  - exists es. split; [by left|]. eapply break_right; [done| |done..]. by rewrite <- Hrest.
  - assert (Hc' : chain_ok GENESIS_HASH (done_ ++ page)).
    { apply chain_ok_app. split; [done|]. by apply (verify_spec _ page Hw). }
    assert (Hlast : last (done_ ++ page) = Some l) by (rewrite last_app; by rewrite El).
    specialize (IH (done_ ++ page)). unfold after, head_hash in IH. rewrite Hlast in IH.
    rewrite length_app in IH. simpl in IH.
    assert (Hg' : growing (done_ ++ page) ess).
    { eapply growing_weaken; [|exact Hg]. exists (skipn pageSize rest).
      by rewrite <- app_assoc, <- Hrest. }
    specialize (IH Hg' Hc').
    destruct (walk tables _ _ _ _) as [[v|?]|]; [|done|].
    + destruct IH as (es' & Hin & Hr). exists es'. split; [by right|done].
    + destruct IH as (es' & Hl & Hle).
      assert (Hpage : (1 ≤ length page)%nat) by (destruct page; [done|simpl; lia]).
      destruct ess as [|es1 ess].
      * exists es. split; [done|]. apply Forall2_nil_inv_r in Ht as ->. rewrite Hes, Hrest, !length_app. simpl. lia.
      * exists es'. split; [done|]. simpl. lia.
  - by destruct (proj2 (proj2 (verify_spec _ page Hw)) e).
Qed.

Lemma walk_from_start tables ess :
  (0 < pageSize)%nat → Forall2 table_of tables ess → growing [] ess →
  match walk tables 0 GENESIS_HASH 0 None with
  | None => ∃ es, last ([] :: ess) = Some es ∧ (length tables ≤ length es)%nat
  | Some (Ok v) => ∃ es, es ∈ ess ∧ right_about es v
  | Some (Throw _) => False
  end.
Proof. intros Hps Ht Hg. exact (walk_spec tables ess [] Hps Ht Hg I). Qed.

(** C29. The tool's verdict is right and it always reaches one: on a table of a
    chain, with any positive page size, reading one page more than there are
    events ends the loop; OK means every link holds from the genesis hash to the
    reported head, a break is the first one with the exact number of events
    verified before it, and no page boundary is skipped or counted twice. *)
Theorem verifyTable_right table es fuel :
  (0 < pageSize)%nat → table_of table es → (length es < fuel)%nat →
  ∃ v, verifyTable fuel table = Some (Ok v) ∧ right_about es v.
Proof.
  intros Hps Ht Hf. unfold verifyTable.
  assert (Hts : Forall2 table_of (replicate fuel table) (replicate fuel es)).
  { clear Hf. induction fuel; simpl; by constructor. }
  assert (Hg : growing [] (replicate fuel es)).
  { clear Hf Hts. apply (growing_weaken es); [by exists es|].
    induction fuel; [done|]. split; [exists []; by rewrite app_nil_r|done]. }
  pose proof (walk_from_start _ _ Hps Hts Hg) as Hw.
  destruct (walk (replicate fuel table) 0 GENESIS_HASH 0 None) as [[v|e]|].
  - exists v. split; [done|]. destruct Hw as (es' & Hin & Hr).
    by apply elem_of_replicate in Hin as [-> _].
  - done.
  - destruct Hw as (es' & Hl & Hle). rewrite length_replicate in Hle.
    destruct fuel as [|fuel]; [lia|].
    assert (es' = es) as ->; [|lia].
    rewrite replicate_S_end, app_comm_cons, last_snoc in Hl. congruence.
Qed.

(** Appends that land while the tool is reading do not confuse it: whatever
    rows are added between pages, a verdict is right about the table as it stood
    at one of the pages read. *)
Theorem walk_right_while_growing tables ess v :
  (0 < pageSize)%nat → Forall2 table_of tables ess → growing [] ess →
  walk tables 0 GENESIS_HASH 0 None = Some (Ok v) →
  ∃ es, es ∈ ess ∧ right_about es v.
Proof.
  intros Hps Ht Hg Hv. pose proof (walk_from_start tables ess Hps Ht Hg) as Hw. by rewrite Hv in Hw.
Qed.
End walk.

(** ** The tool at work *)

#[local] Existing Instance Sample.toy.

Lemma sample_table : table_of (reverse Sample.chain) Sample.chain.
Proof.
  split_and!; [apply reverse_Permutation| |].
  - change (seq <$> Sample.chain) with [1; 2; 3]. repeat constructor; lia.
  - repeat constructor; lia.
Qed.

Lemma verifyTable_right_witness :
  ∃ v, verifyTable 2 4 (reverse Sample.chain) = Some (Ok v) ∧ right_about Sample.chain v.
Proof.
  apply (verifyTable_right 2 (reverse Sample.chain) Sample.chain 4);
    [lia|apply sample_table|vm_compute; lia].
Defined.

Lemma sample_grows :
  Forall2 table_of [firstn 1 Sample.chain; Sample.chain; Sample.chain; Sample.chain]
    [firstn 1 Sample.chain; Sample.chain; Sample.chain; Sample.chain] ∧
  growing [] [firstn 1 Sample.chain; Sample.chain; Sample.chain; Sample.chain].
Proof.
  assert (H : table_of Sample.chain Sample.chain).
  { split; [done|]. apply sample_table. }
  split.
  - rewrite !Forall2_cons. split_and!; try done. split_and!; [done| |].
    + change (seq <$> firstn 1 Sample.chain) with [1]. repeat constructor.
    + repeat constructor; lia.
  - cbn [growing]. split_and!; try done; [by exists (firstn 1 Sample.chain)|by exists (skipn 1 Sample.chain)|by exists []..].
Qed.

Lemma walk_right_while_growing_witness :
  ∃ es, es ∈ [firstn 1 Sample.chain; Sample.chain; Sample.chain; Sample.chain] ∧
    right_about es (ChainOk 3 (Some (head_hash GENESIS_HASH Sample.chain))).
Proof.
  eapply (walk_right_while_growing 1 _ _ _ ltac:(lia) (proj1 sample_grows) (proj2 sample_grows)).
  vm_compute. reflexivity.
Defined.

Example bare_tenant_refused :
  readOptions (λ _, Some 1000) (Some "postgres://m") (parseFlags ["--tenant"; "--page-size"; "10"] ∅)
  = Throw TenantWithoutValue.
Proof. vm_compute. reflexivity. Qed.
Example tenant_chosen :
  readOptions (λ _, Some 10) (Some "postgres://m") (parseFlags ["--tenant=acme"; "--page-size"; "10"] ∅)
  = Ok (Tenant "acme", 10).
Proof. vm_compute. reflexivity. Qed.
