(* ===== verification/AuditRows.v ===== *)
(** From the INSERT of packages/db/src/audit/audit-writer.ts to the rows that
    packages/db/src/audit/verify-chain.ts reads: the columns of audit_events, the
    objects the driver makes of them, and [toStored].

    The writer hashes a text of a time and stores a timestamptz; the verifier
    hashes the text of what comes back. Everywhere else in this development a row
    carries the text, and this file says when that is right. *)
From Stdlib Require Import DecimalString DecimalZ.
From S2P Require Import Prelude Dates AuditHash AuditWriter Cli VerifyChain.
#[local] Open Scope Z_scope.

(** ** The columns *)

(** What Postgres makes of a text cast to timestamptz, in microseconds since 1970,
    and the [Date] the driver makes of that, in milliseconds. *)
Class Timestamptz := {
  cast : string → option Z;
  asDate : Z → Z;
  cast_iso ms : 0 ≤ ms < YEAR_10000 → cast (toISOString ms) = Some (ms * 1000);
  asDate_ms ms : asDate (ms * 1000) = ms;
}.

Record columns := {
  c_seq : Z;                            (* BIGSERIAL *)
  c_occurred_at : Z;                    (* TIMESTAMPTZ(6) *)
  c_action : string;
  c_actor_type : string;
  c_actor_id : option string;
  c_resource_type : option string;
  c_resource_id : option string;
  c_trace_id : option string;
  c_source_ip : option string;
  c_metadata : list (string * string);  (* JSONB *)
  c_prev_hash : Buffer;
  c_hash : Buffer;
}.

(** One row as the database returns it. *)
Record Row := {
  r_seq : string;
  r_occurred_at : Z;                    (* a Date *)
  r_action : string;
  r_actor_type : string;
  r_actor_id : option string;
  r_resource_type : option string;
  r_resource_id : option string;
  r_trace_id : option string;
  r_source_ip : option string;
  r_metadata : list (string * string);
  r_prev_hash : Buffer;
  r_hash : Buffer;
}.

(** [BigInt(s)] for a decimal text; [None]: a SyntaxError. *)
Definition BigInt (s : string) : option Z := Z.of_int <$> NilEmpty.int_of_string s.

(** [WHERE seq > $1 ORDER BY audit_events.seq ASC LIMIT $2] *)
Definition c_seq_le (a b : columns) : Prop := c_seq a ≤ c_seq b.
#[export] Instance c_seq_le_dec : RelDecision c_seq_le.
Proof. intros a b. unfold c_seq_le. apply _. Defined.

Definition select_page (table : list columns) (afterSeq : Z) (limit : nat) : list columns :=
  firstn limit (merge_sort c_seq_le (filter (λ c, afterSeq < c_seq c) table)).

Definition toStored (r : Row) : option StoredAuditEvent :=
  seq ← BigInt (r_seq r);
  Some {| input := {| action := r_action r; actorType := r_actor_type r; actorId := r_actor_id r;
                      resourceType := r_resource_type r; resourceId := r_resource_id r;
                      traceId := r_trace_id r; sourceIp := r_source_ip r;
                      occurredAt := toISOString (r_occurred_at r); metadata := r_metadata r |};
          seq := seq; prevHash := r_prev_hash r; hash := r_hash r |}.

Section rows.
Context `{Timestamptz}.

(** The INSERT, once its row is numbered: [$1::timestamptz, $2, ...]. *)
Definition insert_columns (e : StoredAuditEvent) : option columns :=
  us ← cast (occurredAt (input e));
  Some {| c_seq := seq e; c_occurred_at := us; c_action := action (input e);
          c_actor_type := actorType (input e); c_actor_id := actorId (input e);
          c_resource_type := resourceType (input e); c_resource_id := resourceId (input e);
          c_trace_id := traceId (input e); c_source_ip := sourceIp (input e);
          c_metadata := metadata (input e); c_prev_hash := prevHash e; c_hash := hash e |}.

Definition driver_row (c : columns) : Row :=
  {| r_seq := decZ (c_seq c); r_occurred_at := asDate (c_occurred_at c); r_action := c_action c;
     r_actor_type := c_actor_type c; r_actor_id := c_actor_id c; r_resource_type := c_resource_type c;
     r_resource_id := c_resource_id c; r_trace_id := c_trace_id c; r_source_ip := c_source_ip c;
     r_metadata := c_metadata c; r_prev_hash := c_prev_hash c; r_hash := c_hash c |}.

(** [rows.map(toStored)] of one page. *)
Definition read_events (table : list columns) (afterSeq : Z) (limit : nat) : option (list StoredAuditEvent) :=
  mapM toStored (driver_row <$> select_page table afterSeq limit).

(** ** One row there and back *)

Lemma BigInt_decZ z : BigInt (decZ z) = Some z.
Proof. unfold BigInt, decZ. rewrite NilEmpty.isi. cbn. by rewrite DecimalZ.of_to. Qed.

(** The times a running database gives: after 1970, before the year 10000. *)
Definition clock_text (t : string) : Prop := ∃ ms, 0 ≤ ms < YEAR_10000 ∧ t = toISOString ms.

Lemma row_roundtrip e :
  clock_text (occurredAt (input e)) →
  ∃ c, insert_columns e = Some c ∧ c_seq c = seq e ∧ toStored (driver_row c) = Some e.
Proof.
  intros (ms & Hms & Ht). unfold insert_columns. rewrite Ht, cast_iso by done. cbn [mbind option_bind].
  eexists. split_and!; [done|done|]. unfold toStored. cbn -[toISOString BigInt decZ]. rewrite BigInt_decZ.
  cbn -[toISOString]. rewrite asDate_ms, <- Ht.
  by destruct e as [[] ???].
Qed.

(** ** A whole table *)

Definition stored_as (c : columns) (e : StoredAuditEvent) : Prop :=
  c_seq c = seq e ∧ toStored (driver_row c) = Some e.

Lemma columns_of es :
  Forall (λ e, clock_text (occurredAt (input e))) es →
  ∃ cs, mapM insert_columns es = Some cs ∧ Forall2 stored_as cs es.
Proof.
  induction 1 as [|e es He _ (cs & Hcs & Hall)]; [by exists []|].
  destruct (row_roundtrip e He) as (c & Hc & Hs & Hb). exists (c :: cs).
  cbn. rewrite Hc. cbn. rewrite Hcs. split; [done|]. constructor; [done|done].
Qed.

(** What the query returns, decoded, is the page of the decoded table. *)
Definition decoded (c : columns) : StoredAuditEvent :=
  {| input := {| action := c_action c; actorType := c_actor_type c; actorId := c_actor_id c;
                 resourceType := c_resource_type c; resourceId := c_resource_id c;
                 traceId := c_trace_id c; sourceIp := c_source_ip c;
                 occurredAt := toISOString (asDate (c_occurred_at c)); metadata := c_metadata c |};
     seq := c_seq c; prevHash := c_prev_hash c; hash := c_hash c |}.

Lemma toStored_driver_row c : toStored (driver_row c) = Some (decoded c).
Proof. unfold toStored. cbn -[toISOString BigInt decZ]. by rewrite BigInt_decZ. Qed.

Lemma stored_as_decoded cs es : Forall2 stored_as cs es → es = decoded <$> cs.
Proof.
  induction 1 as [|c e cs es [_ Hc] _ ->]; [done|]. rewrite toStored_driver_row in Hc. by injection Hc as <-.
Qed.

Lemma decode_all cs : mapM toStored (driver_row <$> cs) = Some (decoded <$> cs).
Proof.
  induction cs as [|c cs IH]; [done|]. rewrite fmap_cons. cbn [mapM]. rewrite toStored_driver_row. cbn.
  by rewrite IH.
Qed.

Lemma read_events_decoded cs afterSeq limit :
  read_events cs afterSeq limit = Some (readPage (decoded <$> cs) afterSeq limit).
Proof.
  unfold read_events, readPage, select_page.
  assert (Hf : filter (λ r, afterSeq < seq r) (decoded <$> cs) = decoded <$> filter (λ c, afterSeq < c_seq c) cs).
  { induction cs as [|c cs IH]; [done|]. rewrite fmap_cons, !filter_cons. cbn. case_decide; cbn; by rewrite IH. }
  rewrite Hf, <- (merge_sort_fmap c_seq_le seq_le decoded), <- fmap_take by done.
  apply decode_all.
Qed.
End rows.

(** ** From the writer to the verifier *)

Section writer_to_verifier.
Context `{Sha256} `{Jsonb} `{Timestamptz}.

(** [now()] of a database whose clock is right to within eight thousand years. *)
Definition clocked (l : label) : Prop := match l with Begin _ now_at _ => clock_text now_at | _ => True end.

Lemma committed_clocked begun tr :
  Forall clocked tr → (∀ p n ev, begun !! p = Some (n, ev) → clock_text n) →
  Forall (λ ne : string * AppendAuditEvent, clock_text ne.1) (committed begun tr).
Proof.
  revert begun. induction tr as [|l tr IH]; intros begun Hc Hb; [constructor|].
  apply Forall_cons in Hc as [Hl Hc]. destruct l; cbn [committed clocked] in *; try by apply IH.
  - apply IH; [done|]. intros q n e [[<- [= <- <-]]|[_ Hq]]%lookup_insert_Some; [done|eauto].
  - apply Forall_app. split; [|by apply IH]. destruct (begun !! p) as [[n ev]|] eqn:E; repeat constructor. eauto.
Qed.

(** C26. Nothing is lost between the hash that was stored and the hash that is checked.
    Whatever the interleaving of the appends, every row they committed goes into
    its columns, and every page of every size the tool selects from those columns
    decodes to the rows that were hashed: text of the time, number, metadata and
    all. So the tool, reading rows, finds the chain whole. *)
Theorem verifier_reads_what_was_hashed tr s :
  run tr empty_db = Some s → Forall writer_label tr → Forall clocked tr →
  ∃ cs, mapM insert_columns (rows s) = Some cs ∧
    (∀ afterSeq limit, read_events cs afterSeq limit = Some (readPage (rows s) afterSeq limit)) ∧
    mapM toStored (driver_row <$> cs) = Some (rows s) ∧ verifyAuditChain (rows s) GENESIS_HASH = Ok None.
Proof.
  intros Hr Hw Hc. destruct (run_empty tr s Hr Hw) as [Hinv Hh].
  assert (Hclock : Forall (λ e, clock_text (occurredAt (input e))) (rows s)).
  { pose proof (committed_clocked ∅ tr Hc ltac:(intros ???; by rewrite lookup_empty)) as Ht.
    clear -Hh Ht. induction Hh as [|[n ev] e nes es [Hev _] _ IH]; [constructor|].
    apply Forall_cons in Ht as [Hn Ht]. constructor; [|by apply IH].
    apply same_scalars in Hev. unfold scalars in Hev. cbn in Hev. injection Hev; intros; subst. cbn in Hn.
    congruence. }
  destruct (columns_of (rows s) Hclock) as (cs & Hcs & Hst). exists cs.
  pose proof (stored_as_decoded cs (rows s) Hst) as Hd. split_and!; [done| | |].
  - intros. by rewrite read_events_decoded, Hd.
  - by rewrite decode_all, Hd.
  - by apply verify_spec, Hinv.
Qed.
End writer_to_verifier.

(** ** At work *)

Module RowsSample.
#[export] Existing Instance WriterSample.by_length.
#[export] Existing Instance Sample.toy.

(** A database that reads ISO texts to the microsecond, and a driver that makes a
    [Date] of the whole milliseconds. *)
#[export] Program Instance reads_iso : Timestamptz := {| cast := read_iso; asDate us := us / 1000 |}.
Next Obligation. exact read_toISOString. Qed.
Next Obligation. intros ms. apply Z.div_mul. lia. Qed.

(** An event somebody hashed with a finer clock than JavaScript's. *)
Definition fine : AuditEventInput := auditInput "2026-07-28T04:15:20.123456Z" WriterSample.failed.
Definition fine_row : StoredAuditEvent :=
  {| input := fine; seq := 1; prevHash := GENESIS_HASH;
     hash := default "" (to_option (computeAuditHash fine GENESIS_HASH)) |}.

(** The verifier's answer about the one row of a table, as it comes back. *)
Definition verdict_of_one (e : StoredAuditEvent) : option (result hash_error (option ChainBreak)) :=
  c ← insert_columns e;
  events ← read_events [c] 0 1;
  Some (verifyAuditChain events GENESIS_HASH).

Definition is_break (v : option (result hash_error (option ChainBreak))) : bool :=
  match v with Some (Ok (Some _)) => true | _ => false end.
End RowsSample.
Import RowsSample.

(** A timestamp is stored, not the text that was hashed: a text the driver does
    not give back reads as tampering, though nobody touched the row. *)
Lemma the_text_is_not_what_is_stored :
  verifyAuditChain [fine_row] GENESIS_HASH = Ok None ∧ is_break (verdict_of_one fine_row) = true.
Proof. split; vm_compute; reflexivity. Qed.

Lemma verifier_reads_what_was_hashed_witness :
  ∃ cs, mapM insert_columns (rows WriterSample.final) = Some cs ∧
    mapM toStored (driver_row <$> cs) = Some (rows WriterSample.final).
Proof.
  destruct (verifier_reads_what_was_hashed WriterSample.trace WriterSample.final) as (cs & H1 & _ & H2 & _).
  - apply WriterSample.trace_runs.
  - apply WriterSample.trace_writer.
  - repeat (apply Forall_cons; split; [try exact I|]); [..|constructor].
    + exists 1785405601000. split; [by split|]. vm_compute. reflexivity.
    + exists 1785405602000. split; [by split|]. vm_compute. reflexivity.
    + exists 1785405603000. split; [by split|]. vm_compute. reflexivity.
  - exists cs. split; [exact H1|exact H2].
Defined.
