(* ===== verification/ConnectionManager.v ===== *)
(** Tenants and their databases: packages/db/src/connection-manager.ts.

    Provisioning is a sequence of autocommitted steps on the registry and on the
    cluster. The runs of every process interleave step by step, may crash or fail
    at any of them, and may lose their lock; [prov_step] executes any such
    interleaving. TenantSchema.v opens up the step that builds the schema. *)
From S2P Require Import Prelude Domain AuditHash.
#[local] Open Scope Z_scope.

(** ** Identifiers *)

(** [/^[a-z][a-z0-9_]{0,62}$/] *)
Definition is_db_char (c : ascii) : bool := is_lower c || is_digit c || Ascii.eqb c "_".
Definition SAFE_DB_NAME (s : string) : bool :=
  match s with
  | String c s' => is_lower c && sall is_db_char s' && Nat.leb (String.length s') 62
  | EmptyString => false
  end.

(** [[0-9a-f]] under the i flag. *)
Definition is_hex_i (c : ascii) : bool := is_digit c || in_range 97 102 c || in_range 65 70 c.

(** Groups of 8, 4, 4, 4 and 12 digits joined by hyphens. *)
Definition UUID (s : string) : bool :=
  match split_on "-" s with
  | [a; b; c; d; e] =>
      forallb (λ g : string * nat, sall is_hex_i g.1 && Nat.eqb (String.length g.1) g.2)
        [(a, 8%nat); (b, 4%nat); (c, 4%nat); (d, 4%nat); (e, 12%nat)]
  | _ => false
  end.

Definition to_db_char (c : ascii) : ascii := if is_db_char c then c else "_"%char.

Definition tenantDatabaseName (slug : string) : M string :=
  let databaseName := smap to_db_char (toLowerCase ("tenant_" +:+ slug)) in
  if SAFE_DB_NAME databaseName then Ok databaseName
  else Throw (EError ("Derived database name is not a safe identifier: " +:+ databaseName)).

Definition tenantDatabaseMarker (tenantId : string) : string := "crbk-tenant:" +:+ tenantId.

Definition PROVISIONING_LOCK_NAMESPACE : Z := 1668440683.  (* 0x6372626b *)

(** [readInt32BE(0)] *)
Definition readInt32BE (b : Buffer) : Z :=
  match b with
  | String a (String b' (String c (String d _))) =>
      let u := Z.of_N (((code a * 256 + code b') * 256 + code c) * 256 + code d) in
      if u <? 2147483648 then u else u - 4294967296
  | _ => 0
  end.

Definition provisioningLockKeys `{Sha256} (databaseName : string) : Z * Z :=
  (PROVISIONING_LOCK_NAMESPACE, readInt32BE (sha256 databaseName)).

(** ** The registry and the cluster *)

Record TenantRecord := {
  row_id : string; row_slug : string; row_name : string; row_databaseName : string;
  row_status : TenantStatus;
}.

#[export] Instance tenant_record_eq_dec : EqDecision TenantRecord.
Proof. solve_decision. Defined.

Definition toTenant (row : TenantRecord) : Tenant :=
  {| tenant_id := row_id row; tenant_slug := row_slug row;
     tenant_databaseName := row_databaseName row; tenant_status := row_status row |}.

(** What the schema transaction puts in a tenant database. *)
Record Schema := {
  append_only : bool;                          (* audit-immutability.sql applied *)
  permissions_seeded : list (string * string);
  roles_seeded : list (string * string);
  grants_seeded : list (string * string);      (* role name, permission key *)
}.

Definition tenant_schema : Schema :=
  {| append_only := true;
     permissions_seeded := DEFAULT_PERMISSIONS;
     roles_seeded := [(TENANT_ADMIN_ROLE_NAME, TENANT_ADMIN_ROLE_DESCRIPTION)];
     grants_seeded := (λ p : string * string, (TENANT_ADMIN_ROLE_NAME, p.1)) <$> DEFAULT_PERMISSIONS |}.

(** A database: its COMMENT, the tenant tables if it holds any, and the rows of
    tables that are none of this program's. *)
Record Database := { comment : option string; tables : option Schema; foreign_rows : list string }.

Definition fresh_database : Database := {| comment := None; tables := None; foreign_rows := [] |}.

Record ProvisionTenantInput := { in_slug : string; in_name : string }.

(** The registry lookups. *)
Definition find_slug (slug : string) (rs : list TenantRecord) : option TenantRecord :=
  List.find (λ r, String.eqb (row_slug r) slug) rs.
Definition find_id (id : string) (rs : list TenantRecord) : option TenantRecord :=
  List.find (λ r, String.eqb (row_id r) id) rs.

(** A uuid is compared as a value; the registry prints it in lower case. *)
Definition uuid_text (id : string) : string := toLowerCase id.

(** [resolveTenant] *)
Definition resolveTenant (rs : list TenantRecord) (idOrSlug : string) : M Tenant :=
  let row := if UUID idOrSlug then find_id (uuid_text idOrSlug) rs else find_slug idOrSlug rs in
  match row with
  | Some r => if decide (row_status r = active) then Ok (toTenant r)
              else Throw (EDomain (TenantNotFoundError idOrSlug))
  | None => Throw (EDomain (TenantNotFoundError idOrSlug))
  end.

(** [registerOrResume]: the row to go on with, and the registry after it. [id]
    is what gen_random_uuid() returns. *)
Definition registerOrResume (id : string) (input : ProvisionTenantInput) (databaseName : string)
    (rs : list TenantRecord) : M (list TenantRecord * TenantRecord * bool) :=
  match find_slug (in_slug input) rs with
  | Some existing =>
      _ ← throw_if (negb (bool_decide (row_status existing = provisioning)) ||
                    negb (String.eqb (row_name existing) (in_name input)))
                   (EDomain (TenantAlreadyExistsError (in_slug input)));
      _ ← throw_if (negb (String.eqb (row_databaseName existing) databaseName))
                   (ETenantDatabaseConflict databaseName
                      ("the registry row for " +:+ quote +:+ in_slug input +:+ quote +:+ " names database "
                       +:+ quote +:+ row_databaseName existing +:+ quote));
      Ok (rs, existing, true)
  | None =>
      let row := {| row_id := id; row_slug := in_slug input; row_name := in_name input;
                    row_databaseName := databaseName; row_status := provisioning |} in
      if existsb (λ r, String.eqb (row_databaseName r) databaseName) rs
      then Throw (EDomain (TenantAlreadyExistsError (in_slug input)))
      else Ok (rs ++ [row], row, false)
  end.

(** [createDatabase] *)
Definition createDatabase (databaseName : string) (dbs : gmap string Database) : gmap string Database :=
  match dbs !! databaseName with
  | Some _ => dbs
  | None => <[databaseName := fresh_database]> dbs
  end.

(** [initializeTenantDatabase]: one transaction, so one step; TenantSchema.v has its
    statements, and the proof that this is what they amount to. *)
Definition initializeTenantDatabase (databaseName tenantId : string) (dbs : gmap string Database)
    : M (gmap string Database) :=
  if negb (SAFE_DB_NAME databaseName) || negb (UUID tenantId)
  then Throw (EError ("Refusing to mark " +:+ quote +:+ databaseName +:+ quote +:+ " for " +:+ quote
                        +:+ tenantId +:+ quote +:+ ": not a safe identifier"))
  else
    let marker := tenantDatabaseMarker tenantId in
    match dbs !! databaseName with
    | None => Throw (EPg "3D000")                       (* the database does not exist *)
    | Some d =>
        match comment d with
        | Some current =>
            if String.eqb current marker then Ok dbs
            else Throw (ETenantDatabaseConflict databaseName
                          ("it is marked " +:+ quote +:+ current +:+ quote +:+ ", not "
                             +:+ quote +:+ marker +:+ quote))
        | None =>
            match tables d with
            | Some _ => Throw (ETenantDatabaseConflict databaseName
                                 "it already holds tenant tables and carries no provisioning marker")
            | None => Ok (<[databaseName := {| comment := Some marker; tables := Some tenant_schema;
                                               foreign_rows := foreign_rows d |}]> dbs)
            end
        end
    end.

(** The final [tenant.update]; P2025 when the row is gone. *)
Definition activate_row (id : string) (rs : list TenantRecord) : M (list TenantRecord * TenantRecord) :=
  match find_id id rs with
  | None => Throw (EPrismaKnown "P2025")
  | Some row =>
      let active_row := {| row_id := row_id row; row_slug := row_slug row; row_name := row_name row;
                           row_databaseName := row_databaseName row; row_status := active |} in
      Ok ((λ r, if String.eqb (row_id r) id then active_row else r) <$> rs, active_row)
  end.

(** ** Provisioning runs *)

Record ProvisionedTenant := { prov_tenant : Tenant; prov_resumed : bool }.

Inductive prov_phase :=
  | Requested
  | LockHeld
  | Registered (row : TenantRecord) (resumed : bool)
  | DatabaseReady (row : TenantRecord) (resumed : bool)
  | Built (row : TenantRecord) (resumed : bool).

Record prov_run := { pr_input : ProvisionTenantInput; pr_db : string; pr_phase : prov_phase }.

Record prov_state := {
  registry : list TenantRecord;
  cluster : gmap string Database;
  held : gmap (Z * Z) nat;                         (* advisory locks, by run *)
  runs : gmap nat prov_run;
  answers : list (nat * M ProvisionedTenant);      (* what callers were given *)
}.

Inductive prov_label :=
  | Request (p : nat) (input : ProvisionTenantInput)
  | TryLock (p : nat)
  | Register (p : nat) (id : string)
  | CreateDb (p : nat)
  | Initialize (p : nat)
  | Activate (p : nat)
  | Crash (p : nat)
  | LoseLock (p : nat)
  | DeleteRow (id : string)                        (* an operator edits the registry *)
  | Suspend (id : string)
  | ForeignDb (name : string) (d : Database)       (* a database nobody provisioned *)
  | Fails (p : nat) (e : exn).                     (* what the run awaits next is rejected, undone *)

Section provisioning.
Context `{Sha256}.

Definition with_phase (r : prov_run) (ph : prov_phase) : prov_run :=
  {| pr_input := pr_input r; pr_db := pr_db r; pr_phase := ph |}.

Definition set_run (p : nat) (r : prov_run) (s : prov_state) : prov_state :=
  {| registry := registry s; cluster := cluster s; held := held s; runs := <[p := r]> (runs s);
     answers := answers s |}.

(** The locks run [p] holds. *)
Definition release (p : nat) (locks : gmap (Z * Z) nat) : gmap (Z * Z) nat :=
  filter (λ kp : Z * Z * nat, kp.2 ≠ p) locks.

(** [finally { await lock.release() }], and the answer. *)
Definition finish (p : nat) (a : M ProvisionedTenant) (s : prov_state) : prov_state :=
  {| registry := registry s; cluster := cluster s; held := release p (held s);
     runs := delete p (runs s); answers := answers s ++ [(p, a)] |}.

Definition prov_step (l : prov_label) (s : prov_state) : option prov_state :=
  match l with
  | Request p input =>
      match runs s !! p with
      | Some _ => None
      | None =>
          match tenantDatabaseName (in_slug input) with
          | Throw e => Some (finish p (Throw e) s)
          | Ok db => Some (set_run p {| pr_input := input; pr_db := db; pr_phase := Requested |} s)
          end
      end
  | TryLock p =>
      match runs s !! p with
      | Some ({| pr_phase := Requested |} as r) =>
          match held s !! provisioningLockKeys (pr_db r) with
          | Some _ =>
              Some (finish p (Throw (EDomain (TenantProvisioningInProgressError (in_slug (pr_input r))))) s)
          | None =>
              Some {| registry := registry s; cluster := cluster s;
                      held := <[provisioningLockKeys (pr_db r) := p]> (held s);
                      runs := <[p := with_phase r LockHeld]> (runs s); answers := answers s |}
          end
      | _ => None
      end
  | Register p id =>
      match runs s !! p with
      | Some ({| pr_phase := LockHeld |} as r) =>
          match registerOrResume id (pr_input r) (pr_db r) (registry s) with
          | Throw e => Some (finish p (Throw e) s)
          | Ok (rs, row, resumed) =>
              Some {| registry := rs; cluster := cluster s; held := held s;
                      runs := <[p := with_phase r (Registered row resumed)]> (runs s);
                      answers := answers s |}
          end
      | _ => None
      end
  | CreateDb p =>
      match runs s !! p with
      | Some ({| pr_phase := Registered row resumed |} as r) =>
          Some {| registry := registry s; cluster := createDatabase (pr_db r) (cluster s);
                  held := held s; runs := <[p := with_phase r (DatabaseReady row resumed)]> (runs s);
                  answers := answers s |}
      | _ => None
      end
  | Initialize p =>
      match runs s !! p with
      | Some ({| pr_phase := DatabaseReady row resumed |} as r) =>
          match initializeTenantDatabase (pr_db r) (row_id row) (cluster s) with
          | Throw e => Some (finish p (Throw e) s)
          | Ok dbs =>
              Some {| registry := registry s; cluster := dbs; held := held s;
                      runs := <[p := with_phase r (Built row resumed)]> (runs s);
                      answers := answers s |}
          end
      | _ => None
      end
  | Activate p =>
      match runs s !! p with
      | Some {| pr_phase := Built row resumed |} =>
          match activate_row (row_id row) (registry s) with
          | Throw e => Some (finish p (Throw e) s)
          | Ok (rs, row') =>
              Some (finish p (Ok {| prov_tenant := toTenant row'; prov_resumed := resumed |})
                {| registry := rs; cluster := cluster s; held := held s; runs := runs s;
                   answers := answers s |})
          end
      | _ => None
      end
  | Crash p =>
      match runs s !! p with
      | Some _ => Some {| registry := registry s; cluster := cluster s; held := release p (held s);
                          runs := delete p (runs s); answers := answers s |}
      | None => None
      end
  | LoseLock p =>
      Some {| registry := registry s; cluster := cluster s; held := release p (held s);
              runs := runs s; answers := answers s |}
  | DeleteRow id =>
      Some {| registry := filter (λ r, row_id r ≠ id) (registry s); cluster := cluster s;
              held := held s; runs := runs s; answers := answers s |}
  | Suspend id =>
      Some {| registry := (λ r, if String.eqb (row_id r) id && bool_decide (row_status r = active)
                                then {| row_id := row_id r; row_slug := row_slug r; row_name := row_name r;
                                        row_databaseName := row_databaseName r; row_status := suspended |}
                                else r) <$> registry s;
              cluster := cluster s; held := held s; runs := runs s; answers := answers s |}
  | ForeignDb name d =>
      match cluster s !! name with
      | Some _ => None
      | None => Some {| registry := registry s; cluster := <[name := d]> (cluster s); held := held s;
                        runs := runs s; answers := answers s |}
      end
  | Fails p e =>
      match runs s !! p with
      | Some _ => if internal e then Some (finish p (Throw e) s) else None   (* the driver's, no DomainError *)
      | None => None
      end
  end.

Fixpoint prov_exec (tr : list prov_label) (s : prov_state) : option prov_state :=
  match tr with
  | [] => Some s
  | l :: tr => match prov_step l s with Some s' => prov_exec tr s' | None => None end
  end.

(** [provisionTenant], one statement after another. *)
Definition provision_statements (p : nat) (input : ProvisionTenantInput) (id : string) : list prov_label :=
  [Request p input; TryLock p; Register p id; CreateDb p; Initialize p; Activate p].

Definition empty_state : prov_state :=
  {| registry := []; cluster := ∅; held := ∅; runs := ∅; answers := [] |}.

(** ** What holds in every reachable state *)

Definition phase_row (ph : prov_phase) : option TenantRecord :=
  match ph with
  | Registered row _ | DatabaseReady row _ | Built row _ => Some row
  | _ => None
  end.

Definition is_built (ph : prov_phase) : bool := match ph with Built _ _ => true | _ => false end.

(** The database carries the marker of this registry id. *)
Definition marked_for (dbs : gmap string Database) (name id : string) : Prop :=
  ∃ d, dbs !! name = Some d ∧ comment d = Some (tenantDatabaseMarker id).

Record prov_inv (used : list string) (s : prov_state) : Prop := {
  pi_slug : NoDup (row_slug <$> registry s);
  pi_db : NoDup (row_databaseName <$> registry s);
  pi_id : NoDup (row_id <$> registry s);
  pi_used : ∀ r, r ∈ registry s → row_id r ∈ used;
  pi_run_used : ∀ p r row, runs s !! p = Some r → phase_row (pr_phase r) = Some row → row_id row ∈ used;
  pi_marked : ∀ n d c, cluster s !! n = Some d → comment d = Some c → tables d = Some tenant_schema;
  pi_ready : ∀ r, r ∈ registry s → row_status r ≠ provisioning →
    marked_for (cluster s) (row_databaseName r) (row_id r);
  pi_built : ∀ p r row, runs s !! p = Some r → phase_row (pr_phase r) = Some row →
    is_built (pr_phase r) = true → marked_for (cluster s) (pr_db r) (row_id row);
  pi_same : ∀ p r row r', runs s !! p = Some r → phase_row (pr_phase r) = Some row →
    r' ∈ registry s → row_id r' = row_id row → row_databaseName r' = pr_db r;
}.

(** Ids come from gen_random_uuid(): never one that was used. *)
Definition new_ids (l : prov_label) : list string :=
  match l with Register _ id => [id] | _ => [] end.

(** What else is in the cluster carries no marker of this program. *)
Definition wf_label (l : prov_label) : Prop :=
  match l with ForeignDb _ d => comment d = None | _ => True end.

Lemma find_slug_Some slug rs r : find_slug slug rs = Some r → r ∈ rs ∧ row_slug r = slug.
Proof.
  intros H1. apply List.find_some in H1 as [H1 H2]. rewrite <- list_elem_of_In in H1.
  by apply String.eqb_eq in H2.
Qed.
Lemma find_slug_None slug rs : find_slug slug rs = None → slug ∉ row_slug <$> rs.
Proof.
  intros Hn (r & -> & Hr)%list_elem_of_fmap. apply list_elem_of_In in Hr.
  pose proof (List.find_none _ _ Hn r Hr) as Hf. simpl in Hf. by rewrite String.eqb_refl in Hf.
Qed.
Lemma find_id_Some id rs r : find_id id rs = Some r → r ∈ rs ∧ row_id r = id.
Proof.
  intros H1. apply List.find_some in H1 as [H1 H2]. rewrite <- list_elem_of_In in H1.
  by apply String.eqb_eq in H2.
Qed.
Lemma find_unique {A} (f : A → string) (rs : list A) r :
  NoDup (f <$> rs) → r ∈ rs → List.find (λ x, String.eqb (f x) (f r)) rs = Some r.
Proof.
  induction rs as [|r0 rs IH]; intros Hnd Hin; [by apply not_elem_of_nil in Hin|].
  rewrite fmap_cons in Hnd. apply NoDup_cons in Hnd as [Hni Hnd]. simpl.
  apply elem_of_cons in Hin as [->|Hin]; [by rewrite String.eqb_refl|].
  destruct (String.eqb_spec (f r0) (f r)) as [He|]; [|by apply IH].
  exfalso. apply Hni. rewrite He. by apply list_elem_of_fmap_2.
Qed.

Lemma existsb_db db rs :
  existsb (λ r, String.eqb (row_databaseName r) db) rs = false → db ∉ row_databaseName <$> rs.
Proof.
  intros Hf (r & -> & Hr)%list_elem_of_fmap.
  enough (existsb (λ r0, String.eqb (row_databaseName r0) (row_databaseName r)) rs = true) by congruence.
  apply existsb_exists. exists r. rewrite <- list_elem_of_In. split; [done|]. apply String.eqb_refl.
Qed.

(** The four outcomes of [registerOrResume]. *)
Lemma registerOrResume_inv id input db rs rs' row resumed :
  registerOrResume id input db rs = Ok (rs', row, resumed) →
  row_databaseName row = db ∧ row_slug row = in_slug input ∧ row_name row = in_name input ∧
  row_status row = provisioning ∧
  ((rs' = rs ∧ row ∈ rs ∧ resumed = true) ∨
   (rs' = rs ++ [row] ∧ row_id row = id ∧ resumed = false ∧
    in_slug input ∉ row_slug <$> rs ∧ db ∉ row_databaseName <$> rs)).
Proof.
  unfold registerOrResume. destruct (find_slug (in_slug input) rs) as [ex|] eqn:Ef.
  - apply find_slug_Some in Ef as [Hin Hslug]. intros Hr. invert_ok.
    apply orb_false_iff in E as [E1 E2]. apply negb_false_iff in E1, E2, E0.
    apply bool_decide_eq_true in E1. apply String.eqb_eq in E2, E0.
    split_and!; try done. by left.
  - apply find_slug_None in Ef. destruct (existsb _ rs) eqn:Ed; [done|].
    apply existsb_db in Ed. intros [= <- <- <-]. simpl. split_and!; try done. right. by split_and!.
Qed.

Lemma inv_used used used' s : used ⊆ used' → prov_inv used s → prov_inv used' s.
Proof. intros Hs []. split; try done; intros; apply Hs; eauto. Qed.

(** Runs that ended, locks that moved and answers given change nothing else. *)
Lemma inv_fewer_runs used s s' :
  prov_inv used s → registry s' = registry s → cluster s' = cluster s →
  (∀ p r, runs s' !! p = Some r → runs s !! p = Some r) → prov_inv used s'.
Proof.
  intros [] Hr Hc Hruns. split; rewrite ?Hr, ?Hc; try done; intros; eauto.
Qed.

Lemma inv_finish used p a s : prov_inv used s → prov_inv used (finish p a s).
Proof.
  intros Hinv. eapply inv_fewer_runs; [exact Hinv|done|done|].
  simpl. by intros q r [_ Hq]%lookup_delete_Some.
Qed.

(** Databases that carry a comment stay as they are. *)
Definition keeps_marked (dbs dbs' : gmap string Database) : Prop :=
  ∀ n d, dbs !! n = Some d → comment d ≠ None → dbs' !! n = Some d.

Lemma marked_keeps dbs dbs' n id : keeps_marked dbs dbs' → marked_for dbs n id → marked_for dbs' n id.
Proof. intros Hk (d & Hd & Hc). exists d. split; [|done]. apply Hk; congruence. Qed.

Lemma inv_cluster used s dbs :
  prov_inv used s → keeps_marked (cluster s) dbs →
  (∀ n d c, dbs !! n = Some d → comment d = Some c → tables d = Some tenant_schema) →
  prov_inv used {| registry := registry s; cluster := dbs; held := held s; runs := runs s;
                   answers := answers s |}.
Proof.
  intros [] Hk Hm. split; simpl; try done; intros; eauto using marked_keeps.
Qed.

(** A run moving to a phase with a row the registry knows how to place. *)
Lemma inv_run used s p r ph :
  prov_inv used s → runs s !! p = Some r →
  (∀ row, phase_row ph = Some row → row_id row ∈ used ∧
     (is_built ph = true → marked_for (cluster s) (pr_db r) (row_id row)) ∧
     ∀ r', r' ∈ registry s → row_id r' = row_id row → row_databaseName r' = pr_db r) →
  ∀ locks, prov_inv used {| registry := registry s; cluster := cluster s; held := locks;
    runs := <[p := with_phase r ph]> (runs s); answers := answers s |}.
Proof.
  intros Hinv Hp Hph locks. destruct Hinv. split; simpl; try done.
  - intros q r' row Hq Hrow. destruct (decide (p = q)) as [->|]; simplify_map_eq; [|eauto].
    by apply Hph.
  - intros q r' row Hq Hrow Hb. destruct (decide (p = q)) as [->|]; simplify_map_eq; [|eauto].
    by apply Hph.
  - intros q r' row r0 Hq Hrow. destruct (decide (p = q)) as [->|]; simplify_map_eq; [|eauto].
    by apply Hph.
Qed.

Lemma createDatabase_keeps db dbs : keeps_marked dbs (createDatabase db dbs).
Proof.
  intros n d Hd Hc. unfold createDatabase. destruct (dbs !! db) eqn:E; [done|].
  rewrite lookup_insert_ne; [done|]. intros ->. congruence.
Qed.

Lemma createDatabase_marked db dbs n d c :
  createDatabase db dbs !! n = Some d → comment d = Some c → dbs !! n = Some d.
Proof.
  unfold createDatabase. destruct (dbs !! db) eqn:E; [done|].
  intros [[-> <-]|[Hne Hd]]%lookup_insert_Some; done.
Qed.

(** What the schema transaction does when it commits. *)
Lemma initialize_inv db id dbs dbs' :
  initializeTenantDatabase db id dbs = Ok dbs' →
  keeps_marked dbs dbs' ∧ marked_for dbs' db id ∧
  (∀ n d c, dbs' !! n = Some d → comment d = Some c →
     (dbs !! n = Some d ∨ (n = db ∧ tables d = Some tenant_schema ∧ c = tenantDatabaseMarker id))).
Proof.
  unfold initializeTenantDatabase. destruct (_ || _); [done|].
  destruct (dbs !! db) as [d|] eqn:Ed; [|done].
  destruct (comment d) as [c|] eqn:Ec.
  - destruct (String.eqb_spec c (tenantDatabaseMarker id)) as [->|]; [|done].
    intros [= <-]. split_and!; [by intros ??|by exists d|eauto].
  - destruct (tables d) eqn:Et; [done|]. intros [= <-]. split_and!.
    + intros n d' Hd' Hc. rewrite lookup_insert_ne; [done|]. intros ->. congruence.
    + eexists. rewrite lookup_insert_eq. done.
    + intros n d' c [[-> <-]|[Hne Hd]]%lookup_insert_Some; simpl; [|by left].
      intros [= <-]. by right.
Qed.

(** Registering a new row. *)
Lemma inv_new_row used s row :
  prov_inv used s → row_id row ∉ used → row_status row = provisioning →
  row_slug row ∉ row_slug <$> registry s → row_databaseName row ∉ row_databaseName <$> registry s →
  prov_inv (row_id row :: used)
    {| registry := registry s ++ [row]; cluster := cluster s; held := held s; runs := runs s;
       answers := answers s |}.
Proof.
  intros [] Hid Hst Hslug Hdb.
  assert (Hsnoc : ∀ f : TenantRecord → string, NoDup (f <$> registry s) → f row ∉ f <$> registry s →
    NoDup (f <$> registry s ++ [row])).
  { intros f Hnd Hni. rewrite fmap_app. apply NoDup_app. split_and!; [done| |apply NoDup_singleton].
    intros x Hx Hin. simpl in Hin. apply list_elem_of_singleton in Hin as ->. done. }
  split; simpl; try (by apply Hsnoc); try done.
  - apply Hsnoc; [done|]. intros (r & He & Hr)%list_elem_of_fmap. apply Hid. rewrite He. eauto.
  - intros r [Hr| ->%list_elem_of_singleton]%elem_of_app; set_solver.
  - intros p r row' Hp Hrow. right. eauto.
  - intros r [Hr| ->%list_elem_of_singleton]%elem_of_app; [eauto|congruence].
  - intros p r row' r' Hp Hrow [Hr'| ->%list_elem_of_singleton]%elem_of_app Heq; [eauto|].
    exfalso. apply Hid. rewrite Heq. eauto.
Qed.

(** An update that keeps every identity and makes no row ready that has no
    database. *)
Lemma inv_update used s (f : TenantRecord → TenantRecord) :
  prov_inv used s →
  (∀ r, r ∈ registry s → row_id (f r) = row_id r ∧ row_slug (f r) = row_slug r ∧
        row_databaseName (f r) = row_databaseName r) →
  (∀ r, r ∈ registry s → row_status (f r) ≠ provisioning →
     row_status r ≠ provisioning ∨ marked_for (cluster s) (row_databaseName r) (row_id r)) →
  prov_inv used {| registry := f <$> registry s; cluster := cluster s; held := held s; runs := runs s;
                   answers := answers s |}.
Proof.
  intros [] Hf Hst.
  assert (Hmap : ∀ g : TenantRecord → string, (∀ r, r ∈ registry s → g (f r) = g r) → g <$> (f <$> registry s) = g <$> registry s).
  { intros g Hg. rewrite <- list_fmap_compose. apply list_fmap_ext.
    intros ? r Hr%list_elem_of_lookup_2. by apply Hg. }
  split; simpl; rewrite ?Hmap; try done; try (intros r Hr; by apply Hf).
  - intros r (r0 & -> & Hr)%list_elem_of_fmap. rewrite (proj1 (Hf r0 Hr)). eauto.
  - intros r (r0 & -> & Hr)%list_elem_of_fmap Hs. destruct (Hf r0 Hr) as (-> & _ & ->).
    destruct (Hst r0 Hr Hs); eauto.
  - intros p r row r' Hp Hrow (r0 & -> & Hr)%list_elem_of_fmap Heq. destruct (Hf r0 Hr) as (Hi & _ & ->).
    rewrite Hi in Heq. eauto.
Qed.

Lemma prov_inv_step used l s s' :
  prov_step l s = Some s' → wf_label l → prov_inv used s → (∀ id, id ∈ new_ids l → id ∉ used) →
  prov_inv (new_ids l ++ used) s'.
Proof.
  intros Hstep Hwf Hinv Hnew. destruct l as [p input|p|p id|p|p|p|p|p|id|id|name d|p e]; simpl in *.
  - destruct (runs s !! p) eqn:Ep; [done|].
    destruct (tenantDatabaseName (in_slug input)) as [db|e]; simplify_eq; [|by apply inv_finish].
    destruct Hinv. split; simpl; try done; intros q r row; intros;
      destruct (decide (p = q)) as [->|]; simplify_map_eq; eauto.
  - destruct (runs s !! p) as [[inp db []]|] eqn:Ep; try done. simpl in *.
    destruct (held s !! _); simplify_eq; [by apply inv_finish|].
    by apply (inv_run used s p _ LockHeld Hinv Ep).
  - destruct (runs s !! p) as [[inp db []]|] eqn:Ep; try done. simpl in *.
    destruct (registerOrResume id inp db (registry s)) as [[[rs row] resumed]|e] eqn:Er; simplify_eq.
    2: { apply inv_finish. eapply inv_used, Hinv. set_solver. }
    apply registerOrResume_inv in Er as (Hdb & Hslug & Hname & Hst & [(-> & Hin & ->)|(-> & <- & -> & Hns & Hnd)]).
    + eapply inv_used; [|eapply (inv_run used s p _ (Registered row true) Hinv Ep)]; [set_solver|].
      simpl. intros row' [= <-]. split_and!; [by eapply pi_used|done|].
      intros r' Hr' He. assert (r' = row) as ->; [|done].
      pose proof (find_unique row_id _ r' (pi_id _ _ Hinv) Hr') as H1.
      pose proof (find_unique row_id _ row (pi_id _ _ Hinv) Hin) as H2. rewrite He in H1. congruence.
    + pose proof (inv_new_row used s row Hinv (Hnew _ ltac:(by left)) Hst ltac:(congruence)
        ltac:(congruence)) as Hinv'.
      eapply (inv_run _ _ p _ (Registered row false) Hinv' Ep). simpl. intros row' [= <-].
      split_and!; [set_solver|done|]. intros r' [Hr'| ->%list_elem_of_singleton]%elem_of_app He; [|done].
      exfalso. apply (Hnew (row_id row)); [by left|]. rewrite <- He. by eapply pi_used.
  - destruct (runs s !! p) as [[inp db [| |row resumed|row resumed|row resumed]]|] eqn:Ep; simplify_eq.
    assert (Hinv' := inv_cluster used s (createDatabase db (cluster s)) Hinv (createDatabase_keeps _ _)
      ltac:(intros n d c Hd Hc; eapply (pi_marked _ _ Hinv n), Hc; by eapply createDatabase_marked)).
    eapply (inv_run _ _ p _ (DatabaseReady row resumed) Hinv' Ep). simpl. intros row' [= <-].
    split_and!; [by eapply (pi_run_used _ _ Hinv p _ row Ep)|done|].
    intros r' Hr' He. by eapply (pi_same _ _ Hinv p _ row r' Ep).
  - destruct (runs s !! p) as [[inp db [| |row resumed|row resumed|row resumed]]|] eqn:Ep; try done.
    simpl in *. destruct (initializeTenantDatabase db (row_id row) (cluster s)) as [dbs|e] eqn:Ei;
      simplify_eq; [|by apply inv_finish].
    apply initialize_inv in Ei as (Hk & Hm & Hnew').
    assert (Hinv' := inv_cluster used s dbs Hinv Hk ltac:(intros n d c Hd Hc;
      destruct (Hnew' n d c Hd Hc) as [Hd'|(_ & Ht & _)]; [by eapply (pi_marked _ _ Hinv n)|done])).
    eapply (inv_run _ _ p _ (Built row resumed) Hinv' Ep). simpl. intros row' [= <-].
    split_and!; [by eapply (pi_run_used _ _ Hinv p _ row Ep)|done|].
    intros r' Hr' He. by eapply (pi_same _ _ Hinv p _ row r' Ep).
  - destruct (runs s !! p) as [[inp db [| |row resumed|row resumed|row resumed]]|] eqn:Ep; try done.
    simpl in *. destruct (activate_row (row_id row) (registry s)) as [[rs row']|e] eqn:Ea;
      simplify_eq; [|by apply inv_finish].
    apply (inv_finish _ p). unfold activate_row in Ea.
    destruct (find_id (row_id row) (registry s)) as [r0|] eqn:Ef; simplify_eq.
    apply find_id_Some in Ef as [Hr0 Hid0].
    eapply inv_update; [done| |].
    + intros r Hr. destruct (String.eqb_spec (row_id r) (row_id row)) as [He|]; [|done]. simpl.
      assert (r = r0) as ->; [|done].
      pose proof (find_unique row_id _ r (pi_id _ _ Hinv) Hr) as H1.
      pose proof (find_unique row_id _ r0 (pi_id _ _ Hinv) Hr0) as H2.
      rewrite He in H1. rewrite Hid0 in H2. congruence.
    + intros r Hr. destruct (String.eqb_spec (row_id r) (row_id row)) as [He|]; [|by left].
      intros _. right.
      rewrite (pi_same _ _ Hinv p _ row r Ep eq_refl Hr He), He.
      by eapply (pi_built _ _ Hinv p _ row Ep).
  - destruct (runs s !! p); simplify_eq. eapply inv_fewer_runs; [exact Hinv|done|done|].
    simpl. by intros q r [_ Hq]%lookup_delete_Some.
  - simplify_eq. by eapply inv_fewer_runs.
  - simplify_eq. destruct Hinv.
    assert (Hsub : ∀ g : TenantRecord → string, NoDup (g <$> registry s) →
      NoDup (g <$> filter (λ r, row_id r ≠ id) (registry s))).
    { intros g Hg. eapply sublist_NoDup; [exact Hg|]. apply fmap_sublist, sublist_filter. }
    split; simpl; try (by apply Hsub); try done;
      intros; repeat match goal with Hx : _ ∈ filter _ _ |- _ => apply list_elem_of_filter in Hx as [_ Hx] end; eauto.
  - simplify_eq. apply inv_update; [done| |].
    + intros r _. by destruct (_ && _).
    + intros r _. destruct (String.eqb (row_id r) id && _) eqn:E; [|by left].
      intros _. left. apply andb_true_iff in E as [_ E]. apply bool_decide_eq_true in E. by rewrite E.
  - destruct (cluster s !! name) eqn:En; simplify_eq. apply inv_cluster; [done| |].
    + intros n d' Hd' Hc. rewrite lookup_insert_ne; [done|]. intros ->. congruence.
    + intros n d' c [[-> <-]|[Hne Hd]]%lookup_insert_Some Hc; [congruence|]. by eapply (pi_marked _ _ Hinv n).
  - destruct (runs s !! p), (internal e); simplify_eq. by apply inv_finish.
Qed.

Definition ids_of (tr : list prov_label) : list string := mjoin (new_ids <$> tr).

Lemma prov_inv_exec tr used s s' :
  prov_exec tr s = Some s' → Forall wf_label tr → prov_inv used s →
  NoDup (ids_of tr) → (∀ id, id ∈ ids_of tr → id ∉ used) →
  ∃ used', prov_inv used' s' ∧ ∀ id, id ∈ used' → id ∈ used ∨ id ∈ ids_of tr.
Proof.
  revert used s. induction tr as [|l tr IH]; intros used s Hr Hwf Hinv Hnd Hnew.
  { injection Hr as <-. exists used. auto. }
  cbn [prov_exec] in Hr. apply Forall_cons in Hwf as [Hl Hwf].
  destruct (prov_step l s) as [s1|] eqn:E; [|done].
  unfold ids_of in *. rewrite fmap_cons in Hnd, Hnew. simpl in Hnd, Hnew.
  apply NoDup_app in Hnd as (_ & Hdisj & Hnd).
  destruct (IH (new_ids l ++ used) s1 Hr Hwf) as (used' & Hinv' & Hu).
  - eapply prov_inv_step; [done|done|done|]. intros id Hid. apply Hnew. set_solver.
  - done.
  - intros id Hid Hin. apply elem_of_app in Hin as [Hin|Hin]; [by apply (Hdisj id)|].
    apply (Hnew id); [set_solver|done].
  - exists used'. split; [done|]. intros id Hid. apply Hu in Hid. rewrite fmap_cons. simpl. set_solver.
Qed.

Lemma empty_prov_inv : prov_inv [] empty_state.
Proof.
  split; simpl; try constructor; intros; try (by apply not_elem_of_nil in H0);
    match goal with Hx : ∅ !! _ = Some _ |- _ => by rewrite lookup_empty in Hx | _ => set_solver end.
Qed.

Lemma resolve_inv rs x t :
  resolveTenant rs x = Ok t → ∃ r, r ∈ rs ∧ row_status r = active ∧ t = toTenant r.
Proof.
  unfold resolveTenant.
  set (row := if UUID x then _ else _). assert (Hrow : ∀ r, row = Some r → r ∈ rs).
  { intros r. unfold row. destruct (UUID x); [intros [? _]%find_id_Some|intros [? _]%find_slug_Some]; done. }
  destruct row as [r|]; [|done]. case_decide; [|done]. intros [= <-]. eauto.
Qed.

(** C5. Database per tenant: whatever runs, failures, crashes, lost locks and
    operator edits led here, a tenant that resolves has a fully built database, marked
    for that tenant's own registry row, and no two tenants that resolve share
    one. *)
Theorem resolved_tenant_isolated tr s x t :
  prov_exec tr empty_state = Some s → Forall wf_label tr → NoDup (ids_of tr) →
  resolveTenant (registry s) x = Ok t →
  (∃ d, cluster s !! tenant_databaseName t = Some d ∧
     comment d = Some (tenantDatabaseMarker (tenant_id t)) ∧ tables d = Some tenant_schema) ∧
  ∀ y t', resolveTenant (registry s) y = Ok t' →
    tenant_databaseName t = tenant_databaseName t' → t = t'.
Proof.
  intros Hr Hwf Hnd Ht.
  destruct (prov_inv_exec tr [] empty_state s Hr Hwf empty_prov_inv Hnd) as (used & Hinv & _); [set_solver|].
  apply resolve_inv in Ht as (r & Hin & Hst & ->). split.
  - destruct (pi_ready _ _ Hinv r Hin ltac:(congruence)) as (d & Hd & Hc). exists d.
    split_and!; [done|done|]. by eapply (pi_marked _ _ Hinv).
  - intros y t' (r' & Hin' & _ & ->)%resolve_inv Hdb. simpl in Hdb. f_equal.
    pose proof (find_unique row_databaseName _ r (pi_db _ _ Hinv) Hin) as H1.
    pose proof (find_unique row_databaseName _ r' (pi_db _ _ Hinv) Hin') as H2.
    rewrite Hdb in H1. congruence.
Qed.

Lemma initialize_keeps_tables db id dbs dbs' n d :
  initializeTenantDatabase db id dbs = Ok dbs' → dbs !! n = Some d → tables d ≠ None →
  dbs' !! n = Some d.
Proof.
  unfold initializeTenantDatabase. destruct (_ || _); [done|].
  destruct (dbs !! db) as [d0|] eqn:Ed; [|done]. destruct (comment d0).
  - destruct (String.eqb _ _); [by intros [= <-]|done].
  - destruct (tables d0) eqn:Et; [done|]. intros [= <-] Hd Ht.
    rewrite lookup_insert_ne; [done|]. intros ->. congruence.
Qed.

Lemma step_keeps_tables l s s' n d :
  prov_step l s = Some s' → cluster s !! n = Some d → tables d ≠ None → cluster s' !! n = Some d.
Proof.
  intros Hstep Hd Ht. destruct l as [p input|p|p id|p|p|p|p|p|id|id|name d'|p e]; simpl in *;
    try (destruct (runs s !! p) as [[inp db []]|] eqn:Ep; try done; simpl in *);
    repeat case_match; simplify_eq; try done; simpl.
  - unfold createDatabase. destruct (cluster s !! db) eqn:E; [done|].
    rewrite lookup_insert_ne; [done|]. intros ->. congruence.
  - by eapply initialize_keeps_tables.
  - rewrite lookup_insert_ne; [done|]. intros ->. congruence.
Qed.

(** Nobody's data is adopted or overwritten: a database that holds tenant
    tables, whoever built it, is left exactly as it is by every run. *)
Theorem existing_tables_untouched tr s s' n d :
  prov_exec tr s = Some s' → cluster s !! n = Some d → tables d ≠ None → cluster s' !! n = Some d.
Proof.
  revert s. induction tr as [|l tr IH]; intros s Hr Hd Ht; [by injection Hr as <-|].
  cbn [prov_exec] in Hr. destruct (prov_step l s) as [s1|] eqn:E; [|done].
  eapply IH; [done| |done]. by eapply step_keeps_tables.
Qed.

(** ** A retry finishes what was started *)

(** Nothing but runs, crashes and lost locks; ids are uuids. *)
Definition closed_label (l : prov_label) : Prop :=
  match l with
  | DeleteRow _ | ForeignDb _ _ => False
  | Register _ id => UUID id = true
  | _ => True
  end.

Record owner_inv (s : prov_state) : Prop := {
  oi_owner : ∀ n d, cluster s !! n = Some d →
    (comment d = None ∧ tables d = None) ∨
    ∃ row, row ∈ registry s ∧ comment d = Some (tenantDatabaseMarker (row_id row)) ∧
           row_databaseName row = n;
  oi_run : ∀ p r row, runs s !! p = Some r → phase_row (pr_phase r) = Some row →
    ∃ row', row' ∈ registry s ∧ row_id row' = row_id row ∧ row_databaseName row' = pr_db r;
  oi_row : ∀ row, row ∈ registry s →
    tenantDatabaseName (row_slug row) = Ok (row_databaseName row) ∧ UUID (row_id row) = true;
  oi_input : ∀ p r, runs s !! p = Some r → tenantDatabaseName (in_slug (pr_input r)) = Ok (pr_db r);
}.

Lemma owner_fewer_runs s s' :
  owner_inv s → registry s' = registry s → cluster s' = cluster s →
  (∀ p r, runs s' !! p = Some r → runs s !! p = Some r) → owner_inv s'.
Proof. intros [] Hr Hc Hruns. split; rewrite ?Hr, ?Hc; eauto. Qed.

Lemma owner_finish p a s : owner_inv s → owner_inv (finish p a s).
Proof.
  intros Hinv. eapply owner_fewer_runs; [exact Hinv|done|done|].
  simpl. by intros q r [_ Hq]%lookup_delete_Some.
Qed.

(** Rows only gain companions or change status. *)
Definition registry_keeps (rs rs' : list TenantRecord) : Prop :=
  ∀ row, row ∈ rs → ∃ row', row' ∈ rs' ∧ row_id row' = row_id row ∧
    row_databaseName row' = row_databaseName row.

Lemma owner_registry s rs :
  owner_inv s → registry_keeps (registry s) rs →
  (∀ row, row ∈ rs → tenantDatabaseName (row_slug row) = Ok (row_databaseName row) ∧
                     UUID (row_id row) = true) →
  owner_inv {| registry := rs; cluster := cluster s; held := held s; runs := runs s;
               answers := answers s |}.
Proof.
  intros [] Hk Hrow. split; simpl; try done.
  - intros n d Hd. destruct (oi_owner0 n d Hd) as [?|(row & Hin & Hc & Hn)]; [by left|right].
    destruct (Hk row Hin) as (row' & Hin' & Hi & Hd'). exists row'. rewrite Hi, Hd'. done.
  - intros p r row Hp Hph. destruct (oi_run0 p r row Hp Hph) as (row0 & Hin & Hi & Hd).
    destruct (Hk row0 Hin) as (row' & Hin' & Hi' & Hd'). exists row'. split_and!; congruence.
Qed.

Lemma owner_run s p r ph locks :
  owner_inv s → runs s !! p = Some r →
  (∀ row, phase_row ph = Some row →
     ∃ row', row' ∈ registry s ∧ row_id row' = row_id row ∧ row_databaseName row' = pr_db r) →
  owner_inv {| registry := registry s; cluster := cluster s; held := locks;
               runs := <[p := with_phase r ph]> (runs s); answers := answers s |}.
Proof.
  intros [] Hp Hph. split; simpl; try done.
  - intros q r' row Hq Hrow. destruct (decide (p = q)) as [->|]; simplify_map_eq; eauto.
  - intros q r' Hq. destruct (decide (p = q)) as [->|]; simplify_map_eq; [|eauto].
    by apply (oi_input0 q).
Qed.

Lemma owner_cluster s dbs :
  owner_inv s →
  (∀ n d, dbs !! n = Some d → (comment d = None ∧ tables d = None) ∨
    ∃ row, row ∈ registry s ∧ comment d = Some (tenantDatabaseMarker (row_id row)) ∧
           row_databaseName row = n) →
  owner_inv {| registry := registry s; cluster := dbs; held := held s; runs := runs s;
               answers := answers s |}.
Proof. intros [] Hd. by split. Qed.

Lemma registry_map_keeps (f : TenantRecord → TenantRecord) rs :
  (∀ r, r ∈ rs → row_id (f r) = row_id r ∧ row_databaseName (f r) = row_databaseName r) →
  registry_keeps rs (f <$> rs).
Proof.
  intros Hf row Hin. exists (f row). split; [by apply list_elem_of_fmap_2|]. by apply Hf.
Qed.

Lemma activate_row_spec used s id rs row' :
  prov_inv used s → activate_row id (registry s) = Ok (rs, row') →
  ∃ f r0, rs = f <$> registry s ∧ r0 ∈ registry s ∧ row_id r0 = id ∧ row' = f r0 ∧
    row_status row' = active ∧
    (∀ r, r ∈ registry s → row_id (f r) = row_id r ∧ row_slug (f r) = row_slug r ∧
       row_databaseName (f r) = row_databaseName r).
Proof.
  intros Hinv. unfold activate_row. destruct (find_id id (registry s)) as [r0|] eqn:Ef; [|done].
  apply find_id_Some in Ef as [Hr0 <-]. intros [= <- <-]. eexists _, r0.
  split_and!; [reflexivity|done|done|cbv beta; by rewrite String.eqb_refl|done|].
  intros r Hr. cbv beta. destruct (String.eqb_spec (row_id r) (row_id r0)) as [He|]; [|done]. simpl.
  pose proof (find_unique row_id _ r (pi_id _ _ Hinv) Hr) as H1.
  pose proof (find_unique row_id _ r0 (pi_id _ _ Hinv) Hr0) as H2. rewrite He in H1.
  by assert (r = r0) as -> by congruence.
Qed.

Lemma initialize_unmarked db id dbs dbs' n d :
  initializeTenantDatabase db id dbs = Ok dbs' → dbs' !! n = Some d → comment d = None →
  dbs !! n = Some d.
Proof.
  unfold initializeTenantDatabase. destruct (_ || _); [done|].
  destruct (dbs !! db) as [d0|] eqn:Ed; [|done]. destruct (comment d0).
  - destruct (String.eqb _ _); [by intros [= <-]|done].
  - destruct (tables d0); [done|]. by intros [= <-] [[-> <-]|[Hne Hd]]%lookup_insert_Some Hc.
Qed.

Lemma owner_step used l s s' :
  prov_step l s = Some s' → closed_label l → prov_inv used s → owner_inv s → owner_inv s'.
Proof.
  intros Hstep Hl Hinv Hown. destruct l as [p input|p|p id|p|p|p|p|p|id|id|name d|p e]; simpl in *; try done.
  - destruct (runs s !! p) eqn:Ep; [done|].
    destruct (tenantDatabaseName (in_slug input)) as [db|e] eqn:Edb; simplify_eq; [|by apply owner_finish].
    destruct Hown. split; simpl; try done; intros q r; intros;
      destruct (decide (p = q)) as [->|]; simplify_map_eq; eauto.
  - destruct (runs s !! p) as [[inp db []]|] eqn:Ep; try done. simpl in *.
    destruct (held s !! _); simplify_eq; [by apply owner_finish|].
    by apply (owner_run s p _ LockHeld _ Hown Ep).
  - destruct (runs s !! p) as [[inp db []]|] eqn:Ep; try done. simpl in *.
    destruct (registerOrResume id inp db (registry s)) as [[[rs row] resumed]|e] eqn:Er;
      simplify_eq; [|by apply owner_finish].
    apply registerOrResume_inv in Er as (Hdb & Hslug & Hname & Hst & [(-> & Hin & ->)|(-> & Hid & -> & Hns & Hnd)]).
    + apply (owner_run s p _ (Registered row true) _ Hown Ep). simpl. intros row' [= <-]. eauto.
    + assert (Hown' : owner_inv {| registry := registry s ++ [row]; cluster := cluster s; held := held s;
        runs := runs s; answers := answers s |}).
      { apply owner_registry; [done| |].
        - intros r Hr. exists r. split; [set_solver|done].
        - intros r [Hr| ->%list_elem_of_singleton]%elem_of_app; [by apply (oi_row s Hown)|].
          rewrite Hslug, Hdb, Hid. split; [by apply (oi_input s Hown p _ Ep)|done]. }
      apply (owner_run _ p _ (Registered row false) _ Hown' Ep). simpl. intros row' [= <-].
      exists row. split; [set_solver|done].
  - destruct (runs s !! p) as [[inp db [| |row resumed|row resumed|row resumed]]|] eqn:Ep; simplify_eq.
    assert (Hown' : owner_inv {| registry := registry s; cluster := createDatabase db (cluster s);
      held := held s; runs := runs s; answers := answers s |}).
    { apply owner_cluster; [done|]. intros n d. unfold createDatabase.
      destruct (cluster s !! db) eqn:E; [apply Hown|].
      intros [[-> <-]|[Hne Hd]]%lookup_insert_Some; [by left|by apply Hown]. }
    apply (owner_run _ p _ (DatabaseReady row resumed) _ Hown' Ep). simpl. intros row' [= <-].
    by apply (oi_run s Hown p _ row Ep).
  - destruct (runs s !! p) as [[inp db [| |row resumed|row resumed|row resumed]]|] eqn:Ep; try done.
    simpl in *. destruct (initializeTenantDatabase db (row_id row) (cluster s)) as [dbs|e] eqn:Ei;
      simplify_eq; [|by apply owner_finish].
    pose proof (initialize_inv _ _ _ _ Ei) as (_ & _ & Hnew).
    destruct (oi_run s Hown p _ row Ep eq_refl) as (row' & Hin' & Hid' & Hdb').
    assert (Hown' : owner_inv {| registry := registry s; cluster := dbs; held := held s; runs := runs s;
      answers := answers s |}).
    { apply owner_cluster; [done|]. intros n d Hd. destruct (comment d) as [c|] eqn:Ec.
      - destruct (Hnew n d c Hd Ec) as [Hd'|(-> & _ & ->)].
        + destruct (oi_owner s Hown n d Hd') as [[? _]|Ho]; [congruence|]. rewrite Ec in Ho. by right.
        + right. exists row'. rewrite Hid'. done.
      - left. split; [done|]. pose proof (initialize_unmarked _ _ _ _ _ _ Ei Hd Ec) as Hd'.
        destruct (oi_owner s Hown n d Hd') as [[_ ?]|(r & _ & ? & _)]; congruence. }
    apply (owner_run _ p _ (Built row resumed) _ Hown' Ep). simpl. intros r [= <-]. eauto.
  - destruct (runs s !! p) as [[inp db [| |row resumed|row resumed|row resumed]]|] eqn:Ep; try done.
    simpl in *. destruct (activate_row (row_id row) (registry s)) as [[rs row']|e] eqn:Ea;
      simplify_eq; [|by apply owner_finish].
    apply (owner_finish p).
    destruct (activate_row_spec _ _ _ _ _ Hinv Ea) as (f & r0 & -> & Hr0 & Hid & -> & _ & Hf).
    apply owner_registry; [done| |].
    + apply registry_map_keeps. intros r Hr. destruct (Hf r Hr) as (? & _ & ?). done.
    + intros r (r1 & -> & Hr1)%list_elem_of_fmap. destruct (Hf r1 Hr1) as (-> & -> & ->).
      by apply (oi_row s Hown).
  - destruct (runs s !! p); simplify_eq. eapply owner_fewer_runs; [exact Hown|done|done|].
    simpl. by intros q r [_ Hq]%lookup_delete_Some.
  - simplify_eq. by eapply owner_fewer_runs.
  - simplify_eq. apply owner_registry; [done| |].
    + apply registry_map_keeps. intros r _. by destruct (_ && _).
    + intros r (r1 & -> & Hr1)%list_elem_of_fmap.
      destruct (oi_row s Hown r1 Hr1). by destruct (_ && _).
  - destruct (runs s !! p), (internal e); simplify_eq. by apply owner_finish.
Qed.

Lemma inv_exec tr used s s' :
  prov_exec tr s = Some s' → Forall closed_label tr → prov_inv used s → owner_inv s →
  NoDup (ids_of tr) → (∀ id, id ∈ ids_of tr → id ∉ used) →
  ∃ used', prov_inv used' s' ∧ owner_inv s' ∧ ∀ id, id ∈ used' → id ∈ used ∨ id ∈ ids_of tr.
Proof.
  intros Hr Hcl Hinv Hown Hnd Hnew.
  assert (Hwf : Forall wf_label tr).
  { eapply Forall_impl; [exact Hcl|]. by intros []. }
  destruct (prov_inv_exec tr used s s' Hr Hwf Hinv Hnd Hnew) as (used' & Hinv' & Hu).
  exists used'. split_and!; [done| |done]. clear used' Hinv' Hu Hwf.
  revert used s Hr Hinv Hown Hnd Hnew. induction tr as [|l tr IH]; intros used s Hr Hinv Hown Hnd Hnew.
  { by injection Hr as <-. }
  cbn [prov_exec] in Hr. apply Forall_cons in Hcl as [Hl Hcl].
  destruct (prov_step l s) as [s1|] eqn:E; [|done].
  unfold ids_of in *. rewrite fmap_cons in Hnd, Hnew. simpl in Hnd, Hnew.
  apply NoDup_app in Hnd as (_ & Hdisj & Hnd).
  eapply (IH Hcl (new_ids l ++ used) s1 Hr).
  - eapply prov_inv_step; [done|by destruct l|done|]. intros id Hid. apply Hnew. set_solver.
  - by eapply owner_step.
  - done.
  - intros id Hid Hin. apply elem_of_app in Hin as [Hin|Hin]; [by apply (Hdisj id)|].
    apply (Hnew id); [set_solver|done].
Qed.

Lemma empty_owner_inv : owner_inv empty_state.
Proof.
  split; simpl; intros; match goal with
  | Hx : ∅ !! _ = Some _ |- _ => by rewrite lookup_empty in Hx
  | _ => set_solver end.
Qed.

Lemma name_is_safe slug db : tenantDatabaseName slug = Ok db → SAFE_DB_NAME db = true.
Proof. unfold tenantDatabaseName. destruct (SAFE_DB_NAME _) eqn:E; [by intros [= <-]|done]. Qed.

(** In a closed state the schema transaction of a run for a registry row succeeds. *)
Lemma initialize_ready used s row :
  prov_inv used s → owner_inv s → row ∈ registry s →
  ∃ dbs, initializeTenantDatabase (row_databaseName row) (row_id row)
           (createDatabase (row_databaseName row) (cluster s)) = Ok dbs.
Proof.
  intros Hinv Hown Hin. destruct (oi_row s Hown row Hin) as [Hname Huuid].
  unfold initializeTenantDatabase. rewrite (name_is_safe _ _ Hname), Huuid. simpl.
  unfold createDatabase. destruct (cluster s !! row_databaseName row) as [d|] eqn:Ed.
  - rewrite Ed. destruct (oi_owner s Hown _ _ Ed) as [[-> ->]|(row' & Hin' & -> & Hdb)]; [by eexists|].
    pose proof (find_unique row_databaseName _ row (pi_db _ _ Hinv) Hin) as H1.
    pose proof (find_unique row_databaseName _ row' (pi_db _ _ Hinv) Hin') as H2.
    rewrite Hdb in H2. assert (row' = row) as -> by congruence. rewrite String.eqb_refl. by eexists.
  - rewrite lookup_insert_eq. by eexists.
Qed.

Lemma activate_ready rs row :
  row ∈ rs → ∃ rs' row', activate_row (row_id row) rs = Ok (rs', row').
Proof.
  intros Hin. unfold activate_row, find_id.
  destruct (List.find (λ r, String.eqb (row_id r) (row_id row)) rs) as [r|] eqn:E; [by do 2 eexists|].
  apply list_elem_of_In in Hin. pose proof (List.find_none _ _ E row Hin) as Hf.
  simpl in Hf. by rewrite String.eqb_refl in Hf.
Qed.

(** The registry lets this request go on: nothing has its slug and its database
    name is free, or an unfinished run of the same request left its row. *)
Definition may_proceed (input : ProvisionTenantInput) (db : string) (rs : list TenantRecord) : Prop :=
  match find_slug (in_slug input) rs with
  | Some row => row_status row = provisioning ∧ row_name row = in_name input
  | None => db ∉ row_databaseName <$> rs
  end.

Lemma proceed_registers id input db s :
  owner_inv s → tenantDatabaseName (in_slug input) = Ok db → may_proceed input db (registry s) →
  ∃ rs row, registerOrResume id input db (registry s)
    = Ok (rs, row, bool_decide (find_slug (in_slug input) (registry s) ≠ None)) ∧ row ∈ rs.
Proof.
  intros Hown Hdb Hp. unfold may_proceed, registerOrResume in *.
  destruct (find_slug (in_slug input) (registry s)) as [row|] eqn:Ef.
  - destruct Hp as [Hst Hn]. apply find_slug_Some in Ef as [Hin Hslug].
    destruct (oi_row s Hown row Hin) as [Hname _].
    assert (row_databaseName row = db) as Hdb' by congruence.
    rewrite Hst, Hn, Hdb', !String.eqb_refl. simpl. eauto.
  - destruct (existsb _ (registry s)) eqn:E.
    + exfalso. apply existsb_exists in E as (r & Hr & He). apply String.eqb_eq in He.
      apply Hp. rewrite <- He. apply list_elem_of_fmap_2. by apply list_elem_of_In.
    + eexists _, _. split; [done|]. set_solver.
Qed.

Lemma prov_exec_app tr1 tr2 s s1 :
  prov_exec tr1 s = Some s1 → prov_exec (tr1 ++ tr2) s = prov_exec tr2 s1.
Proof.
  revert s. induction tr1 as [|l tr1 IH]; intros s; [by intros [= ->]|].
  rewrite <- app_comm_cons. cbn [prov_exec]. destruct (prov_step l s); [apply IH|done].
Qed.

(** A run that got its lock and its registry row. *)
Lemma run_registers used s p input id db rs row resumed :
  prov_inv used s → owner_inv s → UUID id = true → id ∉ used →
  tenantDatabaseName (in_slug input) = Ok db →
  runs s !! p = None → held s !! provisioningLockKeys db = None →
  registerOrResume id input db (registry s) = Ok (rs, row, resumed) →
  ∃ s3 used3, prov_exec [Request p input; TryLock p; Register p id] s = Some s3 ∧
    prov_inv used3 s3 ∧ owner_inv s3 ∧ registry s3 = rs ∧ cluster s3 = cluster s ∧
    answers s3 = answers s ∧
    runs s3 !! p = Some {| pr_input := input; pr_db := db; pr_phase := Registered row resumed |}.
Proof.
  intros Hinv Hown Huuid Hnew Hdb Hp Hlock Hreg.
  set (r ph := {| pr_input := input; pr_db := db; pr_phase := ph |}).
  set (s3 := {| registry := rs; cluster := cluster s;
    held := <[provisioningLockKeys db := p]> (held s);
    runs := <[p := r (Registered row resumed)]> (<[p := r LockHeld]> (<[p := r Requested]> (runs s)));
    answers := answers s |}).
  assert (Hrun : prov_exec [Request p input; TryLock p; Register p id] s = Some s3).
  { cbn [prov_exec prov_step]. rewrite Hp, Hdb. simpl. rewrite lookup_insert_eq. simpl. rewrite Hlock.
    simpl. rewrite lookup_insert_eq. simpl. by rewrite Hreg. }
  destruct (inv_exec _ used s s3 Hrun) as (used3 & Hinv3 & Hown3 & _).
  - by repeat (apply Forall_cons; split; [done|]).
  - done.
  - done.
  - apply NoDup_singleton.
  - intros id' Hid'. apply list_elem_of_singleton in Hid' as ->. done.
  - exists s3, used3. split_and!; try done. simpl. apply lookup_insert_eq.
Qed.

(** C22. Provisioning is resumable: from any state that runs, failed statements,
    crashes and lost locks can lead to, once nobody holds the lock of its database, repeating a
    request the registry does not refuse brings the tenant to active, and says
    whether it finished an earlier attempt. *)
Theorem retry_completes tr s p input id db :
  prov_exec tr empty_state = Some s → Forall closed_label tr → NoDup (id :: ids_of tr) →
  UUID id = true → tenantDatabaseName (in_slug input) = Ok db →
  runs s !! p = None → held s !! provisioningLockKeys db = None →
  may_proceed input db (registry s) →
  ∃ s' t, prov_exec (provision_statements p input id) s = Some s' ∧
    last (answers s') = Some (p, Ok {| prov_tenant := t;
      prov_resumed := bool_decide (find_slug (in_slug input) (registry s) ≠ None) |}) ∧
    tenant_slug t = in_slug input ∧ tenant_databaseName t = db ∧ tenant_status t = active ∧
    (UUID (in_slug input) = false → resolveTenant (registry s') (in_slug input) = Ok t).
Proof.
  intros Hr Hcl Hnd Huuid Hdb Hp Hlock Hproc. apply NoDup_cons in Hnd as [Hfresh Hnd].
  destruct (inv_exec tr [] _ s Hr Hcl empty_prov_inv empty_owner_inv Hnd) as (used & Hinv & Hown & Hu);
    [set_solver|].
  assert (Hid : id ∉ used) by (intros Hin; apply Hu in Hin; set_solver).
  destruct (proceed_registers id input db s Hown Hdb Hproc) as (rs & row & Hreg & Hrow).
  set (resumed := bool_decide _) in *.
  destruct (run_registers used s p input id db rs row resumed Hinv Hown Huuid Hid Hdb Hp Hlock Hreg)
    as (s3 & used3 & H3 & Hinv3 & Hown3 & Hrs & Hcluster & Hans & Hp3).
  apply registerOrResume_inv in Hreg as (Hrdb & Hslug & Hname & Hst & _).
  rewrite <- Hrs in Hrow.
  destruct (initialize_ready used3 s3 row Hinv3 Hown3 Hrow) as (dbs & Hdbs). rewrite Hrdb in Hdbs.
  destruct (activate_ready (registry s3) row Hrow) as (rs' & row' & Hact).
  destruct (activate_row_spec _ _ _ _ _ Hinv3 Hact) as (f & r0 & Hf & Hr0 & Hid0 & Hrow' & Hst' & Hkeep).
  assert (Hsame : r0 = row).
  { pose proof (find_unique row_id _ r0 (pi_id _ _ Hinv3) Hr0) as H1.
    pose proof (find_unique row_id _ row (pi_id _ _ Hinv3) Hrow) as H2. rewrite Hid0 in H1. congruence. }
  subst r0. destruct (Hkeep row Hrow) as (Hk1 & Hk2 & Hk3).
  eexists _, (toTenant row'). split.
  { etrans; [exact (prov_exec_app [_; _; _] [CreateDb p; Initialize p; Activate p] s s3 H3)|].
    cbn [prov_exec prov_step]. rewrite Hp3. simpl. rewrite lookup_insert_eq. simpl.
    rewrite Hdbs. simpl. rewrite lookup_insert_eq. simpl. rewrite Hact. done. }
  simpl. rewrite last_snoc. split_and!; try done; try congruence.
  assert (Hs' : in_slug input = row_slug row') by congruence. rewrite Hs'. intros Eu.
  unfold resolveTenant. rewrite Eu. unfold find_slug.
  rewrite (find_unique row_slug rs' row'); [by rewrite decide_True| |].
  - rewrite Hf, <- list_fmap_compose.
    rewrite (list_fmap_ext _ row_slug) by (intros ? r Hin%list_elem_of_lookup_2; by apply Hkeep).
    apply Hinv3.
  - rewrite Hf, Hrow'. by apply list_elem_of_fmap_2.
Qed.
End provisioning.

(** ** Database names *)

(** The slugs provision-tenant.dto.ts admits: [/^[a-z][a-z0-9-]{1,40}$/]. *)
Definition is_slug_char (c : ascii) : bool := is_lower c || is_digit c || Ascii.eqb c "-".
Definition valid_slug (s : string) : bool :=
  match s with
  | String c s' =>
      is_lower c && sall is_slug_char s' && Nat.leb 1 (String.length s') && Nat.leb (String.length s') 40
  | EmptyString => false
  end.

Lemma all_chars (P : ascii → bool) :
  forallb (λ i, P (ascii_of_nat i)) (List.seq 0 256) = true → ∀ c, P c = true.
Proof.
  intros Hall c. rewrite forallb_forall in Hall. specialize (Hall (nat_of_ascii c)).
  rewrite ascii_nat_embedding in Hall. apply Hall, List.in_seq. pose proof (nat_ascii_bounded c). lia.
Qed.

Lemma slug_char_lower c : is_slug_char c = true → lower_char c = c.
Proof.
  intros Hc. apply Ascii.eqb_eq. apply (implb_true_iff (is_slug_char c)); [|done].
  revert c Hc. intros c _. revert c. apply all_chars. vm_compute. reflexivity.
Qed.
Lemma slug_char_db c : is_slug_char c = true → is_db_char (to_db_char c) = true.
Proof.
  intros Hc. apply (implb_true_iff (is_slug_char c)); [|done].
  revert c Hc. intros c _. revert c. apply all_chars. vm_compute. reflexivity.
Qed.
(** The hyphen is the only character that is replaced, and an underscore is not
    a slug character. *)
Definition from_db_char (c : ascii) : ascii := if Ascii.eqb c "_" then "-"%char else c.
Lemma slug_char_back c : is_slug_char c = true → from_db_char (to_db_char c) = c.
Proof.
  intros Hc. apply Ascii.eqb_eq. apply (implb_true_iff (is_slug_char c)); [|done].
  revert c Hc. intros c _. revert c. apply all_chars. vm_compute. reflexivity.
Qed.

Lemma smap_app f s t : smap f (s +:+ t) = smap f s +:+ smap f t.
Proof. induction s; simpl; congruence. Qed.

Lemma smap_sall (f g : ascii → ascii) (p : ascii → bool) s :
  (∀ c, p c = true → f (g c) = c) → sall p s = true → smap f (smap g s) = s.
Proof.
  intros Hf. induction s as [|c s IH]; [done|]. simpl. intros [Hc Hs]%andb_true_iff.
  rewrite Hf by done. by rewrite IH.
Qed.

Lemma valid_slug_chars s : valid_slug s = true →
  sall is_slug_char s = true ∧ (2 ≤ String.length s ≤ 41)%nat.
Proof.
  destruct s as [|c s]; [done|]. unfold valid_slug. rewrite !andb_true_iff.
  intros [[[Hc Hs] H1] H2]. apply Nat.leb_le in H1, H2. cbn [sall String.length].
  split; [|lia]. rewrite Hs, andb_true_r. unfold is_slug_char. by rewrite Hc.
Qed.

Lemma database_name_of slug : sall is_slug_char slug = true →
  smap to_db_char (toLowerCase ("tenant_" +:+ slug)) = "tenant_" +:+ smap to_db_char slug.
Proof.
  intros Hs. unfold toLowerCase. rewrite smap_app. f_equal. rewrite smap_app. f_equal.
  f_equal. induction slug as [|c slug IH]; [done|]. simpl in *.
  apply andb_true_iff in Hs as [Hc Hs]. by rewrite slug_char_lower, IH.
Qed.

(** Every slug the API admits has a database name that is a safe Postgres
    identifier, and two different slugs never share one: the identifier DDL
    interpolates cannot be steered and cannot collide. *)
Theorem tenantDatabaseName_safe_injective a b :
  valid_slug a = true → valid_slug b = true →
  ∃ n, tenantDatabaseName a = Ok n ∧ SAFE_DB_NAME n = true ∧ (tenantDatabaseName b = Ok n → a = b).
Proof.
  intros Ha Hb. destruct (valid_slug_chars a Ha) as [Hca Hla], (valid_slug_chars b Hb) as [Hcb Hlb].
  assert (Hsafe : ∀ s, sall is_slug_char s = true → (2 ≤ String.length s ≤ 41)%nat →
    SAFE_DB_NAME ("tenant_" +:+ smap to_db_char s) = true).
  { intros s Hs Hl. unfold SAFE_DB_NAME. simpl. rewrite smap_length.
    apply andb_true_iff. split; [|apply Nat.leb_le; simpl; lia].
    clear -Hs. induction s as [|c s IH]; [done|]. simpl in *. apply andb_true_iff in Hs as [Hc Hs].
    by rewrite slug_char_db, IH. }
  exists ("tenant_" +:+ smap to_db_char a). unfold tenantDatabaseName.
  rewrite !database_name_of by done. rewrite !Hsafe by done. split_and!; [done|done|].
  intros He. injection He as He. symmetry in He.
  rewrite <- (smap_sall from_db_char to_db_char is_slug_char a slug_char_back Hca), He.
  by apply smap_sall with (p := is_slug_char); [apply slug_char_back|].
Qed.

(** ** The hypotheses can hold *)

Module ProvisioningSample.
#[local] Existing Instance Sample.toy.

Definition acme : ProvisionTenantInput := {| in_slug := "acme"; in_name := "Acme" |}.
Definition bolt : ProvisionTenantInput := {| in_slug := "bolt"; in_name := "Bolt" |}.
Definition id1 : string := "00000000-0000-4000-8000-000000000001".
Definition id2 : string := "00000000-0000-4000-8000-000000000002".
Definition id3 : string := "00000000-0000-4000-8000-000000000003".

(** Acme crashes after its database was created; bolt completes meanwhile. *)
Definition crashed : list prov_label :=
  [Request 1 acme; TryLock 1; Request 2 bolt; Register 1 id1; TryLock 2; CreateDb 1; Register 2 id2;
   Crash 1; CreateDb 2; Initialize 2; Activate 2].
Definition state_of (tr : list prov_label) : prov_state := default empty_state (prov_exec tr empty_state).

(** And is then retried, to completion. *)
Definition both : list prov_label := crashed ++ provision_statements 3 acme id3.

Lemma resolved_tenant_isolated_witness :
  ∃ t, resolveTenant (registry (state_of both)) "acme" = Ok t ∧
    ((∃ d, cluster (state_of both) !! tenant_databaseName t = Some d ∧
        comment d = Some (tenantDatabaseMarker (tenant_id t)) ∧ tables d = Some tenant_schema) ∧
     ∀ y t', resolveTenant (registry (state_of both)) y = Ok t' →
       tenant_databaseName t = tenant_databaseName t' → t = t').
Proof.
  eexists. split; [vm_compute; reflexivity|].
  apply (resolved_tenant_isolated both (state_of both) "acme").
  - vm_compute. reflexivity.
  - repeat constructor.
  - compute_decide.
  - vm_compute. reflexivity.
Defined.

Definition someone : Database := {| comment := None; tables := Some tenant_schema; foreign_rows := [] |}.

(** A database of acme's name that already holds tables is refused and kept. *)
Lemma existing_tables_untouched_witness :
  let tr := ForeignDb "tenant_acme" someone :: provision_statements 1 acme id1 in
  prov_exec (take 5 (provision_statements 1 acme id1)) (state_of (take 1 tr)) ≠ None ∧
  cluster (state_of (take 6 tr)) !! "tenant_acme" = Some someone.
Proof.
  split; [vm_compute; discriminate|].
  apply (existing_tables_untouched (take 5 (provision_statements 1 acme id1))
           (state_of [ForeignDb "tenant_acme" someone]) _ "tenant_acme" someone).
  - vm_compute. reflexivity.
  - vm_compute. reflexivity.
  - discriminate.
Defined.

Lemma retry_completes_witness :
  ∃ s' t, prov_exec (provision_statements 3 acme id3) (state_of crashed) = Some s' ∧
    last (answers s') = Some (3%nat, Ok {| prov_tenant := t; prov_resumed := true |}) ∧
    tenant_slug t = "acme" ∧ tenant_databaseName t = "tenant_acme" ∧ tenant_status t = active ∧
    (UUID "acme" = false → resolveTenant (registry s') "acme" = Ok t).
Proof.
  apply (retry_completes crashed (state_of crashed) 3 acme id3 "tenant_acme").
  - vm_compute. reflexivity.
  - repeat constructor.
  - compute_decide.
  - vm_compute. reflexivity.
  - vm_compute. reflexivity.
  - vm_compute. reflexivity.
  - vm_compute. reflexivity.
  - vm_compute. split; reflexivity.
Defined.

Lemma tenantDatabaseName_safe_injective_witness :
  ∃ n, tenantDatabaseName "acme-eu" = Ok n ∧ SAFE_DB_NAME n = true ∧
    (tenantDatabaseName "acme-us" = Ok n → "acme-eu" = "acme-us").
Proof. apply (tenantDatabaseName_safe_injective "acme-eu" "acme-us"); vm_compute; reflexivity. Defined.

(** A slug can have the shape of a uuid. The API admits it, and its tenant is
    provisioned and active, but no request that names it by its slug finds it:
    [resolveTenant] only ever compares such a text with the id column. *)
Definition uuid_slug : string := "abcdef01-0000-4000-8000-000000000000".
Definition hidden : ProvisionTenantInput := {| in_slug := uuid_slug; in_name := "Hidden" |}.
Example uuid_slug_never_resolves :
  let s := state_of (provision_statements 1 hidden id1) in
  valid_slug uuid_slug = true ∧ map row_slug (registry s) = [uuid_slug] ∧
  map row_status (registry s) = [active] ∧
  resolveTenant (registry s) uuid_slug = Throw (EDomain (TenantNotFoundError uuid_slug)).
Proof. vm_compute. split_and!; reflexivity. Qed.
End ProvisioningSample.
