(* ===== verification/ImmutabilityProbe.v ===== *)
(** Trying to violate an append-only table: packages/db/src/audit/immutability-probe.ts
    against a table that packages/db/sql/audit-immutability.sql protects, or does not.

    The connection of the probe is a session with at most one open transaction;
    other processes write the same table between any two of its statements. *)
From S2P Require Import Prelude Domain AuditHash AuditWriter Cli VerifyChain ConnectionManager.
#[local] Open Scope Z_scope.

(** ** Which chain is probed *)

(** [parseArgs], the same text as in verify-chain.ts. *)
Definition parseArgs (argv : list string) : gmap string flag_value := parseFlags argv ∅.

(** The checks of [main] before anything is opened. *)
Definition readTarget (masterUrl : option string) (args : gmap string flag_value)
    : result usage_error target :=
  let wantsMaster := bool_decide (args !! "master" = Some Bare) ||
                     bool_decide (args !! "master" = Some (Given "true")) in
  _ ← throw_if (negb (truthy_flag (Given <$> masterUrl))) NoMasterUrl;
  _ ← throw_if (bool_decide (args !! "tenant" = Some Bare)) TenantWithoutValue;
  _ ← throw_if (Bool.eqb wantsMaster (truthy_flag (args !! "tenant"))) NotExactlyOne;
  Ok (match args !! "tenant" with
      | Some (Given t) => if wantsMaster then Master else VerifyChain.Tenant t
      | _ => Master
      end).

(** The database the probe connects to: the master's ([None]), or the one the
    registry resolves the tenant to. *)
Definition target_database (rs : list TenantRecord) (t : target) : M (option string) :=
  match t with
  | Master => Ok None
  | VerifyChain.Tenant idOrSlug =>
      match resolveTenant rs idOrSlug with
      | Ok resolved => Ok (Some (tenant_databaseName resolved))
      | Throw e => Throw e
      end
  end.

(** ** The protections of a table *)

Inductive op := UPDATE | DELETE | TRUNCATE.
#[export] Instance op_eq_dec : EqDecision op.
Proof. solve_decision. Defined.

Definition ops : list op := [UPDATE; DELETE; TRUNCATE].

Definition op_text (o : op) : string :=
  match o with UPDATE => "UPDATE" | DELETE => "DELETE" | TRUNCATE => "TRUNCATE" end.

Record PgError := { code : option string; constraint : option string; message : string }.

(** What answers a statement before it touches the table. A [fault] is anything
    else that stops it: a missing column, a lock timeout. *)
Record controls := {
  trigger : op → bool;                    (* present and enabled *)
  role_may : op → bool;                   (* the connecting role's own privileges *)
  public_may : op → bool;                 (* granted to PUBLIC *)
  fork_guard : bool;                      (* the index audit_events_prev_hash_unique *)
  insert_refused : option PgError;
  fault : op → option PgError;
}.

(** sql/audit-immutability.sql: three triggers and a REVOKE. *)
Definition audit_immutability (c : controls) : controls :=
  {| trigger := λ _, true; role_may := role_may c; public_may := λ _, false;
     fork_guard := fork_guard c; insert_refused := insert_refused c; fault := fault c |}.

Definition RESTRICT_VIOLATION : string := "23001".
Definition UNIQUE_VIOLATION : string := "23505".
Definition PREV_HASH_UNIQUE : string := "audit_events_prev_hash_unique".

(** [audit_events_reject_mutation] *)
Definition reject_mutation (o : op) : PgError :=
  {| code := Some RESTRICT_VIOLATION; constraint := None;
     message := "audit_events is append-only: " +:+ op_text o +:+ " is not permitted" |}.
Definition permission_denied : PgError :=
  {| code := Some "42501"; constraint := None; message := "permission denied for table audit_events" |}.
Definition in_failed_transaction : PgError :=
  {| code := Some "25P02"; constraint := None;
     message := "current transaction is aborted, commands ignored until end of transaction block" |}.

(** A row trigger needs a row; the statement trigger of TRUNCATE does not. *)
Definition fires (o : op) (rs : list StoredAuditEvent) : bool :=
  match o, rs with TRUNCATE, _ | _, _ :: _ => true | _, [] => false end.

Definition refuses (c : controls) (o : op) (rs : list StoredAuditEvent) : option PgError :=
  match fault c o with
  | Some e => Some e
  | None =>
      if negb (role_may c o || public_may c o) then Some permission_denied
      else if trigger c o && fires o rs then Some (reject_mutation o) else None
  end.

(** [(SELECT min(seq) FROM audit_events)] *)
Definition min_seq (rs : list StoredAuditEvent) : option Z :=
  foldr (λ r acc, Some (match acc with Some m => Z.min (seq r) m | None => seq r end)) None rs.

(** [SET action = action || '.tampered'] *)
Definition tamper (r : StoredAuditEvent) : StoredAuditEvent :=
  let e := input r in
  {| input := {| action := action e +:+ ".tampered"; actorType := actorType e; actorId := actorId e;
                 resourceType := resourceType e; resourceId := resourceId e; traceId := traceId e;
                 sourceIp := sourceIp e; occurredAt := occurredAt e; metadata := metadata e |};
     seq := seq r; prevHash := prevHash r; hash := hash r |}.

(** What the three statements of the probe do to the rows when nothing refuses. *)
Definition effect (o : op) (rs : list StoredAuditEvent) : list StoredAuditEvent :=
  let lowest r := bool_decide (Some (seq r) = min_seq rs) in
  match o with
  | UPDATE => (λ r, if lowest r then tamper r else r) <$> rs
  | DELETE => List.filter (λ r, negb (lowest r)) rs
  | TRUNCATE => []
  end.

(** ** The probe's session *)

(** What an open transaction has done to the rows, and whether a statement of it
    has failed. *)
Record transaction := { changes : list StoredAuditEvent → list StoredAuditEvent; aborted : bool }.

Record probe_world := {
  db : audit_db;
  session : option transaction;
  others : list (list label);   (* what other processes do before each statement *)
}.

(** The rows as the session sees them. *)
Definition view (w : probe_world) : list StoredAuditEvent :=
  match session w with Some t => changes t (rows (db w)) | None => rows (db w) end.

Definition with_session (t : option transaction) (w : probe_world) : probe_world :=
  {| db := db w; session := t; others := others w |}.
Definition with_db (s : audit_db) (w : probe_world) : probe_world :=
  {| db := s; session := session w; others := others w |}.

Section probe.
Context `{Sha256} `{Jsonb}.

(** The other processes get their turn before a statement. *)
Definition tick (w : probe_world) : probe_world :=
  match others w with
  | [] => w
  | tr :: trs => {| db := default (db w) (run tr (db w)); session := session w; others := trs |}
  end.

Definition begin_ (w : probe_world) : probe_world :=
  with_session (Some {| changes := λ rs, rs; aborted := false |}) (tick w).
Definition rollback (w : probe_world) : probe_world := with_session None (tick w).

(** Only outside a transaction is a change made at once. *)
Definition apply_change (f : list StoredAuditEvent → list StoredAuditEvent) (w : probe_world) : probe_world :=
  match session w with
  | Some t => with_session (Some {| changes := λ rs, f (changes t rs); aborted := false |}) w
  | None => with_db {| rows := f (rows (db w)); next_seq := next_seq (db w); lock := lock (db w);
                       txs := txs (db w) |} w
  end.

Definition fail_statement (w : probe_world) : probe_world :=
  match session w with
  | Some t => with_session (Some {| changes := changes t; aborted := true |}) w
  | None => w
  end.

Definition is_aborted (w : probe_world) : bool :=
  match session w with Some t => aborted t | None => false end.

(** [client.query(sql)] for a destructive statement. *)
Definition execute (c : controls) (o : op) (w : probe_world) : result PgError () * probe_world :=
  let w := tick w in
  if is_aborted w then (Throw in_failed_transaction, w)
  else match refuses c o (view w) with
       | Some e => (Throw e, fail_statement w)
       | None => (Ok (), apply_change (effect o) w)
       end.

(** nextval: not given back by a rollback. *)
Definition take_seq (w : probe_world) : probe_world :=
  with_db {| rows := rows (db w); next_seq := next_seq (db w) + 1; lock := lock (db w); txs := txs (db w) |} w.

(** The constraints an INSERT meets, in order. *)
Definition insert_error (c : controls) (rs : list StoredAuditEvent) (r : StoredAuditEvent) : option PgError :=
  let unique name := Some {| code := Some UNIQUE_VIOLATION; constraint := Some name;
    message := "duplicate key value violates unique constraint " +:+ name |} in
  if negb (row_ck r) then
    Some {| code := Some "23514"; constraint := None; message := "violates check constraint" |}
  else if bool_decide (seq r ∈ seq <$> rs) then unique "audit_events_pkey"
  else if fork_guard c && bool_decide (prevHash r ∈ prevHash <$> rs) then unique PREV_HASH_UNIQUE
  else if bool_decide (hash r ∈ hash <$> rs) then unique "audit_events_hash_unique"
  else None.

Definition insert (c : controls) (mk : Z → StoredAuditEvent) (w : probe_world) : result PgError () * probe_world :=
  let w := tick w in
  if is_aborted w then (Throw in_failed_transaction, w)
  else match insert_refused c with
       | Some e => (Throw e, fail_statement w)
       | None =>
           let r := mk (next_seq (db w)) in
           let w := take_seq w in
           match insert_error c (view w) r with
           | Some e => (Throw e, fail_statement w)
           | None => (Ok (), apply_change (λ rs, rs ++ [r]) w)
           end
       end.

(** ** The checks *)

Inductive probe_check := ChainNotEmpty | Refused (o : op) | ForkRefused | NothingDestroyed | NoPublicGrant
  | AppendWorks.

Definition is_refusal (e : PgError) : bool :=
  bool_decide (code e = Some RESTRICT_VIOLATION) && includes "append-only" (message e) ||
  bool_decide (code e = Some "42501").

(** [attempt]: in a transaction of its own, rolled back whatever happens. *)
Definition attempt (c : controls) (o : op) (w : probe_world) : bool * probe_world :=
  let w := begin_ w in
  let '(answer, w) := execute c o w in
  (match answer with Ok _ => false | Throw e => is_refusal e end, rollback w).

(** The row of the fork attempt. *)
Definition fork_row (now_at : string) (prev random : Buffer) (n : Z) : StoredAuditEvent :=
  {| input := {| action := "probe.fork"; actorType := "system"; actorId := None; resourceType := None;
                 resourceId := None; traceId := None; sourceIp := None; occurredAt := now_at;
                 metadata := [] |};
     seq := n; prevHash := prev; hash := random |}.

Definition is_fork_refusal (e : PgError) : bool :=
  bool_decide (code e = Some UNIQUE_VIOLATION) && bool_decide (constraint e = Some PREV_HASH_UNIQUE).

Definition fork_attempt (c : controls) (now_at : string) (random : Buffer) (w : probe_world) : bool * probe_world :=
  let w := tick (begin_ w) in
  match head_row (view w) with
  | None => (false, rollback w)
  | Some existing =>
      let '(answer, w) := insert c (fork_row now_at (prevHash existing) random) w in
      (match answer with Ok _ => false | Throw e => is_fork_refusal e end, rollback w)
  end.

Record ChainState := { count : nat; headHash : option Buffer }.

Definition readState (w : probe_world) : ChainState :=
  {| count := length (view w); headHash := hash <$> head_row (view w) |}.

Definition headStillPresent (w : probe_world) (h : Buffer) : bool := bool_decide (h ∈ hash <$> view w).

(** What was there is still there; growth is not a failure. *)
Definition nothing_destroyed (before : ChainState) (w : probe_world) : bool * probe_world :=
  let w1 := tick w in
  let after := readState w1 in
  match headHash before with
  | None => (false, w1)
  | Some h =>
      let w2 := tick w1 in
      (Nat.leb (count before) (count after) && headStillPresent w2 h, w2)
  end.

Definition no_public_grant (c : controls) : bool :=
  negb (public_may c UPDATE) && negb (public_may c DELETE) && negb (public_may c TRUNCATE).

Definition probe_event : AppendAuditEvent :=
  {| ev_action := "probe.immutability"; ev_actorType := actor_system;
     ev_actorId := Some "immutability-probe"; ev_resourceType := None; ev_resourceId := None;
     ev_traceId := None; ev_sourceIp := None;
     ev_metadata := Some [("note", "appended to prove the table still accepts writes")] |}.

(** [appendAuditEvent] on a connection of its own, no transaction in the way. *)
Definition append_attempt (c : controls) (now_at : string) (w : probe_world) : bool * probe_world :=
  let w := tick w in
  let p := fresh (dom (txs (db w)) : gset nat) in
  match insert_refused c, run (append_statements p now_at probe_event) (db w) with
  | None, Some s => (true, with_db s w)
  | _, _ => (false, w)
  end.

(** The body of [main] between connecting and counting the failures. *)
Definition probe (c : controls) (now_at : string) (random : Buffer) (w : probe_world)
    : list (probe_check * bool) * probe_world :=
  let w := tick w in
  let before := readState w in
  if decide (count before = 0%nat) then ([(ChainNotEmpty, false)], w)
  else
    let '(u, w) := attempt c UPDATE w in
    let '(d, w) := attempt c DELETE w in
    let '(t, w) := attempt c TRUNCATE w in
    let '(f, w) := fork_attempt c now_at random w in
    let '(n, w) := nothing_destroyed before w in
    let w := tick w in
    let p := no_public_grant c in
    let '(a, w) := append_attempt c now_at w in
    ([(ChainNotEmpty, true); (Refused UPDATE, u); (Refused DELETE, d); (Refused TRUNCATE, t);
      (ForkRefused, f); (NothingDestroyed, n); (NoPublicGrant, p); (AppendWorks, a)], w).

(** ** What the probe's verdicts mean *)

(** A table other processes append to while the probe works, from the rows [rs0]
    it found; in the [quiet] case nobody else does anything. *)
Record steady (rs0 : list StoredAuditEvent) (quiet : bool) (w : probe_world) : Prop := {
  st_inv : writer_inv (db w);
  st_prefix : rs0 `prefix_of` rows (db w);
  st_quiet : quiet = true → rows (db w) = rs0 ∧ txs (db w) = ∅;
  st_others : Forall (λ tr, Forall writer_label tr ∧ (quiet = true → tr = [])) (others w);
}.

Lemma steady_session rs0 q t w : steady rs0 q w → steady rs0 q (with_session t w).
Proof. by intros []. Qed.

Lemma steady_tick rs0 q w : steady rs0 q w → steady rs0 q (tick w) ∧ session (tick w) = session w.
Proof.
  intros [Hi Hp Hq Ho]. unfold tick. destruct (others w) as [|tr trs] eqn:E.
  { split; [|done]. split; rewrite ?E; done. }
  split; [|done]. apply Forall_cons in Ho as [[Hw Hqt] Ho].
  destruct (run tr (db w)) as [s|] eqn:Er; [|by split]. split; simpl; [by eapply run_writer| | |done].
  - etrans; [exact Hp|by eapply run_prefix].
  - intros Hqq. rewrite (Hqt Hqq) in Er. injection Er as <-. by apply Hq.
Qed.

Lemma writer_take_seq s : writer_inv s →
  writer_inv {| rows := rows s; next_seq := next_seq s + 1; lock := lock s; txs := txs s |}.
Proof.
  intros [Hc Hs Hn Hl Hh Ht]. split; simpl; try done.
  - eapply Forall_impl; [exact Hn|]. simpl. lia.
  - intros p t Hp. destruct (Ht p t Hp) as [Hw Hm]. split; [done|].
    destruct (tx_phase t); try done. destruct Hm as (? & ? & ?). split_and!; [done|lia|done].
Qed.

Lemma steady_take_seq rs0 q w : steady rs0 q w → steady rs0 q (take_seq w).
Proof. intros [Hi Hp Hq Ho]. split; simpl; try done. by apply writer_take_seq. Qed.

Lemma steady_begin rs0 q w : steady rs0 q w → steady rs0 q (begin_ w).
Proof. intros Hs. apply steady_session. by apply steady_tick. Qed.

Lemma steady_rollback rs0 q w : steady rs0 q w → steady rs0 q (rollback w) ∧ session (rollback w) = None.
Proof. intros Hs. split; [|done]. apply steady_session. by apply steady_tick. Qed.

(** Inside a transaction a statement changes no committed row. *)
Lemma steady_execute rs0 q c o t w :
  session w = Some t → steady rs0 q w → steady rs0 q (execute c o w).2.
Proof.
  intros Ht Hs. apply steady_tick in Hs as [Hs Hses]. rewrite Ht in Hses.
  unfold execute. destruct (is_aborted (tick w)); [done|].
  destruct (refuses c o (view (tick w))); simpl;
    [unfold fail_statement|unfold apply_change]; rewrite Hses; by apply steady_session.
Qed.

Lemma steady_insert rs0 q c mk t w :
  session w = Some t → steady rs0 q w → steady rs0 q (insert c mk w).2.
Proof.
  intros Ht Hs. apply steady_tick in Hs as [Hs Hses]. rewrite Ht in Hses.
  unfold insert. destruct (is_aborted (tick w)); [done|].
  destruct (insert_refused c); simpl.
  { unfold fail_statement. rewrite Hses. by apply steady_session. }
  apply steady_take_seq in Hs.
  destruct (insert_error _ _ _); simpl; [unfold fail_statement|unfold apply_change]; simpl; rewrite Hses;
    by apply steady_session.
Qed.

(** A statement is refused the way the probe asks for. *)
Definition in_force (c : controls) (o : op) : bool :=
  match fault c o with
  | Some e => is_refusal e
  | None => negb (role_may c o || public_may c o) || trigger c o
  end.

Lemma reject_is_refusal o : is_refusal (reject_mutation o) = true.
Proof. by destruct o. Qed.

Lemma attempt_spec rs0 q c o w :
  rs0 ≠ [] → steady rs0 q w →
  (attempt c o w).1 = in_force c o ∧ steady rs0 q (attempt c o w).2 ∧ session (attempt c o w).2 = None.
Proof.
  intros Hne Hs. unfold attempt. set (w1 := begin_ w).
  assert (Hs1 : steady rs0 q w1) by (by apply steady_begin).
  pose proof (steady_execute rs0 q c o _ w1 eq_refl Hs1) as Hs2.
  destruct (steady_tick rs0 q w1 Hs1) as [[_ [rest Hrows] _ _] Hses].
  destruct (execute c o w1) as [answer w2] eqn:E. cbn [fst snd] in *.
  split; [|by apply steady_rollback].
  unfold execute, is_aborted in E. rewrite Hses in E. simpl in E.
  assert (Hv : fires o (view (tick w1)) = true).
  { unfold view. rewrite Hses. simpl. rewrite Hrows. destruct rs0; [done|]. by destruct o. }
  unfold in_force. unfold refuses in E. rewrite Hv, andb_true_r in E.
  destruct (fault c o); [by injection E as <- _|].
  destruct (role_may c o || public_may c o); simpl in *; [|by injection E as <- _].
  destruct (trigger c o); injection E as <- _; [apply reject_is_refusal|done].
Qed.

(** The fork attempt is refused the way the probe asks for. *)
Definition fork_in_force (c : controls) : bool :=
  match insert_refused c with Some e => is_fork_refusal e | None => fork_guard c end.

Lemma head_row_some rs0 rs :
  rs0 ≠ [] → rs0 `prefix_of` rs → StronglySorted Z.lt (seq <$> rs) →
  ∃ r, head_row rs = Some r ∧ r ∈ rs.
Proof.
  intros Hne [rest ->] Hs. rewrite head_row_last by done.
  destruct (last (rs0 ++ rest)) as [r|] eqn:El.
  - exists r. split; [done|]. apply last_Some in El as [rs' ->]. set_solver.
  - apply last_None, app_eq_nil in El as [-> _]. done.
Qed.

Lemma fork_insert_error c now_at random rs n r :
  writer_inv {| rows := rs; next_seq := n; lock := None; txs := ∅ |} → r ∈ rs → byteLength random = 32%nat →
  ∃ e, insert_error c rs (fork_row now_at (prevHash r) random n) = e ∧
    match e with Some e => is_fork_refusal e = fork_guard c | None => fork_guard c = false end.
Proof.
  intros Hi Hr Hw. eexists. split; [done|]. unfold insert_error.
  assert (row_ck (fork_row now_at (prevHash r) random n) = true) as ->.
  { unfold row_ck. simpl. rewrite Hw. apply list_elem_of_lookup in Hr as [i Hlk].
    pose proof (chain_ok_prev_width _ _ r genesis_width (wi_chain _ Hi) (list_elem_of_lookup_2 _ _ _ Hlk)) as ->.
    done. }
  cbn [negb]. rewrite bool_decide_false; cycle 1.
  { cbn [seq fork_row]. intros (r' & He & Hr')%list_elem_of_fmap. pose proof (wi_seq _ Hi) as Hs.
    simpl in Hs. rewrite Forall_forall in Hs. specialize (Hs r' Hr'). simpl in Hs. lia. }
  rewrite (bool_decide_true (prevHash (fork_row now_at (prevHash r) random n) ∈ _)); cycle 1.
  { cbn [prevHash fork_row]. by apply list_elem_of_fmap_2. }
  rewrite andb_true_r. destruct (fork_guard c); [done|]. by destruct (bool_decide _).
Qed.

Lemma fork_spec rs0 q c now_at random w :
  rs0 ≠ [] → byteLength random = 32%nat → steady rs0 q w →
  (fork_attempt c now_at random w).1 = fork_in_force c ∧
  steady rs0 q (fork_attempt c now_at random w).2 ∧ session (fork_attempt c now_at random w).2 = None.
Proof.
  intros Hne Hrandom Hs. unfold fork_attempt.
  destruct (steady_tick rs0 q _ (steady_begin rs0 q w Hs)) as [Hs1 Hses1]. set (w1 := tick (begin_ w)) in *.
  change (session (begin_ w)) with (Some {| changes := λ rs : list StoredAuditEvent, rs; aborted := false |})
    in Hses1.
  destruct (steady_tick rs0 q w1 Hs1) as [Hs2 Hses2]. rewrite Hses1 in Hses2.
  assert (Hv : view w1 = rows (db w1)) by (unfold view; by rewrite Hses1).
  rewrite Hv. destruct (head_row_some rs0 (rows (db w1))) as (r & Hhead & Hr);
    [done|apply Hs1|apply Hs1|]. rewrite Hhead.
  pose proof (steady_insert rs0 q c (fork_row now_at (prevHash r) random) _ w1 Hses1 Hs1) as Hs3.
  destruct (insert c (fork_row now_at (prevHash r) random) w1) as [answer w3] eqn:E. cbn [fst snd] in *.
  split; [|by apply steady_rollback].
  unfold insert, is_aborted in E. rewrite Hses2 in E. cbn [aborted] in E. unfold fork_in_force.
  destruct (insert_refused c); [by injection E as <- _|].
  assert (Hv2 : view (take_seq (tick w1)) = rows (db (tick w1))) by (unfold view; simpl; by rewrite Hses2).
  rewrite Hv2 in E.
  assert (Hr2 : r ∈ rows (db (tick w1))).
  { unfold tick. destruct (others w1) as [|tr trs]; [done|]. simpl.
    destruct (run tr (db w1)) as [s|] eqn:Er; [|done]. simpl.
    apply run_prefix in Er as [rest ->]. set_solver. }
  destruct (fork_insert_error c now_at random (rows (db (tick w1))) (next_seq (db (tick w1))) r)
    as (e & He & Hm); [|done|done|].
  { destruct Hs2 as [[Hc Hsort Hn _ _ _] _ _ _]. split; simpl; try done; intros p t; by rewrite lookup_empty. }
  rewrite He in E. destruct e; by injection E as <- _.
Qed.

Lemma nothing_destroyed_spec rs0 q w w0 :
  rs0 ≠ [] → rows (db w0) = rs0 → session w0 = None → writer_inv (db w0) → steady rs0 q w → session w = None →
  (nothing_destroyed (readState w0) w).1 = true ∧
  steady rs0 q (nothing_destroyed (readState w0) w).2 ∧
  session (nothing_destroyed (readState w0) w).2 = None.
Proof.
  intros Hne Hrows Hses0 Hi Hs Hses. unfold nothing_destroyed.
  destruct (steady_tick rs0 q w Hs) as [Hs1 Hses1]. destruct (steady_tick rs0 q _ Hs1) as [Hs2 Hses2].
  unfold readState, headStillPresent, view. rewrite Hses2, Hses1, Hses0, Hses, Hrows. cbn [headHash count].
  destruct (head_row_some rs0 rs0) as (r & Hhead & Hr); [done|done|rewrite <- Hrows; apply Hi|].
  rewrite Hhead. cbn [fmap option_fmap option_map fst snd]. split; [|split; [done|by rewrite Hses2, Hses1]].
  apply andb_true_iff. split.
  - apply Nat.leb_le. by apply prefix_length, Hs1.
  - apply bool_decide_eq_true, list_elem_of_fmap_2. destruct (st_prefix _ _ _ Hs2) as [rest ->]. set_solver.
Qed.

(** What the probe reports, and the state in which it makes its own append. *)
Lemma probe_spec q c now_at random w :
  steady (rows (db (tick w))) q (tick w) → session w = None → rows (db (tick w)) ≠ [] →
  byteLength random = 32%nat →
  ∃ w', steady (rows (db (tick w))) q w' ∧ session w' = None ∧
    probe c now_at random w =
      ([(ChainNotEmpty, true); (Refused UPDATE, in_force c UPDATE); (Refused DELETE, in_force c DELETE);
        (Refused TRUNCATE, in_force c TRUNCATE); (ForkRefused, fork_in_force c); (NothingDestroyed, true);
        (NoPublicGrant, no_public_grant c); (AppendWorks, (append_attempt c now_at w').1)],
       (append_attempt c now_at w').2).
Proof.
  intros Hs Hses Hne Hrandom. unfold probe. set (w0 := tick w) in *.
  assert (Hses0 : session w0 = None).
  { subst w0. unfold tick. by destruct (others w). }
  rewrite decide_False; cycle 1.
  { unfold readState, view. rewrite Hses0. simpl. by destruct (rows (db w0)). }
  destruct (attempt_spec _ _ c UPDATE _ Hne Hs) as (Hu & Hs1 & _).
  destruct (attempt c UPDATE w0) as [u w1]. cbn [fst snd] in *.
  destruct (attempt_spec _ _ c DELETE _ Hne Hs1) as (Hd & Hs2 & _).
  destruct (attempt c DELETE w1) as [d w2]. cbn [fst snd] in *.
  destruct (attempt_spec _ _ c TRUNCATE _ Hne Hs2) as (Ht & Hs3 & _).
  destruct (attempt c TRUNCATE w2) as [t w3]. cbn [fst snd] in *.
  destruct (fork_spec _ _ c now_at random _ Hne Hrandom Hs3) as (Hf & Hs4 & Hses4).
  destruct (fork_attempt c now_at random w3) as [f w4]. cbn [fst snd] in *.
  destruct (nothing_destroyed_spec _ _ w4 w0 Hne eq_refl Hses0 (st_inv _ _ _ Hs) Hs4 Hses4) as (Hn & Hs5 & Hses5).
  destruct (nothing_destroyed (readState w0) w4) as [n w5]. cbn [fst snd] in *.
  destruct (steady_tick _ _ _ Hs5) as [Hs6 Hses6].
  exists (tick w5). split; [done|]. split; [congruence|].
  destruct (append_attempt c now_at (tick w5)) as [a w7]. subst. done.
Qed.

(** What the table has to do for the probe to be right to pass. *)
Record append_only (c : controls) : Prop := {
  ao_refused o : role_may c o = false ∧ public_may c o = false ∨ trigger c o = true;
  ao_revoked o : public_may c o = false;
  ao_no_fork : fork_guard c = true;
  ao_appends : insert_refused c = None;
}.

(** Failures of other kinds do not look like refusals. *)
Definition honest_faults (c : controls) : Prop := ∀ o e, fault c o = Some e → is_refusal e = false.

Lemma probe_event_wf : wf_append probe_event.
Proof. unfold wf_append. simpl. apply NoDup_singleton. Qed.

(** The append of the probe, on whatever state it meets. *)
Lemma append_spec rs0 q c now_at w :
  steady rs0 q w → session w = None →
  let w' := tick w in
  let '(a, w2) := append_attempt c now_at w in
  writer_inv (db w2) ∧ session w2 = None ∧ (a = true → insert_refused c = None) ∧
  (rows (db w2) = rows (db w') ∨ ∃ r, rows (db w2) = rows (db w') ++ [r] ∧ holds (now_at, probe_event) r).
Proof.
  intros Hs Hses. destruct (steady_tick _ _ _ Hs) as [[Hi _ _ _] Hses']. intros w'.
  fold w' in Hi, Hses'. unfold append_attempt. fold w'. set (p := fresh _).
  destruct (insert_refused c); [simpl; split_and!; first [done|congruence|by left]|].
  destruct (run (append_statements p now_at probe_event) (db w')) as [s|] eqn:E;
    [|simpl; split_and!; first [done|congruence|by left]].
  assert (Hw : Forall writer_label (append_statements p now_at probe_event)).
  { apply Forall_cons. split; [exact probe_event_wf|]. by repeat constructor. }
  destruct (run_spec _ (db w') s ((λ t, (tx_now t, tx_event t)) <$> txs (db w')) E Hw Hi)
    as (Hi' & new & Hrows & Hh).
  { intros q' t Hq. rewrite lookup_fmap, Hq. done. }
  cbn [committed append_statements] in Hh. rewrite lookup_insert_eq in Hh. simpl in Hh.
  apply Forall2_cons_inv_l in Hh as (r & new' & Hr & Hnil & ->). apply Forall2_nil_inv_l in Hnil as ->.
  simpl. split_and!; [done|congruence|done|]. right. by exists r.
Qed.

Lemma append_works rs0 c now_at w :
  steady rs0 true w → insert_refused c = None →
  (∀ n r, new_row now_at probe_event (hash <$> head_row rs0) n = Ok r →
     collision_free (hash_input <$> (rs0 ++ [r])) ∧ no_genesis_preimage (hash_input <$> (rs0 ++ [r]))) →
  (append_attempt c now_at w).1 = true.
Proof.
  intros Hs Hc Hcol. destruct (steady_tick _ _ _ Hs) as [[Hi _ Hq _] _].
  destruct (Hq eq_refl) as [Hrows Htx]. unfold append_attempt. rewrite Hc.
  set (p := fresh _).
  destruct (append_from (db (tick w)) p now_at probe_event) as (r & s' & -> & _); try done.
  - destruct (lock (db (tick w))) as [q|] eqn:El; [|done].
    destruct (wi_held _ Hi q El) as (t & Hp & _). by rewrite Htx, lookup_empty in Hp.
  - by rewrite Htx, lookup_empty.
  - exact probe_event_wf.
  - intros r. rewrite Hrows. apply Hcol.
Qed.

(** Other processes that only append, or do nothing at all. *)
Definition only_appends (w : probe_world) : Prop := Forall (Forall writer_label) (others w).
Definition alone (w : probe_world) : Prop := Forall (λ tr, tr = []) (others w) ∧ txs (db w) = ∅.

Lemma steady_start q tr w :
  run tr empty_db = Some (db w) → Forall writer_label tr → only_appends w → (q = true → alone w) →
  steady (rows (db (tick w))) q (tick w) ∧ rows (db w) `prefix_of` rows (db (tick w)) ∧
  (q = true → rows (db (tick w)) = rows (db w)).
Proof.
  intros Hr Hw Ho Hq. destruct (run_empty tr _ Hr Hw) as [Hi _].
  assert (Hs : steady (rows (db w)) q w).
  { split; [done|done| |].
    - intros Hqq. by destruct (Hq Hqq) as [_ Ht].
    - apply Forall_and. split; [done|]. apply Forall_forall. intros t Ht Hqq.
      destruct (Hq Hqq) as [Hall _]. rewrite Forall_forall in Hall. by apply Hall. }
  apply steady_tick in Hs as [[Hi' Hp Hq' Ho'] _]. split_and!; [|done|].
  - split; try done. intros Hqq. split; [done|]. by apply Hq'.
  - intros Hqq. by apply Hq'.
Qed.

(** C30. The probe decides what it is for. On a chain with events, whatever the
    other processes append meanwhile, it exits 0 only if UPDATE, DELETE and
    TRUNCATE are each stopped by a trigger or by privileges, none of them is
    granted to PUBLIC, a second event on one predecessor is refused by the
    unique index and appends are accepted; failures of other kinds never count
    as refusals. Conversely, alone on such a table, it exits 0. *)
Theorem probe_exact tr c now_at random w :
  run tr empty_db = Some (db w) → Forall writer_label tr → only_appends w → session w = None →
  rows (db w) ≠ [] → byteLength random = 32%nat → honest_faults c →
  (exitCode (probe c now_at random w).1 = 0 → append_only c) ∧
  (alone w → (∀ o, fault c o = None) →
   (∀ n r, new_row now_at probe_event (hash <$> head_row (rows (db w))) n = Ok r →
      collision_free (hash_input <$> (rows (db w) ++ [r])) ∧
      no_genesis_preimage (hash_input <$> (rows (db w) ++ [r]))) →
   append_only c → exitCode (probe c now_at random w).1 = 0).
Proof.
  intros Hr Hw Ho Hses Hne Hrandom Hf. split.
  - destruct (steady_start false tr w Hr Hw Ho ltac:(done)) as (Hs & Hp & _).
    destruct (probe_spec false c now_at random w Hs Hses) as (w' & Hs' & Hses' & ->); [|done|].
    { intros He. rewrite He in Hp. by apply prefix_nil_inv in Hp. }
    pose proof (append_spec _ _ c now_at w' Hs' Hses') as Ha.
    destruct (append_attempt c now_at w') as [a w2]. destruct Ha as (_ & _ & Ha & _).
    cbn [fst snd] in *. rewrite exitCode_zero, !Forall_cons. cbn [snd]. intros (_ & Hu & Hd & Ht & Hfk & _ & Hg & Haw & _).
    specialize (Ha Haw). unfold fork_in_force in Hfk. rewrite Ha in Hfk.
    unfold no_public_grant in Hg. rewrite !andb_true_iff, !negb_true_iff in Hg. destruct Hg as [[Hg1 Hg2] Hg3].
    split; [|by intros []|done|done]. intros o.
    assert (Hin : in_force c o = true) by (by destruct o). unfold in_force in Hin.
    destruct (fault c o) as [e|] eqn:Ef; [by rewrite (Hf o e Ef) in Hin|].
    apply orb_true_iff in Hin as [Hin|]; [left|by right]. by apply negb_true_iff, orb_false_iff in Hin.
  - intros Hal Hnf Hcol [Hc1 Hc2 Hc3 Hc4].
    destruct (steady_start true tr w Hr Hw Ho ltac:(done)) as (Hs & _ & Hq). specialize (Hq eq_refl).
    destruct (probe_spec true c now_at random w Hs Hses) as (w' & Hs' & Hses' & ->); [by rewrite Hq|done|].
    rewrite Hq in Hs'. rewrite (append_works (rows (db w)) c now_at w' Hs' Hc4 Hcol).
    assert (Hin : ∀ o, in_force c o = true).
    { intros o. unfold in_force. rewrite Hnf. apply orb_true_iff.
      destruct (Hc1 o) as [[-> ->]|]; [by left|by right]. }
    apply exitCode_zero. unfold fork_in_force, no_public_grant. rewrite !Hin, !Hc2, Hc4, Hc3.
    repeat constructor.
Qed.

(** The probe is safe on a live chain, whatever protections the table lacks:
    every attempt is undone, so the rows it found and the rows others appended
    are all still there unchanged, the only row of its own is one chained event,
    and the table still verifies. *)
Theorem probe_harmless tr c now_at random w :
  run tr empty_db = Some (db w) → Forall writer_label tr → only_appends w → session w = None →
  byteLength random = 32%nat →
  let s := db (probe c now_at random w).2 in
  rows (db w) `prefix_of` rows s ∧ verifyAuditChain (rows s) GENESIS_HASH = Ok None ∧
  session (probe c now_at random w).2 = None ∧
  (alone w → rows s = rows (db w) ∨
     ∃ r, rows s = rows (db w) ++ [r] ∧ holds (now_at, probe_event) r).
Proof.
  intros Hr Hw Ho Hses Hrandom.
  assert (Hgen : ∀ q, (q = true → alone w) → let w2 := (probe c now_at random w).2 in
    writer_inv (db w2) ∧ rows (db w) `prefix_of` rows (db w2) ∧ session w2 = None ∧
    (q = true → rows (db w2) = rows (db w) ∨
       ∃ r, rows (db w2) = rows (db w) ++ [r] ∧ holds (now_at, probe_event) r)).
  { intros q Hq. destruct (steady_start q tr w Hr Hw Ho Hq) as (Hs & Hp & Hquiet).
    destruct (decide (rows (db (tick w)) = [])) as [He|Hne].
    { unfold probe. rewrite decide_True.
      - simpl. split_and!; [apply Hs|done| |]; [unfold tick; by destruct (others w)|].
        intros Hqq. left. auto.
      - unfold readState, view. simpl.
        replace (session (tick w)) with (@None transaction) by (unfold tick; by destruct (others w)).
        by rewrite He. }
    destruct (probe_spec q c now_at random w Hs Hses Hne Hrandom) as (w' & Hs' & Hses' & ->).
    pose proof (append_spec _ _ c now_at w' Hs' Hses') as Ha.
    destruct (append_attempt c now_at w') as [a w2]. destruct Ha as (Hi2 & Hses2 & _ & Hrows).
    destruct (steady_tick _ _ _ Hs') as [[_ Hp' Hq' _] _].
    simpl. split_and!; [done| |done|].
    - etrans; [exact Hp|]. etrans; [exact Hp'|].
      destruct Hrows as [->|(r & -> & _)]; [done|by apply prefix_app_r].
    - intros Hqq. destruct (Hq' Hqq) as [Hq1 _]. rewrite (Hquiet Hqq) in Hq1. by rewrite Hq1 in Hrows. }
  destruct (Hgen false ltac:(done)) as (Hi & Hp & Hs2 & _). simpl. split_and!; [done| |done|].
  - by apply verify_spec, Hi.
  - intros Hal. by destruct (Hgen true ltac:(done)) as (_ & _ & _ & Hq); auto.
Qed.
End probe.

(** The probe and the verifier read one command line alike. *)
Lemma readTarget_agrees number masterUrl args t n :
  readOptions number masterUrl args = Ok (t, n) → readTarget masterUrl args = Ok t.
Proof.
  unfold readOptions, readTarget. intros Hr. rewrite !mbind_rbind in *.
  destruct (throw_if _ NoMasterUrl); [|done]. simpl in *.
  destruct (throw_if _ TenantWithoutValue); [|done]. simpl in *.
  destruct (throw_if _ NotExactlyOne); [|done]. simpl in *.
  destruct (args !! "page-size") as [[]|]; simpl in Hr; try done;
    (destruct (number _); [|done]); (destruct (_ <? 1); [done|]); by injection Hr as <- _.
Qed.

(** ** The probe at work *)

Module ProbeSample.
#[export] Existing Instance WriterSample.by_length.
#[export] Existing Instance Sample.toy.

(** The default deployment: one role, the owner of the table. *)
Definition owned : controls :=
  {| trigger := λ _, false; role_may := λ _, true; public_may := λ _, false; fork_guard := true;
     insert_refused := None; fault := λ _, None |}.
Definition protected : controls := audit_immutability owned.

(** Somebody drops the trigger on TRUNCATE. *)
Definition without_truncate : controls :=
  {| trigger o := negb (bool_decide (o = TRUNCATE)); role_may := λ _, true; public_may := λ _, false;
     fork_guard := true; insert_refused := None; fault := λ _, None |}.

Definition live (tr : list (list label)) : probe_world :=
  {| db := WriterSample.final; session := None; others := tr |}.

(** A login lands between two statements of the probe. *)
Definition a_login : list label := append_statements 5 WriterSample.t3 WriterSample.failed.
Definition random : Buffer := sha256 "random".
Definition report (c : controls) (w : probe_world) : list (probe_check * bool) :=
  (probe c WriterSample.t3 random w).1.
End ProbeSample.
Import ProbeSample.

Example protected_table_passes : exitCode (report protected (live [[]; []; a_login])) = 0.
Proof. vm_compute. reflexivity. Qed.

Example missing_trigger_is_reported :
  List.filter (λ r, negb r.2) (report without_truncate (live [])) = [(Refused TRUNCATE, false)].
Proof. vm_compute. reflexivity. Qed.

(** A failure of another kind is no refusal, and without the rollback every later
    statement would fail with this one. *)
Example aborted_is_not_refused : is_refusal in_failed_transaction = false.
Proof. reflexivity. Qed.

(** Because every attempt is rolled back, the check that nothing was destroyed
    passes on a table that refuses nothing at all. *)
Lemma nothing_destroyed_tells_nothing :
  report owned (live []) =
    [(ChainNotEmpty, true); (Refused UPDATE, false); (Refused DELETE, false); (Refused TRUNCATE, false);
     (ForkRefused, true); (NothingDestroyed, true); (NoPublicGrant, true); (AppendWorks, true)].
Proof. vm_compute. reflexivity. Qed.

(** The head is looked for by its stored hash, which an altered row keeps: the
    check sees no difference after an UPDATE that took effect. *)
Lemma tampering_is_not_seen w h :
  session w = None → headStillPresent (apply_change (effect UPDATE) w) h = headStillPresent w h.
Proof.
  intros Hs. unfold headStillPresent, view, apply_change. rewrite Hs. cbn [session db with_db rows].
  rewrite Hs.
  assert (hash <$> effect UPDATE (rows (db w)) = hash <$> rows (db w)) as ->; [|done].
  unfold effect. rewrite <- list_fmap_compose. apply list_fmap_ext. intros i r _. simpl.
  by destruct (bool_decide _).
Qed.

(** On an empty table the attempts on rows are not refused even when the triggers
    are in place: they would be reported as failures, not as passes. *)
Lemma empty_table_attempts_fail c o w :
  fault c o = None → role_may c o = true → o ≠ TRUNCATE → session w = None → others w = [] → rows (db w) = [] →
  (attempt c o w).1 = false.
Proof.
  intros Hf Hr Ho Hs Hot Hrows. unfold attempt, execute, begin_, tick. rewrite Hot.
  cbn [others with_session db session]. rewrite Hot. unfold is_aborted, refuses, view. simpl.
  rewrite Hf, Hr, Hrows. destruct o; [..|done]; by rewrite andb_false_r.
Qed.

Example empty_chain_is_refused :
  report protected {| db := empty_db; session := None; others := [] |} = [(ChainNotEmpty, false)].
Proof. vm_compute. reflexivity. Qed.

Lemma sample_collisions n r :
  new_row WriterSample.t3 probe_event (hash <$> head_row (rows WriterSample.final)) n = Ok r →
  collision_free (hash_input <$> (rows WriterSample.final ++ [r])) ∧
  no_genesis_preimage (hash_input <$> (rows WriterSample.final ++ [r])).
Proof.
  intros Hr.
  assert (He : hash_input <$> (rows WriterSample.final ++ [r]) =
    (hash_input <$> rows WriterSample.final) ++
    [hash_input (default r (to_option (new_row WriterSample.t3 probe_event
                              (hash <$> head_row (rows WriterSample.final)) 0)))]).
  { rewrite fmap_app. do 2 f_equal. simpl. f_equal. unfold new_row in Hr |- *.
    rewrite mbind_rbind in *. destruct (computeAuditHash _ _); [|done]. simpl in *.
    by injection Hr as <-. }
  rewrite He. split.
  - apply Sample.collision_freeb_ok. vm_compute. reflexivity.
  - apply Sample.no_genesisb_ok. vm_compute. reflexivity.
Qed.

Lemma probe_exact_witness :
  append_only protected ∧ exitCode (probe protected WriterSample.t3 random (live [])).1 = 0.
Proof.
  assert (Hao : append_only protected) by (by split; [right|..]).
  split; [exact Hao|].
  destruct (probe_exact WriterSample.trace protected WriterSample.t3 random (live [])) as [_ H].
  - apply WriterSample.trace_runs.
  - apply WriterSample.trace_writer.
  - constructor.
  - reflexivity.
  - vm_compute. discriminate.
  - reflexivity.
  - by intros o e.
  - apply H; [|done|exact sample_collisions|exact Hao]. split; [constructor|]. vm_compute. reflexivity.
Defined.

Lemma probe_harmless_witness :
  verifyAuditChain (rows (db (probe owned WriterSample.t3 random (live [[]; a_login])).2)) GENESIS_HASH = Ok None.
Proof.
  apply (probe_harmless WriterSample.trace owned WriterSample.t3 random (live [[]; a_login])).
  - apply WriterSample.trace_runs.
  - apply WriterSample.trace_writer.
  - apply Forall_cons. split; [constructor|]. apply Forall_cons. split; [|constructor].
    repeat (apply Forall_cons; split; [first [exact I | compute_decide]|]). constructor.
  - reflexivity.
  - reflexivity.
Defined.

Example bare_tenant_is_refused :
  readTarget (Some "postgres://m") (parseArgs ["--tenant"; "--master"]) = Throw TenantWithoutValue.
Proof. vm_compute. reflexivity. Qed.
