(* ===== verification/ContentionProbe.v ===== *)
(** Proving that concurrent appends do not fork a chain:
    packages/db/src/audit/contention-probe.ts over the writer of AuditWriter.

    The probe starts many appends at once and reads the table back; its verdict
    is a function of how the appends settled and of the table at three moments,
    between which every other process goes on working. *)
From S2P Require Import Prelude AuditHash AuditWriter Cli VerifyChain.
#[local] Open Scope Z_scope.

(** ** How many appends *)

Inductive appends_error := AppendsWithoutValue | BadAppends.

(** [process.argv.indexOf("--appends")] and the checks of what follows it. [number]
    is what [Number] makes of it, [None] when that is not an integer. *)
Definition readAppends (number : string → option Z) (argv : list string) : result appends_error Z :=
  match list_find (λ a, a = "--appends") argv with
  | None => Ok 50
  | Some (argIndex, _) =>
      match argv !! S argIndex with
      | None => Throw AppendsWithoutValue
      | Some raw =>
          if flag_body raw then Throw AppendsWithoutValue
          else match number raw with
               | Some appends => if appends <? 1 then Throw BadAppends else Ok appends
               | None => Throw BadAppends
               end
      end
  end.

(** ** The verdict *)

(** [isUnique], on the message an append was rejected with. *)
Definition isUnique (msg : string) : bool :=
  includes "audit_events_prev_hash_unique" msg || includes "audit_events_hash_unique" msg.

(** [Promise.allSettled]: an append, or the message of its error. *)
Abbreviation settled := (list (result string AppendedAuditEvent)) (only parsing).

Definition rejected_with (results : settled) : list string :=
  omap (λ r, match r with Throw msg => Some msg | Ok _ => None end) results.

(** [COALESCE(MAX(seq), 0)] *)
Definition max_seq (rs : list StoredAuditEvent) : option Z :=
  foldr (λ r acc, Some (match acc with Some m => Z.max (seq r) m | None => seq r end)) None rs.
Definition startSeq (rs : list StoredAuditEvent) : Z := default 0 (max_seq rs).

(** [WHERE seq > $1 ORDER BY audit_events.seq ASC] *)
Definition readBack (table : list StoredAuditEvent) (start : Z) : list StoredAuditEvent :=
  merge_sort seq_le (filter (λ r, start < seq r) table).

Inductive contention_check := NoUniqueViolation | AllSucceeded | AllLanded | Linked | Recomputed.

Section contention.
Context `{Sha256} `{Jsonb}.

(** The loop over the rows: [linkBreak], [hashBreak] and [checked]. *)
Fixpoint check_rows (rs : list StoredAuditEvent) (expectedPrev : Buffer) (checked : nat)
    : result hash_error (option Z * option Z * nat) :=
  match rs with
  | [] => Ok (None, None, checked)
  | r :: rs =>
      if negb (bool_decide (prevHash r = expectedPrev)) then Ok (Some (seq r), None, checked)
      else
        recomputed ← computeAuditHash (input r) (prevHash r);
        if negb (bool_decide (recomputed = hash r)) then Ok (None, Some (seq r), checked)
        else check_rows rs (hash r) (S checked)
  end.

(** [SELECT hash FROM audit_events WHERE seq = $1]; [None] is the TypeError on a
    row that is not there. *)
Definition expected_prev (start : Z) (table : list StoredAuditEvent) : option Buffer :=
  if start =? 0 then Some GENESIS_HASH
  else hash <$> List.find (λ r, seq r =? start) table.

(** The checks of [main], on the table [before] the appends, when the rows are
    [read] and when the [head] is. [None]: an exception ends the program. *)
Definition contention (appends : Z) (results : settled) (before read head : list StoredAuditEvent)
    : option (list (contention_check * bool)) :=
  let start := startSeq before in
  let uniqueViolations := List.filter isUnique (rejected_with results) in
  let others := List.filter (λ msg, negb (isUnique msg)) (rejected_with results) in
  let rs := readBack read start in
  let landed := Z.of_nat (length rs) in
  match expected_prev start head with
  | None => None
  | Some expectedPrev =>
      match check_rows rs expectedPrev 0 with
      | Throw _ => None
      | Ok (linkBreak, hashBreak, checked) =>
          Some ([(NoUniqueViolation, Nat.eqb (length uniqueViolations) 0);
                 (AllSucceeded, Nat.eqb (length others) 0); (AllLanded, appends <=? landed)] ++
                if landed =? 0 then [(Linked, false)]
                else [(Linked, negb (bool_decide (is_Some linkBreak)));
                      (Recomputed, negb (bool_decide (is_Some hashBreak)))])
      end
  end.

Definition contention_exit (report : option (list (contention_check * bool))) : Z :=
  match report with Some report => exitCode report | None => 1 end.

(** ** The walk is the verifier's *)

Lemma check_rows_verifies rs p n :
  byteLength p = AUDIT_HASH_BYTES →
  match verifyAuditChain rs p with
  | Ok None => check_rows rs p n = Ok (None, None, (n + length rs)%nat)
  | Ok (Some b) =>
      ∃ k, (k < length rs)%nat ∧
        check_rows rs p n = Ok (match break_why b with
                                | HashMismatch => (None, Some (break_seq b), (n + k)%nat)
                                | _ => (Some (break_seq b), None, (n + k)%nat)
                                end)
  | Throw _ => False
  end.
Proof.
  revert p n. induction rs as [|r rs IH]; intros p n Hp; [simpl; by rewrite Nat.add_0_r|].
  simpl. destruct (decide (prevHash r = p)) as [He|Hne].
  - rewrite bool_decide_true by done. simpl.
    rewrite computeAuditHash_ok by congruence. rewrite !mbind_rbind. simpl.
    destruct (decide (digest r = hash r)) as [Hh|Hh].
    + rewrite bool_decide_true by done. simpl.
      assert (Hw : byteLength (hash r) = AUDIT_HASH_BYTES) by (rewrite <- Hh; apply digest_width).
      specialize (IH (hash r) (S n) Hw).
      destruct (verifyAuditChain rs (hash r)) as [[b|]|]; [| |done].
      * destruct IH as (k & Hk & ->). exists (S k). split; [lia|]. by rewrite <- plus_n_Sm.
      * rewrite IH. by rewrite <- plus_n_Sm.
    + rewrite bool_decide_false by done. exists 0%nat. simpl. rewrite Nat.add_0_r. split; [lia|done].
  - rewrite bool_decide_false by done. simpl.
    case_decide; simpl; exists 0%nat; rewrite Nat.add_0_r; (split; [lia|done]).
Qed.

(** ** What exit code 0 means *)

Lemma rejected_nil results : rejected_with results = [] ↔ Forall (λ r, is_Some (to_option r)) results.
Proof.
  unfold rejected_with. induction results as [|[a|msg] results IH]; simpl; [by split| |].
  - rewrite Forall_cons, IH. simpl. by split; [split; [eauto|]|intros [_ ?]].
  - rewrite Forall_cons. simpl. split; [done|]. by intros [[? ?] _].
Qed.

Lemma no_rejections results :
  length (List.filter isUnique (rejected_with results)) = 0%nat ∧
  length (List.filter (λ msg, negb (isUnique msg)) (rejected_with results)) = 0%nat ↔ rejected_with results = [].
Proof.
  induction (rejected_with results) as [|msg msgs IH]; simpl; [by split|].
  destruct (isUnique msg); simpl; split; try done; by intros [].
Qed.

(** The probe passes exactly when every append succeeded, at least as many
    rows were added as appends were started, and the rows after the start link
    one to the next from the head the probe started at and hash to what is
    stored. No row at all is never a pass. *)
Theorem contention_exact appends results before read head p :
  expected_prev (startSeq before) head = Some p → byteLength p = AUDIT_HASH_BYTES →
  let rs := readBack read (startSeq before) in
  contention_exit (contention appends results before read head) = 0 ↔
    Forall (λ r, is_Some (to_option r)) results ∧ appends ≤ Z.of_nat (length rs) ∧ rs ≠ [] ∧ chain_ok p rs.
Proof.
  intros Hp Hw rs. unfold contention. rewrite Hp. fold rs.
  pose proof (check_rows_verifies rs p 0 Hw) as Hc. destruct (verify_spec p rs Hw) as (Hok & _ & _).
  rewrite <- rejected_nil, <- no_rejections.
  destruct (verifyAuditChain rs p) as [[b|]|]; [| |done].
  - destruct Hc as (k & Hk & ->).
    assert (Hne : rs ≠ []) by (by intros Hrs; rewrite Hrs in Hk; simpl in Hk; lia).
    assert (Z.of_nat (length rs) =? 0 = false) as -> by (apply Z.eqb_neq; destruct rs; simpl; [done|lia]).
    split; [|by intros (_ & _ & _ & Hch); apply Hok in Hch].
    destruct (break_why b); cbn [contention_exit]; rewrite exitCode_zero, !Forall_app, !Forall_cons; simpl; naive_solver.
  - rewrite Hc. cbn [contention_exit]. rewrite exitCode_zero. destruct rs as [|r rs'] eqn:E.
    + simpl. rewrite !Forall_cons. simpl. naive_solver.
    + assert (Z.of_nat (length (r :: rs')) =? 0 = false) as -> by (apply Z.eqb_neq; simpl; lia).
      rewrite Forall_app, !Forall_cons. cbn [snd]. rewrite !Nat.eqb_eq, Z.leb_le, Forall_nil, <- Hok.
      naive_solver.
Qed.

(** ** The probe passes on locked writers *)

(** Sequence numbers are positive. *)
Record positive_seq (s : audit_db) : Prop := {
  ps_next : 0 < next_seq s;
  ps_rows : Forall (λ r, 0 < seq r) (rows s);
  ps_txs : ∀ p t r, txs s !! p = Some t → tx_phase t = Inserted r → 0 < seq r;
}.

Lemma positive_set p t s rs n l :
  positive_seq s → rs = rows s → next_seq s ≤ n → (∀ r, tx_phase t = Inserted r → 0 < seq r) →
  positive_seq {| rows := rs; next_seq := n; lock := l; txs := <[p := t]> (txs s) |}.
Proof.
  intros [Hn Hr Ht] -> Hle Hp. split; simpl; [lia|done|]. intros q t' r Hq.
  destruct (decide (p = q)) as [->|]; simplify_map_eq; [by apply Hp|by eapply Ht].
Qed.

Lemma positive_end p s : positive_seq s → positive_seq (end_tx p s).
Proof. intros [Hn Hr Ht]. split; simpl; try done. intros q t r [_ Hq]%lookup_delete_Some. by eapply Ht. Qed.

Lemma new_row_seq now_at ev prev n r : new_row now_at ev prev n = Ok r → seq r = n.
Proof. unfold new_row. rewrite mbind_rbind. destruct (computeAuditHash _ _); simpl; [|done]. by intros [= <-]. Qed.

Lemma positive_step l s s' :
  db_step l s = Some s' → writer_label l → positive_seq s → positive_seq s'.
Proof.
  intros Hstep Hw Hps. destruct l as [p now_at ev|p|p|p|p|p|r]; simpl in Hstep; [..|done].
  - destruct (txs s !! p); simplify_eq. by apply positive_set.
  - destruct (txs s !! p) as [[n e []]|]; try done. destruct (lock s); simplify_eq. by apply positive_set.
  - destruct (txs s !! p) as [[n e []]|]; simplify_eq. by apply positive_set.
  - destruct (txs s !! p) as [[n e [| |prev|]]|]; try done.
    destruct (new_row n e prev (next_seq s)) as [r|] eqn:Er; simplify_eq; [|by apply positive_end].
    apply new_row_seq in Er. destruct (negb _); [done|]. destruct (_ && _); simplify_eq.
    + apply (positive_set p _ s (rows s) (next_seq s + 1)); try done; [lia|]. intros r' [= <-]. rewrite Er. apply Hps.
    + apply (positive_end p) in Hps. destruct Hps as [Hn Hr Ht]. split; simpl in *; [lia|done..].
  - destruct (txs s !! p) as [[n e [| | |r]]|] eqn:Et; simplify_eq. pose proof Hps as [Hn Hr Ht].
    apply (positive_end p {| rows := rows s ++ [r]; next_seq := next_seq s; lock := lock s; txs := txs s |}).
    split; simpl; [done| |done]. apply Forall_app. split; [done|]. constructor; [by eapply Ht|done].
  - destruct (txs s !! p); simplify_eq. by apply positive_end.
Qed.

Lemma positive_run tr s s' :
  run tr s = Some s' → Forall writer_label tr → positive_seq s → positive_seq s'.
Proof.
  revert s. induction tr as [|l tr IH]; intros s; cbn [run]; [by intros [= ->]|].
  destruct (db_step l s) as [s1|] eqn:E; [|done]. intros Hr [Hl Hw]%Forall_cons Hp.
  by eapply IH, positive_step.
Qed.

Lemma empty_positive : positive_seq empty_db.
Proof. split; simpl; [lia|constructor|]. intros p t r. by rewrite lookup_empty. Qed.

(** The table grows by one row per commit. *)
Definition is_commit (l : label) : bool := match l with Commit _ => true | _ => false end.

Lemma run_commits tr s s' :
  run tr s = Some s' → Forall writer_label tr →
  length (rows s') = (length (rows s) + length (List.filter is_commit tr))%nat.
Proof.
  revert s. induction tr as [|l tr IH]; intros s; cbn [run]; [intros [= ->]; simpl; lia|].
  destruct (db_step l s) as [s1|] eqn:E; [|done]. intros Hr [Hl Hw]%Forall_cons.
  rewrite (IH s1 Hr Hw). clear IH Hr Hw.
  destruct l as [p now_at ev|p|p|p|p|p|r]; simpl in E; [..|done]; simpl.
  - destruct (txs s !! p); by simplify_eq.
  - destruct (txs s !! p) as [[n e []]|]; try done. destruct (lock s); by simplify_eq.
  - destruct (txs s !! p) as [[n e []]|]; by simplify_eq.
  - destruct (txs s !! p) as [[n e [| |prev|]]|]; try done.
    destruct (new_row n e prev (next_seq s)); [|by simplify_eq].
    destruct (negb _); [done|]. destruct (_ && _); by simplify_eq.
  - destruct (txs s !! p) as [[n e [| | |r]]|]; simplify_eq. simpl. rewrite length_app. simpl. lia.
  - destruct (txs s !! p); by simplify_eq.
Qed.

Lemma commits_counted ps tr :
  NoDup ps → (∀ p, p ∈ ps → Commit p ∈ tr) → (length ps ≤ length (List.filter is_commit tr))%nat.
Proof.
  intros Hnd Hin. rewrite <- (length_fmap Commit). apply submseteq_length, NoDup_submseteq.
  - apply NoDup_fmap_2; [|done]. by intros p q [= ->].
  - intros l (p & -> & Hp)%list_elem_of_fmap. apply list_elem_of_In, filter_In. split; [|done].
    by apply list_elem_of_In, Hin.
Qed.

Lemma max_seq_last rs : StronglySorted Z.lt (seq <$> rs) → max_seq rs = seq <$> last rs.
Proof.
  induction rs as [|r rs IH]; [done|]. rewrite fmap_cons. intros [Hs Hr]%StronglySorted_inv. simpl.
  fold (max_seq rs). rewrite IH, last_cons by done. destruct (last rs) as [l|] eqn:El; [|done].
  simpl. f_equal. rewrite Forall_fmap, Forall_forall in Hr.
  assert (seq r < seq l); [|lia]. apply Hr. by apply last_Some_elem_of.
Qed.

(** Reading back returns the rows added since, in order. *)
Lemma readBack_new rs new :
  StronglySorted Z.lt (seq <$> rs ++ new) → Forall (λ r, 0 < seq r) (rs ++ new) →
  readBack (rs ++ new) (startSeq rs) = new.
Proof.
  intros Hs Hpos.
  pose proof (readPage_slice (length (rs ++ new)) (rs ++ new) (rs ++ new) rs new
    ltac:(by split_and!) eq_refl) as Hp.
  unfold readPage in Hp. rewrite !firstn_all2 in Hp.
  - etrans; [|exact Hp]. unfold readBack, startSeq, after. rewrite max_seq_last.
    + by destruct (last rs).
    + rewrite fmap_app in Hs. by apply StronglySorted_app_1_l in Hs.
  - rewrite length_app. lia.
  - rewrite merge_sort_Permutation. apply length_filter.
Qed.

(** The head the probe starts from is the last row it found. *)
Lemma expected_prev_head rs rest :
  StronglySorted Z.lt (seq <$> rs ++ rest) → Forall (λ r, 0 < seq r) rs →
  expected_prev (startSeq rs) (rs ++ rest) = Some (head_hash GENESIS_HASH rs).
Proof.
  intros Hs Hpos. unfold expected_prev, startSeq, head_hash.
  assert (Hs' : StronglySorted Z.lt (seq <$> rs)).
  { rewrite fmap_app in Hs. by apply StronglySorted_app_1_l in Hs. }
  rewrite max_seq_last by done. destruct (last rs) as [l|] eqn:El; [|done]. simpl.
  apply last_Some in El as [pre ->].
  apply Forall_app in Hpos as [_ Hl]. apply Forall_cons in Hl as [Hl _].
  rewrite (proj2 (Z.eqb_neq _ _)) by lia. rewrite <- app_assoc. simpl.
  assert (Hpre : ∀ r, r ∈ pre → seq r < seq l).
  { intros r Hr. rewrite <- app_assoc in Hs. by eapply (sorted_before pre l). }
  clear -Hpre. induction pre as [|r pre IH]; simpl; [by rewrite Z.eqb_refl|].
  rewrite (proj2 (Z.eqb_neq _ _)) by (specialize (Hpre r ltac:(set_solver)); lia).
  apply IH. intros r' Hr'. apply Hpre. set_solver.
Qed.

(** Writers that take the lock pass: whatever the interleaving of the
    statements of the probe's appends and of everybody else's, if each append
    that was answered had committed and none was refused, the probe exits 0,
    however many rows the others added and whenever it reads. *)
Theorem contention_passes tr0 tr1 tr2 s0 s1 s2 ps results :
  run tr0 empty_db = Some s0 → run tr1 s0 = Some s1 → run tr2 s1 = Some s2 →
  Forall writer_label (tr0 ++ tr1 ++ tr2) →
  NoDup ps → ps ≠ [] → Forall2 (λ p r, is_Some (to_option r) ∧ Commit p ∈ tr1) ps results →
  contention_exit (contention (Z.of_nat (length ps)) results (rows s0) (rows s1) (rows s2)) = 0.
Proof.
  intros R0 R1 R2 [Hw0 [Hw1 Hw2]%Forall_app]%Forall_app Hnd Hne Hres.
  destruct (run_empty tr0 s0 R0 Hw0) as [Hi0 _].
  pose proof (run_writer _ _ _ R1 Hw1 Hi0) as Hi1. pose proof (run_writer _ _ _ R2 Hw2 Hi1) as Hi2.
  pose proof (positive_run _ _ _ R0 Hw0 empty_positive) as Hp0.
  pose proof (positive_run _ _ _ R1 Hw1 Hp0) as Hp1.
  pose proof (run_commits _ _ _ R1 Hw1) as Hlen.
  destruct (run_prefix _ _ _ R1) as [new Hr1]. destruct (run_prefix _ _ _ R2) as [rest Hr2].
  assert (Hcount : (length ps ≤ length new)%nat).
  { rewrite Hr1, length_app in Hlen.
    assert (length ps ≤ length (List.filter is_commit tr1))%nat; [|lia].
    apply commits_counted; [done|]. intros p Hp. apply list_elem_of_lookup in Hp as [i Hi].
    destruct (Forall2_lookup_l _ _ _ _ _ Hres Hi) as (r & _ & _ & Hin). done. }
  assert (Hexp : expected_prev (startSeq (rows s0)) (rows s2) = Some (head_hash GENESIS_HASH (rows s0))).
  { rewrite Hr2, Hr1, <- app_assoc. apply expected_prev_head; [|apply Hp0].
    rewrite app_assoc, <- Hr1, <- Hr2. apply Hi2. }
  apply (contention_exact _ _ _ _ _ _ Hexp).
  { by apply chain_ok_head_width, Hi0. }
  assert (Hread : readBack (rows s1) (startSeq (rows s0)) = new).
  { rewrite Hr1. apply readBack_new; rewrite <- Hr1; [apply Hi1|apply Hp1]. }
  rewrite Hread. split_and!.
  - clear -Hres. induction Hres as [|p r ps results [Hr _] _ IH]; by constructor.
  - lia.
  - destruct new; [|done]. destruct ps; [done|]. simpl in Hcount. lia.
  - pose proof (wi_chain s1 Hi1) as Hc. rewrite Hr1 in Hc. by apply chain_ok_app in Hc as [_ Hc].
Qed.

(** Why the probe counts unique violations: among writers that take the lock
    there are none. A transaction about to insert, whatever was interleaved
    before, proposes a row that no unique index refuses, committed rows and
    rows in flight alike, unless digests collide. *)
Theorem lock_prevents_violations tr s p now_at ev prev :
  run tr empty_db = Some s → Forall writer_label tr →
  txs s !! p = Some {| tx_now := now_at; tx_event := ev; tx_phase := HeadRead prev |} →
  event_ck ev = true →
  (∀ r, new_row now_at ev prev (next_seq s) = Ok r →
     collision_free (hash_input <$> (rows s ++ [r])) ∧
     no_genesis_preimage (hash_input <$> (rows s ++ [r]))) →
  ∃ r s', new_row now_at ev prev (next_seq s) = Ok r ∧
    row_unique (rows s) r = true ∧ row_unique (pending s) r = true ∧
    db_step (Insert p) s = Some s' ∧
    txs s' !! p = Some {| tx_now := now_at; tx_event := ev; tx_phase := Inserted r |}.
Proof.
  intros Hr Hw Hp Hck Hcol. destruct (run_empty tr s Hr Hw) as [Hinv _].
  destruct (wi_tx s Hinv p _ Hp) as [Hwf Hprev]. simpl in Hwf, Hprev.
  assert (Hsame : new_row now_at ev prev (next_seq s) =
                  new_row now_at ev (hash <$> head_row (rows s)) (next_seq s)).
  { unfold new_row. by rewrite Hprev, head_default by apply Hinv. }
  destruct (proposal_accepted s now_at ev Hinv Hwf Hck) as (r & Hnew & _ & _ & _ & Hrow & Huniq & _).
  { intros r. rewrite <- Hsame. apply Hcol. }
  pose proof (no_pending s p _ Hinv Hp ltac:(done) ltac:(done)) as Hpend.
  rewrite <- Hsame in Hnew. eexists r, _. split_and!; [done|done|by rewrite Hpend| |].
  - simpl. rewrite Hp, Hnew, Hpend, Hrow, Huniq. simpl. done.
  - simpl. apply lookup_insert_eq.
Qed.
End contention.

(** ** The probe at work *)

Module ContentionSample.
#[export] Existing Instance WriterSample.by_length.
#[export] Existing Instance Sample.toy.

Definition concurrent_event (i : string) : AppendAuditEvent :=
  {| ev_action := "probe.concurrent"; ev_actorType := actor_system; ev_actorId := Some ("probe-" +:+ i);
     ev_resourceType := None; ev_resourceId := None; ev_traceId := None; ev_sourceIp := None;
     ev_metadata := Some [("index", i)] |}.

(** Two appends of the probe and a login between their statements. *)
Definition storm : list label :=
  [ Begin 7 WriterSample.t1 (concurrent_event "0"); Begin 8 WriterSample.t2 (concurrent_event "1");
    Begin 9 WriterSample.t3 WriterSample.failed; Lock 8; ReadHead 8; Insert 8; Commit 8; Lock 9;
    ReadHead 9; Insert 9; Commit 9; Lock 7; ReadHead 7; Insert 7; Commit 7 ].
Definition before : audit_db := WriterSample.final.
Definition after_ : audit_db := default before (run storm before).
Definition answered : list (result string AppendedAuditEvent) :=
  Ok ∘ appended <$> firstn 2 (rows after_).

Lemma storm_writer : Forall writer_label storm.
Proof.
  unfold storm. repeat (apply Forall_cons; split; [first [exact I | compute_decide]|]). constructor.
Qed.

Lemma answered_all : ∃ a b, answered = [Ok a; Ok b].
Proof. eexists _, _. vm_compute. reflexivity. Qed.

(** Code that reads the head without the lock: the index stops the second row. *)
Definition unlocked : string :=
  "duplicate key value violates unique constraint audit_events_prev_hash_unique".
End ContentionSample.
Import ContentionSample.

Lemma contention_exact_witness :
  contention_exit (contention 2 answered (rows before) (rows after_) (rows after_)) = 0.
Proof.
  apply (contention_exact 2 answered (rows before) (rows after_) (rows after_)
           (head_hash GENESIS_HASH (rows before))).
  - vm_compute. reflexivity.
  - vm_compute. reflexivity.
  - split_and!.
    + destruct answered_all as (a & b & ->). repeat constructor; by eexists.
    + vm_compute. discriminate.
    + vm_compute. discriminate.
    + refine (proj1 (proj1 (verify_spec _ _ _)) _); vm_compute; reflexivity.
Defined.

Lemma contention_passes_witness :
  contention_exit (contention 2 answered (rows before) (rows after_) (rows after_)) = 0.
Proof.
  apply (contention_passes WriterSample.trace storm [] before after_ after_ [7; 8]%nat answered).
  - apply WriterSample.trace_runs.
  - vm_compute. reflexivity.
  - reflexivity.
  - rewrite app_nil_r. apply Forall_app. split; [apply WriterSample.trace_writer|apply storm_writer].
  - compute_decide.
  - done.
  - destruct answered_all as (a & b & ->). repeat constructor; try (by eexists); compute_decide.
Defined.

Lemma lock_prevents_violations_witness :
  ∃ r s', new_row WriterSample.t2 (concurrent_event "1") None 1 = Ok r ∧
    db_step (Insert 8) (default empty_db (run [Begin 7 WriterSample.t1 (concurrent_event "0");
      Begin 8 WriterSample.t2 (concurrent_event "1"); Lock 8; ReadHead 8] empty_db)) = Some s'.
Proof.
  edestruct (lock_prevents_violations [Begin 7 WriterSample.t1 (concurrent_event "0");
      Begin 8 WriterSample.t2 (concurrent_event "1"); Lock 8; ReadHead 8]
    (default empty_db (run [Begin 7 WriterSample.t1 (concurrent_event "0");
      Begin 8 WriterSample.t2 (concurrent_event "1"); Lock 8; ReadHead 8] empty_db))
    8%nat WriterSample.t2 (concurrent_event "1") None) as (r & s' & Hr & _ & _ & Hs & _).
  - vm_compute. reflexivity.
  - repeat (apply Forall_cons; split; [first [exact I | compute_decide]|]). constructor.
  - vm_compute. reflexivity.
  - reflexivity.
  - intros r Hr. vm_compute in Hr. injection Hr as <-. split.
    + apply Sample.collision_freeb_ok. vm_compute. reflexivity.
    + apply Sample.no_genesisb_ok. vm_compute. reflexivity.
  - exists r, s'. split; [exact Hr|exact Hs].
Defined.

(** A retried violation, and a run in which nothing landed, are failures. *)
Example violation_is_counted :
  isUnique unlocked = true ∧
  contention_exit (contention 1 [Throw unlocked] (rows before) (rows after_) (rows after_)) = 1.
Proof. split; vm_compute; reflexivity. Qed.

Example nothing_landed_is_no_pass :
  contention 2 [Throw "timeout"; Throw "timeout"] (rows before) (rows before) (rows before)
  = Some [(NoUniqueViolation, true); (AllSucceeded, false); (AllLanded, false); (Linked, false)].
Proof. vm_compute. reflexivity. Qed.

Example number_of_appends :
  readAppends (λ _, Some 5) ["node"; "probe"; "--appends"; "5"] = Ok 5 ∧
  readAppends (λ _, None) ["node"; "probe"; "--appends"; "abc"] = Throw BadAppends ∧
  readAppends (λ _, Some 5) ["node"; "probe"; "--appends"] = Throw AppendsWithoutValue.
Proof. by repeat split. Qed.

(** The inline form is not read: the default is used without a word. *)
Lemma inline_appends_ignored v number :
  readAppends number ["node"; "probe"; "--appends=" +:+ v] = Ok 50.
Proof. done. Qed.
