(* ===== verification/ProvisioningProbe.v ===== *)
(** Proving that provisioning resumes what an interrupted run left behind:
    packages/db/src/tenants/provisioning-probe.ts on the provisioning steps of
    ConnectionManager.

    A scenario writes the state a run that stopped would have left, calls
    provisionTenant as the service does, and checks what became of it. The
    scenarios are written in a small monad: the deployment, the slugs handed out
    and the checks made so far, with exceptions. *)
From S2P Require Import Prelude Domain AuditHash Cli ConnectionManager.
#[local] Open Scope Z_scope.

Inductive prov_check :=
  | FreshActive | FreshMarked | NoDb | EmptyDb | BuiltNotActive | MarkedForeign | Leftover | Rename
  | LockedRefused | LockedReleased | Race | Finished | Stopped.

Record probe_state := {
  deployment : prov_state;
  made : list string;                      (* a Set, in insertion order *)
  log : list (prov_check * bool);
}.

Definition probeM (A : Type) : Type := probe_state → result exn A * probe_state.
#[export] Instance probe_ret : MRet probeM := λ A a s, (Ok a, s).
#[export] Instance probe_bind : MBind probeM := λ A B k m s,
  match m s with (Ok a, s') => k a s' | (Throw e, s') => (Throw e, s') end.

Definition lift {A} (r : result exn A) : probeM A := λ s, (r, s).

Record RbacCounts := { adminRoles : nat; rbac_permissions : nat; grants : nat }.

Section probe.
Context `{Sha256}.

(** ** Calls *)

(** The statement a run comes to next. [id] is what gen_random_uuid() would give. *)
Definition next_statement (p : nat) (id : string) (r : prov_run) : prov_label :=
  match pr_phase r with
  | Requested => TryLock p
  | LockHeld => Register p id
  | Registered _ _ => CreateDb p
  | DatabaseReady _ _ => Initialize p
  | Built _ _ => Activate p
  end.

Definition advance (p : nat) (id : string) (s : prov_state) : prov_state :=
  match runs s !! p with
  | Some r => default s (prov_step (next_statement p id r) s)
  | None => s
  end.

Definition request_call (p : nat) (input : ProvisionTenantInput) (s : prov_state) : prov_state :=
  default s (prov_step (Request p input) s).

(** What call [p] was last answered. *)
Definition answer_of (p : nat) (s : prov_state) : M ProvisionedTenant :=
  match last (filter (λ a : nat * M ProvisionedTenant, a.1 = p) (answers s)) with
  | Some (_, a) => a
  | None => Throw (EError "unanswered")
  end.

(** [cm.provisionTenant(input)], awaited: its statements with nothing between them. *)
Definition provisionTenant (p : nat) (input : ProvisionTenantInput) (id : string) (s : prov_state)
    : M ProvisionedTenant * prov_state :=
  let s' := Nat.iter 5 (advance p id) (request_call p input s) in
  (answer_of p s', s').

(** Two calls at once: their statements in any order, until both have settled. *)
Definition settle_both (schedule : list bool) (input : ProvisionTenantInput) (id0 id1 : string)
    (s : prov_state) : prov_state :=
  let s1 := request_call 1 input (request_call 0 input s) in
  let s2 := foldl (λ s (b : bool), if b then advance 0 id0 s else advance 1 id1 s) s1 schedule in
  Nat.iter 5 (advance 1 id1) (Nat.iter 5 (advance 0 id0) s2).

(** ** The probe's own statements *)

Definition with_deployment (f : prov_state → prov_state) (s : probe_state) : probe_state :=
  {| deployment := f (deployment s); made := made s; log := log s |}.

Definition with_registry (rs : list TenantRecord) (s : prov_state) : prov_state :=
  {| registry := rs; cluster := cluster s; held := held s; runs := runs s; answers := answers s |}.
Definition with_cluster (dbs : gmap string Database) (s : prov_state) : prov_state :=
  {| registry := registry s; cluster := dbs; held := held s; runs := runs s; answers := answers s |}.
Definition with_held (h : gmap (Z * Z) nat) (s : prov_state) : prov_state :=
  {| registry := registry s; cluster := cluster s; held := h; runs := runs s; answers := answers s |}.

Definition check (ok : bool) (label : prov_check) : probeM () := λ s,
  (Ok (), {| deployment := deployment s; made := made s; log := log s ++ [(label, ok)] |}).

Definition slug_for (run scenario : string) : string := "resume-" +:+ scenario +:+ "-" +:+ run.

Definition slugFor (run scenario : string) : probeM string := λ s,
  let slug := slug_for run scenario in
  (Ok slug, {| deployment := deployment s;
               made := if bool_decide (slug ∈ made s) then made s else made s ++ [slug]; log := log s |}).

(** A row as provisionTenant writes it first; a duplicate is a unique violation. *)
Definition stageRow (id slug name : string) : probeM string := λ s,
  match tenantDatabaseName slug with
  | Throw e => (Throw e, s)
  | Ok db =>
      let rs := registry (deployment s) in
      if bool_decide (slug ∈ row_slug <$> rs) || bool_decide (db ∈ row_databaseName <$> rs)
      then (Throw (EPg "23505"), s)
      else (Ok id, with_deployment (with_registry (rs ++
              [{| row_id := id; row_slug := slug; row_name := name; row_databaseName := db;
                  row_status := provisioning |}])) s)
  end.

Definition rowOf (slug : string) : probeM (option TenantRecord) := λ s,
  (Ok (find_slug slug (registry (deployment s))), s).

(** [UPDATE tenants SET status = 'provisioning' WHERE id = $1] *)
Definition unactivate (id : string) : probeM () := λ s,
  (Ok (), with_deployment (with_registry
     ((λ r, if String.eqb (row_id r) id
            then {| row_id := row_id r; row_slug := row_slug r; row_name := row_name r;
                    row_databaseName := row_databaseName r; row_status := provisioning |}
            else r) <$> registry (deployment s))) s).

Definition create_database (db : string) : probeM () := λ s,
  match cluster (deployment s) !! db with
  | Some _ => (Throw (EPg "42P04"), s)
  | None => (Ok (), with_deployment (with_cluster (<[db := fresh_database]> (cluster (deployment s)))) s)
  end.

Definition databaseExists (db : string) : probeM bool := λ s,
  (Ok (bool_decide (is_Some (cluster (deployment s) !! db))), s).

Definition markerOf (db : string) : probeM (option string) := λ s,
  (Ok (cluster (deployment s) !! db ≫= comment), s).

(** [inDatabase]: a connection to one database, which must exist. *)
Definition inDatabase {A} (db : string) (fn : Database → result exn (A * Database)) : probeM A := λ s,
  match cluster (deployment s) !! db with
  | None => (Throw (EPg "3D000"), s)
  | Some d =>
      match fn d with
      | Throw e => (Throw e, s)
      | Ok (a, d') => (Ok a, with_deployment (with_cluster (<[db := d']> (cluster (deployment s)))) s)
      end
  end.

(** Statements on the tenant tables fail where there are none. *)
Definition on_tables {A} (fn : Schema → A * Schema) (d : Database) : result exn (A * Database) :=
  match tables d with
  | None => Throw (EPg "42P01")
  | Some t => let '(a, t') := fn t in
              Ok (a, {| comment := comment d; tables := Some t'; foreign_rows := foreign_rows d |})
  end.

Definition count_role (name : string) (t : Schema) : nat :=
  length (List.filter (λ r, String.eqb r.1 name) (roles_seeded t)).

Definition rbacOf (db : string) : probeM RbacCounts :=
  inDatabase db (on_tables (λ t,
    ({| adminRoles := count_role TENANT_ADMIN_ROLE_NAME t;
        rbac_permissions := length (permissions_seeded t); grants := length (grants_seeded t) |}, t))).

Definition builtOnce (rbac : RbacCounts) : bool :=
  Nat.eqb (adminRoles rbac) 1 && Nat.eqb (rbac_permissions rbac) (length DEFAULT_PERMISSIONS) &&
  Nat.eqb (grants rbac) (length DEFAULT_PERMISSIONS).

(** [INSERT INTO roles (name, description)] and the count of a role. *)
Definition insert_role (name description : string) : Schema → () * Schema := λ t,
  ((), {| append_only := append_only t; permissions_seeded := permissions_seeded t;
          roles_seeded := roles_seeded t ++ [(name, description)]; grants_seeded := grants_seeded t |}).

(** Await a call; its rejection is thrown. *)
Definition provision_call (input : ProvisionTenantInput) (id : string) : probeM ProvisionedTenant := λ s,
  let '(a, d) := provisionTenant 0 input id (deployment s) in (a, with_deployment (λ _, d) s).

Definition rejectionOf {A} (m : probeM A) : probeM (option exn) := λ s,
  match m s with (Ok _, s') => (Ok None, s') | (Throw e, s') => (Ok (Some e), s') end.

Definition is_conflict (e : option exn) : bool :=
  match e with Some (ETenantDatabaseConflict _ _) => true | _ => false end.
Definition already_exists (e : option exn) : bool :=
  match e with Some (EDomain (TenantAlreadyExistsError _)) => true | _ => false end.
Definition in_progress (e : option exn) : bool :=
  match e with Some (EDomain (TenantProvisioningInProgressError _)) => true | _ => false end.

Definition is_active (r : ProvisionedTenant) : bool :=
  bool_decide (tenant_status (prov_tenant r) = active).
Definition still_provisioning (row : option TenantRecord) : bool :=
  match row with Some r => bool_decide (row_status r = provisioning) | None => false end.

(** The statement of another session: pg_advisory_lock, and its end. *)
Definition holder : nat := 2.
Definition hold_lock (db : string) : probeM () := λ s,
  match held (deployment s) !! provisioningLockKeys db with
  | Some _ => (Throw (EError "waiting"), s)
  | None => (Ok (), with_deployment (λ d, with_held (<[provisioningLockKeys db := holder]> (held d)) d) s)
  end.
Definition end_session : probeM () := λ s,
  (Ok (), with_deployment (λ d, with_held (release holder (held d)) d) s).

(** [COMMENT ON DATABASE] *)
Definition comment_on (db marker : string) : probeM () :=
  inDatabase db (λ d, Ok ((), {| comment := Some marker; tables := tables d; foreign_rows := foreign_rows d |})).

(** tenant-schema.sql, without the catalogue, the triggers or the marker. *)
Definition ddl_schema : Schema :=
  {| append_only := false; permissions_seeded := []; roles_seeded := []; grants_seeded := [] |}.
Definition apply_ddl (d : Database) : result exn (() * Database) :=
  match tables d with
  | Some _ => Throw (EPg "42P07")
  | None => Ok ((), {| comment := comment d; tables := Some ddl_schema; foreign_rows := foreign_rows d |})
  end.

(** ** The scenarios *)

Section scenarios.
Variables (run : string) (uuid : nat → string) (schedule : list bool).
#[local] Abbreviation tdb slug := (lift (tenantDatabaseName slug)) (only parsing).
#[local] Abbreviation call slug name := {| in_slug := slug; in_name := name |} (only parsing).

Definition first_provisioning : probeM string :=
  fresh ← slugFor run "fresh";
  first ← provision_call (call fresh "Probe fresh") (uuid 0);
  _ ← check (is_active first && negb (prov_resumed first)) FreshActive;
  db ← tdb fresh;
  firstMarker ← markerOf db;
  _ ← check (bool_decide (firstMarker = Some (tenantDatabaseMarker (tenant_id (prov_tenant first))))) FreshMarked;
  mret fresh.

(** A retry that finished what the row [id] began. *)
Definition finished_for (id : string) (result : ProvisionedTenant) : bool :=
  prov_resumed result && bool_decide (tenant_id (prov_tenant result) = id) && is_active result.

Definition stopped_after_registering : probeM () :=
  slug ← slugFor run "nodb";
  id ← stageRow (uuid 1) slug "Probe nodb";
  result ← provision_call (call slug "Probe nodb") (uuid 11);
  db ← tdb slug;
  rbac ← rbacOf db;
  marker ← markerOf db;
  check (finished_for id result && bool_decide (marker = Some (tenantDatabaseMarker id)) && builtOnce rbac) NoDb.

Definition stopped_after_create : probeM () :=
  slug ← slugFor run "emptydb";
  id ← stageRow (uuid 2) slug "Probe emptydb";
  db ← tdb slug;
  _ ← create_database db;
  result ← provision_call (call slug "Probe emptydb") (uuid 11);
  rbac ← rbacOf db;
  marker ← markerOf db;
  check (finished_for id result && bool_decide (marker = Some (tenantDatabaseMarker id)) && builtOnce rbac) EmptyDb.

Definition lost_status_update : probeM () :=
  slug ← slugFor run "built";
  databaseName ← tdb slug;
  built ← provision_call (call slug "Probe built") (uuid 3);
  _ ← unactivate (tenant_id (prov_tenant built));
  _ ← inDatabase databaseName (on_tables (insert_role "probe-sentinel" "kept"));
  result ← provision_call (call slug "Probe built") (uuid 11);
  rbac ← rbacOf databaseName;
  sentinel ← inDatabase databaseName (on_tables (λ t, (count_role "probe-sentinel" t, t)));
  check (finished_for (tenant_id (prov_tenant built)) result && builtOnce rbac && Nat.eqb sentinel 1) BuiltNotActive.

Definition marked_for_another : probeM () :=
  slug ← slugFor run "marked";
  databaseName ← tdb slug;
  _ ← stageRow (uuid 4) slug "Probe marked";
  _ ← create_database databaseName;
  let foreignMarker := tenantDatabaseMarker (uuid 5) in
  _ ← comment_on databaseName foreignMarker;
  _ ← inDatabase databaseName (λ d, Ok ((), {| comment := comment d; tables := tables d;
        foreign_rows := foreign_rows d ++ ["another tenant's data"] |}));
  err ← rejectionOf (provision_call (call slug "Probe marked") (uuid 11));
  row ← rowOf slug;
  markerAfter ← markerOf databaseName;
  untouched ← inDatabase databaseName (λ d, Ok ((length (foreign_rows d), tables d), d));
  check (is_conflict err && still_provisioning row && bool_decide (markerAfter = Some foreignMarker) &&
         Nat.eqb untouched.1 1 && negb (bool_decide (is_Some untouched.2))) MarkedForeign.

Definition leftover_schema : probeM () :=
  slug ← slugFor run "leftover";
  databaseName ← tdb slug;
  _ ← stageRow (uuid 6) slug "Probe leftover";
  _ ← create_database databaseName;
  _ ← inDatabase databaseName apply_ddl;
  _ ← inDatabase databaseName (on_tables (insert_role "leftover-role" "the previous tenant's"));
  err ← rejectionOf (provision_call (call slug "Probe leftover") (uuid 11));
  row ← rowOf slug;
  markerAfter ← markerOf databaseName;
  untouched ← inDatabase databaseName (on_tables (λ t,
    ((count_role "leftover-role" t, count_role TENANT_ADMIN_ROLE_NAME t), t)));
  check (is_conflict err && still_provisioning row && bool_decide (markerAfter = None) &&
         Nat.eqb untouched.1 1 && Nat.eqb untouched.2 0) Leftover.

Definition different_name : probeM () :=
  slug ← slugFor run "rename";
  _ ← stageRow (uuid 7) slug "Probe original name";
  err ← rejectionOf (provision_call (call slug "Probe other name") (uuid 11));
  row ← rowOf slug;
  db ← tdb slug;
  exists_ ← databaseExists db;
  check (already_exists err && still_provisioning row &&
         bool_decide (row_name <$> row = Some "Probe original name") && negb exists_) Rename.

Definition lock_held_elsewhere : probeM () :=
  slug ← slugFor run "locked";
  databaseName ← tdb slug;
  _ ← stageRow (uuid 8) slug "Probe locked";
  _ ← hold_lock databaseName;
  err ← rejectionOf (provision_call (call slug "Probe locked") (uuid 11));
  exists_ ← databaseExists databaseName;
  row ← rowOf slug;
  _ ← check (in_progress err && still_provisioning row && negb exists_) LockedRefused;
  _ ← end_session;
  result ← provision_call (call slug "Probe locked") (uuid 11);
  check (prov_resumed result && is_active result) LockedReleased.

Definition fulfilled (a : M ProvisionedTenant) : bool := match a with Ok _ => true | Throw _ => false end.
Definition lost_cleanly (a : M ProvisionedTenant) : bool :=
  match a with Ok _ => true | Throw e => in_progress (Some e) || already_exists (Some e) end.

Definition two_at_once : probeM () :=
  slug ← slugFor run "race";
  outcomes ← (λ s, let d := settle_both schedule (call slug "Probe race") (uuid 9) (uuid 10) (deployment s) in
                   (Ok [answer_of 0 d; answer_of 1 d], with_deployment (λ _, d) s)) : probeM (list (M ProvisionedTenant));
  db ← tdb slug;
  rbac ← rbacOf db;
  check (Nat.eqb (length (List.filter fulfilled outcomes)) 1 && forallb lost_cleanly outcomes &&
         builtOnce rbac) Race.

Definition finished_is_final (fresh : string) : probeM () :=
  err ← rejectionOf (provision_call (call fresh "Probe fresh") (uuid 11));
  check (already_exists err) Finished.

Definition scenarios : list (probeM ()) :=
  [stopped_after_registering; stopped_after_create; lost_status_update; marked_for_another; leftover_schema;
   different_name; lock_held_elsewhere; two_at_once].

Definition body : probeM () :=
  fresh ← first_provisioning;
  _ ← foldr (λ m k, _ ← m; k) (mret ()) scenarios;
  finished_is_final fresh.

(** ** Cleaning up *)

(** DROP DATABASE IF EXISTS and DELETE FROM tenants, for every slug handed out. *)
Definition remove (slug : string) (s : prov_state) : prov_state :=
  match tenantDatabaseName slug with
  | Throw _ => s
  | Ok db => with_registry (filter (λ r, row_slug r ≠ slug) (registry s))
               (with_cluster (delete db (cluster s)) s)
  end.

(** [main]: the body, a failed check for an exception that stopped it, and the
    removal of everything made, whatever happened. *)
Definition provisioning_probe (s : prov_state) : list (prov_check * bool) * prov_state :=
  let '(r, ps) := body {| deployment := s; made := []; log := [] |} in
  (log ps ++ match r with Ok _ => [] | Throw _ => [(Stopped, false)] end,
   foldl (λ s slug, remove slug s) (deployment ps) (made ps)).
End scenarios.

(** ** A call that nobody interrupts is the text of provisionTenant *)

Definition provision_alone (input : ProvisionTenantInput) (id : string) (rs : list TenantRecord)
    (dbs : gmap string Database) : M ProvisionedTenant * list TenantRecord * gmap string Database :=
  match tenantDatabaseName (in_slug input) with
  | Throw e => (Throw e, rs, dbs)
  | Ok databaseName =>
      match registerOrResume id input databaseName rs with
      | Throw e => (Throw e, rs, dbs)
      | Ok (rs1, row, resumed) =>
          let dbs1 := createDatabase databaseName dbs in
          match initializeTenantDatabase databaseName (row_id row) dbs1 with
          | Throw e => (Throw e, rs1, dbs1)
          | Ok dbs2 =>
              match activate_row (row_id row) rs1 with
              | Throw e => (Throw e, rs1, dbs2)
              | Ok (rs2, active_row) =>
                  (Ok {| prov_tenant := toTenant active_row; prov_resumed := resumed |}, rs2, dbs2)
              end
          end
      end
  end.

(** A deployment in which no run is in progress. *)
Definition idle (rs : list TenantRecord) (dbs : gmap string Database) ans : prov_state :=
  {| registry := rs; cluster := dbs; held := ∅; runs := ∅; answers := ans |}.

Lemma release_own p k : release p (<[k := p]> ∅) = ∅.
Proof.
  unfold release. apply map_empty. intros k'. apply map_lookup_filter_None. right.
  intros q Hq. destruct (decide (k = k')) as [->|]; simplify_map_eq. naive_solver.
Qed.

Lemma release_other p q k : p ≠ q → release p (<[k := q]> ∅) = <[k := q]> ∅.
Proof.
  intros Hne. unfold release. apply map_filter_id. intros k' q' [[_ <-]|[_ Hl]]%lookup_insert_Some; [done|].
  by rewrite lookup_empty in Hl.
Qed.

Lemma release_none p : release p ∅ = ∅.
Proof. unfold release. apply map_filter_empty. Qed.

Lemma finish_alone p r a rs dbs k ans :
  finish p a {| registry := rs; cluster := dbs; held := <[k := p]> ∅; runs := {[p := r]}; answers := ans |}
  = idle rs dbs (ans ++ [(p, a)]).
Proof. unfold finish, idle. simpl. by rewrite release_own, delete_singleton_eq. Qed.

Lemma advance_idle p id rs dbs ans : advance p id (idle rs dbs ans) = idle rs dbs ans.
Proof. done. Qed.

Lemma answer_last p a rs dbs ans : answer_of p (idle rs dbs (ans ++ [(p, a)])) = a.
Proof.
  unfold answer_of. simpl. rewrite filter_app, filter_cons_True, filter_nil by done. by rewrite last_snoc.
Qed.

(** A deployment in which only run [p] is in progress. *)
Definition working (p : nat) (rs : list TenantRecord) (dbs : gmap string Database) (h : gmap (Z * Z) nat)
    (input : ProvisionTenantInput) (db : string) (ph : prov_phase) ans : prov_state :=
  {| registry := rs; cluster := dbs; held := h;
     runs := {[p := {| pr_input := input; pr_db := db; pr_phase := ph |}]}; answers := ans |}.

Section alone.
Context (p : nat) (id : string) (input : ProvisionTenantInput) (db : string)
  (ans : list (nat * M ProvisionedTenant)).
#[local] Abbreviation mine := (<[provisioningLockKeys db := p]> (∅ : gmap (Z * Z) nat)) (only parsing).
#[local] Ltac one_step :=
  unfold advance, working; cbn [runs]; rewrite lookup_singleton_eq;
  cbn [next_statement pr_phase prov_step runs]; rewrite lookup_singleton_eq; cbn.

Lemma advance_lock rs dbs :
  advance p id (working p rs dbs ∅ input db Requested ans) = working p rs dbs mine input db LockHeld ans.
Proof. one_step. by rewrite lookup_empty, insert_singleton_eq. Qed.

Lemma advance_register rs dbs :
  advance p id (working p rs dbs mine input db LockHeld ans) =
    match registerOrResume id input db rs with
    | Throw e => idle rs dbs (ans ++ [(p, Throw e)])
    | Ok (rs', row, resumed) => working p rs' dbs mine input db (Registered row resumed) ans
    end.
Proof.
  one_step. destruct (registerOrResume id input db rs) as [[[rs' row] resumed]|e]; cbn.
  - by rewrite insert_singleton_eq.
  - apply finish_alone.
Qed.

Lemma advance_create rs dbs row resumed :
  advance p id (working p rs dbs mine input db (Registered row resumed) ans) =
    working p rs (createDatabase db dbs) mine input db (DatabaseReady row resumed) ans.
Proof. one_step. by rewrite insert_singleton_eq. Qed.

Lemma advance_initialize rs dbs row resumed :
  advance p id (working p rs dbs mine input db (DatabaseReady row resumed) ans) =
    match initializeTenantDatabase db (row_id row) dbs with
    | Throw e => idle rs dbs (ans ++ [(p, Throw e)])
    | Ok dbs' => working p rs dbs' mine input db (Built row resumed) ans
    end.
Proof.
  one_step. destruct (initializeTenantDatabase db (row_id row) dbs); cbn.
  - by rewrite insert_singleton_eq.
  - apply finish_alone.
Qed.

Lemma advance_activate rs dbs row resumed :
  advance p id (working p rs dbs mine input db (Built row resumed) ans) =
    match activate_row (row_id row) rs with
    | Throw e => idle rs dbs (ans ++ [(p, Throw e)])
    | Ok (rs', row') =>
        idle rs' dbs (ans ++ [(p, Ok {| prov_tenant := toTenant row'; prov_resumed := resumed |})])
    end.
Proof.
  one_step. destruct (activate_row (row_id row) rs) as [[rs' row']|e]; cbn; apply finish_alone.
Qed.
End alone.

Lemma iter_zero {A} (f : A → A) x : Nat.iter 0 f x = x.
Proof. done. Qed.
Lemma iter_succ {A} (f : A → A) n x : Nat.iter (S n) f x = Nat.iter n f (f x).
Proof. induction n as [|n IH]; [done|]. simpl in *. by rewrite IH. Qed.

Lemma provisionTenant_is_text p input id rs dbs ans :
  provisionTenant p input id (idle rs dbs ans) =
    let '(a, rs', dbs') := provision_alone input id rs dbs in (a, idle rs' dbs' (ans ++ [(p, a)])).
Proof.
  unfold provisionTenant, provision_alone, request_call. cbn [prov_step idle runs]. rewrite lookup_empty.
  rewrite !iter_succ, !iter_zero.
  destruct (tenantDatabaseName (in_slug input)) as [db|e]; cbn [from_option Datatypes.id]; cycle 1.
  { assert (finish p (Throw e) (idle rs dbs ans) = idle rs dbs (ans ++ [(p, Throw e)])) as ->.
    { unfold finish, idle. cbn [registry cluster held runs answers]. by rewrite release_none, delete_empty. }
    rewrite !advance_idle. by rewrite answer_last. }
  change (set_run p _ (idle rs dbs ans)) with (working p rs dbs ∅ input db Requested ans).
  rewrite advance_lock, advance_register.
  destruct (registerOrResume id input db rs) as [[[rs1 row] resumed]|e];
    [|rewrite !advance_idle; by rewrite answer_last].
  rewrite advance_create, advance_initialize.
  destruct (initializeTenantDatabase db (row_id row) _) as [dbs2|e];
    [|rewrite !advance_idle; by rewrite answer_last].
  rewrite advance_activate.
  destruct (activate_row (row_id row) rs1) as [[rs2 row']|e]; by rewrite answer_last.
Qed.

(** The steps of a call and the text of the code agree: a call that finds no
    other run at work answers and leaves behind exactly what the sequence of
    register, create, initialize and activate does, on every branch, and holds
    no lock afterwards. *)
Theorem provisionTenant_alone p input id rs dbs ans :
  provisionTenant p input id (idle rs dbs ans) =
    let '(a, rs', dbs') := provision_alone input id rs dbs in (a, idle rs' dbs' (ans ++ [(p, a)])).
Proof. apply provisionTenant_is_text. Qed.

(** ** What a call does to the last row of the registry *)

Definition row_with (st : TenantStatus) (id slug name db : string) : TenantRecord :=
  {| row_id := id; row_slug := slug; row_name := name; row_databaseName := db; row_status := st |}.

Lemma find_slug_absent slug rs : slug ∉ row_slug <$> rs → find_slug slug rs = None.
Proof.
  intros Hn. destruct (find_slug slug rs) as [r|] eqn:E; [|done].
  apply find_slug_Some in E as [Hin <-]. exfalso. apply Hn. by apply list_elem_of_fmap_2.
Qed.

Lemma find_slug_app slug rs rs' :
  find_slug slug (rs ++ rs') = match find_slug slug rs with Some r => Some r | None => find_slug slug rs' end.
Proof. unfold find_slug. induction rs as [|r rs IH]; simpl; [done|]. by destruct (String.eqb _ _). Qed.

Lemma find_slug_last slug rs st id name db :
  slug ∉ row_slug <$> rs → find_slug slug (rs ++ [row_with st id slug name db]) = Some (row_with st id slug name db).
Proof. intros Hn. rewrite find_slug_app, find_slug_absent by done. simpl. by rewrite String.eqb_refl. Qed.

Lemma map_last (f : TenantRecord → TenantRecord) id rs row :
  id ∉ row_id <$> rs → row_id row = id →
  (λ r, if String.eqb (row_id r) id then f r else r) <$> (rs ++ [row]) = rs ++ [f row].
Proof.
  intros Hn Hid. rewrite fmap_app. simpl. rewrite Hid, String.eqb_refl. f_equal.
  induction rs as [|r rs IH]; [done|]. rewrite fmap_cons in *. apply not_elem_of_cons in Hn as [Hne Hn].
  rewrite IH by done. destruct (String.eqb_spec (row_id r) id); [congruence|done].
Qed.

Lemma activate_last id slug name db rs :
  id ∉ row_id <$> rs →
  activate_row id (rs ++ [row_with provisioning id slug name db])
    = Ok (rs ++ [row_with active id slug name db], row_with active id slug name db).
Proof.
  intros Hn. unfold activate_row, find_id.
  assert (List.find (λ r, String.eqb (row_id r) id) (rs ++ [row_with provisioning id slug name db])
    = Some (row_with provisioning id slug name db)) as ->.
  { clear -Hn. induction rs as [|r rs IH]; simpl; [by rewrite String.eqb_refl|].
    rewrite fmap_cons in Hn. apply not_elem_of_cons in Hn as [Hne Hn].
    destruct (String.eqb_spec (row_id r) id); [congruence|by apply IH]. }
  do 2 f_equal. by rewrite (map_last (λ _, _)).
Qed.

Definition done_with (resumed : bool) (id slug name db : string) : ProvisionedTenant :=
  {| prov_tenant := toTenant (row_with active id slug name db); prov_resumed := resumed |}.

Lemma provision_new slug name id rs dbs db :
  tenantDatabaseName slug = Ok db → slug ∉ row_slug <$> rs → db ∉ row_databaseName <$> rs →
  dbs !! db = None → UUID id = true → id ∉ row_id <$> rs →
  provision_alone {| in_slug := slug; in_name := name |} id rs dbs =
    (Ok (done_with false id slug name db), rs ++ [row_with active id slug name db],
     <[db := {| comment := Some (tenantDatabaseMarker id); tables := Some tenant_schema; foreign_rows := [] |}]> dbs).
Proof.
  intros Hdb Hslug Hndb Hnone Hid Hnid. unfold provision_alone, registerOrResume. cbn [in_slug in_name].
  rewrite Hdb, find_slug_absent by done.
  assert (existsb (λ r, String.eqb (row_databaseName r) db) rs = false) as ->.
  { apply not_true_iff_false. intros (r & Hr & He)%existsb_exists. apply String.eqb_eq in He.
    apply Hndb. rewrite <- He. apply list_elem_of_fmap_2. by apply list_elem_of_In. }
  unfold initializeTenantDatabase, createDatabase. cbn [row_id]. rewrite (name_is_safe _ _ Hdb), Hid, Hnone.
  cbn [negb orb]. rewrite lookup_insert_eq. cbn [comment tables fresh_database foreign_rows].
  change {| row_id := id; row_slug := slug; row_name := name; row_databaseName := db; row_status := provisioning |}
    with (row_with provisioning id slug name db).
  rewrite activate_last by done. by rewrite insert_insert_eq.
Qed.

(** A retry of the request whose row is the last one. *)
Lemma provision_retry slug name id' id rs dbs db :
  tenantDatabaseName slug = Ok db → slug ∉ row_slug <$> rs → id ∉ row_id <$> rs →
  provision_alone {| in_slug := slug; in_name := name |} id' (rs ++ [row_with provisioning id slug name db]) dbs =
    match initializeTenantDatabase db id (createDatabase db dbs) with
    | Ok dbs' => (Ok (done_with true id slug name db), rs ++ [row_with active id slug name db], dbs')
    | Throw e => (Throw e, rs ++ [row_with provisioning id slug name db], createDatabase db dbs)
    end.
Proof.
  intros Hdb Hslug Hid. unfold provision_alone, registerOrResume. cbn [in_slug in_name].
  rewrite Hdb, find_slug_last by done. cbn [row_with row_status row_name row_databaseName row_id].
  rewrite !String.eqb_refl. cbn [negb orb]. rewrite bool_decide_true by done. cbn [negb orb throw_if].
  rewrite !mbind_rbind. cbn [rbind].
  change (row_id (row_with provisioning id slug name db)) with id.
  destruct (initializeTenantDatabase db id (createDatabase db dbs)); [|done].
  by rewrite activate_last.
Qed.

Lemma provision_other_name slug name name' st id' id rs dbs db :
  tenantDatabaseName slug = Ok db → slug ∉ row_slug <$> rs → (st ≠ provisioning ∨ name ≠ name') →
  ∀ rs', provision_alone {| in_slug := slug; in_name := name |} id' (rs ++ row_with st id slug name' db :: rs') dbs =
    (Throw (EDomain (TenantAlreadyExistsError slug)), rs ++ row_with st id slug name' db :: rs', dbs).
Proof.
  intros Hdb Hslug Hne rs'. unfold provision_alone, registerOrResume. cbn [in_slug in_name].
  rewrite Hdb, find_slug_app, find_slug_absent by done. cbn. rewrite String.eqb_refl.
  cbn [row_with row_status row_name row_databaseName row_id].
  rewrite mbind_rbind.
  destruct (negb (bool_decide (st = provisioning)) || negb (String.eqb name' name)) eqn:E; [done|].
  apply orb_false_iff in E as [E1 E2]. apply negb_false_iff, bool_decide_eq_true in E1.
  apply negb_false_iff, String.eqb_eq in E2. naive_solver.
Qed.

(** ** The statements of the probe while no run is in progress *)

Definition at_rest rs dbs ans made log : probe_state :=
  {| deployment := idle rs dbs ans; made := made; log := log |}.

Lemma bind_ok {A B} (m : probeM A) (k : A → probeM B) s a s' :
  m s = (Ok a, s') → (m ≫= k) s = k a s'.
Proof. unfold mbind, probe_bind. by intros ->. Qed.

Lemma slugFor_ok run sc rs dbs ans mk lg :
  slug_for run sc ∉ mk →
  slugFor run sc (at_rest rs dbs ans mk lg)
    = (Ok (slug_for run sc), at_rest rs dbs ans (mk ++ [slug_for run sc]) lg).
Proof. intros Hn. unfold slugFor, at_rest. cbn [deployment made log]. by rewrite bool_decide_false. Qed.

Lemma stageRow_ok id slug name db rs dbs ans made log :
  tenantDatabaseName slug = Ok db → slug ∉ row_slug <$> rs → db ∉ row_databaseName <$> rs →
  stageRow id slug name (at_rest rs dbs ans made log)
    = (Ok id, at_rest (rs ++ [row_with provisioning id slug name db]) dbs ans made log).
Proof.
  intros Hdb Hs Hd. unfold stageRow. rewrite Hdb. cbn [deployment at_rest registry idle].
  by rewrite !bool_decide_false.
Qed.

Lemma create_ok db rs dbs ans made log :
  dbs !! db = None →
  create_database db (at_rest rs dbs ans made log) = (Ok (), at_rest rs (<[db := fresh_database]> dbs) ans made log).
Proof. intros Hn. unfold create_database. cbn [deployment at_rest cluster idle]. by rewrite Hn. Qed.

Lemma unactivate_ok id slug name db rs dbs ans made log :
  id ∉ row_id <$> rs →
  unactivate id (at_rest (rs ++ [row_with active id slug name db]) dbs ans made log)
    = (Ok (), at_rest (rs ++ [row_with provisioning id slug name db]) dbs ans made log).
Proof.
  intros Hn. unfold unactivate, with_deployment, with_registry, at_rest. cbn [deployment registry idle].
  by rewrite (map_last (λ r, {| row_id := row_id r; row_slug := row_slug r; row_name := row_name r;
    row_databaseName := row_databaseName r; row_status := provisioning |}) id).
Qed.

Lemma provision_ok input id rs dbs ans made log :
  provision_call input id (at_rest rs dbs ans made log) =
    let '(a, rs', dbs') := provision_alone input id rs dbs in
    (a, at_rest rs' dbs' (ans ++ [(0%nat, a)]) made log).
Proof.
  unfold provision_call. cbn [deployment at_rest]. rewrite provisionTenant_is_text.
  by destruct (provision_alone input id rs dbs) as [[a rs'] dbs'].
Qed.

Lemma inDatabase_ok {A} db (fn : Database → result exn (A * Database)) d a d' rs dbs ans made log :
  dbs !! db = Some d → fn d = Ok (a, d') →
  inDatabase db fn (at_rest rs dbs ans made log) = (Ok a, at_rest rs (<[db := d']> dbs) ans made log).
Proof. intros Hd Hf. unfold inDatabase. cbn [deployment at_rest cluster idle]. by rewrite Hd, Hf. Qed.

Lemma markerOf_ok db d rs dbs ans made log :
  dbs !! db = Some d →
  markerOf db (at_rest rs dbs ans made log) = (Ok (comment d), at_rest rs dbs ans made log).
Proof. intros Hd. unfold markerOf. cbn [deployment at_rest cluster idle]. by rewrite Hd. Qed.

Lemma rowOf_ok slug rs st id name db dbs ans made log :
  slug ∉ row_slug <$> rs →
  rowOf slug (at_rest (rs ++ [row_with st id slug name db]) dbs ans made log)
    = (Ok (Some (row_with st id slug name db)), at_rest (rs ++ [row_with st id slug name db]) dbs ans made log).
Proof. intros Hn. unfold rowOf. cbn [deployment at_rest registry idle]. by rewrite find_slug_last. Qed.

Lemma rejection_ok {A} (m : probeM A) s r s' :
  m s = (r, s') → rejectionOf m s = (Ok (match r with Ok _ => None | Throw e => Some e end), s').
Proof. unfold rejectionOf. intros ->. by destruct r. Qed.

Lemma lift_ok {A} (r : result exn A) a s : r = Ok a → lift r s = (Ok a, s).
Proof. by intros ->. Qed.

Lemma check_ok b l rs dbs ans mk lg :
  b = true → check b l (at_rest rs dbs ans mk lg) = (Ok (), at_rest rs dbs ans mk (lg ++ [(l, true)])).
Proof. by intros ->. Qed.

Lemma databaseExists_no db rs dbs ans made log :
  dbs !! db = None → databaseExists db (at_rest rs dbs ans made log) = (Ok false, at_rest rs dbs ans made log).
Proof. intros Hn. unfold databaseExists. cbn [deployment at_rest cluster idle]. by rewrite Hn. Qed.

(** A built database, and its counts. *)
Definition built_for (id : string) : Database :=
  {| comment := Some (tenantDatabaseMarker id); tables := Some tenant_schema; foreign_rows := [] |}.

Definition built_counts : RbacCounts := {| adminRoles := 1; rbac_permissions := 3; grants := 3 |}.

Lemma rbacOf_built db d rs dbs ans made log :
  dbs !! db = Some d → tables d = Some tenant_schema →
  rbacOf db (at_rest rs dbs ans made log) = (Ok built_counts, at_rest rs dbs ans made log).
Proof.
  intros Hd Ht. unfold rbacOf. erewrite inDatabase_ok; [|done|unfold on_tables; rewrite Ht; reflexivity].
  do 2 f_equal. apply insert_id. rewrite Hd. destruct d. simpl in *. by subst.
Qed.

Lemma finished_for_done id slug name db : finished_for id (done_with true id slug name db) = true.
Proof. unfold finished_for, is_active. cbn. by rewrite !bool_decide_true. Qed.

(** A retry of an unbuilt, of a built and of a foreign database. *)
Section retries.
Context (slug name db id id' : string) (rs : list TenantRecord) (dbs : gmap string Database).
Hypotheses (Hdb : tenantDatabaseName slug = Ok db) (Hslug : slug ∉ row_slug <$> rs)
  (Hid : id ∉ row_id <$> rs) (Huuid : UUID id = true).
#[local] Abbreviation retry := (provision_call {| in_slug := slug; in_name := name |} id') (only parsing).
#[local] Abbreviation row st := (row_with st id slug name db) (only parsing).

Lemma provision_fresh ans made log :
  db ∉ row_databaseName <$> rs → dbs !! db = None →
  provision_call {| in_slug := slug; in_name := name |} id (at_rest rs dbs ans made log) =
    (Ok (done_with false id slug name db), at_rest (rs ++ [row active]) (<[db := built_for id]> dbs)
       (ans ++ [(0%nat, Ok (done_with false id slug name db))]) made log).
Proof using Hdb Hslug Hid Huuid. intros Hn Hnone. by rewrite provision_ok, (provision_new _ _ _ _ _ db). Qed.

Lemma provision_unbuilt ans made log :
  dbs !! db = None ∨ dbs !! db = Some fresh_database →
  retry (at_rest (rs ++ [row provisioning]) dbs ans made log) =
    (Ok (done_with true id slug name db), at_rest (rs ++ [row active]) (<[db := built_for id]> dbs)
       (ans ++ [(0%nat, Ok (done_with true id slug name db))]) made log).
Proof using Hdb Hslug Hid Huuid.
  intros Hd. rewrite provision_ok, (provision_retry _ _ _ _ _ _ db) by done.
  assert (initializeTenantDatabase db id (createDatabase db dbs) = Ok (<[db := built_for id]> dbs)) as ->; [|done].
  unfold createDatabase, initializeTenantDatabase. rewrite (name_is_safe _ _ Hdb), Huuid. cbn [negb orb].
  destruct Hd as [Hd|Hd]; rewrite Hd; rewrite ?lookup_insert_eq, ?insert_insert_eq, ?Hd; done.
Qed.

Lemma provision_built d ans made log :
  dbs !! db = Some d → comment d = Some (tenantDatabaseMarker id) →
  retry (at_rest (rs ++ [row provisioning]) dbs ans made log) =
    (Ok (done_with true id slug name db), at_rest (rs ++ [row active]) dbs
       (ans ++ [(0%nat, Ok (done_with true id slug name db))]) made log).
Proof using Hdb Hslug Hid Huuid.
  intros Hd Hc. rewrite provision_ok, (provision_retry _ _ _ _ _ _ db) by done.
  unfold createDatabase, initializeTenantDatabase. rewrite (name_is_safe _ _ Hdb), Huuid. cbn [negb orb].
  by rewrite Hd, Hd, Hc, String.eqb_refl.
Qed.

(** Marked for somebody else, or unmarked with tenant tables: refused, untouched. *)
Definition conflict (d : Database) : exn :=
  ETenantDatabaseConflict db
    (match comment d with
     | Some current => "it is marked " +:+ quote +:+ current +:+ quote +:+ ", not " +:+ quote +:+
                         tenantDatabaseMarker id +:+ quote
     | None => "it already holds tenant tables and carries no provisioning marker"
     end).

Lemma provision_foreign d ans made log :
  dbs !! db = Some d →
  match comment d with Some c => c ≠ tenantDatabaseMarker id | None => tables d ≠ None end →
  retry (at_rest (rs ++ [row provisioning]) dbs ans made log) =
    (Throw (conflict d),
     at_rest (rs ++ [row provisioning]) dbs (ans ++ [(0%nat, Throw (conflict d))]) made log).
Proof using Hdb Hslug Hid Huuid.
  intros Hd Hc.
  assert (Hr : initializeTenantDatabase db id (createDatabase db dbs) = Throw (conflict d)).
  { unfold createDatabase, initializeTenantDatabase, conflict.
    rewrite (name_is_safe _ _ Hdb), Huuid, Hd, Hd. cbn [negb orb].
    destruct (comment d) as [c|]; [by destruct (String.eqb_spec c (tenantDatabaseMarker id))|].
    by destruct (tables d). }
  rewrite provision_ok, (provision_retry _ _ _ _ _ _ db), Hr by done.
  unfold createDatabase. by rewrite Hd.
Qed.
End retries.

(** ** Two calls at once *)

(** How many statements a call has yet to come to. *)
Definition remaining (p : nat) (s : prov_state) : nat :=
  match runs s !! p with
  | None => 0
  | Some r => match pr_phase r with
              | Requested => 5 | LockHeld => 4 | Registered _ _ => 3 | DatabaseReady _ _ => 2 | Built _ _ => 1
              end
  end.

(** Each statement of a call brings it closer to its answer, whatever state it
    finds, and leaves every other call where it was. *)
Lemma advance_progress p id s :
  (remaining p (advance p id s) ≤ remaining p s - 1)%nat ∧
  ∀ q, q ≠ p → runs (advance p id s) !! q = runs s !! q.
Proof.
  unfold remaining, advance. destruct (runs s !! p) as [[input db ph]|] eqn:Ep; [|by rewrite Ep].
  destruct ph; cbn [next_statement pr_phase prov_step]; rewrite Ep; cbn [pr_db pr_input pr_phase];
    repeat case_match; simplify_eq; cbn [from_option Datatypes.id finish runs] in *;
    try match goal with Hx : _ !! p = _ |- _ => rewrite ?lookup_delete_eq, ?lookup_insert_eq in Hx end;
    simplify_eq; cbn [with_phase pr_phase] in *; simplify_eq; try lia;
    (split; [lia|]; intros q Hq; by rewrite ?lookup_delete_ne, ?lookup_insert_ne by done).
Qed.

Lemma advance_settles n p id s : (remaining p s ≤ n)%nat → runs (Nat.iter n (advance p id) s) !! p = None.
Proof.
  revert s. induction n as [|n IH]; intros s Hn.
  - unfold remaining in Hn. simpl. destruct (runs s !! p) as [[? ? []]|]; simpl in Hn; [lia..|done].
  - rewrite iter_succ. apply IH. pose proof (proj1 (advance_progress p id s)). lia.
Qed.

Lemma remaining_bound p s : (remaining p s ≤ 5)%nat.
Proof. unfold remaining. destruct (runs s !! p) as [[? ? []]|]; simpl; lia. Qed.

Section race.
Context (slug name db : string) (id_of : bool → string) (rs : list TenantRecord) (dbs : gmap string Database)
  (ans : list (nat * M ProvisionedTenant)).
Hypotheses (Hdb : tenantDatabaseName slug = Ok db) (Hslug : slug ∉ row_slug <$> rs)
  (Hname : db ∉ row_databaseName <$> rs) (Hnone : dbs !! db = None)
  (Hid : ∀ w, id_of w ∉ row_id <$> rs) (Huuid : ∀ w, UUID (id_of w) = true).

(** The call [true] is number 0, the other number 1. *)
Definition pid (b : bool) : nat := if b then 0%nat else 1%nat.
Definition asked (ph : prov_phase) : prov_run :=
  {| pr_input := {| in_slug := slug; in_name := name |}; pr_db := db; pr_phase := ph |}.
Definition owned_by (w : bool) : gmap (Z * Z) nat := <[provisioningLockKeys db := pid w]> ∅.
Definition one (w : bool) (ph : prov_phase) : gmap nat prov_run := <[pid w := asked ph]> ∅.
Definition two (w : bool) (ph ph' : prov_phase) : gmap nat prov_run :=
  <[pid w := asked ph]> (<[pid (negb w) := asked ph']> ∅).
Definition row_of (w : bool) (st : TenantStatus) : TenantRecord := row_with st (id_of w) slug name db.
Definition won (w : bool) : nat * M ProvisionedTenant := (pid w, Ok (done_with false (id_of w) slug name db)).
Definition refused (w : bool) (e : DomainError) : nat * M ProvisionedTenant := (pid w, Throw (EDomain e)).

(** What the winner has done so far, by its phase. *)
Inductive reached (w : bool) : prov_phase → list TenantRecord → gmap string Database → Prop :=
  | r_locked : reached w LockHeld rs dbs
  | r_registered : reached w (Registered (row_of w provisioning) false) (rs ++ [row_of w provisioning]) dbs
  | r_created : reached w (DatabaseReady (row_of w provisioning) false) (rs ++ [row_of w provisioning])
                  (<[db := fresh_database]> dbs)
  | r_built : reached w (Built (row_of w provisioning) false) (rs ++ [row_of w provisioning])
                (<[db := built_for (id_of w)]> dbs).

(** The states two calls of one new slug can be in. *)
Inductive race_state : prov_state → Prop :=
  | race_start w : race_state {| registry := rs; cluster := dbs; held := ∅; runs := two w Requested Requested;
                                 answers := ans |}
  | race_ahead w ph rs' dbs' : reached w ph rs' dbs' →
      race_state {| registry := rs'; cluster := dbs'; held := owned_by w; runs := two w ph Requested;
                    answers := ans |}
  | race_refused w ph rs' dbs' : reached w ph rs' dbs' →
      race_state {| registry := rs'; cluster := dbs'; held := owned_by w; runs := one w ph;
                    answers := ans ++ [refused (negb w) (TenantProvisioningInProgressError slug)] |}
  | race_late w : race_state
      {| registry := rs ++ [row_of w active]; cluster := <[db := built_for (id_of w)]> dbs; held := ∅;
         runs := one (negb w) Requested; answers := ans ++ [won w] |}
  | race_late_locked w : race_state
      {| registry := rs ++ [row_of w active]; cluster := <[db := built_for (id_of w)]> dbs;
         held := owned_by (negb w); runs := one (negb w) LockHeld; answers := ans ++ [won w] |}
  | race_over w last_two :
      last_two = [refused (negb w) (TenantProvisioningInProgressError slug); won w] ∨
      last_two = [won w; refused (negb w) (TenantAlreadyExistsError slug)] →
      race_state (idle (rs ++ [row_of w active]) (<[db := built_for (id_of w)]> dbs) (ans ++ last_two)).

Lemma pid_ne w : pid w ≠ pid (negb w).
Proof. by destruct w. Qed.

Lemma two_swap w ph : two w ph ph = two (negb w) ph ph.
Proof. unfold two. rewrite negb_involutive. apply insert_insert_ne, pid_ne. Qed.

(** One statement of the run the lookup finds. *)
Lemma advance_at p id s r : runs s !! p = Some r → advance p id s = default s (prov_step (next_statement p id r) s).
Proof. intros Hr. unfold advance. by rewrite Hr. Qed.

(** The winner's statements, with or without the other call still to come. *)
Lemma winner_advances w ph rs' dbs' (others : gmap nat prov_run) a :
  reached w ph rs' dbs' → others !! pid w = None →
  let s := advance (pid w) (id_of w) {| registry := rs'; cluster := dbs'; held := owned_by w;
             runs := <[pid w := asked ph]> others; answers := a |} in
  (∃ ph' rs'' dbs'', reached w ph' rs'' dbs'' ∧
     s = {| registry := rs''; cluster := dbs''; held := owned_by w; runs := <[pid w := asked ph']> others;
            answers := a |}) ∨
  s = {| registry := rs ++ [row_of w active]; cluster := <[db := built_for (id_of w)]> dbs; held := ∅;
         runs := others; answers := a ++ [won w] |}.
Proof using Hdb Hslug Hname Hnone Hid Huuid.
  intros Hr Ho. simpl. erewrite advance_at by (simpl; apply lookup_insert_eq).
  destruct Hr; cbn [next_statement asked pr_phase prov_step runs]; rewrite lookup_insert_eq;
    cbn [asked pr_input pr_db pr_phase registry cluster held runs answers].
  - unfold registerOrResume. cbn [in_slug in_name]. rewrite find_slug_absent by done.
    assert (existsb (λ r, String.eqb (row_databaseName r) db) rs = false) as ->.
    { apply not_true_iff_false. intros (r & Hin & He)%existsb_exists. apply String.eqb_eq in He.
      apply Hname. rewrite <- He. apply list_elem_of_fmap_2. by apply list_elem_of_In. }
    left. do 3 eexists. split; [apply r_registered|]. cbn. by rewrite insert_insert_eq.
  - left. do 3 eexists. split; [apply r_created|]. cbn. unfold createDatabase.
    by rewrite Hnone, insert_insert_eq.
  - left. do 3 eexists. split; [apply r_built|]. unfold initializeTenantDatabase.
    cbn [row_id row_of row_with]. rewrite (name_is_safe _ _ Hdb), Huuid, lookup_insert_eq. cbn.
    by rewrite !insert_insert_eq.
  - right. unfold row_of. change (row_id _) with (id_of w). rewrite activate_last by done.
    cbn [from_option Datatypes.id]. unfold finish, owned_by. cbn [registry cluster held runs answers].
    by rewrite release_own, delete_insert_eq, delete_id by done.
Qed.

Lemma race_step b s : race_state s → race_state (advance (pid b) (id_of b) s).
Proof using Hdb Hslug Hname Hnone Hid Huuid.
  assert (Hother : ∀ w, (<[pid (negb w) := asked Requested]> ∅ : gmap nat prov_run) !! pid w = None).
  { intros w. rewrite lookup_insert_ne, lookup_empty by (apply not_eq_sym, pid_ne). done. }
  intros Hs. destruct Hs as [w|w ph rs' dbs' Hr|w ph rs' dbs' Hr|w|w|w l Hl].
  - assert (∃ w', b = w') as [w' ->] by eauto.
    assert (two w Requested Requested = two w' Requested Requested) as ->.
    { destruct (decide (w = w')) as [->|Hne]; [done|]. rewrite two_swap. f_equal. by destruct w, w'. }
    erewrite advance_at by (simpl; apply lookup_insert_eq).
    cbn [next_statement asked pr_phase prov_step runs]. unfold two. rewrite lookup_insert_eq. cbn.
    rewrite lookup_empty. cbn. rewrite insert_insert_eq. apply (race_ahead w' LockHeld rs dbs). constructor.
  - destruct (decide (b = w)) as [->|Hne].
    + destruct (winner_advances w ph rs' dbs' _ ans Hr (Hother w)) as [(ph' & rs'' & dbs'' & Hr' & He)|He];
        cbv zeta in He; unfold two; rewrite He; [by apply race_ahead|apply race_late].
    + assert (b = negb w) as -> by (by destruct b, w).
      erewrite advance_at by (simpl; unfold two; rewrite lookup_insert_ne by apply pid_ne; apply lookup_insert_eq).
      cbn [next_statement asked pr_phase prov_step runs]. unfold two.
      rewrite lookup_insert_ne by apply pid_ne. rewrite lookup_insert_eq. cbn [asked pr_phase held pr_db pr_input in_slug].
      unfold owned_by. rewrite lookup_insert_eq. cbn [from_option Datatypes.id]. unfold finish.
      cbn [registry cluster held runs answers].
      rewrite release_other by (apply not_eq_sym, pid_ne).
      rewrite delete_insert_ne by (apply not_eq_sym, pid_ne). rewrite delete_insert_eq, delete_empty.
      by apply race_refused.
  - destruct (decide (b = w)) as [->|Hne].
    + destruct (winner_advances w ph rs' dbs' ∅ (ans ++ [refused (negb w) (TenantProvisioningInProgressError slug)]) Hr)
        as [(ph' & rs'' & dbs'' & Hr' & He)|He]; [done| |]; cbv zeta in He; unfold one; rewrite He.
      * by apply race_refused.
      * rewrite <- app_assoc. apply race_over. by left.
    + assert (b = negb w) as -> by (by destruct b, w). unfold advance, one. cbn [runs].
      rewrite lookup_insert_ne, lookup_empty by apply pid_ne. by apply race_refused.
  - destruct (decide (b = w)) as [->|Hne].
    + unfold advance, one. cbn [runs]. rewrite lookup_insert_ne, lookup_empty by (apply not_eq_sym, pid_ne). apply race_late.
    + assert (b = negb w) as -> by (by destruct b, w).
      erewrite advance_at by (simpl; apply lookup_insert_eq).
      cbn [next_statement asked pr_phase prov_step runs]. unfold one. rewrite lookup_insert_eq. cbn.
      rewrite lookup_empty. cbn. rewrite insert_insert_eq. apply race_late_locked.
  - destruct (decide (b = w)) as [->|Hne].
    + unfold advance, one. cbn [runs]. rewrite lookup_insert_ne, lookup_empty by (apply not_eq_sym, pid_ne).
      apply race_late_locked.
    + assert (b = negb w) as -> by (by destruct b, w).
      erewrite advance_at by (simpl; apply lookup_insert_eq).
      cbn [next_statement asked pr_phase prov_step runs]. unfold one. rewrite lookup_insert_eq.
      cbn [asked pr_phase registry pr_db pr_input]. unfold registerOrResume. cbn [in_slug in_name].
      unfold row_of. rewrite find_slug_last by done. cbn [row_with row_status row_name].
      rewrite (bool_decide_false (active = provisioning)) by done. cbn [negb orb throw_if].
      rewrite mbind_rbind. cbn [rbind from_option Datatypes.id]. unfold finish, owned_by.
      cbn [registry cluster held runs answers].
      rewrite release_own, delete_insert_eq, delete_empty, <- app_assoc. apply race_over. by right.
  - apply race_over. done.
Qed.
Lemma race_iter n b s : race_state s → race_state (Nat.iter n (advance (pid b) (id_of b)) s).
Proof using Hdb Hslug Hname Hnone Hid Huuid. intros Hs. induction n as [|n IH]; [done|]. simpl. by apply race_step. Qed.

Lemma race_schedule schedule s :
  race_state s →
  race_state (foldl (λ s (b : bool), if b then advance 0 (id_of true) s else advance 1 (id_of false) s) s schedule).
Proof using Hdb Hslug Hname Hnone Hid Huuid.
  revert s. induction schedule as [|b schedule IH]; intros s Hs; [done|]. simpl. apply IH.
  destruct b; [apply (race_step true)|apply (race_step false)]; done.
Qed.

(** Two calls, interleaved in any way, come to one winner: its row is active, its
    database built, and the other call was refused in one of two ways. *)
Lemma settle_spec schedule :
  ∃ w last_two,
    settle_both schedule {| in_slug := slug; in_name := name |} (id_of true) (id_of false) (idle rs dbs ans) =
      idle (rs ++ [row_of w active]) (<[db := built_for (id_of w)]> dbs) (ans ++ last_two) ∧
    (last_two = [refused (negb w) (TenantProvisioningInProgressError slug); won w] ∨
     last_two = [won w; refused (negb w) (TenantAlreadyExistsError slug)]).
Proof using Hdb Hslug Hname Hnone Hid Huuid.
  unfold settle_both. set (s1 := request_call 1 _ _).
  assert (H1 : race_state s1).
  { assert (s1 = {| registry := rs; cluster := dbs; held := ∅; runs := two false Requested Requested; answers := ans |}) as ->;
      [|apply race_start].
    unfold s1, request_call. cbn [prov_step idle runs]. rewrite lookup_empty. cbn [in_slug]. rewrite Hdb.
    cbn [from_option Datatypes.id set_run prov_step runs idle]. rewrite lookup_insert_ne, lookup_empty by done.
    cbn [in_slug]. by rewrite ?Hdb. }
  set (s2 := foldl _ s1 schedule).
  assert (H2 : race_state s2) by by apply race_schedule.
  set (s3 := Nat.iter 5 (advance 0 (id_of true)) s2).
  assert (H3 : race_state s3) by exact (race_iter 5 true s2 H2).
  assert (Hn0 : runs s3 !! 0%nat = None) by apply advance_settles, remaining_bound.
  set (s4 := Nat.iter 5 (advance 1 (id_of false)) s3).
  assert (H4 : race_state s4) by exact (race_iter 5 false s3 H3).
  assert (Hn1 : runs s4 !! 1%nat = None) by apply advance_settles, remaining_bound.
  assert (Hn : runs s4 !! 0%nat = None).
  { rewrite <- Hn0. unfold s4. clear. generalize 5%nat. intros n. induction n as [|n IH]; [done|]. simpl.
    rewrite (proj2 (advance_progress 1 _ _)) by done. exact IH. }
  clearbody s4. destruct H4 as [w|w ph ? ? ?|w ph ? ? ?|w|w|w l Hl]; [exfalso..|by exists w, l];
    unfold two, one in *; cbn [runs] in Hn, Hn1; destruct w; simpl in Hn, Hn1;
    first [by rewrite lookup_insert_eq in Hn|by rewrite lookup_insert_eq in Hn1].
Qed.

Lemma last_answers p (l1 : list (nat * M ProvisionedTenant)) a e q :
  p ≠ q → l1 = [(p, a); (q, e)] ∨ l1 = [(q, e); (p, a)] → ∀ rs' dbs', answer_of p (idle rs' dbs' (ans ++ l1)) = a.
Proof using Type.
  intros Hne Hl rs' dbs'. unfold answer_of, idle. cbn [answers]. rewrite filter_app.
  destruct Hl as [-> | ->].
  - rewrite filter_cons_True, filter_cons_False, filter_nil by (done || by apply not_eq_sym). by rewrite last_snoc.
  - rewrite filter_cons_False, filter_cons_True, filter_nil by (done || by apply not_eq_sym). by rewrite last_snoc.
Qed.

(** Exactly one of them is answered with a tenant, the other refused cleanly. *)
Lemma settle_outcomes schedule :
  let s := settle_both schedule {| in_slug := slug; in_name := name |} (id_of true) (id_of false) (idle rs dbs ans) in
  length (List.filter fulfilled [answer_of 0 s; answer_of 1 s]) = 1%nat ∧
  forallb lost_cleanly [answer_of 0 s; answer_of 1 s] = true.
Proof using Hdb Hslug Hname Hnone Hid Huuid.
  destruct (settle_spec schedule) as (w & l & He & Hl). cbv zeta. rewrite He. clear He.
  assert (Ha : answer_of (pid w) (idle (rs ++ [row_of w active]) (<[db := built_for (id_of w)]> dbs) (ans ++ l))
               = (won w).2).
  { destruct Hl as [-> | ->]; (eapply (last_answers (pid w) _ _ _ (pid (negb w)) (pid_ne w)));
      [right|left]; reflexivity. }
  assert (Hb : ∃ e, answer_of (pid (negb w)) (idle (rs ++ [row_of w active]) (<[db := built_for (id_of w)]> dbs)
                 (ans ++ l)) = Throw e ∧ in_progress (Some e) || already_exists (Some e) = true).
  { destruct Hl as [-> | ->]; [exists (EDomain (TenantProvisioningInProgressError slug))|
      exists (EDomain (TenantAlreadyExistsError slug))]; (split; [|reflexivity]);
      (eapply (last_answers (pid (negb w)) _ _ _ (pid w) (not_eq_sym (pid_ne w)))); [left|right]; reflexivity. }
  destruct Hb as (e & Hb & Hclean).
  destruct w; cbn [pid negb] in Ha, Hb; rewrite Ha, Hb; cbn [won snd fulfilled lost_cleanly length List.filter forallb];
    rewrite Hclean; by split.
Qed.
End race.

(** ** Every scenario passes *)

Section scenarios_pass.
Context (run : string) (uuid : nat → string) (schedule : list bool).
Hypothesis uuid_ok : ∀ i, UUID (uuid i) = true.
Hypothesis uuid_inj : ∀ i j, (i < 12)%nat → (j < 12)%nat → uuid i = uuid j → i = j.

(** Nothing of a scenario is there yet. *)
Record unused (sc db : string) (ks : list nat) (rs : list TenantRecord) (dbs : gmap string Database)
    (made : list string) : Prop := {
  un_db : tenantDatabaseName (slug_for run sc) = Ok db;
  un_slug : slug_for run sc ∉ row_slug <$> rs;
  un_name : db ∉ row_databaseName <$> rs;
  un_none : dbs !! db = None;
  un_made : slug_for run sc ∉ made;
  un_id : ∀ k, k ∈ ks → uuid k ∉ row_id <$> rs;
}.

(** A scenario makes its checks, all of which pass, and leaves one row and at
    most its own database behind. *)
Definition adds (sc : string) (m : probeM ()) (ks : list nat) (cs : list prov_check) : Prop :=
  ∀ db rs dbs ans made log, unused sc db ks rs dbs made →
  ∃ st id name dbs' ans', id ∈ uuid <$> ks ∧
    m (at_rest rs dbs ans made log) =
      (Ok (), at_rest (rs ++ [row_with st id (slug_for run sc) name db]) dbs' ans'
                (made ++ [slug_for run sc]) (log ++ ((λ c, (c, true)) <$> cs))) ∧
    ∀ n, n ≠ db → dbs' !! n = dbs !! n.

#[local] Ltac premise :=
  first [done | by left | by right; apply lookup_insert_eq | apply lookup_insert_eq | reflexivity].
#[local] Tactic Notation "step" uconstr(lem) := erewrite bind_ok; [|eapply lem; premise].

#[local] Ltac other_databases :=
  intros ? ?; repeat (rewrite lookup_insert_ne by congruence); reflexivity.
#[local] Ltac one_row :=
  do 5 eexists; split_and!; [apply list_elem_of_fmap_2, list_elem_of_here|reflexivity|other_databases].

Lemma nodb_adds : adds "nodb" (stopped_after_registering run uuid) [1%nat] [NoDb].
Proof using uuid_ok uuid_inj.
  intros db rs dbs ans made log [Hdb Hs Hn Hnone Hm Hid].
  specialize (Hid 1%nat ltac:(set_solver)). specialize (uuid_ok 1). unfold stopped_after_registering.
  step slugFor_ok. step stageRow_ok. step provision_unbuilt.
  step lift_ok. step rbacOf_built. step markerOf_ok.
  rewrite check_ok; [one_row|]. rewrite finished_for_done, bool_decide_true by done. done.
Qed.

Lemma emptydb_adds : adds "emptydb" (stopped_after_create run uuid) [2%nat] [EmptyDb].
Proof using uuid_ok uuid_inj.
  intros db rs dbs ans made log [Hdb Hs Hn Hnone Hm Hid].
  specialize (Hid 2%nat ltac:(set_solver)). specialize (uuid_ok 2). unfold stopped_after_create.
  step slugFor_ok. step stageRow_ok. step lift_ok. step create_ok. step provision_unbuilt.
  step rbacOf_built. step markerOf_ok.
  rewrite check_ok; [one_row|]. rewrite finished_for_done, bool_decide_true by done. done.
Qed.

Lemma built_adds : adds "built" (lost_status_update run uuid) [3%nat] [BuiltNotActive].
Proof using uuid_ok uuid_inj.
  intros db rs dbs ans made log [Hdb Hs Hn Hnone Hm Hid].
  specialize (Hid 3%nat ltac:(set_solver)). specialize (uuid_ok 3). unfold lost_status_update.
  step slugFor_ok. step lift_ok. step provision_fresh. step unactivate_ok. step inDatabase_ok.
  step provision_built.
  unfold rbacOf. step inDatabase_ok. step inDatabase_ok.
  rewrite check_ok; [one_row|]. cbn [prov_tenant done_with tenant_id toTenant row_id row_with].
  change {| prov_tenant := _; prov_resumed := true |} with
    (done_with true (uuid 3) (slug_for run "built") "Probe built" db).
  by rewrite finished_for_done.
Qed.

Lemma marked_adds : adds "marked" (marked_for_another run uuid) [4%nat] [MarkedForeign].
Proof using uuid_ok uuid_inj.
  intros db rs dbs ans made log [Hdb Hs Hn Hnone Hm Hid].
  specialize (Hid 4%nat ltac:(set_solver)). specialize (uuid_ok 4). unfold marked_for_another.
  step slugFor_ok. step lift_ok. step stageRow_ok. step create_ok. unfold comment_on.
  step inDatabase_ok. step inDatabase_ok.
  erewrite bind_ok; [|eapply rejection_ok, provision_foreign; try premise]; cycle 1.
  { cbn [comment]. unfold tenantDatabaseMarker. intros He. apply (inj (String.app _)), uuid_inj in He; lia. }
  step rowOf_ok. step markerOf_ok. step inDatabase_ok.
  rewrite check_ok; [one_row|]. cbn. rewrite !bool_decide_true by done. done.
Qed.

Lemma leftover_adds : adds "leftover" (leftover_schema run uuid) [6%nat] [Leftover].
Proof using uuid_ok uuid_inj.
  intros db rs dbs ans made log [Hdb Hs Hn Hnone Hm Hid].
  specialize (Hid 6%nat ltac:(set_solver)). specialize (uuid_ok 6). unfold leftover_schema.
  step slugFor_ok. step lift_ok. step stageRow_ok. step create_ok. step inDatabase_ok. step inDatabase_ok.
  erewrite bind_ok; [|eapply rejection_ok, provision_foreign; premise].
  step rowOf_ok. step markerOf_ok. step inDatabase_ok.
  rewrite check_ok; [one_row|]. done.
Qed.

Lemma rename_adds : adds "rename" (different_name run uuid) [7%nat] [Rename].
Proof using uuid_ok uuid_inj.
  intros db rs dbs ans made log [Hdb Hs Hn Hnone Hm Hid].
  specialize (Hid 7%nat ltac:(set_solver)). unfold different_name.
  step slugFor_ok. step stageRow_ok.
  erewrite bind_ok; cycle 1.
  { apply rejection_ok. rewrite provision_ok, (provision_other_name _ _ _ _ _ _ _ _ db) by (done || by right).
    reflexivity. }
  step rowOf_ok. step lift_ok. step databaseExists_no.
  rewrite check_ok; [one_row|]. cbn. by rewrite !bool_decide_true.
Qed.

(** While a session holds the lock a call is refused and changes nothing. *)
Lemma provision_locked slug name db id' rs dbs ans made log :
  tenantDatabaseName slug = Ok db →
  provision_call {| in_slug := slug; in_name := name |} id'
    {| deployment := with_held (<[provisioningLockKeys db := holder]> ∅) (idle rs dbs ans); made := made; log := log |} =
  (Throw (EDomain (TenantProvisioningInProgressError slug)),
   {| deployment := with_held (<[provisioningLockKeys db := holder]> ∅)
        (idle rs dbs (ans ++ [(0%nat, Throw (EDomain (TenantProvisioningInProgressError slug)))]));
      made := made; log := log |}).
Proof.
  intros Hdb. unfold provision_call, provisionTenant, request_call. cbn [deployment]. rewrite !iter_succ, !iter_zero.
  set (h := <[provisioningLockKeys db := holder]> (∅ : gmap (Z * Z) nat)).
  assert (Hk : h !! provisioningLockKeys db = Some holder) by apply lookup_insert_eq.
  assert (Hrel : release 0 h = h) by by apply release_other.
  set (e := EDomain (TenantProvisioningInProgressError slug)).
  assert (Hadv : advance 0 id' (default (with_held h (idle rs dbs ans)) (prov_step (Request 0
      {| in_slug := slug; in_name := name |}) (with_held h (idle rs dbs ans)))) =
    with_held h (idle rs dbs (ans ++ [(0%nat, Throw e)]))).
  { cbn [prov_step with_held idle runs]. rewrite lookup_empty. cbn [in_slug]. rewrite Hdb. cbn [from_option Datatypes.id].
    unfold advance, set_run. cbn [runs with_held idle]. rewrite lookup_insert_eq.
    cbn [next_statement pr_phase prov_step runs]. rewrite lookup_insert_eq.
    cbn [held pr_db pr_input in_slug with_held idle registry cluster answers runs].
    rewrite Hk. cbn [from_option Datatypes.id]. unfold finish. cbn [registry cluster held runs answers].
    by rewrite Hrel, delete_insert_eq, delete_empty. }
  rewrite Hadv. assert (Hid : ∀ s, runs s = ∅ → advance 0 id' s = s).
  { intros s Hr. unfold advance. by rewrite Hr, lookup_empty. }
  rewrite !Hid by done. unfold answer_of. cbn [answers with_held idle].
  rewrite filter_app, filter_cons_True, filter_nil, last_snoc by done. done.
Qed.

Lemma locked_adds : adds "locked" (lock_held_elsewhere run uuid) [8%nat] [LockedRefused; LockedReleased].
Proof using uuid_ok uuid_inj.
  intros db rs dbs ans made log [Hdb Hs Hn Hnone Hm Hid].
  specialize (Hid 8%nat ltac:(set_solver)). specialize (uuid_ok 8). unfold lock_held_elsewhere.
  step slugFor_ok. step lift_ok. step stageRow_ok. set (slug := slug_for run "locked") in *.
  set (rs' := rs ++ [row_with provisioning (uuid 8) slug "Probe locked" db]).
  set (locked := λ ans lg, {| deployment := with_held (<[provisioningLockKeys db := holder]> ∅) (idle rs' dbs ans);
    made := made ++ [slug]; log := lg |}).
  rewrite (bind_ok (hold_lock db) _ _ () (locked ans log)); [|done].
  erewrite bind_ok; [|by eapply rejection_ok, provision_locked].
  match goal with |- context [{| deployment := with_held _ (idle _ _ ?a) |}] =>
    change {| deployment := with_held _ (idle rs' dbs a); made := made ++ [slug]; log := log |} with (locked a log);
    rewrite (bind_ok (databaseExists db) _ _ false (locked a log));
      [|unfold databaseExists; cbn [deployment locked cluster with_held idle]; by rewrite Hnone];
    rewrite (bind_ok (rowOf slug) _ _ (Some (row_with provisioning (uuid 8) slug "Probe locked" db)) (locked a log));
      [|unfold rowOf; cbn [deployment locked registry with_held idle]; unfold rs'; by rewrite find_slug_last];
    rewrite (bind_ok (check _ _) _ _ () (locked a (log ++ [(LockedRefused, true)])));
      [|done];
    rewrite (bind_ok end_session _ _ () (at_rest rs' dbs a (made ++ [slug]) (log ++ [(LockedRefused, true)])))
  end.
  2: { unfold end_session, with_deployment, at_rest, locked. cbn [deployment held with_held idle].
       rewrite release_own. done. }
  unfold rs'. step provision_unbuilt. rewrite check_ok; [|done]. rewrite <- (app_assoc log). one_row.
Qed.

Definition racer (b : bool) : string := if b then uuid 9 else uuid 10.

Lemma race_adds : adds "race" (two_at_once run uuid schedule) [9%nat; 10%nat] [Race].
Proof using uuid_ok uuid_inj.
  intros db rs dbs ans mk lg [Hdb Hs Hn Hnone Hm Hid].
  assert (Hidr : ∀ w, racer w ∉ row_id <$> rs) by (intros []; apply Hid; set_solver).
  assert (Hok : ∀ w, UUID (racer w) = true) by (intros []; apply uuid_ok).
  unfold two_at_once. step slugFor_ok. set (slug := slug_for run "race") in *.
  destruct (settle_spec slug "Probe race" db racer rs dbs ans Hdb Hs Hn Hnone Hidr Hok schedule)
    as (w & l & He & _).
  pose proof (settle_outcomes slug "Probe race" db racer rs dbs ans Hdb Hs Hn Hnone Hidr Hok schedule) as [Hwon Hlost].
  change (racer true) with (uuid 9) in *. change (racer false) with (uuid 10) in *.
  set (d := settle_both schedule _ (uuid 9) (uuid 10) (idle rs dbs ans)) in *.
  rewrite (bind_ok _ _ (at_rest rs dbs ans (mk ++ [slug]) lg) [answer_of 0 d; answer_of 1 d]
    (at_rest (rs ++ [row_of slug "Probe race" db racer w active]) (<[db := built_for (racer w)]> dbs) (ans ++ l)
       (mk ++ [slug]) lg)).
  2: { unfold with_deployment. cbn [deployment at_rest made log]. fold d. unfold at_rest. by rewrite <- He. }
  step lift_ok. step rbacOf_built. rewrite check_ok; [|by rewrite Hwon, Hlost].
  do 5 eexists. split_and!; [|unfold row_of; reflexivity|other_databases].
  change (racer w ∈ uuid <$> [9%nat; 10%nat]). destruct w.
  - apply (list_elem_of_fmap_2 uuid _ 9%nat). by left.
  - apply (list_elem_of_fmap_2 uuid _ 10%nat). right. by left.
Qed.

Lemma first_ok db rs dbs ans made log :
  unused "fresh" db [0%nat] rs dbs made →
  ∃ ans', first_provisioning run uuid (at_rest rs dbs ans made log) =
    (Ok (slug_for run "fresh"),
     at_rest (rs ++ [row_with active (uuid 0) (slug_for run "fresh") "Probe fresh" db])
       (<[db := built_for (uuid 0)]> dbs) ans' (made ++ [slug_for run "fresh"])
       (log ++ [(FreshActive, true); (FreshMarked, true)])).
Proof using uuid_ok uuid_inj.
  intros [Hdb Hs Hn Hnone Hm Hid]. specialize (Hid 0%nat ltac:(set_solver)). specialize (uuid_ok 0).
  unfold first_provisioning. step slugFor_ok. step provision_fresh.
  erewrite bind_ok; [|apply check_ok; unfold is_active; cbn; by rewrite bool_decide_true].
  step lift_ok. step markerOf_ok.
  erewrite bind_ok; [|apply check_ok; cbn; by rewrite bool_decide_true].
  eexists. rewrite <- (app_assoc log). reflexivity.
Qed.

(** ** The scenarios one after another *)

Definition item : Type := string * list nat * list prov_check * probeM ().
Definition it_name (i : item) : string := i.1.1.1.
Definition it_ids (i : item) : list nat := i.1.1.2.
Definition it_checks (i : item) : list prov_check := i.1.2.

Definition items : list item :=
  [("nodb", [1%nat], [NoDb], stopped_after_registering run uuid);
   ("emptydb", [2%nat], [EmptyDb], stopped_after_create run uuid);
   ("built", [3%nat], [BuiltNotActive], lost_status_update run uuid);
   ("marked", [4%nat], [MarkedForeign], marked_for_another run uuid);
   ("leftover", [6%nat], [Leftover], leftover_schema run uuid);
   ("rename", [7%nat], [Rename], different_name run uuid);
   ("locked", [8%nat], [LockedRefused; LockedReleased], lock_held_elsewhere run uuid);
   ("race", [9%nat; 10%nat], [Race], two_at_once run uuid schedule)].

Lemma items_add : Forall (λ i, adds (it_name i) i.2 (it_ids i) (it_checks i)) items.
Proof using uuid_ok uuid_inj.
  repeat (apply Forall_cons; split); [apply nodb_adds|apply emptydb_adds|apply built_adds|apply marked_adds
    |apply leftover_adds|apply rename_adds|apply locked_adds|apply race_adds|constructor].
Qed.

Definition names : list string := "fresh" :: (it_name <$> items).
Hypothesis run_ok : Forall (λ sc, valid_slug (slug_for run sc) = true) names.

Definition dbn (sc : string) : string := default "" (to_option (tenantDatabaseName (slug_for run sc))).

Lemma slug_for_inj sc sc' : slug_for run sc = slug_for run sc' → sc = sc'.
Proof using Type. unfold slug_for. intros He. apply (inj (String.app _)) in He. by apply sapp_inj_r in He. Qed.

Lemma dbn_ok sc : sc ∈ names → tenantDatabaseName (slug_for run sc) = Ok (dbn sc).
Proof using run_ok.
  intros Hsc. rewrite Forall_forall in run_ok. specialize (run_ok sc Hsc).
  destruct (tenantDatabaseName_safe_injective _ _ run_ok run_ok) as (n & Hn & _).
  unfold dbn. by rewrite Hn.
Qed.

Lemma dbn_inj sc sc' : sc ∈ names → sc' ∈ names → dbn sc = dbn sc' → sc = sc'.
Proof using run_ok.
  intros H1 H2 He. pose proof (dbn_ok sc H1) as E1. pose proof (dbn_ok sc' H2) as E2.
  rewrite Forall_forall in run_ok.
  destruct (tenantDatabaseName_safe_injective _ _ (run_ok sc H1) (run_ok sc' H2)) as (n & Hn & _ & Hinj).
  apply slug_for_inj, Hinj. congruence.
Qed.

Definition known (i : item) : Prop := it_name i ∈ names ∧ Forall (λ k, (k < 12)%nat) (it_ids i).

(** Everything the rest of the scenarios [its] need is still unused. *)
Definition ready (its : list item) rs dbs made : Prop :=
  ∀ i, i ∈ its → unused (it_name i) (dbn (it_name i)) (it_ids i) rs dbs made.

Lemma unused_after i j st id name rs dbs dbs' made :
  known i → known j → it_name i ≠ it_name j → (∀ k, k ∈ it_ids i → k ∉ it_ids j) →
  id ∈ uuid <$> it_ids i → (∀ n, n ≠ dbn (it_name i) → dbs' !! n = dbs !! n) →
  unused (it_name j) (dbn (it_name j)) (it_ids j) rs dbs made →
  unused (it_name j) (dbn (it_name j)) (it_ids j)
    (rs ++ [row_with st id (slug_for run (it_name i)) name (dbn (it_name i))]) dbs'
    (made ++ [slug_for run (it_name i)]).
Proof using uuid_inj run_ok.
  intros [Hi Hki] [Hj Hkj] Hne Hks Hid Hdbs [Hdb Hs Hn Hnone Hm Hu]. rewrite Forall_forall in Hki, Hkj.
  assert (Hslug : slug_for run (it_name j) ≠ slug_for run (it_name i)) by (intros He; by apply slug_for_inj in He).
  assert (Hdbne : dbn (it_name j) ≠ dbn (it_name i)) by (intros He; apply dbn_inj in He; congruence).
  split; [done| | | | |].
  - rewrite fmap_app. apply not_elem_of_app. split; [done|]. by intros ?%list_elem_of_singleton.
  - rewrite fmap_app. apply not_elem_of_app. split; [done|]. by intros ?%list_elem_of_singleton.
  - by rewrite Hdbs.
  - apply not_elem_of_app. split; [done|]. by intros ?%list_elem_of_singleton.
  - intros k Hk. rewrite fmap_app. apply not_elem_of_app. split; [by apply Hu|].
    intros He%list_elem_of_singleton. simpl in He. subst id.
    apply list_elem_of_fmap in Hid as (k' & He & Hk'). apply uuid_inj in He as ->; [by apply (Hks k')|auto..].
Qed.

Lemma chain_passes its rs dbs ans made log :
  Forall (λ i, adds (it_name i) i.2 (it_ids i) (it_checks i)) its →
  Forall known its → NoDup (it_name <$> its) → NoDup (mjoin (it_ids <$> its)) →
  ready its rs dbs made →
  ∃ rows dbs' ans', foldr (λ m k, _ ← m; k) (mret ()) (snd <$> its) (at_rest rs dbs ans made log) =
      (Ok (), at_rest (rs ++ rows) dbs' ans' (made ++ ((slug_for run ∘ it_name) <$> its))
                (log ++ ((λ c, (c, true)) <$> mjoin (it_checks <$> its)))) ∧
    row_slug <$> rows = (slug_for run ∘ it_name) <$> its ∧
    ∀ n, n ∉ (dbn ∘ it_name) <$> its → dbs' !! n = dbs !! n.
Proof using uuid_inj run_ok.
  revert rs dbs ans made log. induction its as [|i its IH]; intros rs dbs ans made log Ha Hn Hnd Hks Hready.
  { exists [], dbs, ans. simpl. by rewrite !app_nil_r. }
  apply Forall_cons in Ha as [Hi Ha]. apply Forall_cons in Hn as [Hni Hn].
  rewrite fmap_cons in Hnd. apply NoDup_cons in Hnd as [Hnotin Hnd].
  rewrite fmap_cons in Hks. simpl in Hks. apply NoDup_app in Hks as (_ & Hdisj & Hks).
  destruct (Hi _ rs dbs ans made log (Hready i ltac:(by left))) as (st & id & name & dbs1 & ans1 & Hid & Hm & Hdbs1).
  destruct (IH (rs ++ [row_with st id (slug_for run (it_name i)) name (dbn (it_name i))]) dbs1 ans1
              (made ++ [slug_for run (it_name i)]) (log ++ ((λ c, (c, true)) <$> it_checks i)))
    as (rows & dbs' & ans' & Hrun & Hslugs & Hdbs'); [done..| |].
  { intros j Hj. rewrite Forall_forall in Hn. eapply unused_after; try done.
    - by apply Hn.
    - intros He. apply Hnotin. rewrite He. by apply list_elem_of_fmap_2.
    - intros k Hk Hk'. apply (Hdisj k Hk). apply list_elem_of_join. exists (it_ids j). split; [done|].
      by apply list_elem_of_fmap_2.
    - apply Hready. by right. }
  exists (row_with st id (slug_for run (it_name i)) name (dbn (it_name i)) :: rows), dbs', ans'. split_and!.
  - rewrite fmap_cons. cbn [foldr]. rewrite (bind_ok _ _ _ _ _ Hm), Hrun. do 2 f_equal.
    + by rewrite <- app_assoc.
    + rewrite fmap_cons. by rewrite <- app_assoc.
    + rewrite fmap_cons. simpl. by rewrite fmap_app, app_assoc.
  - by rewrite !fmap_cons, Hslugs.
  - rewrite fmap_cons. intros n [Hn1 Hn2]%not_elem_of_cons. by rewrite Hdbs', Hdbs1.
Qed.

Lemma items_known : Forall known items.
Proof using Type.
  apply Forall_forall. intros i Hi. split; [right; by apply list_elem_of_fmap_2|].
  assert (Hall : Forall (λ i, Forall (λ k, (k < 12)%nat) (it_ids i)) items) by compute_decide.
  rewrite Forall_forall in Hall. by apply Hall.
Qed.

(** ** Cleaning up *)

Lemma remove_spec slug db s :
  tenantDatabaseName slug = Ok db →
  registry (remove slug s) = filter (λ r, row_slug r ≠ slug) (registry s) ∧
  cluster (remove slug s) = delete db (cluster s) ∧ held (remove slug s) = held s ∧ runs (remove slug s) = runs s.
Proof. intros Hdb. unfold remove. by rewrite Hdb. Qed.

Lemma filter_ne_notin slug (rs : list TenantRecord) : slug ∉ row_slug <$> rs → filter (λ r, row_slug r ≠ slug) rs = rs.
Proof.
  intros Hn. apply lfilter_true. intros r Hr He. apply Hn. rewrite <- He. by apply list_elem_of_fmap_2.
Qed.

Lemma remove_all scs s rs rows :
  Forall (λ sc, sc ∈ names) scs → registry s = rs ++ rows →
  (∀ sc, sc ∈ scs → slug_for run sc ∉ row_slug <$> rs) → Forall (λ r, row_slug r ∈ slug_for run <$> scs) rows →
  let s' := foldl (λ s slug, remove slug s) s (slug_for run <$> scs) in
  registry s' = rs ∧ held s' = held s ∧ runs s' = runs s ∧
  ∀ n, cluster s' !! n = if decide (n ∈ dbn <$> scs) then None else cluster s !! n.
Proof using run_ok.
  revert s rows. induction scs as [|sc scs IH]; intros s rows Hn Hr Hrs Hrows.
  { simpl. split_and!; try done. destruct rows as [|r rows]; [by rewrite app_nil_r in Hr|].
    apply Forall_cons in Hrows as [Hin _]. by apply elem_of_nil in Hin. }
  apply Forall_cons in Hn as [Hsc Hn].
  destruct (remove_spec _ _ s (dbn_ok sc Hsc)) as (H1 & H2 & H3 & H4).
  destruct (IH (remove (slug_for run sc) s) (filter (λ r, row_slug r ≠ slug_for run sc) rows) Hn)
    as (E1 & E2 & E3 & E4).
  - rewrite H1, Hr, filter_app, filter_ne_notin; [done|]. apply Hrs. by left.
  - intros sc' Hsc'. apply Hrs. by right.
  - apply Forall_forall. intros r [Hne Hin]%list_elem_of_filter. rewrite Forall_forall in Hrows.
    specialize (Hrows r Hin). rewrite fmap_cons in Hrows. by apply elem_of_cons in Hrows as [?|?].
  - rewrite fmap_cons. cbn [foldl].
    split_and!; [exact E1|by etrans; [exact E2|]|by etrans; [exact E3|]|]. intros n. rewrite E4, H2.
    assert (Hin : n ∈ dbn <$> sc :: scs ↔ n = dbn sc ∨ n ∈ dbn <$> scs) by apply elem_of_cons.
    rewrite (decide_ext _ _ _ _ Hin). destruct (decide (n = dbn sc)) as [->|Hne].
    + rewrite lookup_delete_eq, (decide_True (P := _ ∨ _)) by by left. by case_decide.
    + rewrite lookup_delete_ne by done. apply decide_ext. tauto.
Qed.

(** A deployment that has none of the names and identifiers of this run. *)
Definition unclaimed (rs : list TenantRecord) (dbs : gmap string Database) : Prop :=
  (∀ sc, sc ∈ names → slug_for run sc ∉ row_slug <$> rs ∧ dbn sc ∉ row_databaseName <$> rs ∧ dbs !! dbn sc = None) ∧
  ∀ i, uuid i ∉ row_id <$> rs.

Definition fresh_row : TenantRecord :=
  row_with active (uuid 0) (slug_for run "fresh") "Probe fresh" (dbn "fresh").

Lemma unclaimed_unused rs dbs sc ks : unclaimed rs dbs → sc ∈ names → unused sc (dbn sc) ks rs dbs [].
Proof using uuid_ok uuid_inj run_ok.
  intros [Hfree Hids] Hsc. destruct (Hfree sc Hsc) as (? & ? & ?). split; try done; [by apply dbn_ok|set_solver].
Qed.

(** What the first scenario makes leaves the others what they need. *)
Lemma unused_after_fresh rs dbs j :
  unclaimed rs dbs → j ∈ items →
  unused (it_name j) (dbn (it_name j)) (it_ids j) (rs ++ [fresh_row]) (<[dbn "fresh" := built_for (uuid 0)]> dbs)
    [slug_for run "fresh"].
Proof using uuid_ok uuid_inj run_ok.
  intros Hu Hj. assert (Hjn : it_name j ∈ names) by (right; by apply list_elem_of_fmap_2).
  apply (unused_after ("fresh", [0%nat], [], j.2) j active (uuid 0) "Probe fresh" rs dbs _ []); try done.
  - split; [by left|]. by repeat constructor.
  - pose proof items_known as Hk. rewrite Forall_forall in Hk. by apply Hk.
  - change ("fresh" ≠ it_name j). intros He. assert (Hall : Forall (λ i, it_name i ≠ "fresh") items)
      by (repeat (apply Forall_cons; split; [done|]); constructor).
    rewrite Forall_forall in Hall. by apply (Hall j Hj).
  - change (it_ids (_, [0%nat], _, _)) with [0%nat]. intros k ->%list_elem_of_singleton.
    assert (Hall : Forall (λ i, 0%nat ∉ it_ids i) items)
      by (repeat (apply Forall_cons; split; [compute_decide|]); constructor).
    rewrite Forall_forall in Hall. by apply (Hall j Hj).
  - change (uuid 0 ∈ uuid <$> [0%nat]). apply list_elem_of_fmap_2. by left.
  - intros n Hn. by rewrite lookup_insert_ne by (apply not_eq_sym, Hn).
  - by apply unclaimed_unused.
Qed.

(** The removal undoes what the scenarios did to the registry and the cluster. *)
Lemma removal_restores rs rows dbs dbs' s :
  unclaimed rs dbs → registry s = rs ++ fresh_row :: rows → cluster s = dbs' →
  row_slug <$> rows = (slug_for run ∘ it_name) <$> items →
  (∀ n, n ∉ (dbn ∘ it_name) <$> items → dbs' !! n = <[dbn "fresh" := built_for (uuid 0)]> dbs !! n) →
  let s' := foldl (λ s slug, remove slug s) s (slug_for run <$> names) in
  registry s' = rs ∧ cluster s' = dbs ∧ held s' = held s ∧ runs s' = runs s.
Proof using run_ok.
  intros [Hfree _] Hr Hc Hslugs Hdbs. cbv zeta.
  assert (Hfresh : "fresh" ∈ names) by by left.
  destruct (remove_all names s rs (fresh_row :: rows)) as (E1 & E2 & E3 & E4); [by apply Forall_forall|done| | |].
  - intros sc Hsc. by apply Hfree.
  - apply Forall_cons. split; [exact (list_elem_of_fmap_2 (slug_for run) names _ Hfresh)|].
    assert (Forall (λ x, x ∈ slug_for run <$> names) (row_slug <$> rows)); [|by rewrite Forall_fmap in *].
    rewrite Hslugs. apply Forall_forall. intros x (i & -> & Hi)%list_elem_of_fmap.
    apply (list_elem_of_fmap_2 (slug_for run)). right. by apply list_elem_of_fmap_2.
  - split_and!; [exact E1| |exact E2|exact E3].
    apply map_eq. intros n. etrans; [exact (E4 n)|]. case_decide as Hn.
    + apply list_elem_of_fmap in Hn as (sc & -> & Hsc). symmetry. by apply Hfree.
    + change (dbn <$> names) with (dbn "fresh" :: ((dbn ∘ it_name) <$> items)) in Hn.
      apply not_elem_of_cons in Hn as [Hn1 Hn2]. rewrite Hc, Hdbs by done.
      by rewrite lookup_insert_ne by (apply not_eq_sym, Hn1).
Qed.

(** C31. The probe passes on the code and leaves no trace: on any deployment in
    which no run is in progress and nothing has the names of this run, every
    check passes, whatever the order in which the statements of the two calls of
    the race interleave, exit code 0, and afterwards the registry, the cluster
    and the locks are as they were. *)
Theorem provisioning_probe_passes rs dbs ans :
  (∀ sc, sc ∈ names → slug_for run sc ∉ row_slug <$> rs ∧ dbn sc ∉ row_databaseName <$> rs ∧ dbs !! dbn sc = None) →
  (∀ i, uuid i ∉ row_id <$> rs) →
  let '(report, s) := provisioning_probe run uuid schedule (idle rs dbs ans) in
  exitCode report = 0 ∧
  report.*1 = [FreshActive; FreshMarked; NoDb; EmptyDb; BuiltNotActive; MarkedForeign; Leftover; Rename;
               LockedRefused; LockedReleased; Race; Finished] ∧
  registry s = rs ∧ cluster s = dbs ∧ held s = ∅ ∧ runs s = ∅.
Proof using uuid_ok uuid_inj run_ok.
  intros Hfree Hids. assert (Hun : unclaimed rs dbs) by by split.
  assert (Hfresh : "fresh" ∈ names) by by left.
  destruct (first_ok (dbn "fresh") rs dbs ans [] [] (unclaimed_unused _ _ _ _ Hun Hfresh)) as (ans1 & H1).
  fold fresh_row in H1.
  destruct (chain_passes items (rs ++ [fresh_row]) (<[dbn "fresh" := built_for (uuid 0)]> dbs) ans1
    [slug_for run "fresh"] [(FreshActive, true); (FreshMarked, true)]) as (rows & dbs2 & ans2 & H2 & Hslugs & Hdbs2);
    [apply items_add|apply items_known|compute_decide|compute_decide|intros j Hj; by apply unused_after_fresh|].
  unfold provisioning_probe, body.
  change {| deployment := idle rs dbs ans; made := []; log := [] |} with (at_rest rs dbs ans [] []).
  rewrite (bind_ok _ _ _ _ _ H1).
  change (scenarios run uuid schedule) with (snd <$> items). rewrite (bind_ok _ _ _ _ _ H2).
  unfold finished_is_final.
  erewrite bind_ok; cycle 1.
  { apply rejection_ok. rewrite provision_ok, <- app_assoc. simpl app.
    destruct (Hfree _ Hfresh) as (Hs & _ & _). unfold fresh_row.
    rewrite (provision_other_name _ _ _ _ _ _ _ _ (dbn "fresh")) by (done || (by apply dbn_ok) || by left).
    reflexivity. }
  rewrite check_ok by done. cbn [log deployment made at_rest].
  match goal with |- context [idle _ dbs2 ?a] =>
    destruct (removal_restores rs rows dbs dbs2 (idle (rs ++ fresh_row :: rows) dbs2 a) Hun eq_refl eq_refl Hslugs Hdbs2)
      as (E1 & E2 & E3 & E4)
  end.
  split_and!; [done|done|exact E1|exact E2|exact E3|exact E4].
Qed.
End scenarios_pass.
End probe.

(** ** The probe at work *)

Module ProvisioningProbeSample.
#[export] Existing Instance Sample.toy.

(** gen_random_uuid(), as often as the probe comes to it. *)
Definition uuid (n : nat) : string :=
  nth n ((λ d, "c0ffee00-0000-4000-8000-00000000000" +:+ d)
    <$> ["0"; "1"; "2"; "3"; "4"; "5"; "6"; "7"; "8"; "9"; "a"; "b"]) "c0ffee00-0000-4000-8000-0000000000ff".
Definition RUN : string := "mdu0k3x9".

(** A cluster with one tenant of its own. *)
Definition acme : TenantRecord :=
  row_with active ProvisioningSample.id1 "acme" "Acme" "tenant_acme".
Definition live : gmap string Database := {[ "tenant_acme" := built_for ProvisioningSample.id1 ]}.

(** Both calls of the race see the registry before either has its lock. *)
Definition schedule : list bool := [true; true; false; true].

Lemma uuid_ok i : UUID (uuid i) = true.
Proof. do 12 (destruct i as [|i]; [vm_compute; reflexivity|]). unfold uuid. simpl. by destruct i. Qed.

Lemma uuid_inj i j : (i < 12)%nat → (j < 12)%nat → uuid i = uuid j → i = j.
Proof.
  intros Hi Hj He.
  assert (Hnd : NoDup (uuid <$> List.seq 0 12)) by compute_decide.
  apply (NoDup_lookup _ i j (uuid i) Hnd); rewrite list_lookup_fmap, lookup_seq_lt by done; simpl; congruence.
Qed.
End ProvisioningProbeSample.
Import ProvisioningProbeSample.

Lemma provisionTenant_alone_example :
  (provisionTenant 0 ProvisioningSample.bolt (uuid 0) (idle [acme] live [])).1 =
  Ok (done_with false (uuid 0) "bolt" "Bolt" "tenant_bolt").
Proof. vm_compute. reflexivity. Qed.

Lemma provisioning_probe_passes_witness :
  exitCode (provisioning_probe RUN uuid schedule (idle [acme] live [])).1 = 0 ∧
  registry (provisioning_probe RUN uuid schedule (idle [acme] live [])).2 = [acme] ∧
  cluster (provisioning_probe RUN uuid schedule (idle [acme] live [])).2 = live.
Proof.
  pose proof (provisioning_probe_passes RUN uuid schedule uuid_ok uuid_inj) as Hp.
  specialize (Hp ltac:(compute_decide) [acme] live []).
  destruct (provisioning_probe RUN uuid schedule (idle [acme] live [])) as [report s].
  destruct Hp as (H1 & _ & H2 & H3 & _); [| |done].
  - intros sc Hsc.
    assert (Hall : Forall (λ sc, slug_for RUN sc ∉ row_slug <$> [acme] ∧
        dbn RUN sc ∉ row_databaseName <$> [acme] ∧ live !! dbn RUN sc = None) (names RUN uuid schedule)) by compute_decide.
    rewrite Forall_forall in Hall. by apply Hall.
  - intros i. apply not_elem_of_cons. split; [|apply not_elem_of_nil].
    do 12 (destruct i as [|i]; [discriminate|]). unfold uuid. simpl. by destruct i.
Defined.

(** A database of somebody else under the name of a scenario stops the probe,
    which says so; but the clean-up goes by the names handed out, not by what was
    made, and drops that database. *)
Definition taken : gmap string Database := {[ "tenant_resume_emptydb_mdu0k3x9" := built_for (uuid 11) ]}.
Lemma cleanup_drops_by_name :
  let '(report, s) := provisioning_probe RUN uuid schedule (idle [] taken []) in
  report = [(FreshActive, true); (FreshMarked, true); (NoDb, true); (Stopped, false)] ∧
  cluster s !! "tenant_resume_emptydb_mdu0k3x9" = None.
Proof. vm_compute. by split. Qed.
