(* ===== verification/TenantSchema.v ===== *)
(** The schema transaction of a new tenant, statement by statement:
    initializeTenantDatabase of packages/db/src/connection-manager.ts with the
    two scripts it runs, packages/db/sql/tenant-schema.sql and
    audit-immutability.sql.

    [ConnectionManager.initializeTenantDatabase] treats the transaction as one
    atomic step. Here the function is a program that awaits one request after
    another, and the database is a server that answers any number of such
    programs in any order, refuses statements, drops connections before or after
    it did what they asked, and survives the death of its clients. The second
    half shows that the atomic step is what all of this amounts to. *)
From S2P Require Import Prelude Domain AuditHash ConnectionManager ImmutabilityProbe.
#[local] Open Scope nat_scope.

(** ** A program that awaits answers *)

Abbreviation answer := (M (list (option string))) (only parsing).

(** What is asked of the driver: one statement, or one script, at a time. *)
Inductive ddl :=
  | CreateSchemaIfNotExists (name : string)
  | CreateEnum (name : string) (labels : list string)
  | CreateTable (name pkey : string)
  | CreateIndex (name on : string)
  | AddForeignKey (on name references : string)
  | CreateOrReplaceFunction (name : string)
  | DropTriggerIfExists (name on : string)
  | CreateTrigger (name : string) (event : op) (on execute : string)
  | RevokeFromPublic (what : list op) (on : string)
  | DropConstraintIfExists (on name : string)
  | AddCheck (on name : string).

Inductive sql :=
  | BEGIN
  | ROLLBACK
  | COMMIT
  | SelectMarker
  | Script (statements : list ddl)
  | InsertPermissions (placeholders : list (nat * nat)) (params : list string)
  | InsertRole (name description : string)
  | GrantEveryPermission (role_id : string)
  | CommentOnDatabase (databaseName marker : string).

Inductive request :=
  | Connect (databaseName : string)
  | Query (q : sql)
  | End_.

Inductive client (A : Type) : Type :=
  | Return (r : M A)
  | Await (q : request) (k : answer → client A).
Arguments Return {A} r.
Arguments Await {A} q k.

Fixpoint cbind {A B} (m : client A) (f : A → client B) : client B :=
  match m with
  | Return (Ok a) => f a
  | Return (Throw e) => Return (Throw e)
  | Await q k => Await q (λ a, cbind (k a) f)
  end.

(** [try { m } catch (err) { h(err) }] *)
Fixpoint try_catch {A} (m : client A) (h : exn → client A) : client A :=
  match m with
  | Return (Ok a) => Return (Ok a)
  | Return (Throw e) => h e
  | Await q k => Await q (λ a, try_catch (k a) h)
  end.

(** [try { m } finally { f }]: what [f] throws replaces the outcome. *)
Fixpoint try_finally {A} (m : client A) (f : client ()) : client A :=
  match m with
  | Return r => cbind f (λ _, Return r)
  | Await q k => Await q (λ a, try_finally (k a) f)
  end.

#[export] Instance client_ret : MRet client := λ A a, Return (Ok a).
#[export] Instance client_bind : MBind client := λ A B f m, cbind m f.

Definition throw {A} (e : exn) : client A := Return (Throw e).
Definition query (q : sql) : client (list (option string)) := Await (Query q) Return.
Definition connect (databaseName : string) : client () := Await (Connect databaseName) (λ a, Return (_ ← a; Ok ())).
Definition end_ : client () := Await End_ (λ a, Return (_ ← a; Ok ())).

(** ** The program *)

Definition DUPLICATE_OBJECT : list string := ["42710"; "42P07"].

(** The [code] of what was thrown, where it has a string one. *)
Definition err_code (e : exn) : option string :=
  match e with
  | EPg c | EPrismaKnown c => Some c
  | EDomain d => Some (error_code d)
  | _ => None
  end.

Definition isDuplicateObject (err : exn) : bool :=
  match err_code err with Some c => bool_decide (c ∈ DUPLICATE_OBJECT) | None => false end.

(** sql/tenant-schema.sql *)
Definition tenant_ddl : list ddl :=
  [ CreateSchemaIfNotExists "public";
    CreateEnum "user_status" ["active"; "disabled"];
    CreateEnum "audit_actor_type" ["user"; "control_plane"; "system"; "anonymous"];
    CreateTable "users" "users_pkey";
    CreateTable "roles" "roles_pkey";
    CreateTable "permissions" "permissions_pkey";
    CreateTable "role_permissions" "role_permissions_pkey";
    CreateTable "user_roles" "user_roles_pkey";
    CreateTable "audit_events" "audit_events_pkey";
    CreateIndex "users_email_key" "users";
    CreateIndex "roles_name_key" "roles";
    CreateIndex "permissions_key_key" "permissions";
    CreateIndex "audit_events_resource_idx" "audit_events";
    CreateIndex "audit_events_action_idx" "audit_events";
    CreateIndex "audit_events_prev_hash_unique" "audit_events";
    CreateIndex "audit_events_hash_unique" "audit_events";
    AddForeignKey "role_permissions" "role_permissions_role_id_fkey" "roles";
    AddForeignKey "role_permissions" "role_permissions_permission_id_fkey" "permissions";
    AddForeignKey "user_roles" "user_roles_user_id_fkey" "users";
    AddForeignKey "user_roles" "user_roles_role_id_fkey" "roles" ].

(** sql/audit-immutability.sql *)
Definition audit_immutability_sql : list ddl :=
  [ CreateOrReplaceFunction "audit_events_reject_mutation";
    DropTriggerIfExists "audit_events_no_update" "audit_events";
    CreateTrigger "audit_events_no_update" UPDATE "audit_events" "audit_events_reject_mutation";
    DropTriggerIfExists "audit_events_no_delete" "audit_events";
    CreateTrigger "audit_events_no_delete" DELETE "audit_events" "audit_events_reject_mutation";
    DropTriggerIfExists "audit_events_no_truncate" "audit_events";
    CreateTrigger "audit_events_no_truncate" TRUNCATE "audit_events" "audit_events_reject_mutation";
    RevokeFromPublic [UPDATE; DELETE; TRUNCATE] "audit_events";
    DropConstraintIfExists "audit_events" "audit_events_hash_width_ck";
    AddCheck "audit_events" "audit_events_hash_width_ck";
    CreateOrReplaceFunction "audit_metadata_is_flat_strings";
    DropConstraintIfExists "audit_events" "audit_events_metadata_flat_ck";
    AddCheck "audit_events" "audit_events_metadata_flat_ck";
    DropConstraintIfExists "audit_events" "audit_events_actor_ck";
    AddCheck "audit_events" "audit_events_actor_ck";
    DropConstraintIfExists "audit_events" "audit_events_action_ck";
    AddCheck "audit_events" "audit_events_action_ck" ].

(** [($1, $2), ($3, $4), ...], by number. *)
Definition permissionTuples : list (nat * nat) :=
  imap (λ i _, (i * 2 + 1, i * 2 + 2)) DEFAULT_PERMISSIONS.
Definition permissionParams : list string :=
  mjoin ((λ p : string * string, [p.1; p.2]) <$> DEFAULT_PERMISSIONS).

(** [found.rows[0]?.marker ?? null] *)
Definition marker_found (rows : list (option string)) : option string := mjoin (head rows).

(** [role.rows[0].id] *)
Definition returned_id (rows : list (option string)) : client string :=
  match mjoin (head rows) with
  | Some id => mret id
  | None => throw (EError "Cannot read properties of undefined (reading 'id')")
  end.

(** What follows the marker check, up to the commit. *)
Definition build_schema (databaseName marker : string) : client () :=
  _ ← try_catch (query (Script tenant_ddl)) (λ err,
        if isDuplicateObject err
        then throw (ETenantDatabaseConflict databaseName
                      "it already holds tenant tables and carries no provisioning marker")
        else throw err);
  _ ← query (Script audit_immutability_sql);
  _ ← query (InsertPermissions permissionTuples permissionParams);
  role ← query (InsertRole TENANT_ADMIN_ROLE_NAME TENANT_ADMIN_ROLE_DESCRIPTION);
  role_id ← returned_id role;
  _ ← query (GrantEveryPermission role_id);
  _ ← query (CommentOnDatabase databaseName marker);
  _ ← query COMMIT;
  mret ().

(** The body of the [try]. *)
Definition schema_transaction (databaseName marker : string) : client () :=
  _ ← query BEGIN;
  found ← query SelectMarker;
  match marker_found found with
  | Some current =>
      if String.eqb current marker then _ ← query ROLLBACK; mret ()
      else throw (ETenantDatabaseConflict databaseName
                    ("it is marked " +:+ quote +:+ current +:+ quote +:+ ", not "
                       +:+ quote +:+ marker +:+ quote))
  | None => build_schema databaseName marker
  end.

(** [await client.query("ROLLBACK").catch(() => undefined); throw err;] *)
Definition roll_back_and_rethrow {A} (err : exn) : client A :=
  _ ← try_catch (query ROLLBACK) (λ _, mret []);
  throw err.

Definition initializeTenantDatabase (databaseName tenantId : string) : client () :=
  if negb (SAFE_DB_NAME databaseName) || negb (UUID tenantId)
  then throw (EError ("Refusing to mark " +:+ quote +:+ databaseName +:+ quote +:+ " for " +:+ quote
                        +:+ tenantId +:+ quote +:+ ": not a safe identifier"))
  else
    _ ← connect databaseName;
    try_finally
      (try_catch (schema_transaction databaseName (tenantDatabaseMarker tenantId)) roll_back_and_rethrow)
      end_.

(** ** The server *)

Record pg_table := { constraints : list string; triggers : list (string * op); to_public : list op }.

(** The catalogue of one database and the rows the transaction writes. Names of
    tables and of indexes are one name space; a table is also a type. *)
Record tenant_db := {
  marker : option string;
  types : list string;
  relations : list string;
  functions : list string;
  pg_tables : list (string * pg_table);
  permissions : list (string * (string * string));       (* id, key and description *)
  roles : list (string * (string * string));             (* id, name and description *)
  role_permissions : list (string * string);
  public_default : list op;      (* what a new table grants to PUBLIC *)
  other_rows : list string;
}.

Fixpoint mem (x : string) (l : list string) : bool :=
  match l with
  | [] => false
  | y :: l => String.eqb x y || mem x l
  end.
Fixpoint assoc {A} (x : string) (l : list (string * A)) : option A :=
  match l with
  | [] => None
  | (y, a) :: l => if String.eqb x y then Some a else assoc x l
  end.

(** Why the server refuses a statement of a script, by SQLSTATE. *)
Definition on_table {A} (n : string) (d : tenant_db) (f : pg_table → option A) (none : A) : option A :=
  match assoc n (pg_tables d) with Some t => f t | None => Some none end.

Definition refused_by (st : ddl) (d : tenant_db) : option string :=
  match st with
  | CreateSchemaIfNotExists _ | CreateOrReplaceFunction _ | DropTriggerIfExists _ _ => None
  | CreateEnum n _ => if mem n (types d) then Some "42710" else None
  | CreateTable n pkey =>
      if mem n (relations d) then Some "42P07"
      else if mem n (types d) then Some "42710"
      else if mem pkey (relations d) then Some "42P07" else None
  | CreateIndex n t => on_table t d (λ _, if mem n (relations d) then Some "42P07" else None) "42P01"
  | AddForeignKey t n r =>
      on_table t d (λ x, on_table r d (λ _,
        if mem n (constraints x) then Some "42710" else None) "42P01") "42P01"
  | CreateTrigger n _ t f =>
      on_table t d (λ x, if negb (mem f (functions d)) then Some "42883"
                         else if mem n (triggers x).*1 then Some "42710" else None) "42P01"
  | RevokeFromPublic _ t | DropConstraintIfExists t _ => on_table t d (λ _, None) "42P01"
  | AddCheck t n => on_table t d (λ x, if mem n (constraints x) then Some "42710" else None) "42P01"
  end.

Definition with_catalogue (tys rels fns : list string) (ts : list (string * pg_table)) (d : tenant_db)
    : tenant_db :=
  {| marker := marker d; types := tys; relations := rels; functions := fns; pg_tables := ts;
     permissions := permissions d; roles := roles d; role_permissions := role_permissions d;
     public_default := public_default d; other_rows := other_rows d |}.

Definition alter_table (n : string) (f : pg_table → pg_table) (d : tenant_db) : tenant_db :=
  with_catalogue (types d) (relations d) (functions d)
    ((λ x : string * pg_table, if String.eqb x.1 n then (x.1, f x.2) else x) <$> pg_tables d) d.

Definition with_rows (ps rs : list (string * (string * string))) (rps : list (string * string)) (d : tenant_db)
    : tenant_db :=
  {| marker := marker d; types := types d; relations := relations d; functions := functions d;
     pg_tables := pg_tables d; permissions := ps; roles := rs; role_permissions := rps;
     public_default := public_default d; other_rows := other_rows d |}.

(** A new table holds no rows. *)
Definition empty_table (n : string) (d : tenant_db) : tenant_db :=
  with_rows (if String.eqb n "permissions" then [] else permissions d)
            (if String.eqb n "roles" then [] else roles d)
            (if String.eqb n "role_permissions" then [] else role_permissions d) d.

Definition perform (st : ddl) (d : tenant_db) : tenant_db :=
  match st with
  | CreateSchemaIfNotExists _ => d
  | CreateEnum n _ => with_catalogue (n :: types d) (relations d) (functions d) (pg_tables d) d
  | CreateTable n pkey =>
      empty_table n (with_catalogue (n :: types d) (n :: pkey :: relations d) (functions d)
        ((n, {| constraints := [pkey]; triggers := []; to_public := public_default d |}) :: pg_tables d) d)
  | CreateIndex n _ => with_catalogue (types d) (n :: relations d) (functions d) (pg_tables d) d
  | AddForeignKey t n _ | AddCheck t n =>
      alter_table t (λ x, {| constraints := n :: constraints x; triggers := triggers x;
                             to_public := to_public x |}) d
  | CreateOrReplaceFunction n =>
      with_catalogue (types d) (relations d) (n :: functions d) (pg_tables d) d
  | DropTriggerIfExists n t =>
      alter_table t (λ x, {| constraints := constraints x;
                             triggers := List.filter (λ y, negb (String.eqb y.1 n)) (triggers x);
                             to_public := to_public x |}) d
  | CreateTrigger n o t _ =>
      alter_table t (λ x, {| constraints := constraints x; triggers := (n, o) :: triggers x;
                             to_public := to_public x |}) d
  | RevokeFromPublic os t =>
      alter_table t (λ x, {| constraints := constraints x; triggers := triggers x;
                             to_public := List.filter (λ o, negb (bool_decide (o ∈ os))) (to_public x) |}) d
  | DropConstraintIfExists t n =>
      alter_table t (λ x, {| constraints := List.filter (λ y, negb (String.eqb y n)) (constraints x);
                             triggers := triggers x; to_public := to_public x |}) d
  end.

Definition exec_ddl (st : ddl) (d : tenant_db) : M tenant_db :=
  match refused_by st d with Some c => Throw (EPg c) | None => Ok (perform st d) end.

(** One message with many statements: the first that fails ends it. *)
Fixpoint run_script (sts : list ddl) (d : tenant_db) : M tenant_db :=
  match sts with
  | [] => Ok d
  | st :: sts => d' ← exec_ddl st d; run_script sts d'
  end.

(** [$n], as bound. *)
Definition bind_pair (params : list string) (ij : nat * nat) : option (string * string) :=
  match params !! pred ij.1, params !! pred ij.2 with
  | Some a, Some b => Some (a, b)
  | _, _ => None
  end.

(** The statements that write rows; [gen] is gen_random_uuid() on each row. *)
Definition insert_permissions (gen : nat → string) (tuples : list (nat * nat)) (params : list string)
    (d : tenant_db) : M tenant_db :=
  match mapM (bind_pair params) tuples with
  | None => Throw (EPg "08P01")
  | Some values =>
      let all := permissions d ++ imap (λ i v, (gen i, v)) values in
      if negb (mem "permissions" (pg_tables d).*1) then Throw (EPg "42P01")
      else if bool_decide (NoDup all.*1) && bool_decide (NoDup all.*2.*1)
      then Ok (with_rows all (roles d) (role_permissions d) d)
      else Throw (EPg "23505")
  end.

Definition insert_role_row (gen : nat → string) (name description : string) (d : tenant_db)
    : M (tenant_db * list (option string)) :=
  let all := roles d ++ [(gen 0, (name, description))] in
  if negb (mem "roles" (pg_tables d).*1) then Throw (EPg "42P01")
  else if bool_decide (NoDup all.*1) && bool_decide (NoDup all.*2.*1)
  then Ok (with_rows (permissions d) all (role_permissions d) d, [Some (gen 0)])
  else Throw (EPg "23505").

Definition grant_every_permission (role_id : string) (d : tenant_db) : M tenant_db :=
  let all := role_permissions d ++ ((λ p : string * (string * string), (role_id, p.1)) <$> permissions d) in
  if negb (mem "role_permissions" (pg_tables d).*1) then Throw (EPg "42P01")
  else if negb (mem role_id (roles d).*1) then Throw (EPg "23503")
  else if bool_decide (NoDup all) then Ok (with_rows (permissions d) (roles d) all d)
  else Throw (EPg "23505").

Definition set_marker (m : string) (d : tenant_db) : tenant_db :=
  {| marker := Some m; types := types d; relations := relations d; functions := functions d;
     pg_tables := pg_tables d; permissions := permissions d; roles := roles d;
     role_permissions := role_permissions d; public_default := public_default d;
     other_rows := other_rows d |}.

(** A connection: outside a transaction, in one that has written nothing, in one
    with the database as it would commit it, or in one a statement of which has
    failed. *)
Inductive tx := Disconnected | Idle | Open | Writing (view : tenant_db) | Failed.

Definition connection_lost : exn := EError "Connection terminated unexpectedly".

(** Every statement sees what is committed, and the changes of its own
    transaction. *)
Definition sees (t : tx) (d : tenant_db) : tenant_db := match t with Writing v => v | _ => d end.

Definition write (f : tenant_db → M (tenant_db * list (option string))) (t : tx) (d : tenant_db)
    : answer * tx * tenant_db :=
  match t with
  | Disconnected => (Throw connection_lost, t, d)
  | Failed => (Throw (EPg "25P02"), t, d)
  | Idle => match f d with
            | Ok (d', rows) => (Ok rows, t, d')
            | Throw e => (Throw e, t, d)
            end
  | Open | Writing _ => match f (sees t d) with
                        | Ok (v, rows) => (Ok rows, Writing v, d)
                        | Throw e => (Throw e, Failed, d)
                        end
  end.

Definition no_rows (f : tenant_db → M tenant_db) (d : tenant_db) : M (tenant_db * list (option string)) :=
  d' ← f d; Ok (d', []).

Section database.
Context (name : string).                      (* of the database all of this is about *)

Definition respond (gen : nat → string) (r : request) (t : tx) (d : tenant_db) : answer * tx * tenant_db :=
  match r with
  | Connect _ => (Ok [], Idle, d)
  | End_ => (Ok [], Disconnected, d)
  | Query q =>
      match t, q with
      | Disconnected, _ => (Throw connection_lost, t, d)
      | _, ROLLBACK => (Ok [], Idle, d)
      | Writing v, COMMIT => (Ok [], Idle, v)
      | _, COMMIT => (Ok [], Idle, d)
      | Failed, _ => (Throw (EPg "25P02"), t, d)
      | Idle, BEGIN => (Ok [], Open, d)
      | _, BEGIN => (Ok [], t, d)
      | _, SelectMarker => (Ok [marker (sees t d)], t, d)
      | _, Script sts => write (no_rows (run_script sts)) t d
      | _, InsertPermissions tuples params => write (no_rows (insert_permissions gen tuples params)) t d
      | _, InsertRole n desc => write (insert_role_row gen n desc) t d
      | _, GrantEveryPermission id => write (no_rows (grant_every_permission id)) t d
      | _, CommentOnDatabase n m =>
          write (λ d, if String.eqb n name then Ok (set_marker m d, []) else Throw (EPg "3D000")) t d
      end
  end.

(** The statement is refused, or the commit is: nothing of it happened. *)
Definition after_refusal (r : request) (t : tx) : tx :=
  match r, t with
  | (Connect _ | End_), _ => Disconnected
  | Query COMMIT, (Open | Writing _ | Failed) => Idle
  | Query _, (Open | Writing _) => Failed
  | Query _, _ => t
  end.

(** *** Any number of runs on the database *)

Record session := { ses_tenant : string; ses_tx : tx; ses_client : client () }.

Record server := {
  committed : tenant_db;
  sessions : gmap nat session;
  outcomes : list (nat * string * M ());       (* run, tenant id, and what the call came to *)
}.

Inductive event :=
  | Start (p : nat) (tenantId : string)
  | Answer (p : nat) (gen : nat → string)
  | Refuse (p : nat) (e : exn)
  | Drop_ (p : nat) (gen : nat → string) (done : bool)   (* the connection, after or before it did *)
  | Die (p : nat).

Definition writes (r : request) : bool :=
  match r with
  | Query (Script _ | InsertPermissions _ _ | InsertRole _ _ | GrantEveryPermission _ | CommentOnDatabase _ _) => true
  | _ => false
  end.

Definition is_writing (t : tx) : bool := match t with Writing _ => true | _ => false end.

(** The first write of every run creates the type user_status: while one
    transaction holds it uncommitted, the others wait. *)
Definition waits (p : nat) (s : server) : bool :=
  existsb (λ x : nat * session, negb (Nat.eqb x.1 p) && is_writing (ses_tx x.2)) (map_to_list (sessions s)).

(** A run whose program has returned is over. *)
Definition proceed (p : nat) (id : string) (t : tx) (c : client ()) (d : tenant_db) (s : server) : server :=
  match c with
  | Return r => {| committed := d; sessions := delete p (sessions s); outcomes := outcomes s ++ [(p, id, r)] |}
  | Await _ _ => {| committed := d; outcomes := outcomes s;
                    sessions := <[p := {| ses_tenant := id; ses_tx := t; ses_client := c |}]> (sessions s) |}
  end.

Definition server_step (l : event) (s : server) : option server :=
  match l with
  | Start p id =>
      match sessions s !! p with
      | Some _ => None
      | None => Some (proceed p id Disconnected (initializeTenantDatabase name id) (committed s) s)
      end
  | Answer p gen =>
      match sessions s !! p with
      | Some {| ses_tenant := id; ses_tx := t; ses_client := Await r k |} =>
          if writes r && waits p s then None
          else let '(a, t', d') := respond gen r t (committed s) in Some (proceed p id t' (k a) d' s)
      | _ => None
      end
  | Refuse p e =>
      match sessions s !! p with
      | Some {| ses_tenant := id; ses_tx := t; ses_client := Await r k |} =>
          Some (proceed p id (after_refusal r t) (k (Throw e)) (committed s) s)
      | _ => None
      end
  | Drop_ p gen done =>
      match sessions s !! p with
      | Some {| ses_tenant := id; ses_tx := t; ses_client := Await r k |} =>
          if done && writes r && waits p s then None
          else
            let '(_, _, d') := respond gen r t (committed s) in
            Some (proceed p id Disconnected (k (Throw connection_lost)) (if done then d' else committed s) s)
      | _ => None
      end
  | Die p =>
      match sessions s !! p with
      | Some _ => Some {| committed := committed s; sessions := delete p (sessions s); outcomes := outcomes s |}
      | None => None
      end
  end.

Fixpoint server_exec (tr : list event) (s : server) : option server :=
  match tr with
  | [] => Some s
  | l :: tr => match server_step l s with Some s' => server_exec tr s' | None => None end
  end.

Definition at_work_on (d : tenant_db) : server := {| committed := d; sessions := ∅; outcomes := [] |}.

(** One program with the database to itself and nothing going wrong; [gens n] is
    what its [n]th request draws. *)
Fixpoint run_client {A} (gens : nat → nat → string) (n : nat) (c : client A) (t : tx) (d : tenant_db)
    : M A * tx * tenant_db :=
  match c with
  | Return r => (r, t, d)
  | Await q k => let '(a, t', d') := respond (gens n) q t d in run_client gens (S n) (k a) t' d'
  end.
End database.

(** ** What the atomic step sees of the database *)

Definition tenant_types : list string :=
  ["user_status"; "audit_actor_type"; "users"; "roles"; "permissions"; "role_permissions"; "user_roles";
   "audit_events"].
Definition tenant_relations : list string :=
  ["users"; "users_pkey"; "roles"; "roles_pkey"; "permissions"; "permissions_pkey"; "role_permissions";
   "role_permissions_pkey"; "user_roles"; "user_roles_pkey"; "audit_events"; "audit_events_pkey";
   "users_email_key"; "roles_name_key"; "permissions_key_key"; "audit_events_resource_idx";
   "audit_events_action_idx"; "audit_events_prev_hash_unique"; "audit_events_hash_unique"].

(** It holds tenant tables when a name the schema wants is taken. *)
Definition holds_tenant_objects (d : tenant_db) : bool :=
  existsb (λ n, mem n (types d)) tenant_types || existsb (λ n, mem n (relations d)) tenant_relations.

(** The protections of its audit table, as the immutability probe meets them when
    it connects as the owner. *)
Definition table_controls (d : tenant_db) : controls :=
  let t := default {| constraints := []; triggers := []; to_public := [] |} (assoc "audit_events" (pg_tables d)) in
  {| trigger o := bool_decide (o ∈ (triggers t).*2); role_may := λ _, true;
     public_may o := bool_decide (o ∈ to_public t);
     fork_guard := mem "audit_events_prev_hash_unique" (relations d);
     insert_refused := None; fault := λ _, None |}.

Definition protected_log (d : tenant_db) : bool :=
  let c := table_controls d in
  forallb (λ o, trigger c o && negb (public_may c o)) ops && fork_guard c.

(** The role's name and the permission's key a grant stands for. *)
Definition grant_names (d : tenant_db) (g : string * string) : option (string * string) :=
  match assoc g.1 (roles d), assoc g.2 (permissions d) with
  | Some r, Some p => Some (r.1, p.1)
  | _, _ => None
  end.

Definition abs_schema (d : tenant_db) : Schema :=
  {| ConnectionManager.append_only := protected_log d; permissions_seeded := (permissions d).*2; roles_seeded := (roles d).*2;
     grants_seeded := omap (grant_names d) (role_permissions d) |}.

Definition abs (d : tenant_db) : Database :=
  {| comment := marker d; tables := if holds_tenant_objects d then Some (abs_schema d) else None;
     foreign_rows := other_rows d |}.
(** ** Scripts *)

Definition performs (sts : list ddl) (d : tenant_db) : tenant_db := foldl (λ d st, perform st d) d sts.

Fixpoint accepts (sts : list ddl) (d : tenant_db) : Prop :=
  match sts with
  | [] => True
  | st :: sts => refused_by st d = None ∧ accepts sts (perform st d)
  end.

Lemma run_script_accepts sts d : accepts sts d → run_script sts d = Ok (performs sts d).
Proof.
  revert d. induction sts as [|st sts IH]; intros d Ha; [done|]. destruct Ha as [H1 H2].
  cbn [run_script]. unfold exec_ddl. rewrite H1. apply IH, H2.
Qed.

(** Statements that only create, on tables that are there. *)
Definition made_tables (st : ddl) : list string := match st with CreateTable n _ => [n] | _ => [] end.
Definition made_types (st : ddl) : list string :=
  match st with CreateEnum n _ | CreateTable n _ => [n] | _ => [] end.
Definition made_relations (st : ddl) : list string :=
  match st with CreateTable n pkey => [n; pkey] | CreateIndex n _ => [n] | _ => [] end.
Definition creates_on (have : list string) (st : ddl) : bool :=
  match st with
  | CreateSchemaIfNotExists _ | CreateEnum _ _ | CreateTable _ _ => true
  | CreateIndex _ t => mem t have
  | AddForeignKey t _ r => mem t have && mem r have
  | _ => false
  end.
Fixpoint creates (have : list string) (sts : list ddl) : bool :=
  match sts with
  | [] => true
  | st :: sts => creates_on have st && creates (made_tables st ++ have) sts
  end.

Lemma mem_spec x l : mem x l = true ↔ x ∈ l.
Proof.
  induction l as [|y l IH]; cbn [mem]; [by split; [|intros ?%not_elem_of_nil]|].
  rewrite orb_true_iff, IH, elem_of_cons, String.eqb_eq. done.
Qed.

Lemma assoc_dom {A} x (l : list (string * A)) : mem x l.*1 = true → ∃ a, assoc x l = Some a.
Proof.
  induction l as [|[y a] l IH]; [done|]. cbn. destruct (String.eqb x y); [eauto|exact IH].
Qed.

Lemma duplicate_code c e : e = EPg c → c ∈ DUPLICATE_OBJECT → isDuplicateObject e = true.
Proof. intros -> Hc. unfold isDuplicateObject. simpl. by apply bool_decide_eq_true. Qed.

Lemma refused_creating have st d c :
  creates_on have st = true → (∀ t, mem t have = true → mem t (pg_tables d).*1 = true) →
  refused_by st d = Some c → c ∈ DUPLICATE_OBJECT.
Proof.
  assert (H1 : "42710" ∈ DUPLICATE_OBJECT) by (by left).
  assert (H2 : "42P07" ∈ DUPLICATE_OBJECT) by (by right; left).
  intros Hc Hh Hr. destruct st; cbn [refused_by creates_on] in *; try done; unfold on_table in Hr;
    try (repeat case_match; simplify_eq; assumption).
  - destruct (assoc_dom _ _ (Hh _ Hc)) as [x Hx]; rewrite Hx in Hr. case_match; simplify_eq; assumption.
  - apply andb_true_iff in Hc as [Hc1 Hc2]. destruct (assoc_dom _ _ (Hh _ Hc1)) as [x Hx]; rewrite Hx in Hr.
    destruct (assoc_dom _ _ (Hh _ Hc2)) as [y Hy]; rewrite Hy in Hr. case_match; simplify_eq; assumption.
Qed.

Lemma perform_makes st d have :
  creates_on have st = true →
  types (perform st d) = made_types st ++ types d ∧
  relations (perform st d) = made_relations st ++ relations d ∧
  (pg_tables (perform st d)).*1 = made_tables st ++ (pg_tables d).*1.
Proof.
  destruct st; try done. intros _. cbn. split_and!; [done..|].
  rewrite <- list_fmap_compose. apply list_fmap_ext. intros i x _. simpl. by destruct (String.eqb _ _).
Qed.

Lemma refused_if_taken st d n :
  refused_by st d = None → (n ∈ made_types st → mem n (types d) = false) ∧
  (n ∈ made_relations st → mem n (relations d) = false).
Proof.
  destruct st; cbn; unfold on_table; intros Hr; split; intros Hin; try (by apply not_elem_of_nil in Hin);
    repeat match type of Hr with context [mem ?x ?l] => destruct (mem x l) eqn:?; try done end;
    repeat match type of Hr with context [match ?x with _ => _ end] => destruct x eqn:?; try done end;
    repeat (apply elem_of_cons in Hin as [->|Hin]); try done; by apply not_elem_of_nil in Hin.
Qed.

(** A script of this kind that is refused is refused for a duplicate; one that is
    accepted found every name free. *)
Lemma creating_script have sts d :
  creates have sts = true → (∀ t, mem t have = true → mem t (pg_tables d).*1 = true) →
  (∃ c, run_script sts d = Throw (EPg c) ∧ c ∈ DUPLICATE_OBJECT) ∨
  (accepts sts d ∧ (∀ n, n ∈ mjoin (made_types <$> sts) → mem n (types d) = false) ∧
   (∀ n, n ∈ mjoin (made_relations <$> sts) → mem n (relations d) = false)).
Proof.
  revert have d. induction sts as [|st sts IH]; intros have d Hc Hh.
  { right. split_and!; [done|..]; intros n Hn; by apply not_elem_of_nil in Hn. }
  cbn in Hc. apply andb_true_iff in Hc as [Hst Hc]. cbn [run_script]. unfold exec_ddl.
  destruct (refused_by st d) as [c|] eqn:Er.
  { left. exists c. split; [done|]. by eapply refused_creating. }
  destruct (perform_makes st d have Hst) as (Ht & Hr & Hp).
  destruct (IH (made_tables st ++ have) (perform st d) Hc) as [(c & Hrun & Hd)|(Ha & Hty & Hre)].
  { intros t. rewrite Hp, !mem_spec, !elem_of_app, <- !mem_spec. naive_solver. }
  { left. by exists c. }
  right. split; [done|]. rewrite Ht in Hty. rewrite Hr in Hre.
  split; intros n [Hn|Hn]%elem_of_app; try (by apply (refused_if_taken st d n Er));
    [specialize (Hty n Hn)|specialize (Hre n Hn)];
    match goal with H : _ = false |- _ => apply not_true_iff_false in H; apply not_true_iff_false end;
    rewrite mem_spec in *; rewrite elem_of_app in *; tauto.
Qed.

Lemma names_of_the_ddl :
  tenant_types ⊆ mjoin (made_types <$> tenant_ddl) ∧ tenant_relations ⊆ mjoin (made_relations <$> tenant_ddl).
Proof.
  split; intros n Hn; apply mem_spec;
    repeat (apply elem_of_cons in Hn as [->|Hn]; [reflexivity|]); by apply not_elem_of_nil in Hn.
Qed.

Lemma ddl_on_taken_names d :
  holds_tenant_objects d = true →
  ∃ c, run_script tenant_ddl d = Throw (EPg c) ∧ c ∈ DUPLICATE_OBJECT.
Proof.
  intros Hh. destruct (creating_script [] tenant_ddl d) as [|(_ & Ht & Hr)]; [done|done|done|].
  destruct names_of_the_ddl as [Hnt Hnr]. unfold holds_tenant_objects in Hh.
  apply orb_true_iff in Hh as [Hh|Hh]; apply existsb_exists in Hh as (n & Hn & Hm);
    rewrite <- list_elem_of_In in Hn; [rewrite Ht in Hm by auto|rewrite Hr in Hm by auto]; done.
Qed.
Lemma ddl_on_free_names d :
  holds_tenant_objects d = false → accepts tenant_ddl d.
Proof.
  unfold holds_tenant_objects. cbn [existsb tenant_types tenant_relations]. rewrite !orb_false_iff.
  intros [Ht Hr]. destruct_and!. cbn. unfold on_table. cbn.
  repeat match goal with H : mem _ _ = false |- _ => rewrite H; clear H end.
  split_and!; reflexivity.
Qed.

(** ** What the statements add up to *)

Definition after_scripts (d : tenant_db) : tenant_db := performs audit_immutability_sql (performs tenant_ddl d).

(** The state [s] in which the two scripts leave [d]. *)
Record scripted (d s : tenant_db) : Prop := {
  sc_holds : holds_tenant_objects s = true;
  sc_protected : protected_log s = true;
  sc_other : other_rows s = other_rows d;
  sc_permissions : permissions s = [] ∧ mem "permissions" (pg_tables s).*1 = true;
  sc_roles : roles s = [] ∧ mem "roles" (pg_tables s).*1 = true;
  sc_grants : role_permissions s = [] ∧ mem "role_permissions" (pg_tables s).*1 = true;
}.

Lemma audit_sql_accepted d : accepts audit_immutability_sql (performs tenant_ddl d).
Proof. vm_compute. split_and!; reflexivity. Qed.

Lemma audit_table d :
  assoc "audit_events" (pg_tables (after_scripts d)) = Some
    {| constraints := ["audit_events_action_ck"; "audit_events_actor_ck"; "audit_events_metadata_flat_ck";
                       "audit_events_hash_width_ck"; "audit_events_pkey"];
       triggers := [("audit_events_no_truncate", TRUNCATE); ("audit_events_no_delete", DELETE);
                    ("audit_events_no_update", UPDATE)];
       to_public := List.filter (λ o, negb (bool_decide (o ∈ [UPDATE; DELETE; TRUNCATE]))) (public_default d) |}.
Proof. vm_compute. reflexivity. Qed.

(** Whatever the cluster grants to PUBLIC by default. *)
Lemma after_scripts_protected d : protected_log (after_scripts d) = true.
Proof.
  unfold protected_log, table_controls. rewrite audit_table. cbn [from_option id triggers to_public fork_guard].
  replace (mem _ _) with true by reflexivity. rewrite andb_true_r. apply forallb_forall. intros o _.
  cbn [trigger public_may]. apply andb_true_iff. split.
  - apply bool_decide_eq_true. destruct o; cbn [fmap list_fmap snd]; set_solver.
  - apply negb_true_iff, bool_decide_eq_false. rewrite list_elem_of_In, filter_In. intros [_ Hn].
    apply negb_true_iff, bool_decide_eq_false in Hn. destruct o; set_solver.
Qed.

Lemma after_scripts_scripted d : scripted d (after_scripts d).
Proof. split; [|apply after_scripts_protected|..]; vm_compute; by split_and?. Qed.

Definition seeded_permissions (g : nat → string) : list (string * (string * string)) :=
  imap (λ i p, (g i, p)) DEFAULT_PERMISSIONS.

(** The database as a run for [m] commits it. *)
Definition built (gp gr : nat → string) (m : string) (s : tenant_db) : tenant_db :=
  set_marker m
    (with_rows (seeded_permissions gp) [(gr 0, (TENANT_ADMIN_ROLE_NAME, TENANT_ADMIN_ROLE_DESCRIPTION))]
       ((λ p : string * (string * string), (gr 0, p.1)) <$> seeded_permissions gp) s).

Lemma assoc_here {A} (l : list (string * A)) i x a :
  NoDup l.*1 → l !! i = Some (x, a) → assoc x l = Some a.
Proof.
  revert i. induction l as [|[y b] l IH]; intros i Hnd Hi; [done|].
  apply NoDup_cons in Hnd as [Hy Hnd]. cbn in Hy |- *.
  destruct i as [|i]; cbn in Hi; [simplify_eq; by rewrite String.eqb_refl|].
  destruct (String.eqb_spec x y) as [->|]; [|by eapply IH].
  exfalso. apply Hy. change y with ((y, a).1). apply list_elem_of_fmap_2. by eapply list_elem_of_lookup_2.
Qed.

Lemma assoc_head {A} x (a : A) l : assoc x ((x, a) :: l) = Some a.
Proof. cbn. by rewrite String.eqb_refl. Qed.

Lemma abs_built gp gr m d s :
  scripted d s → NoDup (seeded_permissions gp).*1 →
  abs (built gp gr m s) = {| comment := Some m; tables := Some tenant_schema; foreign_rows := other_rows d |}.
Proof.
  intros [Hh Hp Ho _ _ _] Hnd. unfold abs, abs_schema, built.
  change (holds_tenant_objects (set_marker _ (with_rows _ _ _ s))) with (holds_tenant_objects s).
  change (protected_log (set_marker _ (with_rows _ _ _ s))) with (protected_log s).
  change (other_rows (set_marker _ (with_rows _ _ _ s))) with (other_rows s). rewrite Hh, Hp, Ho.
  do 2 f_equal. unfold tenant_schema, grant_names.
  cbn [marker permissions roles role_permissions set_marker with_rows fmap list_fmap omap list_omap seeded_permissions
       imap DEFAULT_PERMISSIONS compose fst snd].
  rewrite !assoc_head.
  pose proof (assoc_here _ 1 _ _ Hnd eq_refl) as H1. pose proof (assoc_here _ 2 _ _ Hnd eq_refl) as H2.
  cbn [seeded_permissions imap DEFAULT_PERMISSIONS compose] in H1, H2. rewrite H1, H2.
  reflexivity.
Qed.

(** The row statements, on the empty tables. *)
Lemma insert_permissions_on gen d s :
  scripted d s →
  insert_permissions gen permissionTuples permissionParams s =
    if bool_decide (NoDup (seeded_permissions gen).*1)
    then Ok (with_rows (seeded_permissions gen) [] [] s) else Throw (EPg "23505").
Proof.
  intros [_ _ _ [Hp Ht] [Hr _] [Hg _]]. unfold insert_permissions.
  replace (mapM _ _) with (Some DEFAULT_PERMISSIONS) by reflexivity.
  rewrite Hp, Hr, Hg, Ht. cbn [app negb]. fold (seeded_permissions gen).
  replace (bool_decide (NoDup (seeded_permissions gen).*2.*1)) with true; [by rewrite andb_true_r|].
  symmetry. apply bool_decide_eq_true. cbn. compute_decide.
Qed.

Lemma insert_role_on gen n desc ps d s :
  scripted d s →
  insert_role_row gen n desc (with_rows ps [] [] s) =
    Ok (with_rows ps [(gen 0, (n, desc))] [] s, [Some (gen 0)]).
Proof.
  intros [_ _ _ _ [_ Ht] _]. unfold insert_role_row. cbn [roles role_permissions permissions pg_tables with_rows app].
  rewrite Ht. cbn. rewrite !bool_decide_true by apply NoDup_singleton. done.
Qed.

Lemma grant_on id n desc gen d s :
  scripted d s →
  grant_every_permission id (with_rows (seeded_permissions gen) [(id, (n, desc))] [] s) =
    if bool_decide (NoDup ((λ p : string * (string * string), (id, p.1)) <$> seeded_permissions gen))
    then Ok (with_rows (seeded_permissions gen) [(id, (n, desc))]
               ((λ p : string * (string * string), (id, p.1)) <$> seeded_permissions gen) s)
    else Throw (EPg "23505").
Proof.
  intros [_ _ _ _ _ [_ Ht]]. unfold grant_every_permission.
  cbn [roles role_permissions permissions pg_tables with_rows app fmap list_fmap fst mem].
  rewrite Ht, String.eqb_refl. done.
Qed.

(** ** One run, whatever happens to the database meanwhile *)

Section runs.
Context (name : string).

(** From [d] to [d'] is one atomic step for the tenant [id]. *)
Definition builds (id : string) (d d' : tenant_db) : Prop :=
  ∀ dbs, dbs !! name = Some (abs d) →
    ConnectionManager.initializeTenantDatabase name id dbs = Ok (<[name := abs d']> dbs).

Definition sound (d : tenant_db) : Prop := marker d ≠ None → tables (abs d) = Some tenant_schema.

Definition marked (id : string) (d : tenant_db) : Prop := marker d = Some (tenantDatabaseMarker id).

(** What must hold of a program at any of its requests: whatever the database has
    become, it is changed by nothing but an atomic step, and only a program that
    knows the marker to be there succeeds. [base] is what is committed while the
    run has written something. *)
Fixpoint wp (id : string) (known : bool) (base : tenant_db) (t : tx) (c : client ()) : Prop :=
  match c with
  | Return r => r = Ok () → known = true
  | Await q k =>
      (∀ gen d, sound d → (known = true → marked id d) → (is_writing t = true → d = base) →
         let '(a, t', d') := respond name gen q t d in
         (d' = d ∨ builds id d d' ∧ marked id d' ∧ sound d') ∧
         ∃ known' base', (known' = true → marked id d') ∧ (is_writing t' = true → base' = d') ∧
           wp id known' base' t' (k a)) ∧
      (∀ e, wp id known base (after_refusal q t) (k (Throw e))) ∧
      wp id known base Disconnected (k (Throw connection_lost))
  end.

(** The handlers around the transaction. *)
Definition guarded (m : client ()) : client () := try_finally (try_catch m roll_back_and_rethrow) end_.

Lemma wp_end id known base t r :
  (r = Ok () → known = true) → wp id known base t (try_finally (Return r) end_).
Proof.
  intros Hr. cbn. split_and!; [|by intros|done]. intros gen d _ Hk _. split; [by left|].
  exists known, base. split_and!; [done|done|]. cbn. done.
Qed.

Lemma wp_throw id known base t e : wp id known base t (guarded (throw e)).
Proof.
  change (guarded (throw e)) with (Await (Query ROLLBACK)
    (λ a, try_finally (cbind (try_catch (Return a) (λ _, mret (@nil (option string)))) (λ _, throw (A := ()) e)) end_)).
  assert (He : ∀ known base t a, wp id known base t
    (try_finally (cbind (try_catch (Return a) (λ _, mret (@nil (option string)))) (λ _, throw (A := ()) e)) end_)).
  { intros ? ? ? []; by apply (wp_end id _ _ _ (Throw e)). }
  cbn [wp]. split_and!; [|intros; apply He|apply He].
  intros gen d _ Hk _. destruct t; cbn [respond]; (split; [by left|]); exists known, base;
    (split; [done|split; [done|apply He]]).
Qed.

(** A request whose failure ends the transaction. *)
Lemma wp_query id known base t q (f : list (option string) → client ()) :
  (∀ gen d, sound d → (known = true → marked id d) → (is_writing t = true → d = base) →
     let '(a, t', d') := respond name gen (Query q) t d in
     (d' = d ∨ builds id d d' ∧ marked id d' ∧ sound d') ∧
     ∀ rows, a = Ok rows →
       ∃ known' base', (known' = true → marked id d') ∧ (is_writing t' = true → base' = d') ∧
         wp id known' base' t' (guarded (f rows))) →
  wp id known base t (guarded (query q ≫= f)).
Proof.
  intros Hq. change (guarded (query q ≫= f)) with
    (Await (Query q) (λ a, guarded (cbind (Return a) f))).
  cbn [wp]. split_and!.
  - intros gen d Hs Hk Hb. specialize (Hq gen d Hs Hk Hb). destruct (respond _ _ _ _ _) as [[a t'] d'] eqn:E.
    destruct Hq as [Hd Ha]. split; [done|]. destruct a as [rows|e]; [by apply Ha|].
    exists false, d'. split_and!; [done|done|]. apply wp_throw.
  - intros e. apply wp_throw.
  - apply wp_throw.
Qed.

(** A write inside the transaction changes the view of it and nothing else. *)
Lemma wp_write id known base t q g (f : list (option string) → client ()) :
  (t = Open ∨ ∃ v, t = Writing v) →
  (∀ gen d, respond name gen (Query q) t d = write (g gen) t d) →
  (∀ gen d v rows, sound d → (known = true → marked id d) → (is_writing t = true → d = base) →
     g gen (sees t d) = Ok (v, rows) → wp id known d (Writing v) (guarded (f rows))) →
  wp id known base t (guarded (query q ≫= f)).
Proof.
  intros Ht Hg Hf. apply wp_query. intros gen d Hs Hk Hb. rewrite Hg.
  destruct Ht as [->|[v ->]]; cbn [write];
    (destruct (g gen _) as [[v' rows]|e] eqn:E; split; [by left| |by left|done]);
    intros rows' [= <-]; exists known, d; (split_and!; [done|done|]); by eapply Hf.
Qed.

(** *** The transaction, from its last statement to its first *)

Lemma no_rows_Ok (f : tenant_db → M tenant_db) d v rows : no_rows f d = Ok (v, rows) → f d = Ok v ∧ rows = [].
Proof. unfold no_rows. destruct (f d); [by intros [= <- <-]|done]. Qed.

Lemma builds_built id gp gr d s :
  SAFE_DB_NAME name = true → UUID id = true → marker d = None → holds_tenant_objects d = false →
  scripted d s → NoDup (seeded_permissions gp).*1 →
  builds id d (built gp gr (tenantDatabaseMarker id) s).
Proof.
  intros Hn Hi Hm Hh Hs Hnd dbs Hdb. rewrite (abs_built gp gr _ d s Hs Hnd).
  unfold ConnectionManager.initializeTenantDatabase. rewrite Hn, Hi. cbn [negb orb].
  rewrite Hdb. unfold abs. rewrite Hm, Hh. done.
Qed.

Context (Hname : SAFE_DB_NAME name = true).

Lemma wp_commit id gp gr base s :
  UUID id = true → marker base = None → holds_tenant_objects base = false → scripted base s →
  NoDup (seeded_permissions gp).*1 →
  wp id false base (Writing (built gp gr (tenantDatabaseMarker id) s)) (guarded (_ ← query COMMIT; mret ())).
Proof.
  intros Hid Hm Hh Hs Hnd. apply wp_query. intros gen d _ _ Hb. rewrite (Hb eq_refl). cbn [respond].
  split.
  - right. split_and!; [by apply builds_built|done|]. intros _. by rewrite (abs_built _ _ _ _ _ Hs Hnd).
  - intros rows _. exists true, base. split_and!; [done|done|]. by apply wp_end.
Qed.

Lemma wp_seed id base s :
  UUID id = true → marker base = None → holds_tenant_objects base = false → scripted base s →
  wp id false base (Writing s) (guarded (
    _ ← query (InsertPermissions permissionTuples permissionParams);
    role ← query (InsertRole TENANT_ADMIN_ROLE_NAME TENANT_ADMIN_ROLE_DESCRIPTION);
    role_id ← returned_id role;
    _ ← query (GrantEveryPermission role_id);
    _ ← query (CommentOnDatabase name (tenantDatabaseMarker id));
    _ ← query COMMIT;
    mret ())).
Proof.
  intros Hid Hm Hh Hs.
  eapply wp_write; [by eauto|done|]. intros gp d v rows _ _ Hb Hv. rewrite (Hb eq_refl). clear Hb.
  apply no_rows_Ok in Hv as [Hv ->]. cbn [sees] in Hv. rewrite (insert_permissions_on _ _ _ Hs) in Hv.
  destruct (bool_decide _) eqn:Hnd in Hv; [|done]. apply bool_decide_eq_true in Hnd. injection Hv as <-.
  eapply wp_write; [by eauto|done|]. intros gr d' v' rows _ _ Hb Hv. rewrite (Hb eq_refl). clear Hb.
  cbn [sees] in Hv. rewrite (insert_role_on _ _ _ _ _ _ Hs) in Hv. injection Hv as <- <-.
  change (returned_id [Some (gr 0)]) with (mret (M := client) (gr 0)).
  eapply wp_write; [by eauto|done|]. intros gg d'' v'' rows _ _ Hb Hv. rewrite (Hb eq_refl). clear Hb.
  apply no_rows_Ok in Hv as [Hv ->]. cbn [sees] in Hv. rewrite (grant_on _ _ _ _ _ _ Hs) in Hv.
  destruct (bool_decide _) in Hv; [|done]. injection Hv as <-.
  eapply wp_write; [by eauto|done|]. intros gc d3 v3 rows _ _ Hb Hv. rewrite (Hb eq_refl). clear Hb.
  cbn [sees] in Hv. rewrite String.eqb_refl in Hv. injection Hv as <- <-.
  by apply wp_commit.
Qed.

Lemma Ok_inj {E A} (a b : A) : @Ok E A a = Ok b → a = b.
Proof. by intros [= ->]. Qed.

Lemma wp_build id base : UUID id = true → wp id false base Open (guarded (build_schema name (tenantDatabaseMarker id))).
Proof.
  intros Hid. unfold build_schema.
  match goal with |- wp _ _ _ _ (guarded (_ ≫= ?f)) => set (rest := f) end.
  change (guarded (try_catch _ _ ≫= rest)) with (Await (Query (Script tenant_ddl))
    (λ a, guarded (cbind (try_catch (Return a) (λ err,
       if isDuplicateObject err
       then throw (ETenantDatabaseConflict name
                     "it already holds tenant tables and carries no provisioning marker")
       else throw err)) rest))).
  assert (He : ∀ t e, wp id false base t (guarded (cbind (try_catch (Return (Throw e)) (λ err,
       if isDuplicateObject err
       then throw (ETenantDatabaseConflict name
                     "it already holds tenant tables and carries no provisioning marker")
       else throw err)) rest))).
  { intros t e. cbn [try_catch]. destruct (isDuplicateObject e); apply wp_throw. }
  cbn [wp]. split_and!; [|intros e; apply He|apply He].
  intros gen d Hs _ _. cbn [respond write sees]. unfold no_rows.
  destruct (holds_tenant_objects d) eqn:Hh.
  { destruct (ddl_on_taken_names d Hh) as (c & -> & _). cbn [mbind result_bind rbind]. split; [by left|].
    exists false, base. split; [done|split; [done|apply He]]. }
  rewrite (run_script_accepts _ _ (ddl_on_free_names d Hh)). cbn [mbind result_bind rbind]. split; [by left|].
  exists false, d. split; [done|split; [done|]].
  assert (Hm : marker d = None).
  { destruct (marker d) as [m|] eqn:Em; [|done]. unfold sound in Hs. rewrite Em in Hs.
    specialize (Hs ltac:(done)). unfold abs in Hs. rewrite Hh in Hs. done. }
  cbn [try_catch cbind]. unfold rest.
  eapply wp_write; [by eauto|done|]. intros gg d' v rows _ _ Hb Hv. rewrite (Hb eq_refl). clear Hb.
  apply no_rows_Ok in Hv as [Hv ->]. cbn [sees] in Hv.
  rewrite (run_script_accepts _ _ (audit_sql_accepted d)) in Hv. fold (after_scripts d) in Hv.
  apply Ok_inj in Hv as <-.
  apply wp_seed; [done|done|done|apply after_scripts_scripted].
Qed.

Lemma wp_transaction id base :
  UUID id = true → wp id false base Idle (guarded (schema_transaction name (tenantDatabaseMarker id))).
Proof.
  intros Hid. unfold schema_transaction. apply wp_query. intros gen d _ _ _. cbn [respond].
  split; [by left|]. intros rows _. exists false, base. split; [done|split; [done|]].
  apply wp_query. intros gen' d' _ _ _. cbn [respond sees]. split; [by left|]. intros rows' [= <-].
  unfold marker_found. cbn [head mjoin option_join].
  destruct (marker d') as [current|] eqn:Em.
  - destruct (String.eqb_spec current (tenantDatabaseMarker id)) as [->|].
    + exists true, base. split; [done|split; [done|]]. apply wp_query. intros g d2 _ Hk _. cbn [respond].
      split; [by left|]. intros ? _. exists true, base. split; [done|split; [done|]]. by apply wp_end.
    + exists false, base. split; [done|split; [done|]]. apply wp_throw.
  - exists false, base. split; [done|split; [done|]]. by apply wp_build.
Qed.

Lemma wp_initialize id base : wp id false base Disconnected (initializeTenantDatabase name id).
Proof.
  unfold initializeTenantDatabase. rewrite Hname. destruct (UUID id) eqn:Hid; [|done]. cbn [negb orb].
  change (connect name ≫= _) with (Await (Connect name)
    (λ a, cbind (Return (_ ← a; Ok ())) (λ _, guarded (schema_transaction name (tenantDatabaseMarker id))))).
  cbn [wp]. split_and!; [|done|done]. intros gen d _ _ _. cbn [respond]. split; [by left|].
  exists false, base. split; [done|split; [done|]]. by apply wp_transaction.
Qed.

(** ** Any number of runs *)

Lemma builds_keeps_marker id d d' m : builds id d d' → marker d = Some m → marker d' = Some m.
Proof.
  intros Hb Hm. specialize (Hb {[ name := abs d ]} ltac:(apply lookup_singleton_eq)).
  unfold ConnectionManager.initializeTenantDatabase in Hb. destruct (_ || _); [done|].
  rewrite lookup_singleton_eq in Hb. cbn [abs comment] in Hb. rewrite Hm in Hb.
  destruct (String.eqb _ _); [|done]. apply Ok_inj, (f_equal (lookup name)) in Hb.
  rewrite lookup_singleton_eq, lookup_insert_eq in Hb. injection Hb as Hb. congruence.
Qed.

(** A run that changes the database was the one with changes, or was let write. *)
Lemma respond_changes gen q t d :
  let '(_, t', d') := respond name gen q t d in
  (d' = d ∨ is_writing t = true ∨ writes q = true) ∧
  (is_writing t' = true → is_writing t = true ∨ writes q = true).
Proof.
  destruct q as [n|q|]; [by split; [left|]| |by split; [left|]].
  destruct t, q; cbn; repeat case_match; simplify_eq; cbn; naive_solver.
Qed.

Lemma refusal_writes_nothing q t : is_writing (after_refusal q t) = true → is_writing t = true.
Proof. by destruct q as [|[]|], t. Qed.

Record inv (ids : list string) (s : server) : Prop := {
  iv_sound : sound (committed s);
  iv_run : ∀ p r, sessions s !! p = Some r → ses_tenant r ∈ ids ∧
    ∃ known base, (known = true → marked (ses_tenant r) (committed s)) ∧
      (is_writing (ses_tx r) = true → base = committed s) ∧ wp (ses_tenant r) known base (ses_tx r) (ses_client r);
  iv_writer : ∀ p q r r', sessions s !! p = Some r → sessions s !! q = Some r' →
    is_writing (ses_tx r) = true → is_writing (ses_tx r') = true → p = q;
  iv_done : ∀ p id, (p, id, Ok ()) ∈ outcomes s → marked id (committed s);
}.

Lemma waits_false p s q r :
  waits p s = false → sessions s !! q = Some r → p ≠ q → is_writing (ses_tx r) = false.
Proof.
  intros Hw Hq Hne. apply not_true_iff_false. intros Hr. apply not_true_iff_false in Hw. apply Hw.
  unfold waits. apply existsb_exists. exists (q, r). rewrite <- list_elem_of_In.
  split; [by apply elem_of_map_to_list|]. cbn. rewrite Hr, andb_true_r. apply negb_true_iff, Nat.eqb_neq. congruence.
Qed.

(** The run [p] goes on to [c] with the connection in [t'], the database to [d']. *)
Lemma inv_proceed ids s p id t' c d' known base :
  inv ids s → id ∈ ids →
  (d' = committed s ∨ builds id (committed s) d' ∧ marked id d' ∧ sound d') →
  (d' = committed s ∨ ∀ q r, sessions s !! q = Some r → p ≠ q → is_writing (ses_tx r) = false) →
  (is_writing t' = true → ∀ q r, sessions s !! q = Some r → p ≠ q → is_writing (ses_tx r) = false) →
  (known = true → marked id d') → (is_writing t' = true → base = d') → wp id known base t' c →
  inv ids (proceed p id t' c d' s).
Proof.
  intros [Hs Hr Hw Hd] Hid Hd' Halone Halone' Hk Hb Hwp.
  assert (Hkeep : ∀ i, marked i (committed s) → marked i d').
  { intros i Hi. destruct Hd' as [->|(Hbu & _ & _)]; [done|]. by eapply builds_keeps_marker. }
  assert (Hother : ∀ q r, sessions s !! q = Some r → p ≠ q → ses_tenant r ∈ ids ∧
    ∃ known base, (known = true → marked (ses_tenant r) d') ∧
      (is_writing (ses_tx r) = true → base = d') ∧ wp (ses_tenant r) known base (ses_tx r) (ses_client r)).
  { intros q r Hq Hne. destruct (Hr q r Hq) as (Hi & k & b & H1 & H2 & H3). split; [done|]. exists k, b.
    split_and!; [auto| |done]. intros Hwr. destruct Halone as [->|Ha]; [auto|]. by rewrite (Ha q r Hq Hne) in Hwr. }
  assert (Hsound : sound d') by (by destruct Hd' as [->|(_ & _ & ?)]).
  destruct c as [r|q k].
  - split; cbn [proceed committed sessions outcomes]; [done| | |].
    + intros q r' [Hne Hq]%lookup_delete_Some. exact (Hother q r' Hq Hne).
    + intros q q' r1 r2 [_ H1]%lookup_delete_Some [_ H2]%lookup_delete_Some. exact (Hw _ _ _ _ H1 H2).
    + intros q i [Hin| Hin%list_elem_of_singleton]%elem_of_app; [eauto|]. injection Hin as -> -> <-. auto.
  - split; cbn [proceed committed sessions outcomes]; [done| | |eauto].
    + intros q' r' [[<- <-]|[Hne Hq]]%lookup_insert_Some; [|exact (Hother q' r' Hq Hne)]. cbn.
      split; [done|]. by exists known, base.
    + intros q1 q2 r1 r2 [[<- <-]|[Hn1 H1]]%lookup_insert_Some [[<- <-]|[Hn2 H2]]%lookup_insert_Some;
        cbn [ses_tx]; intros W1 W2; [done| | |exact (Hw _ _ _ _ H1 H2 W1 W2)].
      * by rewrite (Halone' W1 q2 r2 H2 Hn2) in W2.
      * by rewrite (Halone' W2 q1 r1 H1 Hn1) in W1.
Qed.

Definition started (l : event) : list string := match l with Start _ id => [id] | _ => [] end.

Lemma inv_more_ids ids ids' s : ids ⊆ ids' → inv ids s → inv ids' s.
Proof. intros Hi [Hs Hr Hw Hd]. split; [done| |done|done]. intros p r Hp. destruct (Hr p r Hp). auto. Qed.

Lemma only_writer ids s p r :
  inv ids s → sessions s !! p = Some r → is_writing (ses_tx r) = true →
  ∀ q r', sessions s !! q = Some r' → p ≠ q → is_writing (ses_tx r') = false.
Proof.
  intros Hinv Hp Hw q r' Hq Hne. apply not_true_iff_false. intros Hr. apply Hne.
  exact (iv_writer _ _ Hinv p q _ _ Hp Hq Hw Hr).
Qed.

(** The step of a run on its own request. *)
Lemma inv_answer ids s p id t q k gen :
  inv ids s → sessions s !! p = Some {| ses_tenant := id; ses_tx := t; ses_client := Await q k |} →
  writes q && waits p s = false →
  let '(a, t', d') := respond name gen q t (committed s) in
  (d' = committed s ∨ builds id (committed s) d') ∧ inv ids (proceed p id t' (k a) d' s) ∧
  inv ids (proceed p id Disconnected (k (Throw connection_lost)) d' s).
Proof.
  intros Hinv Hp Hwait. destruct (iv_run _ _ Hinv p _ Hp) as (Hid & known & base & Hk & Hb & Hwp).
  cbn [ses_tenant ses_tx ses_client] in *. cbn [wp] in Hwp. destruct Hwp as (Hans & _ & Hlost).
  specialize (Hans gen (committed s) (iv_sound _ _ Hinv) Hk (λ Hw, eq_sym (Hb Hw))).
  pose proof (respond_changes gen q t (committed s)) as Hch.
  destruct (respond name gen q t (committed s)) as [[a t'] d'].
  destruct Hans as (Hd & known' & base' & Hk' & Hb' & Hwp'). destruct Hch as [Hch1 Hch2].
  assert (Halone : is_writing t = true ∨ writes q = true → ∀ q' r, sessions s !! q' = Some r → p ≠ q' →
    is_writing (ses_tx r) = false).
  { intros [Hw|Hw] q' r Hq Hne.
    - exact (only_writer ids s p _ Hinv Hp Hw q' r Hq Hne).
    - rewrite Hw in Hwait. by apply (waits_false p s q' r). }
  assert (Hch : d' = committed s ∨ ∀ q' r, sessions s !! q' = Some r → p ≠ q' → is_writing (ses_tx r) = false).
  { destruct Hch1 as [|Hc]; [by left|right; by apply Halone]. }
  split; [destruct Hd as [|(? & _)]; [by left|by right]|]. split.
  - eapply inv_proceed; eauto.
  - eapply (inv_proceed _ _ _ _ Disconnected _ _ known base); eauto; [done| |done].
    intros Hkn. destruct Hd as [->|(_ & ? & _)]; auto.
Qed.

Lemma inv_unanswered ids s p id t q k e t' :
  inv ids s → sessions s !! p = Some {| ses_tenant := id; ses_tx := t; ses_client := Await q k |} →
  (t' = after_refusal q t ∨ t' = Disconnected ∧ e = connection_lost) →
  inv ids (proceed p id t' (k (Throw e)) (committed s) s).
Proof.
  intros Hinv Hp Ht. destruct (iv_run _ _ Hinv p _ Hp) as (Hid & known & base & Hk & Hb & Hwp).
  cbn [ses_tenant ses_tx ses_client wp] in *. destruct Hwp as (_ & Href & Hlost).
  assert (Hw : is_writing t' = true → is_writing t = true).
  { destruct Ht as [->|[-> _]]; [apply refusal_writes_nothing|done]. }
  eapply (inv_proceed _ _ _ _ _ _ _ known base); eauto.
  - intros Hw'. exact (only_writer ids s p _ Hinv Hp (Hw Hw')).
  - destruct Ht as [->|[-> ->]]; [apply Href|exact Hlost].
Qed.

Lemma committed_proceed p id t c d s : committed (proceed p id t c d s) = d.
Proof. by destruct c. Qed.

Lemma inv_step ids l s s' :
  server_step name l s = Some s' → inv ids s →
  inv (started l ++ ids) s' ∧
  (committed s' = committed s ∨ ∃ id, id ∈ started l ++ ids ∧ builds id (committed s) (committed s')).
Proof.
  intros Hstep Hinv.
  destruct l as [p id|p gen|p e|p gen done_|p]; cbn [server_step started app] in *;
    destruct (sessions s !! p) as [[id' t c]|] eqn:Hp; try done.
  - injection Hstep as <-. rewrite committed_proceed. split; [|by left].
    eapply (inv_proceed _ _ _ _ _ _ _ false (committed s)); try done; [|by left|by left|by left|].
    + eapply inv_more_ids; [|done]. set_solver.
    + by apply wp_initialize.
  - destruct c as [|q k]; [done|]. destruct (writes q && waits p s) eqn:Hw; [done|].
    pose proof (inv_answer ids s p id' t q k gen Hinv Hp Hw) as Ha.
    destruct (respond name gen q t (committed s)) as [[a t'] d']. injection Hstep as <-.
    rewrite committed_proceed. destruct Ha as (Hd & Hi & _). split; [done|].
    destruct Hd as [|Hd]; [by left|]. right. exists id'. split; [|done]. exact (proj1 (iv_run _ _ Hinv p _ Hp)).
  - destruct c as [|q k]; [done|]. injection Hstep as <-. rewrite committed_proceed. split; [|by left].
    eapply inv_unanswered; [done|done|by left].
  - destruct c as [|q k]; [done|]. destruct (done_ && writes q && waits p s) eqn:Hw; [done|].
    pose proof (inv_answer ids s p id' t q k gen Hinv Hp) as Ha.
    destruct (respond name gen q t (committed s)) as [[a t'] d']. injection Hstep as <-.
    rewrite committed_proceed. destruct done_.
    + destruct (Ha Hw) as (Hd & _ & Hi). split; [done|].
      destruct Hd as [|Hd]; [by left|]. right. exists id'. split; [|done]. exact (proj1 (iv_run _ _ Hinv p _ Hp)).
    + split; [|by left]. eapply inv_unanswered; [done|done|by right].
  - injection Hstep as <-. split; [|by left]. destruct Hinv as [Hs Hr Hw Hd].
    split; cbn [committed sessions outcomes]; [done| | |done].
    + intros q r [_ Hq]%lookup_delete_Some. eauto.
    + intros q q' r1 r2 [_ H1]%lookup_delete_Some [_ H2]%lookup_delete_Some. exact (Hw _ _ _ _ H1 H2).
Qed.

Definition tenants_of (tr : list event) : list string := mjoin (started <$> tr).

(** One atomic step of one of the tenants. *)
Definition atomic_step (ids : list string) (d d' : Database) : Prop :=
  ∃ id, id ∈ ids ∧ ∀ dbs, dbs !! name = Some d →
    ConnectionManager.initializeTenantDatabase name id dbs = Ok (<[name := d']> dbs).

Lemma atomic_more_ids ids ids' : ids ⊆ ids' → ∀ d d', rtc (atomic_step ids) d d' → rtc (atomic_step ids') d d'.
Proof.
  intros Hi d d' Hr. induction Hr as [|d d1 d' (id & Hid & Hs)]; [done|].
  eapply rtc_l; [|done]. exists id. auto.
Qed.

Lemma server_inv_exec tr ids s s' :
  server_exec name tr s = Some s' → inv ids s →
  ∃ ids', ids' ⊆ tenants_of tr ++ ids ∧ inv ids' s' ∧
    rtc (atomic_step (tenants_of tr ++ ids)) (abs (committed s)) (abs (committed s')).
Proof.
  revert ids s. induction tr as [|l tr IH]; intros ids s Hr Hinv.
  { injection Hr as <-. exists ids. by split_and!. }
  cbn [server_exec] in Hr. destruct (server_step name l s) as [s1|] eqn:E; [|done].
  destruct (inv_step ids l s s1 E Hinv) as [Hinv1 Hd]. destruct (IH _ _ Hr Hinv1) as (ids' & Hsub & Hinv' & Hrtc).
  unfold tenants_of in *. rewrite fmap_cons. cbn [mjoin list_join concat].
  assert (Hi : mjoin (started <$> tr) ++ started l ++ ids ⊆ (started l ++ mjoin (started <$> tr)) ++ ids) by set_solver.
  exists ids'. split_and!; [set_solver|done|].
  apply (atomic_more_ids _ _ Hi) in Hrtc. destruct Hd as [Heq|(id & Hid & Hb)]; [by rewrite Heq in Hrtc|].
  eapply rtc_l; [|done]. exists id. split; [set_solver|done].
Qed.

Lemma tenant_marker_inj id id' : tenantDatabaseMarker id = tenantDatabaseMarker id' → id = id'.
Proof. by intros [= ->]. Qed.

Lemma inv_start d : sound d → inv [] (at_work_on d).
Proof.
  intros Hs. split; cbn; [done| | |].
  - intros p r Hp. by rewrite lookup_empty in Hp.
  - intros p q r r' Hp. by rewrite lookup_empty in Hp.
  - intros p id Hin. by apply not_elem_of_nil in Hin.
Qed.

Lemma protected_append_only d : protected_log d = true → ImmutabilityProbe.append_only (table_controls d).
Proof.
  unfold protected_log. rewrite andb_true_iff. intros [Ho Hf]. rewrite forallb_forall in Ho.
  assert (Hall : ∀ o, trigger (table_controls d) o = true ∧ public_may (table_controls d) o = false).
  { intros o. specialize (Ho o). rewrite andb_true_iff, negb_true_iff in Ho. apply Ho.
    destruct o; cbn; auto. }
  split; [|by intros o; apply Hall|done|done]. intros o. right. apply Hall.
Qed.

(** C23. The step the provisioning takes as one is what the transaction amounts to.
    However many runs work on the database, for whichever tenants, in whatever
    order their statements reach it, and whichever of them are refused, lose
    their connection before or after a statement took effect, or die: what is
    committed moves by atomic steps only. A run that returns has its database
    built, marked for its tenant and append-only; at most one tenant gets it. *)
Theorem schema_transaction_refines tr d s :
  sound d → server_exec name tr (at_work_on d) = Some s →
  rtc (atomic_step (tenants_of tr)) (abs d) (abs (committed s)) ∧
  (∀ p id, (p, id, Ok ()) ∈ outcomes s →
     comment (abs (committed s)) = Some (tenantDatabaseMarker id) ∧
     tables (abs (committed s)) = Some tenant_schema ∧
     ImmutabilityProbe.append_only (table_controls (committed s)) ∧
     ∀ q id', (q, id', Ok ()) ∈ outcomes s → id' = id).
Proof.
  intros Hd Hr. destruct (server_inv_exec tr [] _ s Hr (inv_start d Hd)) as (ids & _ & Hinv & Hrtc).
  rewrite app_nil_r in Hrtc. split; [done|]. intros p id Hin.
  pose proof (iv_done _ _ Hinv p id Hin) as Hm. pose proof (iv_sound _ _ Hinv) as Hs.
  unfold sound in Hs. rewrite Hm in Hs. specialize (Hs ltac:(done)). split_and!; [done|done| |].
  - apply protected_append_only. unfold abs in Hs. cbn [tables] in Hs.
    destruct (holds_tenant_objects _); [|done]. injection Hs as Hp _ _ _. done.
  - intros q id' Hin'. pose proof (iv_done _ _ Hinv q id' Hin') as Hm'. apply tenant_marker_inj. congruence.
Qed.

(** Waiting never stops everyone: some run that is at work can be answered. *)
Lemma no_deadlock tr d s p0 r0 :
  sound d → server_exec name tr (at_work_on d) = Some s → sessions s !! p0 = Some r0 →
  ∃ p r, sessions s !! p = Some r ∧ waits p s = false.
Proof.
  intros Hd Hr H0. destruct (server_inv_exec tr [] _ s Hr (inv_start d Hd)) as (ids & _ & Hinv & _).
  destruct (waits p0 s) eqn:Hw; [|by eauto]. unfold waits in Hw. apply existsb_exists in Hw as ([q r] & Hq & Hqr).
  rewrite <- list_elem_of_In in Hq. apply elem_of_map_to_list in Hq. apply andb_true_iff in Hqr as [_ Hqr].
  exists q, r. split; [done|]. unfold waits. apply not_true_iff_false. intros Hx.
  apply existsb_exists in Hx as ([q' r'] & Hq' & Hx). rewrite <- list_elem_of_In in Hq'.
  apply elem_of_map_to_list in Hq'. cbn in *. apply andb_true_iff in Hx as [Hne Hx].
  apply negb_true_iff, Nat.eqb_neq in Hne. by rewrite (only_writer ids s q r Hinv Hq Hqr q' r' Hq') in Hx.
Qed.

(** ** One run with the database to itself *)

Lemma run_throw gens n t d e : run_client name gens n (guarded (throw e)) t d = (Throw e, Disconnected, d).
Proof. by destruct t. Qed.

Lemma run_query gens n q f t d :
  run_client name gens n (guarded (query q ≫= f)) t d =
    let '(a, t', d') := respond name (gens n) (Query q) t d in
    match a with
    | Ok rows => run_client name gens (S n) (guarded (f rows)) t' d'
    | Throw e => (Throw e, Disconnected, d')
    end.
Proof.
  change (guarded (query q ≫= f)) with (Await (Query q) (λ a, guarded (cbind (Return a) f))).
  cbn [run_client]. destruct (respond _ _ _ _ _) as [[[rows|e] t'] d']; [done|]. apply run_throw.
Qed.

Lemma no_rows_eq (f : tenant_db → M tenant_db) d v : f d = Ok v → no_rows f d = Ok (v, []).
Proof. unfold no_rows. by intros ->. Qed.

Lemma client_ret_bind {A B} (a : A) (f : A → client B) : mret (M := client) a ≫= f = f a.
Proof. done. Qed.

Lemma seeded_nodup gen : Inj (=) (=) gen → NoDup (seeded_permissions gen).*1.
Proof.
  intros Hg. replace (seeded_permissions gen).*1 with (gen <$> [0; 1; 2]) by reflexivity.
  apply (NoDup_fmap_2 gen). compute_decide.
Qed.

Lemma grants_nodup (id : string) (ps : list (string * (string * string))) :
  NoDup ps.*1 → NoDup ((λ p : string * (string * string), (id, p.1)) <$> ps).
Proof.
  intros Hnd. replace (_ <$> ps) with (pair id <$> ps.*1) by (by rewrite <- list_fmap_compose).
  by apply (NoDup_fmap_2 (pair id)).
Qed.

Lemma run_seed gens n id d s :
  (∀ n, Inj (=) (=) (gens n)) → scripted d s →
  run_client name gens n (guarded (
    _ ← query (InsertPermissions permissionTuples permissionParams);
    role ← query (InsertRole TENANT_ADMIN_ROLE_NAME TENANT_ADMIN_ROLE_DESCRIPTION);
    role_id ← returned_id role;
    _ ← query (GrantEveryPermission role_id);
    _ ← query (CommentOnDatabase name (tenantDatabaseMarker id));
    _ ← query COMMIT;
    mret ())) (Writing s) d =
  (Ok (), Disconnected, built (gens n) (gens (S n)) (tenantDatabaseMarker id) s).
Proof.
  intros Hg Hs. pose proof (seeded_nodup (gens n) (Hg n)) as Hnd.
  pose proof (insert_permissions_on (gens n) d s Hs) as Hp. rewrite bool_decide_true in Hp by done.
  pose proof (grant_on (gens (S n) 0) TENANT_ADMIN_ROLE_NAME TENANT_ADMIN_ROLE_DESCRIPTION (gens n) d s Hs) as Hgr.
  rewrite bool_decide_true in Hgr by (by apply grants_nodup).
  rewrite run_query. cbn [respond write sees]. rewrite (no_rows_eq _ _ _ Hp).
  rewrite run_query. cbn [respond write sees]. rewrite (insert_role_on _ _ _ _ _ _ Hs).
  change (returned_id [Some (gens (S n) 0)]) with (mret (M := client) (gens (S n) 0)). rewrite client_ret_bind.
  rewrite run_query. cbn [respond write sees]. rewrite (no_rows_eq _ _ _ Hgr).
  rewrite run_query. cbn [respond write sees]. rewrite String.eqb_refl.
  rewrite run_query. reflexivity.
Qed.

Lemma run_build gens n id d :
  (∀ n, Inj (=) (=) (gens n)) →
  run_client name gens n (guarded (build_schema name (tenantDatabaseMarker id))) Open d =
    if holds_tenant_objects d
    then (Throw (ETenantDatabaseConflict name
                   "it already holds tenant tables and carries no provisioning marker"), Disconnected, d)
    else (Ok (), Disconnected,
          built (gens (S (S n))) (gens (S (S (S n)))) (tenantDatabaseMarker id) (after_scripts d)).
Proof.
  intros Hg. unfold build_schema.
  match goal with |- context [guarded (_ ≫= ?f)] => set (rest := f) end.
  change (guarded (try_catch _ _ ≫= rest)) with (Await (Query (Script tenant_ddl))
    (λ a, guarded (cbind (try_catch (Return a) (λ err,
       if isDuplicateObject err
       then throw (ETenantDatabaseConflict name
                     "it already holds tenant tables and carries no provisioning marker")
       else throw err)) rest))).
  cbn [run_client respond write sees]. destruct (holds_tenant_objects d) eqn:Hh.
  - destruct (ddl_on_taken_names d Hh) as (c & Hrun & Hc). unfold no_rows. rewrite Hrun. cbn [mbind result_bind rbind try_catch].
    rewrite (duplicate_code c _ eq_refl Hc). apply run_throw.
  - rewrite (no_rows_eq _ _ _ (run_script_accepts _ _ (ddl_on_free_names d Hh))). cbn [try_catch cbind].
    unfold rest. rewrite run_query. cbn [respond write sees].
    rewrite (no_rows_eq _ _ _ (run_script_accepts _ _ (audit_sql_accepted d))). fold (after_scripts d).
    by apply (run_seed gens _ id d), after_scripts_scripted.
Qed.

(** C25. Alone and undisturbed, the statements compute the atomic step on every branch:
    the same answer or the same error, and the same database. *)
Theorem initialize_alone gens id d :
  (∀ n, Inj (=) (=) (gens n)) →
  let '(r, t, d') := run_client name gens 0 (initializeTenantDatabase name id) Disconnected d in
  t = Disconnected ∧ (r ≠ Ok () → d' = d) ∧
  ConnectionManager.initializeTenantDatabase name id {[name := abs d]} =
    match r with Ok _ => Ok {[name := abs d']} | Throw e => Throw e end.
Proof.
  intros Hg. unfold initializeTenantDatabase, ConnectionManager.initializeTenantDatabase. rewrite Hname.
  destruct (UUID id) eqn:Hid; [|done]. cbn [negb orb].
  change (connect name ≫= _) with (Await (Connect name)
    (λ a, cbind (Return (_ ← a; Ok ())) (λ _, guarded (schema_transaction name (tenantDatabaseMarker id))))).
  cbn [run_client respond mbind result_bind rbind cbind]. unfold schema_transaction.
  rewrite run_query. cbn [respond]. rewrite run_query. cbn [respond sees].
  unfold marker_found. cbn [head mjoin option_join]. rewrite lookup_singleton_eq. cbn [comment abs tables foreign_rows].
  destruct (marker d) as [current|] eqn:Em.
  - destruct (String.eqb current _) eqn:He.
    + rewrite run_query. done.
    + rewrite run_throw. done.
  - rewrite (run_build gens _ id d Hg). destruct (holds_tenant_objects d) eqn:Hh; [done|].
    split_and!; [done|done|]. rewrite (abs_built _ _ _ d) by (apply after_scripts_scripted || by apply seeded_nodup).
    by rewrite insert_singleton_eq.
Qed.
End runs.

(** ** What is interpolated into the COMMENT *)

(** [COMMENT ON DATABASE "${databaseName}" IS '${marker}'] *)
Definition comment_statement (databaseName marker : string) : string :=
  "COMMENT ON DATABASE " +:+ quote +:+ databaseName +:+ quote +:+ " IS '" +:+ marker +:+ "'".

Lemma sall_split_on p sep s : p sep = true → forallb (sall p) (split_on sep s) = true → sall p s = true.
Proof.
  intros Hp. induction s as [|c s IH]; [done|]. cbn [split_on sall].
  destruct (Ascii.eqb_spec c sep) as [->|].
  - cbn. rewrite Hp. exact IH.
  - destruct (split_on sep s) as [|w ws]; cbn in *; rewrite ?andb_true_iff in *; naive_solver.
Qed.

(** The guards leave nothing in it that could end either quotation. *)
Lemma comment_cannot_break_out databaseName tenantId :
  SAFE_DB_NAME databaseName = true → UUID tenantId = true →
  free_of "034" databaseName = true ∧ free_of "039" (tenantDatabaseMarker tenantId) = true.
Proof.
  unfold free_of. intros Hn Hid. split.
  - destruct databaseName as [|c n]; [done|]. cbn [SAFE_DB_NAME] in Hn. rewrite !andb_true_iff in Hn.
    destruct Hn as [[Hc Hn] _]. cbn [sall]. apply andb_true_iff. split.
    + destruct (Ascii.eqb_spec c "034"); [by subst|done].
    + eapply sall_impl, Hn. intros x Hx. destruct (Ascii.eqb_spec x "034"); [by subst|done].
  - unfold tenantDatabaseMarker. rewrite sall_app. apply andb_true_iff. split; [done|].
    apply (sall_split_on _ "-"); [done|]. unfold UUID in Hid.
    repeat (case_match; [done|]). repeat case_match; try done. cbn [forallb] in Hid |- *.
    cbn [fst snd] in Hid. repeat rewrite andb_true_iff in Hid. repeat rewrite andb_true_iff.
    assert (Hx : ∀ w, sall is_hex_i w = true → sall (λ d, negb (Ascii.eqb d "039")) w = true).
    { intros w. apply sall_impl. intros x Hx. destruct (Ascii.eqb_spec x "039"); [by subst|done]. }
    split_and!; try apply Hx; naive_solver.
Qed.

(** ** The transaction at work *)

Module SchemaSample.

(** A cluster with an extension in template1 and a careless default grant. *)
Definition template : tenant_db :=
  {| marker := None; types := ["geometry"]; relations := ["spatial_ref_sys"]; functions := ["postgis_version"];
     pg_tables := []; permissions := []; roles := []; role_permissions := []; public_default := [DELETE];
     other_rows := ["4326"] |}.

Fixpoint unary (n : nat) : string :=
  match n with O => EmptyString | S n => String "i" (unary n) end.
#[export] Instance unary_inj : Inj (=) (=) unary.
Proof.
  intros m n H. apply (f_equal String.length) in H.
  assert (Hl : ∀ k, String.length (unary k) = k) by (induction k; cbn; auto).
  by rewrite !Hl in H.
Qed.
Definition gens (_ : nat) : nat → string := unary.

Definition id1 : string := ProvisioningSample.id1.
Definition id2 : string := ProvisioningSample.id2.

Definition answers (p n : nat) : list event := replicate n (Answer p unary).

(** Two runs for one tenant, both past the marker check when the first commits;
    the connection of a third is lost just after its own marker check. *)
Definition race : list event :=
  [Start 1 id1; Start 2 id1; Start 3 id2] ++ answers 1 3 ++ answers 2 3 ++ answers 3 2 ++
  answers 1 1 ++ [Drop_ 3 unary true] ++ answers 1 7 ++ answers 2 3 ++ answers 3 2.

(** The commit took effect and its answer was lost: the retry finds the marker. *)
Definition lost_commit : list event :=
  [Start 1 id1] ++ answers 1 9 ++ [Drop_ 1 unary true; Answer 1 unary; Answer 1 unary; Start 2 id1] ++ answers 2 5.

Definition results (tr : list event) : list (nat * string * M ()) :=
  match server_exec "tenant_acme" tr (at_work_on template) with Some s => outcomes s | None => [] end.
End SchemaSample.
Import SchemaSample.

Example lost_commit_is_found :
  results lost_commit = [(1, id1, Throw connection_lost); (2, id1, Ok ())].
Proof. vm_compute. reflexivity. Qed.

(** The loser is told that the database carries no marker, which was so when it
    looked: it carries the marker of the loser's own tenant. *)
Lemma race_blames_the_wrong_thing :
  ∃ s, server_exec "tenant_acme" race (at_work_on template) = Some s ∧
    marker (committed s) = Some (tenantDatabaseMarker id1) ∧
    (2, id1, Throw (ETenantDatabaseConflict "tenant_acme"
                      "it already holds tenant tables and carries no provisioning marker")) ∈ outcomes s.
Proof.
  eexists. split; [vm_compute; reflexivity|]. split; [vm_compute; reflexivity|].
  apply list_elem_of_lookup. exists 1. vm_compute. reflexivity.
Qed.

(** While one run holds its changes uncommitted, another's schema waits. *)
Example schema_waits :
  server_exec "tenant_acme" ([Start 1 id1; Start 2 id1] ++ answers 1 4 ++ answers 2 4) (at_work_on template) = None.
Proof. vm_compute. reflexivity. Qed.

Example another_tenant_is_refused :
  results (race ++ [Start 4 id2] ++ answers 4 5) !! 3 =
    Some (4, id2, Throw (ETenantDatabaseConflict "tenant_acme"
      ("it is marked " +:+ quote +:+ tenantDatabaseMarker id1 +:+ quote +:+ ", not " +:+ quote +:+
       tenantDatabaseMarker id2 +:+ quote))).
Proof. vm_compute. reflexivity. Qed.

Lemma schema_transaction_refines_witness :
  ∃ s, server_exec "tenant_acme" race (at_work_on template) = Some s ∧
    tables (abs (committed s)) = Some tenant_schema.
Proof.
  destruct (server_exec "tenant_acme" race (at_work_on template)) as [s|] eqn:E.
  - exists s. split; [reflexivity|].
    apply (schema_transaction_refines "tenant_acme" eq_refl race template s) with (p := 1) (id := id1).
    + intros H. by destruct H.
    + exact E.
    + apply list_elem_of_lookup. exists 0.
      change (outcomes s) with (match Some s with Some s => outcomes s | None => [] end).
      rewrite <- E. vm_compute. reflexivity.
  - exfalso. revert E. vm_compute. discriminate.
Defined.

Lemma initialize_alone_witness :
  let '(r, t, d) := run_client "tenant_acme" gens 0 (initializeTenantDatabase "tenant_acme" id1) Disconnected template in
  r = Ok () ∧
  ConnectionManager.initializeTenantDatabase "tenant_acme" id1 {[ "tenant_acme" := abs template ]} =
    Ok {[ "tenant_acme" := abs d ]}.
Proof.
  pose proof (initialize_alone "tenant_acme" eq_refl gens id1 template (λ _, unary_inj)) as H.
  assert (Hr : (run_client "tenant_acme" gens 0 (initializeTenantDatabase "tenant_acme" id1) Disconnected
                  template).1.1 = Ok ()) by (vm_compute; reflexivity).
  destruct (run_client _ _ _ _ _ _) as [[r t] d'] eqn:E. clear E.
  destruct H as (_ & _ & ->). change (r = Ok ()) in Hr. rewrite Hr. split; reflexivity.
Defined.
