(* ===== verification/TenantRouting.v ===== *)
(** Routing requests to tenant databases: the pool cache of ConnectionManager
    (packages/db/src/connection-manager.ts, [getTenantDb]).

    A client is modelled by the name of the database its pool connects to. A
    request resolves its tenant and asks for the client later, so runs, crashes,
    suspensions and deletions of ConnectionManager.v fall in between. *)
From S2P Require Import Prelude Domain AuditHash ConnectionManager.
#[local] Open Scope Z_scope.

(** The client, and [tenantCache] after the call. *)
Definition getTenantDb (tenant : Tenant) (tenantCache : gmap string string)
    : string * gmap string string :=
  match tenantCache !! tenant_id tenant with
  | Some db => (db, tenantCache)
  | None => (tenant_databaseName tenant,
             <[tenant_id tenant := tenant_databaseName tenant]> tenantCache)
  end.

Record route_state := {
  deployment : prov_state;
  tenantCache : gmap string string;
  resolved : list Tenant;             (* what requests hold *)
  served : list (Tenant * string);    (* the clients they were given *)
}.

Inductive route_label :=
  | Elsewhere (l : prov_label)
  | ResolveTenant (idOrSlug : string)
  | GetDb (tenant : Tenant)
  | CloseAll.                         (* close() *)

Section routing.
Context `{Sha256}.

Definition route_step (l : route_label) (s : route_state) : option route_state :=
  match l with
  | Elsewhere l =>
      match prov_step l (deployment s) with
      | Some d => Some {| deployment := d; tenantCache := tenantCache s; resolved := resolved s;
                          served := served s |}
      | None => None
      end
  | ResolveTenant x =>
      match resolveTenant (registry (deployment s)) x with
      | Ok t => Some {| deployment := deployment s; tenantCache := tenantCache s;
                        resolved := t :: resolved s; served := served s |}
      | Throw _ => Some s
      end
  | GetDb t =>
      if decide (t ∈ resolved s)
      then let (db, cache) := getTenantDb t (tenantCache s) in
           Some {| deployment := deployment s; tenantCache := cache; resolved := resolved s;
                   served := served s ++ [(t, db)] |}
      else None
  | CloseAll => Some {| deployment := deployment s; tenantCache := ∅; resolved := resolved s;
                        served := served s |}
  end.

Fixpoint route_exec (tr : list route_label) (s : route_state) : option route_state :=
  match tr with
  | [] => Some s
  | l :: tr => match route_step l s with Some s' => route_exec tr s' | None => None end
  end.

Definition idle : route_state :=
  {| deployment := empty_state; tenantCache := ∅; resolved := []; served := [] |}.

Definition prov_labels (tr : list route_label) : list prov_label :=
  omap (λ l, match l with Elsewhere l => Some l | _ => None end) tr.

(** ** One database per tenant id, for ever *)

(** [t]'s database is built, is marked for [t], and no row of [t]'s id names
    another. *)
Definition settled (s : prov_state) (t : Tenant) : Prop :=
  (∃ d, cluster s !! tenant_databaseName t = Some d ∧
     comment d = Some (tenantDatabaseMarker (tenant_id t)) ∧ tables d = Some tenant_schema) ∧
  ∀ r, r ∈ registry s → row_id r = tenant_id t → row_databaseName r = tenant_databaseName t.

Record route_inv (used : list string) (s : route_state) : Prop := {
  ri_prov : prov_inv used (deployment s);
  ri_used : ∀ t, t ∈ resolved s → tenant_id t ∈ used;
  ri_settled : ∀ t, t ∈ resolved s → settled (deployment s) t;
  ri_one : ∀ t t', t ∈ resolved s → t' ∈ resolved s → tenant_id t = tenant_id t' →
    tenant_databaseName t = tenant_databaseName t';
  ri_cache : ∀ id db, tenantCache s !! id = Some db →
    ∃ t, t ∈ resolved s ∧ tenant_id t = id ∧ tenant_databaseName t = db;
  ri_served : ∀ t db, (t, db) ∈ served s → t ∈ resolved s ∧ db = tenant_databaseName t;
}.

(** A step adds rows under new ids only, and never renames a database. *)
Lemma registry_step l s s' r :
  prov_step l s = Some s' → r ∈ registry s' →
  row_id r ∈ new_ids l ∨
  ∃ r0, r0 ∈ registry s ∧ row_id r0 = row_id r ∧ row_databaseName r0 = row_databaseName r.
Proof.
  intros Hstep Hr.
  destruct l as [p input|p|p id|p|p|p|p|p|id|id|name d'|p e]; simpl in *;
    try (destruct (runs s !! p) as [[inp db []]|] eqn:Ep; try done; simpl in *);
    repeat case_match; simplify_eq; try done; simpl in *; eauto.
  - match goal with E : registerOrResume _ _ _ _ = _ |- _ =>
      apply registerOrResume_inv in E as (_ & _ & _ & _ & [(-> & _ & _)|(-> & Hid & _)]) end; [by eauto|].
    apply elem_of_app in Hr as [?|Hr]; [by eauto|]. apply list_elem_of_singleton in Hr as ->. left. set_solver.
  - unfold activate_row in *. destruct (find_id _ _) as [row'|] eqn:Ef; simplify_eq.
    apply list_elem_of_fmap in Hr as (r0 & -> & Hr0). right.
    destruct (String.eqb_spec (row_id r0) (row_id row)) as [He|]; [|by eauto].
    apply find_id_Some in Ef as [Hin Hid]. exists row'. by split.
  - apply list_elem_of_filter in Hr as [_ Hr]. eauto.
  - apply list_elem_of_fmap in Hr as (r0 & -> & Hr0). right. exists r0. by case_match.
Qed.

Lemma settled_step used l s s' t :
  prov_step l s = Some s' → prov_inv used s → (∀ id, id ∈ new_ids l → id ∉ used) →
  tenant_id t ∈ used → settled s t → settled s' t.
Proof.
  intros Hstep Hinv Hnew Hu [(d & Hd & Hc & Ht) Hr]. split.
  - exists d. split_and!; try done. eapply step_keeps_tables; [done|done|congruence].
  - intros r Hin Hid. destruct (registry_step _ _ _ _ Hstep Hin) as [Hn|(r0 & Hin0 & Hid0 & <-)].
    + exfalso. apply (Hnew _ Hn). by rewrite Hid.
    + apply Hr; congruence.
Qed.

Lemma resolve_settled used s x t :
  prov_inv used s → resolveTenant (registry s) x = Ok t → tenant_id t ∈ used ∧ settled s t.
Proof.
  intros Hinv (r & Hin & Hst & ->)%resolve_inv. split; [by apply (pi_used _ _ Hinv)|]. split.
  - destruct (pi_ready _ _ Hinv r Hin ltac:(congruence)) as (d & Hd & Hc). exists d.
    split_and!; [done|done|]. by eapply (pi_marked _ _ Hinv).
  - intros r' Hin' Hid. simpl in Hid.
    pose proof (find_unique row_id _ r (pi_id _ _ Hinv) Hin) as H1.
    pose proof (find_unique row_id _ r' (pi_id _ _ Hinv) Hin') as H2.
    rewrite Hid in H2. assert (r = r') as -> by congruence. done.
Qed.

Lemma marker_inj a b : tenantDatabaseMarker a = tenantDatabaseMarker b → a = b.
Proof. unfold tenantDatabaseMarker. simpl. congruence. Qed.

(** A newly resolved tenant agrees with the earlier ones of its id. *)
Lemma resolve_agrees s used x t t0 :
  prov_inv used s → resolveTenant (registry s) x = Ok t → settled s t0 → tenant_id t0 = tenant_id t →
  tenant_databaseName t0 = tenant_databaseName t.
Proof.
  intros Hinv (r & Hin & Hst & ->)%resolve_inv [_ Hr] Hid. symmetry. by apply (Hr r Hin).
Qed.

Definition route_new (l : route_label) : list string :=
  match l with Elsewhere l => new_ids l | _ => [] end.

Lemma route_inv_prov used l s d :
  prov_step l (deployment s) = Some d → wf_label l → route_inv used s →
  (∀ id, id ∈ new_ids l → id ∉ used) →
  route_inv (new_ids l ++ used) {| deployment := d; tenantCache := tenantCache s;
                                   resolved := resolved s; served := served s |}.
Proof.
  intros Hstep Hwf [] Hnew. split; simpl; try done.
  - by eapply prov_inv_step.
  - intros t Ht. apply elem_of_app. right. by apply ri_used0.
  - intros t Ht. eapply settled_step; eauto.
Qed.

Lemma route_inv_resolve used s x t :
  resolveTenant (registry (deployment s)) x = Ok t → route_inv used s →
  route_inv used {| deployment := deployment s; tenantCache := tenantCache s;
                    resolved := t :: resolved s; served := served s |}.
Proof.
  intros Ht []. destruct (resolve_settled _ _ _ _ ri_prov0 Ht) as [Hu Hset]. split; simpl; try done.
  - intros t0 [->|]%elem_of_cons; eauto.
  - intros t0 [->|]%elem_of_cons; eauto.
  - intros t1 t2 [->|H1]%elem_of_cons [->|H2]%elem_of_cons Hid; eauto.
    + symmetry. eapply resolve_agrees; eauto.
    + eapply resolve_agrees; eauto.
  - intros id db Hc. destruct (ri_cache0 id db Hc) as (t0 & ? & ? & ?). exists t0.
    split_and!; try done. by apply elem_of_cons; right.
  - intros t0 db Hs. destruct (ri_served0 t0 db Hs). split; [by apply elem_of_cons; right|done].
Qed.

(** The cache answers with the tenant's own database. *)
Lemma getTenantDb_own used s t :
  route_inv used s → t ∈ resolved s →
  (getTenantDb t (tenantCache s)).1 = tenant_databaseName t ∧
  ∀ id db, (getTenantDb t (tenantCache s)).2 !! id = Some db →
    ∃ t0, t0 ∈ resolved s ∧ tenant_id t0 = id ∧ tenant_databaseName t0 = db.
Proof.
  intros [] Ht. unfold getTenantDb. destruct (tenantCache s !! tenant_id t) as [db|] eqn:Ec; simpl.
  - destruct (ri_cache0 _ _ Ec) as (t0 & Ht0 & Hid & <-). split; [by apply ri_one0|done].
  - split; [done|]. intros id db Hi. destruct (decide (id = tenant_id t)) as [->|Hne].
    + rewrite lookup_insert_eq in Hi. injection Hi as <-. by exists t.
    + rewrite lookup_insert_ne in Hi by done. by apply ri_cache0.
Qed.

Lemma route_inv_step used l s s' :
  route_step l s = Some s' → (∀ l', l = Elsewhere l' → wf_label l') → route_inv used s →
  (∀ id, id ∈ route_new l → id ∉ used) → route_inv (route_new l ++ used) s'.
Proof.
  intros Hstep Hwf Hinv Hnew. destruct l as [l|x|t|]; simpl in *.
  - destruct (prov_step l (deployment s)) as [d|] eqn:E; [|done]. injection Hstep as <-.
    apply route_inv_prov; auto.
  - destruct (resolveTenant _ x) as [t|e] eqn:E; injection Hstep as <-; [|done].
    by eapply route_inv_resolve.
  - case_decide as Ht; [|done]. destruct (getTenantDb_own used s t Hinv Ht) as [Hdb Hc].
    destruct (getTenantDb t (tenantCache s)) as [db cache]. injection Hstep as <-. simpl in *. subst db.
    destruct Hinv. split; simpl; try done.
    intros t0 db [?|Hs]%elem_of_app; [auto|]. apply list_elem_of_singleton in Hs. by injection Hs as -> ->.
  - injection Hstep as <-. destruct Hinv. split; simpl; try done.
Qed.

Lemma route_inv_exec tr used s s' :
  route_exec tr s = Some s' → Forall wf_label (prov_labels tr) → route_inv used s →
  NoDup (ids_of (prov_labels tr)) → (∀ id, id ∈ ids_of (prov_labels tr) → id ∉ used) →
  ∃ used', route_inv used' s'.
Proof.
  revert used s. induction tr as [|l tr IH]; intros used s Hr Hwf Hinv Hnd Hnew.
  { injection Hr as <-. by exists used. }
  cbn [route_exec] in Hr. destruct (route_step l s) as [s1|] eqn:E; [|done].
  assert (Hids : ids_of (prov_labels (l :: tr)) = route_new l ++ ids_of (prov_labels tr)) by (by destruct l).
  assert (Hwf' : Forall wf_label (prov_labels tr) ∧ ∀ l', l = Elsewhere l' → wf_label l').
  { destruct l; simpl in Hwf; [apply Forall_cons in Hwf as [? ?]|..]; split; try done. by intros ? [= <-]. }
  destruct Hwf' as [Hwf' Hl]. rewrite Hids in Hnd, Hnew.
  apply NoDup_app in Hnd as (_ & Hdisj & Hnd).
  apply (IH (route_new l ++ used) s1); try done.
  - apply route_inv_step with (s := s); try done. intros id Hid. apply Hnew. set_solver.
  - intros id Hid [Hin|Hin]%elem_of_app; [by apply (Hdisj id)|]. apply (Hnew id); [set_solver|done].
Qed.

Lemma idle_inv : route_inv [] idle.
Proof. split; simpl; try apply empty_prov_inv; intros; set_solver. Qed.

(** C11. Request routing: whatever provisioning, suspension, deletion and other
    requests happen between resolving a tenant and asking for its client, and
    whatever the cache holds, the client is bound to that tenant's own database,
    which is still there, built, and marked with that tenant's id. *)
Theorem requests_reach_their_own_database tr s :
  route_exec tr idle = Some s → Forall wf_label (prov_labels tr) → NoDup (ids_of (prov_labels tr)) →
  ∀ t db, (t, db) ∈ served s →
    db = tenant_databaseName t ∧
    ∃ d, cluster (deployment s) !! db = Some d ∧
      comment d = Some (tenantDatabaseMarker (tenant_id t)) ∧ tables d = Some tenant_schema.
Proof.
  intros Hr Hwf Hnd t db Hin.
  destruct (route_inv_exec tr [] idle s Hr Hwf idle_inv Hnd) as [used Hinv]; [set_solver|].
  destruct (ri_served _ _ Hinv t db Hin) as [Ht ->]. split; [done|].
  by apply (ri_settled _ _ Hinv t Ht).
Qed.
End routing.

Module RoutingSample.
#[local] Existing Instance Sample.toy.
Import ProvisioningSample.

Definition tenant_acme : Tenant :=
  {| tenant_id := id1; tenant_slug := "acme"; tenant_databaseName := "tenant_acme";
     tenant_status := active |}.

(** Acme is resolved, deleted from the registry, and only then asked for. *)
Definition deleted_meanwhile : list route_label :=
  map Elsewhere (provision_statements 1 acme id1) ++
  [ResolveTenant "acme"; Elsewhere (DeleteRow id1); GetDb tenant_acme] ++
  map Elsewhere (take 5 (provision_statements 2 acme id2)).

Definition served_state : route_state := default idle (route_exec deleted_meanwhile idle).

Lemma requests_reach_their_own_database_witness :
  served served_state = [(tenant_acme, "tenant_acme")] ∧
  ∃ d, cluster (deployment served_state) !! "tenant_acme" = Some d ∧
    comment d = Some (tenantDatabaseMarker id1) ∧ tables d = Some tenant_schema.
Proof.
  split; [vm_compute; reflexivity|].
  apply (requests_reach_their_own_database deleted_meanwhile served_state) with (t := tenant_acme).
  - vm_compute. reflexivity.
  - repeat constructor.
  - compute_decide.
  - compute_decide.
Defined.
End RoutingSample.
