(* ===== verification/Config.v ===== *)
(** Configuration: packages/config/src/index.ts.

    [loadConfig] reads a record of environment variables, checks every field, and
    then three invariants between fields. zod's own primitives, the reading of a
    number and of a URL, are the parameters of [Zod]; what the schema asks of them
    is written out here. An issue is the path of the field it is reported at. *)
From S2P Require Import Prelude Base64.
From Stdlib Require Import DecimalString.
#[local] Open Scope Z_scope.

(** ** Validation that collects every issue *)

Definition V (A : Type) : Type := result (list string) A.

Definition vmap {A B} (f : A → B) (x : V A) : V B :=
  match x with Ok a => Ok (f a) | Throw e => Throw e end.

(** Both sides are parsed; the issues come in the order of the schema. *)
Definition vap {A B} (f : V (A → B)) (x : V A) : V B :=
  match f, x with
  | Ok f, Ok a => Ok (f a)
  | Ok _, Throw e => Throw e
  | Throw e, Ok _ => Throw e
  | Throw e, Throw e' => Throw (e ++ e')
  end.

Declare Scope config_scope.
Infix "<$$>" := vmap (at level 61, left associativity) : config_scope.
Infix "<**>" := vap (at level 61, left associativity) : config_scope.
#[local] Open Scope config_scope.

Lemma vap_Ok {A B} (f : V (A → B)) x b : f <**> x = Ok b → ∃ g a, f = Ok g ∧ x = Ok a ∧ b = g a.
Proof. destruct f, x; simpl; naive_solver. Qed.
Lemma vmap_Ok {A B} (f : A → B) x b : f <$$> x = Ok b → ∃ a, x = Ok a ∧ b = f a.
Proof. destruct x; simpl; naive_solver. Qed.

(** ** Keys *)

(** [/^[A-Za-z0-9_-]{43}$/] *)
Definition is_base64url_char (c : ascii) : bool :=
  is_upper c || is_lower c || is_digit c || Ascii.eqb c "_" || Ascii.eqb c "-".
Definition BASE64URL_32_BYTES (s : string) : bool :=
  sall is_base64url_char s && Nat.eqb (String.length s) 43.

Definition sameKeyBytes (a b : string) : bool := String.eqb (from_base64url a) (from_base64url b).

(** ** The schema *)

(** zod's [z.coerce.number().int()] and [z.url()], on a string. *)
Class Zod := { coerceInt : string → option Z; isUrl : string → bool }.

Inductive NodeEnv := development | test_env | production.

Record AppConfig := {
  nodeEnv : NodeEnv; port : Z;
  masterDatabaseUrl : string; tenantClusterUrl : string; problemTypeBaseUri : string;
  jwtIssuer : string; jwtAudience : string; jwtAccessTtlSeconds : Z; jwtClockToleranceSeconds : Z;
  keyEncryptionKey : string; controlPlaneApiKey : string;
  redisUrl : string; apiDocsEnabled : bool;
  requestTimeoutMs : Z; connectionTimeoutMs : Z; keepAliveTimeoutMs : Z; bodyLimitBytes : Z;
  connectionsCheckingIntervalMs : Z;
  trustProxy : bool; rateLimitDefaultLimit : Z; rateLimitDefaultWindowMs : Z;
  loginThrottleLimit : Z; loginThrottleWindowMs : Z; rateLimitFailOpen : bool;
}.

Section schema.
Context `{Zod}.

(** A variable of the environment: absent, or a string. *)
Abbreviation input := (option string) (only parsing).

Definition required (p : string → bool) (path : string) (v : input) : V string :=
  match v with Some s => if p s then Ok s else Throw [path] | None => Throw [path] end.

Definition url : string → input → V string := required isUrl.
Definition non_empty : string → input → V string := required (λ s, Nat.leb 1 (String.length s)).
Definition key256 : string → input → V string := required BASE64URL_32_BYTES.
Definition url_default (d : string) (path : string) (v : input) : V string :=
  match v with None => Ok d | Some _ => url path v end.

Definition int_default (p : Z → bool) (d : Z) (path : string) (v : input) : V Z :=
  match v with
  | None => Ok d
  | Some s =>
      match coerceInt s with
      | Some n => if p n then Ok n else Throw [path]
      | None => Throw [path]
      end
  end.
Definition positive_default : Z → string → input → V Z := int_default (λ n, 0 <? n).
Definition nonnegative_default : Z → string → input → V Z := int_default (λ n, 0 <=? n).

Definition parseNodeEnv (path : string) (v : input) : V NodeEnv :=
  match v with
  | None => Ok development
  | Some s =>
      if String.eqb s "development" then Ok development
      else if String.eqb s "test" then Ok test_env
      else if String.eqb s "production" then Ok production
      else Throw [path]
  end.

(** On unless switched off, and off unless switched on. *)
Definition on_by_default (v : input) : bool :=
  negb (bool_decide (v = Some "false")) && negb (bool_decide (v = Some "0")).
Definition off_by_default (v : input) : bool :=
  bool_decide (v = Some "true") || bool_decide (v = Some "1").

(** The fields up to the HTTP limits. *)
Definition schema_service (source : string → input) :=
  Build_AppConfig
    <$$> parseNodeEnv "nodeEnv" (source "NODE_ENV")
    <**> positive_default 3011 "port" (source "PORT")
    <**> url "masterDatabaseUrl" (source "MASTER_DATABASE_URL")
    <**> url "tenantClusterUrl" (source "TENANT_CLUSTER_URL")
    <**> url_default "https://github.com/faizahmedfarooqui/compliance-ready-backend-kit/blob/main/problems.md"
           "problemTypeBaseUri" (source "PROBLEM_TYPE_BASE_URI")
    <**> non_empty "jwtIssuer" (source "JWT_ISSUER")
    <**> non_empty "jwtAudience" (source "JWT_AUDIENCE")
    <**> positive_default 900 "jwtAccessTtlSeconds" (source "JWT_ACCESS_TTL_SECONDS")
    <**> nonnegative_default 5 "jwtClockToleranceSeconds" (source "JWT_CLOCK_TOLERANCE_SECONDS")
    <**> key256 "keyEncryptionKey" (source "KEY_ENCRYPTION_KEY")
    <**> key256 "controlPlaneApiKey" (source "CONTROL_PLANE_API_KEY")
    <**> url "redisUrl" (source "REDIS_URL")
    <**> Ok (on_by_default (source "API_DOCS_ENABLED")).

(** And the limits. *)
Definition schema (source : string → input) : V AppConfig :=
  schema_service source
    <**> positive_default 30000 "requestTimeoutMs" (source "REQUEST_TIMEOUT_MS")
    <**> positive_default 75000 "connectionTimeoutMs" (source "CONNECTION_TIMEOUT_MS")
    <**> positive_default 72000 "keepAliveTimeoutMs" (source "KEEP_ALIVE_TIMEOUT_MS")
    <**> positive_default 1048576 "bodyLimitBytes" (source "BODY_LIMIT_BYTES")
    <**> positive_default 5000 "connectionsCheckingIntervalMs" (source "CONNECTIONS_CHECKING_INTERVAL_MS")
    <**> Ok (off_by_default (source "TRUST_PROXY"))
    <**> positive_default 100 "rateLimitDefaultLimit" (source "RATE_LIMIT_DEFAULT_LIMIT")
    <**> positive_default 60000 "rateLimitDefaultWindowMs" (source "RATE_LIMIT_DEFAULT_WINDOW_MS")
    <**> positive_default 10 "loginThrottleLimit" (source "LOGIN_THROTTLE_LIMIT")
    <**> positive_default 900000 "loginThrottleWindowMs" (source "LOGIN_THROTTLE_WINDOW_MS")
    <**> Ok (on_by_default (source "RATE_LIMIT_FAIL_OPEN")).

(** The three refinements, each with the path it reports. They run on an object
    every field of which was accepted. *)
Definition invariants (c : AppConfig) : list (bool * string) :=
  [ (keepAliveTimeoutMs c <? connectionTimeoutMs c, "connectionTimeoutMs");
    (connectionsCheckingIntervalMs c <? requestTimeoutMs c, "connectionsCheckingIntervalMs");
    (negb (sameKeyBytes (keyEncryptionKey c) (controlPlaneApiKey c)), "controlPlaneApiKey") ].

Definition withInvariants (source : string → input) : V AppConfig :=
  match schema source with
  | Throw e => Throw e
  | Ok c =>
      match (filter (λ i : bool * string, i.1 = false) (invariants c)).*2 with
      | [] => Ok c
      | issues => Throw issues
      end
  end.

(** [loadConfig]: the configuration, or the issues the thrown error lists. *)
Definition loadConfig (source : string → input) : V AppConfig := withInvariants source.

(** ** What boots *)

Lemma required_Ok p path v s : required p path v = Ok s → v = Some s ∧ p s = true.
Proof. destruct v as [t|]; simpl; [|done]. destruct (p t) eqn:E; naive_solver. Qed.

Lemma int_default_Ok p d path v n : int_default p d path v = Ok n →
  p d = true → p n = true ∧ (v = None ∧ n = d ∨ ∃ s, v = Some s ∧ coerceInt s = Some n).
Proof.
  destruct v as [t|]; simpl; [|by intros [= ->]; eauto].
  destruct (coerceInt t) as [k|] eqn:E; [|done]. destruct (p k) eqn:Ek; [|done].
  intros [= ->] _. eauto.
Qed.

Lemma withInvariants_Ok source c : withInvariants source = Ok c →
  schema source = Ok c ∧ keepAliveTimeoutMs c < connectionTimeoutMs c ∧
  connectionsCheckingIntervalMs c < requestTimeoutMs c ∧
  sameKeyBytes (keyEncryptionKey c) (controlPlaneApiKey c) = false.
Proof.
  unfold withInvariants. destruct (schema source) as [c'|e]; [|done].
  unfold invariants. rewrite !filter_cons, filter_nil. cbn [fst].
  destruct (keepAliveTimeoutMs c' <? connectionTimeoutMs c') eqn:E1;
    [rewrite decide_False by done|rewrite decide_True by done; done].
  destruct (connectionsCheckingIntervalMs c' <? requestTimeoutMs c') eqn:E2;
    [rewrite decide_False by done|rewrite decide_True by done; done].
  destruct (sameKeyBytes _ _) eqn:E3; [rewrite decide_True by done; done|rewrite decide_False by done].
  intros [= <-]. apply Z.ltb_lt in E1, E2. by split_and!.
Qed.
End schema.

(** ** The spellings of a key *)

Lemma base64url_sextet c : is_base64url_char c = true → ∃ n, sextet c = Some n ∧ (n < 64)%N.
Proof.
  unfold is_base64url_char. intros Hc. assert (Hs : ∃ n, sextet c = Some n).
  { unfold sextet. destruct (is_upper c), (is_lower c), (is_digit c); eauto.
    simpl in Hc. destruct (Ascii.eqb c "-"), (Ascii.eqb c "_"); eauto. done. }
  destruct Hs as [n Hn]. exists n. split; [done|]. by eapply sextet_bound.
Qed.

Lemma key_sextets s : sall is_base64url_char s = true →
  ∃ ss, omap sextet (String.list_ascii_of_string s) = ss ∧ length ss = String.length s ∧
    Forall is_sextet ss.
Proof.
  induction s as [|c s IH]; simpl; [by exists []|]. intros [Hc Hs]%andb_true_iff.
  destruct (IH Hs) as (ss & He & Hl & Hf), (base64url_sextet c Hc) as (n & Hn & Hb).
  rewrite Hn. exists (n :: ss). split_and!; simpl; [by f_equal|by f_equal|by constructor].
Qed.

Lemma omap_sextet_inj s t :
  sall is_base64url_char s = true → sall is_base64url_char t = true →
  omap sextet (String.list_ascii_of_string s) = omap sextet (String.list_ascii_of_string t) → s = t.
Proof.
  revert t. induction s as [|c s IH]; intros [|d t] Hs Ht He; simpl in *; try done;
    repeat match goal with H : _ && _ = true |- _ => apply andb_true_iff in H as [? H] end.
  - destruct (base64url_sextet d) as (n & Hn & _); [done|]. by rewrite Hn in He.
  - destruct (base64url_sextet c) as (n & Hn & _); [done|]. by rewrite Hn in He.
  - destruct (base64url_sextet c) as (n & Hn & _), (base64url_sextet d) as (m & Hm & _); try done.
    rewrite Hn, Hm in He. injection He as <- He. f_equal; [by eapply sextet_inj|by apply IH].
Qed.

(** Two digits of a number to a base, and a number from its two digits. *)
Lemma digits_inj (k a b a' b' : N) :
  (b < k → b' < k → a * k + b = a' * k + b' → a = a' ∧ b = b')%N.
Proof. intros Hb Hb' He. rewrite !(N.mul_comm _ k) in He. by apply (N.div_mod_unique k). Qed.
Lemma quotient_remainder_inj (k a b : N) : (k ≠ 0 → a / k = b / k → a mod k = b mod k → a = b)%N.
Proof. intros Hk Hd Hm. rewrite (N.div_mod a k), (N.div_mod b k) by done. by rewrite Hd, Hm. Qed.

(** Four sextets can be read off the three bytes they make. *)
Lemma four_sextets a b c d a' b' c' d' :
  Forall is_sextet [a; b; c; d] → Forall is_sextet [a'; b'; c'; d'] →
  (a * 4 + b / 16 = a' * 4 + b' / 16)%N → (b mod 16 * 16 + c / 4 = b' mod 16 * 16 + c' / 4)%N →
  (c mod 4 * 64 + d = c' mod 4 * 64 + d')%N → [a; b; c; d] = [a'; b'; c'; d'].
Proof.
  assert (Hq : ∀ k m n : N, (n < k * m)%N → (n / k < m)%N) by (intros; by apply N.Div0.div_lt_upper_bound).
  unfold is_sextet. rewrite !Forall_cons. intros (?&?&?&?&_) (?&?&?&?&_) E1 E2 E3.
  apply digits_inj in E1 as [-> Hb]; [|by apply Hq..].
  apply digits_inj in E2 as [Hb' Hc]; [|by apply Hq..].
  apply digits_inj in E3 as [Hc' ->]; [|done..].
  by rewrite (quotient_remainder_inj 16 b b'), (quotient_remainder_inj 4 c c').
Qed.

(** In a group of three sextets the two low bits of the last are padding. *)
Lemma padded_bytes (ss ss' : list N) x y :
  Forall is_sextet ss → Forall is_sextet ss' → is_sextet x → is_sextet y →
  length ss = length ss' → (length ss mod 4 = 2)%nat →
  sextets_to_bytes (ss ++ [x]) = sextets_to_bytes (ss' ++ [y]) ↔ ss = ss' ∧ (x / 4 = y / 4)%N.
Proof.
  revert ss'. induction ss as [|a|a b|a b c|a b c d ss IH] using group4_ind;
    intros ss' Hs Hs' Hx Hy Hl Hm; try done.
  - destruct ss' as [|a' [|b' [|]]]; try done.
    repeat match goal with H : Forall _ (_ :: _) |- _ => apply Forall_cons in H as [? H] end.
    simpl. split; [|by intros [[= <- <-] <-]]. intros He. injection He as He1 He2. split; [|sextet_arith].
    f_equal; [sextet_arith|f_equal; sextet_arith].
  - destruct ss' as [|a' [|b' [|c' [|d' ss']]]]; try done.
    repeat match goal with H : Forall _ (_ :: _) |- _ => apply Forall_cons in H as [? H] end.
    assert (Hm' : (length ss mod 4 = 2)%nat).
    { rewrite <- (Nat.Div0.mod_add (length ss) 1 4), Nat.add_comm. exact Hm. }
    specialize (IH ss' Hs Hs' Hx Hy ltac:(simpl in Hl; lia) Hm'). cbn [app sextets_to_bytes]. split.
    + intros He. injection He as He1 He2 He3 He. apply IH in He as [-> Hxy]. split; [|done].
      by injection (four_sextets a b c d a' b' c' d' ltac:(by repeat constructor)
        ltac:(by repeat constructor) He1 He2 He3) as -> -> -> ->.
    + intros [He Hxy]. injection He as -> -> -> -> ->. do 3 f_equal. by apply IH.
Qed.

Lemma sextets_bytes_bound ss : Forall is_sextet ss → Forall is_byte (sextets_to_bytes ss).
Proof.
  induction ss as [|a|a b|a b c|a b c d ss IH] using group4_ind; simpl; intros Hs;
    repeat match goal with H : Forall _ (_ :: _) |- _ => apply Forall_cons in H as [? H] end;
    repeat constructor; try sextet_arith; auto.
Qed.

Lemma list_ascii_app s t :
  String.list_ascii_of_string (s +:+ t)
  = String.list_ascii_of_string s ++ String.list_ascii_of_string t.
Proof. induction s; simpl; congruence. Qed.

(** The bits of the last character that belong to the key. *)
Definition key_bits (c : ascii) : option N := (λ n, n / 4)%N <$> sextet c.

(** Two accepted keys are refused as the same exactly when they are two
    spellings of one key: the first 42 characters agree, and the last agree on
    the four bits that are not padding. *)
Theorem sameKeyBytes_spellings p q c d :
  BASE64URL_32_BYTES (p +:+ String c "") = true → BASE64URL_32_BYTES (q +:+ String d "") = true →
  sameKeyBytes (p +:+ String c "") (q +:+ String d "") = true ↔ p = q ∧ key_bits c = key_bits d.
Proof.
  unfold BASE64URL_32_BYTES, sameKeyBytes, from_base64url, key_bits.
  rewrite !andb_true_iff, !sall_app, !Nat.eqb_eq, !slength_app, !list_ascii_app, !omap_app.
  simpl. rewrite !andb_true_iff. intros [[Hp [Hc _]] Hlp] [[Hq [Hd _]] Hlq].
  destruct (base64url_sextet c Hc) as (x & Hx & Hbx), (base64url_sextet d Hd) as (y & Hy & Hby).
  destruct (key_sextets p Hp) as (ss & Hss & Hls & Hfs), (key_sextets q Hq) as (ts & Hts & Hlt & Hft).
  rewrite Hx, Hy. cbn [fmap option_fmap option_map]. rewrite String.eqb_eq.
  rewrite Hss, Hts.
  assert (Hpad := padded_bytes ss ts x y Hfs Hft Hbx Hby ltac:(lia)
    ltac:(replace (length ss) with 42%nat by lia; done)).
  assert (Hinj : p = q ↔ ss = ts).
  { split; [intros ->; congruence|]. intros He. apply omap_sextet_inj; congruence. }
  assert (Hof : of_bytes (sextets_to_bytes (ss ++ [x])) = of_bytes (sextets_to_bytes (ts ++ [y]))
    ↔ sextets_to_bytes (ss ++ [x]) = sextets_to_bytes (ts ++ [y])).
  { split; [|by intros ->]. apply of_bytes_inj; apply sextets_bytes_bound, Forall_app_2; by repeat constructor. }
  rewrite Hof, Hpad, Hinj. split; intros [-> Hk]; split; congruence.
Qed.

Lemma key_length s : BASE64URL_32_BYTES s = true → byteLength (from_base64url s) = 32%nat.
Proof.
  unfold BASE64URL_32_BYTES, from_base64url. intros [Hs Hl]%andb_true_iff. apply Nat.eqb_eq in Hl.
  destruct (key_sextets s Hs) as (ss & -> & Hlen & _). rewrite Hl in Hlen.
  do 43 (destruct ss as [|? ss]; [done|]). destruct ss; [|done]. reflexivity.
Qed.

Lemma loadConfig_facts `{Zod} source c :
  loadConfig source = Ok c →
  source "KEY_ENCRYPTION_KEY" = Some (keyEncryptionKey c) ∧
  source "CONTROL_PLANE_API_KEY" = Some (controlPlaneApiKey c) ∧
  byteLength (from_base64url (keyEncryptionKey c)) = 32%nat ∧
  byteLength (from_base64url (controlPlaneApiKey c)) = 32%nat ∧
  from_base64url (keyEncryptionKey c) ≠ from_base64url (controlPlaneApiKey c) ∧
  0 < keepAliveTimeoutMs c < connectionTimeoutMs c ∧
  0 < connectionsCheckingIntervalMs c < requestTimeoutMs c ∧
  0 < jwtAccessTtlSeconds c ∧ 0 ≤ jwtClockToleranceSeconds c ∧
  0 < rateLimitDefaultLimit c ∧ 0 < loginThrottleLimit c ∧ 0 < bodyLimitBytes c ∧
  (trustProxy c = true ↔ source "TRUST_PROXY" = Some "true" ∨ source "TRUST_PROXY" = Some "1") ∧
  (rateLimitFailOpen c = false ↔
     source "RATE_LIMIT_FAIL_OPEN" = Some "false" ∨ source "RATE_LIMIT_FAIL_OPEN" = Some "0") ∧
  0 < port c ∧ 0 < rateLimitDefaultWindowMs c ∧ 0 < loginThrottleWindowMs c.
Proof.
  unfold loadConfig. intros (Hs & H1 & H2 & H3)%withInvariants_Ok.
  unfold schema, schema_service in Hs.
  repeat match goal with
  | H : _ <**> _ = Ok _ |- _ =>
      let g := fresh "g" in let a := fresh "a" in let E := fresh "E" in
      apply vap_Ok in H as (g & a & H & E & ?)
  | H : _ <$$> _ = Ok _ |- _ =>
      let a := fresh "a" in let E := fresh "E" in apply vmap_Ok in H as (a & E & ?)
  end.
  subst; simpl in *.
  repeat match goal with
  | H : Ok _ = Ok _ |- _ => injection H as H; subst
  | H : key256 _ _ = Ok _ |- _ => apply required_Ok in H as [? H]
  | H : positive_default _ _ _ = Ok _ |- _ =>
      apply int_default_Ok in H as [?%Z.ltb_lt _]; [|done]
  | H : nonnegative_default _ _ _ = Ok _ |- _ =>
      apply int_default_Ok in H as [?%Z.leb_le _]; [|done]
  end.
  unfold sameKeyBytes in H3. apply String.eqb_neq in H3.
  unfold off_by_default, on_by_default.
  rewrite orb_true_iff, andb_false_iff, !negb_false_iff, !bool_decide_eq_true.
  split_and!; auto using key_length.
Qed.

(** What boots is safe: both secrets were supplied, each is a 256-bit key,
    and they are different keys whatever their spelling; the timeouts are
    positive and ordered; a proxy is trusted, and failing closed chosen, only
    where that was asked for in so many words. *)
Theorem loadConfig_safe `{Zod} source c :
  loadConfig source = Ok c →
  source "KEY_ENCRYPTION_KEY" = Some (keyEncryptionKey c) ∧
  source "CONTROL_PLANE_API_KEY" = Some (controlPlaneApiKey c) ∧
  byteLength (from_base64url (keyEncryptionKey c)) = 32%nat ∧
  byteLength (from_base64url (controlPlaneApiKey c)) = 32%nat ∧
  from_base64url (keyEncryptionKey c) ≠ from_base64url (controlPlaneApiKey c) ∧
  0 < keepAliveTimeoutMs c < connectionTimeoutMs c ∧
  0 < connectionsCheckingIntervalMs c < requestTimeoutMs c ∧
  0 < jwtAccessTtlSeconds c ∧ 0 ≤ jwtClockToleranceSeconds c ∧
  0 < rateLimitDefaultLimit c ∧ 0 < loginThrottleLimit c ∧ 0 < bodyLimitBytes c ∧
  (trustProxy c = true ↔ source "TRUST_PROXY" = Some "true" ∨ source "TRUST_PROXY" = Some "1") ∧
  (rateLimitFailOpen c = false ↔
     source "RATE_LIMIT_FAIL_OPEN" = Some "false" ∨ source "RATE_LIMIT_FAIL_OPEN" = Some "0").
Proof. intros Hc. apply loadConfig_facts in Hc. tauto. Qed.

(** ** Local development *)

(** A directory: the segments of its absolute path, innermost first; the root
    has none. *)
Definition dirname (dir : list string) : list string := tail dir.
Definition join (dir : list string) (f : string) : list string := f :: dir.

Fixpoint findDotenvFile (existsSync : list string → bool) (dir : list string) (maxLevels : nat)
    : option (list string) :=
  match maxLevels with
  | O => None
  | S levels =>
      let candidate := join dir ".env" in
      if existsSync candidate then Some candidate
      else
        let parent := dirname dir in
        if decide (parent = dir) then None else findDotenvFile existsSync parent levels
  end.

(** [loadLocalDotenv], [process.env] after it: nothing is read in production, and
    what is already set wins. *)
Definition loadLocalDotenv (existsSync : list string → bool) (read : list string → gmap string string)
    (cwd : list string) (env : gmap string string) : gmap string string :=
  if decide (env !! "NODE_ENV" = Some "production") then env
  else match findDotenvFile existsSync cwd 5 with
       | None => env
       | Some envFile => env ∪ read envFile
       end.

(** packages/db/src/cli/load-dotenv.ts, which the operator tools use: one loop that
    reads the file where it finds it. *)
Fixpoint walk_up (existsSync : list string → bool) (read : list string → gmap string string)
    (levels : nat) (dir : list string) (env : gmap string string) : gmap string string :=
  match levels with
  | O => env
  | S levels =>
      let candidate := join dir ".env" in
      if existsSync candidate then env ∪ read candidate
      else
        let parent := dirname dir in
        if decide (parent = dir) then env else walk_up existsSync read levels parent env
  end.
Definition cli_loadLocalDotenv (existsSync : list string → bool) (read : list string → gmap string string)
    (cwd : list string) (env : gmap string string) : gmap string string :=
  if decide (env !! "NODE_ENV" = Some "production") then env else walk_up existsSync read 5 cwd env.

(** Its comment says it is the same algorithm; it is. *)
Lemma cli_loader_agrees ex read cwd env : cli_loadLocalDotenv ex read cwd env = loadLocalDotenv ex read cwd env.
Proof.
  unfold cli_loadLocalDotenv, loadLocalDotenv. case_decide; [done|]. generalize 5%nat as n. intros n.
  revert cwd. induction n as [|n IH]; intros dir; [done|]. cbn [walk_up findDotenvFile].
  destruct (ex (join dir ".env")); [done|]. case_decide; [done|apply IH].
Qed.

(** The file found is the nearest, at most four directories up. *)
Lemma findDotenvFile_nearest ex dir n f : findDotenvFile ex dir n = Some f →
  ∃ k, (k < n)%nat ∧ f = join (drop k dir) ".env" ∧ ex f = true ∧
    ∀ j, (j < k)%nat → ex (join (drop j dir) ".env") = false.
Proof.
  revert dir. induction n as [|n IH]; intros dir; simpl; [done|].
  destruct (ex (join dir ".env")) eqn:E.
  - intros [= <-]. exists O. split_and!; [lia|done|done|lia].
  - case_decide as Hd; [done|]. intros (k & Hk & -> & Hex & Hall)%IH.
    assert (Hdrop : ∀ j, drop j (dirname dir) = drop (S j) dir)
      by (intros j; destruct dir; simpl; [by rewrite drop_nil|done]).
    rewrite Hdrop in *. exists (S k). split_and!; [lia|done|done|].
    intros [|j] Hj; [done|]. rewrite <- Hdrop. apply Hall. lia.
Qed.

(** Reading a [.env] never changes a variable the environment sets, and in
    production it changes nothing at all. *)
Theorem loadLocalDotenv_environment_wins ex read cwd env k v :
  env !! k = Some v →
  loadLocalDotenv ex read cwd env !! k = Some v ∧
  (env !! "NODE_ENV" = Some "production" → loadLocalDotenv ex read cwd env = env).
Proof.
  intros Hk. unfold loadLocalDotenv. case_decide; [done|]. split; [|done].
  destruct (findDotenvFile ex cwd 5); [|done]. by apply lookup_union_Some_l.
Qed.

Module ConfigSample.
(** Plain decimal digits, and anything with a scheme. *)
Definition digits (s : string) : option Z := Z.of_uint <$> NilEmpty.uint_of_string s.
#[local] Instance zod : Zod :=
  { coerceInt := digits; isUrl := λ s, Nat.leb 2 (length (split_on ":" s)) }.

Definition key1 : string := "AAAAAAAAAAAAAAAAAAAAAAAAAAAAAAAAAAAAAAAAAAA".
Definition key1' : string := "AAAAAAAAAAAAAAAAAAAAAAAAAAAAAAAAAAAAAAAAAAB".
Definition key2 : string := "BAAAAAAAAAAAAAAAAAAAAAAAAAAAAAAAAAAAAAAAAAA".

Definition env (control : string) (v : string) : option string :=
  (list_to_map [("MASTER_DATABASE_URL", "postgres://m"); ("TENANT_CLUSTER_URL", "postgres://t");
    ("JWT_ISSUER", "kit"); ("JWT_AUDIENCE", "api"); ("REDIS_URL", "redis://r");
    ("KEY_ENCRYPTION_KEY", key1); ("CONTROL_PLANE_API_KEY", control); ("TRUST_PROXY", "1")]
    : gmap string string) !! v.

Example same_key_refused :
  loadConfig (env key1') = Throw ["controlPlaneApiKey"] ∧ loadConfig (env "short") = Throw ["controlPlaneApiKey"].
Proof. vm_compute. split; reflexivity. Qed.

Lemma sameKeyBytes_spellings_witness :
  sameKeyBytes key1 key1' = true ↔
  "AAAAAAAAAAAAAAAAAAAAAAAAAAAAAAAAAAAAAAAAAA" = "AAAAAAAAAAAAAAAAAAAAAAAAAAAAAAAAAAAAAAAAAA"
  ∧ key_bits "A" = key_bits "B".
Proof.
  exact (sameKeyBytes_spellings "AAAAAAAAAAAAAAAAAAAAAAAAAAAAAAAAAAAAAAAAAA"
    "AAAAAAAAAAAAAAAAAAAAAAAAAAAAAAAAAAAAAAAAAA" "A" "B" eq_refl eq_refl).
Defined.

Lemma loadConfig_safe_witness :
  ∃ c, loadConfig (env key2) = Ok c ∧ trustProxy c = true ∧
    from_base64url (keyEncryptionKey c) ≠ from_base64url (controlPlaneApiKey c) ∧
    0 < keepAliveTimeoutMs c < connectionTimeoutMs c.
Proof.
  eexists. split; [vm_compute; reflexivity|].
  split; [vm_compute; reflexivity|].
  match goal with |- from_base64url (keyEncryptionKey ?c) ≠ _ ∧ _ =>
    destruct (loadConfig_safe (env key2) c) as (_ & _ & _ & _ & H1 & H2 & _) end.
  - vm_compute. reflexivity.
  - split; [exact H1|exact H2].
Defined.

Lemma loadLocalDotenv_environment_wins_witness :
  loadLocalDotenv (λ f, bool_decide (f = [".env"; "repo"])) (λ _, {[ "PORT" := "1" ]})
    ["auth"; "services"; "repo"] {[ "PORT" := "9" ]} !! "PORT" = Some "9".
Proof. apply (loadLocalDotenv_environment_wins _ _ _ {[ "PORT" := "9" ]} "PORT" "9"). reflexivity. Defined.
End ConfigSample.
