(* ===== verification/Keys.v ===== *)
(** Key material: packages/crypto/src/key-provider.ts, key-material.ts and
    key-loading.ts.

    AES-256-GCM ([AesGcm]) and jose's key import and export ([JoseKeys]) are
    parameters with the laws the code relies on; everything the repository does
    with them is defined here. *)
From S2P Require Import Prelude Domain AuditHash.
#[local] Open Scope Z_scope.

(** ** JSON values

    What the code can tell apart in a parsed JSON value. *)
Inductive json :=
  | JString (s : string)
  | JNumber (n : Z)
  | JStringArray (l : list string)   (* an array of strings, the empty one too *)
  | JOther.                          (* null, a boolean, an object, another array *)

#[export] Instance json_eq_dec : EqDecision json.
Proof. solve_decision. Defined.

Abbreviation JWK := (gmap string json) (only parsing).

(** [a === b], where [undefined] is a missing member. Two values that are not
    primitive are not identical. *)
Definition strict_equal (a b : option json) : bool :=
  match a, b with
  | None, None => true
  | Some (JString s), Some (JString t) => String.eqb s t
  | Some (JNumber m), Some (JNumber n) => m =? n
  | _, _ => false
  end.

Definition SIGNING_ALG : string := "ES256".
Definition ENCRYPTION_ALG : string := "A256KW".
Definition ENCRYPTION_KEY_BYTES : nat := 32.

(** [sameKeyMaterial] *)
Definition sameKeyMaterial (a b : JWK) : bool :=
  strict_equal (a !! "kty") (b !! "kty") && strict_equal (a !! "crv") (b !! "crv") &&
  strict_equal (a !! "x") (b !! "x") && strict_equal (a !! "y") (b !! "y").

(** ** Wrapping *)

(** AES-256-GCM under a key, an IV and associated data: body and tag. *)
Class AesGcm := {
  gcm_seal : Buffer → Buffer → Buffer → Buffer → Buffer * Buffer;
  gcm_open : Buffer → Buffer → Buffer → Buffer → Buffer → option Buffer;
  gcm_body_length : ∀ k iv a p, byteLength (gcm_seal k iv a p).1 = byteLength p;
  gcm_tag_length : ∀ k iv a p, byteLength (gcm_seal k iv a p).2 = 16%nat;
  gcm_open_seal : ∀ k iv a p, gcm_open k iv a (gcm_seal k iv a p).1 (gcm_seal k iv a p).2 = Some p;
  gcm_seal_open : ∀ k iv a b t p, byteLength t = 16%nat → gcm_open k iv a b t = Some p → gcm_seal k iv a p = (b, t);
}.

Record KeyContext := { purpose : string; ctx_kid : string }.

Definition aad (context : KeyContext) : Buffer :=
  "v1:" +:+ purpose context +:+ ":" +:+ ctx_kid context.

Definition KEK_BYTES : nat := 32.
Definition IV_BYTES : nat := 12.
Definition TAG_BYTES : nat := 16.

Record KeyProvider := { provider_id : string; kek : Buffer }.

(** [new LocalKeyProvider(kek, id)] *)
Definition LocalKeyProvider (key : Buffer) (id : string) : M KeyProvider :=
  if negb (Nat.eqb (byteLength key) KEK_BYTES)
  then Throw (EError ("Key-encrypting key must be exactly " +:+ dec KEK_BYTES +:+ " bytes, got "
                        +:+ dec (byteLength key)))
  else Ok {| provider_id := id; kek := key |}.

(** [buf.subarray(a, b)] *)
Definition subarray (a b : nat) (s : Buffer) : Buffer := String.substring a (b - a) s.

Section wrapping.
Context `{AesGcm}.

(** [iv] is what [randomBytes] returned. *)
Definition wrap (p : KeyProvider) (iv : Buffer) (plaintext : Buffer) (context : KeyContext) : Buffer :=
  let (body, tag) := gcm_seal (kek p) iv (aad context) plaintext in iv +:+ body +:+ tag.

Definition unwrap (p : KeyProvider) (ciphertext : Buffer) (context : KeyContext) : M Buffer :=
  if Nat.leb (byteLength ciphertext) (IV_BYTES + TAG_BYTES)
  then Throw (EError "Wrapped key is too short to be well formed")
  else
    let n := byteLength ciphertext in
    let iv := subarray 0 IV_BYTES ciphertext in
    let body := subarray IV_BYTES (n - TAG_BYTES) ciphertext in
    let tag := subarray (n - TAG_BYTES) n ciphertext in
    match gcm_open (kek p) iv (aad context) body tag with
    | Some plaintext => Ok plaintext
    | None => Throw (EError "Unsupported state or unable to authenticate data")
    end.
End wrapping.

(** *** The parts of a buffer *)

Lemma substring_whole s : String.substring 0 (String.length s) s = s.
Proof. induction s as [|c s IH]; [done|]. simpl. by rewrite IH. Qed.

Lemma substring_prefix s t : String.substring 0 (String.length s) (s +:+ t) = s.
Proof. induction s as [|c s IH]; simpl; [by destruct t|]. by rewrite IH. Qed.

Lemma substring_shift s t n m : String.substring (String.length s + n) m (s +:+ t) = String.substring n m t.
Proof. induction s as [|c s IH]; simpl; [done|]. apply IH. Qed.

Lemma substring_suffix s t : String.substring (String.length s) (String.length t) (s +:+ t) = t.
Proof. rewrite <- (Nat.add_0_r (String.length s)), substring_shift. apply substring_whole. Qed.

(** [iv], [body] and [tag] are recovered from their concatenation. *)
Lemma parts_of_blob iv body tag :
  byteLength iv = IV_BYTES → byteLength tag = TAG_BYTES →
  let b := iv +:+ body +:+ tag in let n := byteLength b in
  subarray 0 IV_BYTES b = iv ∧ subarray IV_BYTES (n - TAG_BYTES) b = body ∧
  subarray (n - TAG_BYTES) n b = tag.
Proof.
  intros Hiv Htag b n.
  assert (Hn : n = (IV_BYTES + byteLength body + TAG_BYTES)%nat)
    by (unfold n, b; rewrite !slength_app; lia).
  unfold subarray, b. split_and!.
  - rewrite Nat.sub_0_r, <- Hiv. apply substring_prefix.
  - replace (n - TAG_BYTES - IV_BYTES)%nat with (byteLength body) by lia.
    rewrite <- Hiv, <- (Nat.add_0_r (byteLength iv)), substring_shift. apply substring_prefix.
  - replace (n - (n - TAG_BYTES))%nat with (byteLength tag) by (unfold TAG_BYTES in *; lia).
    replace (n - TAG_BYTES)%nat with (byteLength iv + byteLength body)%nat by (rewrite Hiv; lia).
    rewrite <- slength_app, <- sapp_assoc. apply substring_suffix.
Qed.

Lemma substring_split n m s :
  (n + m ≤ String.length s)%nat →
  String.substring 0 n s +:+ String.substring n m s +:+ String.substring (n + m) (String.length s - (n + m)) s = s.
Proof.
  revert n m. induction s as [|c s IH]; intros n m Hl.
  - simpl in Hl. assert (n = 0%nat ∧ m = 0%nat) as [-> ->] by lia. done.
  - destruct n as [|n]; [destruct m as [|m]|].
    + change (String c (String.substring 0 (String.length s) s) = String c s).
      f_equal. apply substring_whole.
    + change (String c (String.substring 0 m s
        +:+ String.substring (0 + m) (String.length s - (0 + m)) s) = String c s).
      f_equal. specialize (IH 0%nat m ltac:(simpl in *; lia)).
      replace (String.substring 0 0 s) with ""%string in IH by (by destruct s). exact IH.
    + change (String c (String.substring 0 n s +:+ String.substring n m s
        +:+ String.substring (n + m) (String.length s - (n + m)) s) = String c s).
      f_equal. apply IH. simpl in *. lia.
Qed.

Lemma substring_length n m s : (n + m ≤ String.length s)%nat → String.length (String.substring n m s) = m.
Proof.
  revert n m. induction s as [|c s IH]; intros n m Hl; simpl in *.
  - assert (n = 0%nat ∧ m = 0%nat) as [-> ->] by lia. done.
  - destruct n as [|n]; [destruct m as [|m]|]; [done|simpl; f_equal; apply IH; lia|apply IH; lia].
Qed.

Section wrapping_laws.
Context `{AesGcm}.

Lemma unwrap_wrap p iv plaintext context :
  byteLength iv = IV_BYTES → plaintext ≠ "" →
  unwrap p (wrap p iv plaintext context) context = Ok plaintext.
Proof.
  intros Hiv Hp. unfold wrap.
  pose proof (gcm_tag_length (kek p) iv (aad context) plaintext) as Ht.
  pose proof (gcm_body_length (kek p) iv (aad context) plaintext) as Hb.
  pose proof (gcm_open_seal (kek p) iv (aad context) plaintext) as Ho.
  destruct (gcm_seal _ _ _ _) as [body tag]. simpl in *. unfold unwrap.
  destruct (parts_of_blob iv body tag Hiv Ht) as (-> & -> & ->). rewrite Ho.
  destruct (Nat.leb_spec (byteLength (iv +:+ body +:+ tag)) (IV_BYTES + TAG_BYTES)) as [Hle|]; [|done].
  rewrite !slength_app, Hiv, Ht, Hb in Hle. unfold IV_BYTES, TAG_BYTES in Hle.
  destruct plaintext; [done|]. simpl in Hle. lia.
Qed.

Lemma unwrap_inv p blob context plaintext : unwrap p blob context = Ok plaintext →
  plaintext ≠ "" ∧ ∃ iv, byteLength iv = IV_BYTES ∧ blob = wrap p iv plaintext context.
Proof.
  unfold unwrap. destruct (Nat.leb_spec (byteLength blob) (IV_BYTES + TAG_BYTES)) as [|Hl]; [done|].
  destruct (gcm_open _ _ _ _ _) as [q|] eqn:Eo; [|done]. intros [= ->].
  set (n := byteLength blob) in *. unfold IV_BYTES, TAG_BYTES in Hl.
  assert (Htag : byteLength (subarray (n - TAG_BYTES) n blob) = 16%nat).
  { unfold subarray. replace (n - (n - TAG_BYTES))%nat with 16%nat by (unfold TAG_BYTES; lia).
    apply substring_length. unfold TAG_BYTES. fold n. lia. }
  pose proof (gcm_seal_open _ _ _ _ _ _ Htag Eo) as Es.
  pose proof (gcm_body_length (kek p) (subarray 0 IV_BYTES blob) (aad context) plaintext) as Hbl.
  rewrite Es in Hbl. cbn [fst] in Hbl. unfold subarray in Hbl.
  rewrite substring_length in Hbl by (fold n; unfold TAG_BYTES, IV_BYTES; lia).
  split; [intros ->; simpl in Hbl; unfold TAG_BYTES, IV_BYTES in Hbl; lia|].
  exists (subarray 0 IV_BYTES blob). split; [apply substring_length; unfold IV_BYTES; simpl; fold n; lia|].
  unfold wrap. rewrite Es. symmetry. unfold subarray at 1. rewrite Nat.sub_0_r.
  pose proof (substring_split IV_BYTES (n - TAG_BYTES - IV_BYTES) blob
    ltac:(unfold TAG_BYTES, IV_BYTES; fold n; lia)) as Hsp. fold n in Hsp.
  replace (IV_BYTES + (n - TAG_BYTES - IV_BYTES))%nat with (n - TAG_BYTES)%nat in Hsp
    by (unfold IV_BYTES, TAG_BYTES; lia).
  exact Hsp.
Qed.

(** Unwrapping is the exact inverse of wrapping: it succeeds on a blob
    precisely when the blob is this provider's wrap of a non-empty key in that
    slot, and then returns that key. Any other bytes, wrong context included,
    are an error rather than a plausible key. *)
Theorem unwrap_iff_wrapped p blob context plaintext :
  unwrap p blob context = Ok plaintext ↔
  plaintext ≠ "" ∧ ∃ iv, byteLength iv = IV_BYTES ∧ blob = wrap p iv plaintext context.
Proof.
  split; [apply unwrap_inv|]. intros (Hp & iv & Hiv & ->). by apply unwrap_wrap.
Qed.

Lemma aad_inj c c' :
  free_of ":" (purpose c) = true → free_of ":" (purpose c') = true → aad c = aad c' → c = c'.
Proof.
  intros Hc Hc' He. unfold aad in He.
  apply (sapp_inj_length "v1:" "v1:" _ _ eq_refl) in He as [_ He].
  apply (prefix_upto_inj (λ d, negb (Ascii.eqb d ":")) ":") in He as [H1 H2]; try done.
  destruct c, c'. simpl in *. by subst.
Qed.

(** A wrapped blob belongs to its slot: if it unwraps under another purpose
    or kid, or to another key, then two different inputs to AES-GCM under this
    key-encrypting key and IV sealed to the same body and tag. *)
Theorem wrapped_key_bound_to_slot p iv plaintext c c' plaintext' :
  byteLength iv = IV_BYTES → free_of ":" (purpose c) = true → free_of ":" (purpose c') = true →
  unwrap p (wrap p iv plaintext c) c' = Ok plaintext' →
  (c' = c ∧ plaintext' = plaintext) ∨
  ((aad c, plaintext) ≠ (aad c', plaintext') ∧
   gcm_seal (kek p) iv (aad c) plaintext = gcm_seal (kek p) iv (aad c') plaintext').
Proof.
  intros Hiv Hc Hc' Hu. apply unwrap_inv in Hu as (Hne & iv' & Hiv' & Hw).
  unfold wrap in Hw.
  destruct (gcm_seal (kek p) iv (aad c) plaintext) as [b t] eqn:E1.
  destruct (gcm_seal (kek p) iv' (aad c') plaintext') as [b' t'] eqn:E2.
  pose proof (gcm_tag_length (kek p) iv (aad c) plaintext) as Ht.
  pose proof (gcm_tag_length (kek p) iv' (aad c') plaintext') as Ht'. rewrite E1, E2 in *. simpl in *.
  apply sapp_inj_length in Hw as [-> Hw]; [|congruence].
  assert (Hlen : byteLength b = byteLength b').
  { apply (f_equal byteLength) in Hw. rewrite !slength_app in Hw. lia. }
  apply sapp_inj_length in Hw as [-> ->]; [|done].
  destruct (decide ((aad c, plaintext) = (aad c', plaintext'))) as [He|Hne'].
  - left. apply pair_equal_spec in He as [He ->]. split; [|done]. symmetry. by apply aad_inj.
  - right. by rewrite E2.
Qed.
End wrapping_laws.

(** ** jose's keys *)

(** [importPKCS8], [exportJWK] and [importJWK], the last on a symmetric JWK too. *)
Class JoseKeys := {
  PrivKey : Type;
  PubKey : Type;
  importPKCS8 : Buffer → M PrivKey;
  exportJWK : PrivKey → JWK;
  importJWK : JWK → M (PubKey + Buffer);
  publicOf : PrivKey → PubKey;             (* the public half, mathematically *)
}.

(** Importing the exported point of a private key, under any metadata, gives its
    public half. *)
Definition point_members : list string := ["kty"; "crv"; "x"; "y"].
Definition pick (members : list string) (j : JWK) : JWK :=
  filter (λ kv : string * json, kv.1 ∈ members) j.

Class JoseKeysLaws `(JoseKeys) := {
  import_point : ∀ k j key, pick point_members j = pick point_members (exportJWK k) →
    importJWK j = Ok (inl key) → key = publicOf k;
}.

Section loading.
Context `{AesGcm} `{JoseKeys}.

(** [derivePublicJwk] *)
Definition derivePublicJwk (privatePkcs8 : Buffer) : M JWK :=
  privateKey ← importPKCS8 privatePkcs8; Ok (pick point_members (exportJWK privateKey)).

Definition importSigningKey (privatePkcs8 : Buffer) : M PrivKey := importPKCS8 privatePkcs8.

(** [importVerificationKey] *)
Definition importVerificationKey (publicJwk : JWK) : M PubKey :=
  key ← importJWK publicJwk;
  match key with
  | inl key => Ok key
  | inr _ => Throw (EError "Expected an asymmetric public key for ES256, got symmetric key material")
  end.

(** [publicJwkMatchesPrivateKey] *)
Definition publicJwkMatchesPrivateKey (privatePkcs8 : Buffer) (publicJwk : JWK) : M bool :=
  derived ← derivePublicJwk privatePkcs8; Ok (sameKeyMaterial derived publicJwk).

(** A [config_keys] row. [row_publicJwk] is [None] unless it is an object. *)
Record StoredKeyRow := {
  kr_kid : string; kr_purpose : string; kr_algorithm : string;
  kr_wrappedKey : option Buffer; kr_kekId : string; kr_publicJwk : option JWK;
}.

Inductive LoadedKey :=
  | LoadedSigningKey (kid : string) (privateKey : PrivKey) (publicKey : PubKey) (publicJwk : JWK)
  | LoadedEncryptionKey (kid : string) (secret : Buffer).

Definition PRIVATE_MEMBERS : list string := ["d"; "p"; "q"; "dp"; "dq"; "qi"; "oth"; "k"].

Definition json_text (j : option json) : string :=
  match j with
  | Some (JString s) => s | Some (JNumber n) => decZ n | Some (JStringArray l) => String.concat "," l
  | Some JOther => "?" | None => "undefined"
  end.

Definition trustedPublicJwk (row : StoredKeyRow) (derived : JWK) : M JWK :=
  match kr_publicJwk row with
  | None => Throw (EError "the signing key has no public JWK")
  | Some jwk =>
      _ ← throw_if (negb (sameKeyMaterial derived jwk))
            (EError ("its stored public JWK is not the public half of its wrapped private key, so the column may "
                       +:+ "have been replaced; refusing to verify or publish with it"));
      _ ← throw_if (negb (strict_equal (jwk !! "kid") (Some (JString (kr_kid row)))))
            (EError ("its stored public JWK names kid " +:+ quote +:+ json_text (jwk !! "kid") +:+ quote
                       +:+ ", not the row's own"));
      _ ← throw_if (bool_decide (jwk !! "alg" ≠ None) &&
                    negb (strict_equal (jwk !! "alg") (Some (JString SIGNING_ALG))))
            (EError ("its stored public JWK declares alg " +:+ quote +:+ json_text (jwk !! "alg") +:+ quote
                       +:+ ", not " +:+ SIGNING_ALG));
      _ ← throw_if (bool_decide (jwk !! "use" ≠ None) &&
                    negb (strict_equal (jwk !! "use") (Some (JString "sig"))))
            (EError ("its stored public JWK declares use " +:+ quote +:+ json_text (jwk !! "use") +:+ quote
                       +:+ ", not " +:+ quote +:+ "sig" +:+ quote));
      let leaked := filter (λ member, jwk !! member ≠ None) PRIVATE_MEMBERS in
      _ ← throw_if (negb (bool_decide (leaked = [])))
            (EError ("its stored public JWK carries private members (" +:+ String.concat ", " leaked +:+ ")"));
      Ok (<["use" := JString "sig"]> (<["alg" := JString SIGNING_ALG]>
            (<["kid" := JString (kr_kid row)]> derived)))
  end.

Definition loadStoredKey (provider : KeyProvider) (row : StoredKeyRow) : M LoadedKey :=
  match kr_wrappedKey row with
  | None => Throw (EError "the row holds no key material")
  | Some wrapped =>
      _ ← throw_if (negb (String.eqb (kr_kekId row) (provider_id provider)))
            (EError ("it was wrapped by key-encrypting key " +:+ quote +:+ kr_kekId row +:+ quote
                       +:+ ", and this process holds " +:+ quote +:+ provider_id provider +:+ quote));
      if String.eqb (kr_purpose row) "token_signing" then
        _ ← throw_if (negb (String.eqb (kr_algorithm row) SIGNING_ALG))
              (EError ("a signing key must be " +:+ SIGNING_ALG +:+ ", not " +:+ kr_algorithm row));
        privatePkcs8 ← unwrap provider wrapped {| purpose := kr_purpose row; ctx_kid := kr_kid row |};
        derived ← derivePublicJwk privatePkcs8;
        publicJwk ← trustedPublicJwk row derived;
        privateKey ← importSigningKey privatePkcs8;
        publicKey ← importVerificationKey publicJwk;
        Ok (LoadedSigningKey (kr_kid row) privateKey publicKey publicJwk)
      else if String.eqb (kr_purpose row) "token_encryption" then
        _ ← throw_if (negb (String.eqb (kr_algorithm row) ENCRYPTION_ALG))
              (EError ("an encryption key must be " +:+ ENCRYPTION_ALG +:+ ", not " +:+ kr_algorithm row));
        secret ← unwrap provider wrapped {| purpose := kr_purpose row; ctx_kid := kr_kid row |};
        _ ← throw_if (negb (Nat.eqb (byteLength secret) ENCRYPTION_KEY_BYTES))
              (EError ("an encryption key must be " +:+ dec ENCRYPTION_KEY_BYTES +:+ " bytes, not "
                         +:+ dec (byteLength secret)));
        Ok (LoadedEncryptionKey (kr_kid row) secret)
      else Throw (EError ("unknown key purpose " +:+ quote +:+ kr_purpose row +:+ quote))
  end.

Inductive KeyState := pending | active_key | retiring | revoked.
#[export] Instance KeyState_eq_dec : EqDecision KeyState.
Proof. solve_decision. Defined.

(** [isKeyUsable]; times are milliseconds. *)
Definition isKeyUsable (state : KeyState) (notAfter : option Z) (now : Z) : bool :=
  match state with
  | revoked | pending => false
  | _ => match notAfter with Some t => now <? t | None => true end
  end.
End loading.

Section loading_laws.
Context `{AesGcm} `{JoseKeysLaws}.

Lemma pick_lookup l j m : pick l j !! m = if decide (m ∈ l) then j !! m else None.
Proof.
  unfold pick. case_decide as Hm.
  - destruct (j !! m) as [v|] eqn:E.
    + by apply map_lookup_filter_Some.
    + apply map_lookup_filter_None. by left.
  - apply map_lookup_filter_None. right. intros v _ Hin. by apply Hm.
Qed.

Lemma pick_idem l j : pick l (pick l j) = pick l j.
Proof. apply map_eq. intros m. rewrite !pick_lookup. by case_decide. Qed.

Lemma pick_insert l m v j : m ∉ l → pick l (<[m := v]> j) = pick l j.
Proof.
  intros Hm. apply map_eq. intros n. rewrite !pick_lookup. case_decide; [|done].
  apply lookup_insert_ne. by intros ->.
Qed.

(** What a JWK that is trusted consists of. *)
Definition published (row_kid : string) (privateKey : PrivKey) (j : JWK) : Prop :=
  pick point_members j = pick point_members (exportJWK privateKey) ∧
  j !! "kid" = Some (JString row_kid) ∧ j !! "alg" = Some (JString SIGNING_ALG) ∧
  j !! "use" = Some (JString "sig") ∧
  ∀ m, is_Some (j !! m) → m ∈ "kid" :: "alg" :: "use" :: point_members.

Lemma trustedPublicJwk_value row derived j : trustedPublicJwk row derived = Ok j →
  j = <["use" := JString "sig"]> (<["alg" := JString SIGNING_ALG]>
        (<["kid" := JString (kr_kid row)]> derived)).
Proof. unfold trustedPublicJwk. destruct (kr_publicJwk row); [|done]. intros He. invert_ok. done. Qed.

Lemma trusted_published row privateKey :
  published (kr_kid row) privateKey
    (<["use" := JString "sig"]> (<["alg" := JString SIGNING_ALG]>
       (<["kid" := JString (kr_kid row)]> (pick point_members (exportJWK privateKey))))).
Proof.
  split_and!; try by rewrite ?lookup_insert_ne, ?lookup_insert_eq by done.
  - rewrite !pick_insert by (unfold point_members; set_solver). apply pick_idem.
  - intros m [v Hv].
    destruct (decide (m = "use")) as [->|]; [set_solver|].
    destruct (decide (m = "alg")) as [->|]; [set_solver|].
    destruct (decide (m = "kid")) as [->|]; [set_solver|].
    rewrite !lookup_insert_ne, pick_lookup in Hv by done. case_decide; [set_solver|done].
Qed.

(** Every branch of [loadStoredKey] that returns. *)
Lemma loadStoredKey_inv p row k : loadStoredKey p row = Ok k →
  kr_kekId row = provider_id p ∧
  ∃ wrapped material, kr_wrappedKey row = Some wrapped ∧
    unwrap p wrapped {| purpose := kr_purpose row; ctx_kid := kr_kid row |} = Ok material ∧
    ((kr_purpose row = "token_signing" ∧ kr_algorithm row = SIGNING_ALG ∧
      ∃ priv, importPKCS8 material = Ok priv ∧
        let jwk := <["use" := JString "sig"]> (<["alg" := JString SIGNING_ALG]>
                     (<["kid" := JString (kr_kid row)]> (pick point_members (exportJWK priv)))) in
        k = LoadedSigningKey (kr_kid row) priv (publicOf priv) jwk) ∨
     (kr_purpose row = "token_encryption" ∧ kr_algorithm row = ENCRYPTION_ALG ∧
      byteLength material = ENCRYPTION_KEY_BYTES ∧ k = LoadedEncryptionKey (kr_kid row) material)).
Proof.
  unfold loadStoredKey. destruct (kr_wrappedKey row) as [wrapped|]; [|done].
  intros He. rewrite mbind_rbind in He. apply rbind_Ok_inv in He as ([] & Hk & He).
  apply throw_if_Ok, negb_false_iff, String.eqb_eq in Hk. split; [done|]. exists wrapped.
  destruct (String.eqb_spec (kr_purpose row) "token_signing") as [Hp|].
  - unfold derivePublicJwk, importVerificationKey, importSigningKey in He. invert_ok.
    apply negb_false_iff, String.eqb_eq in E. exists a0. split_and!; [done|done|]. left.
    split_and!; [done|done|]. assert (a3 = a6) as -> by congruence. exists a6. split; [done|].
    apply trustedPublicJwk_value in E2. subst a2. cbv zeta. f_equal.
    destruct a5 as [key|]; simplify_eq. eapply import_point; [|done].
    exact (proj1 (trusted_published row a6)).
  - destruct (String.eqb_spec (kr_purpose row) "token_encryption") as [Hp|]; [|done]. invert_ok.
    apply negb_false_iff, String.eqb_eq in E. apply negb_false_iff, Nat.eqb_eq in E1.
    exists a0. split_and!; [done|done|]. right. by split_and!.
Qed.
End loading_laws.

Section key_claims.
Context `{AesGcm} `{JoseKeysLaws}.

(** C20. Whoever can write the registry but does not hold the key-encrypting key
    cannot substitute a key: whatever a row's public JWK was replaced with, the
    row either loads to the very same key, or not at all; and what loads was
    wrapped by this provider for that kid and purpose, its verification key is
    the public half of the wrapped private key, and the JWK to publish is that
    key's point with the row's own metadata and nothing else. *)
Theorem database_cannot_substitute_a_key p row j k k' :
  loadStoredKey p row = Ok k →
  loadStoredKey p {| kr_kid := kr_kid row; kr_purpose := kr_purpose row;
    kr_algorithm := kr_algorithm row; kr_wrappedKey := kr_wrappedKey row;
    kr_kekId := kr_kekId row; kr_publicJwk := j |} = Ok k' →
  k' = k ∧
  ∃ iv material, material ≠ "" ∧ kr_wrappedKey row
      = Some (wrap p iv material {| purpose := kr_purpose row; ctx_kid := kr_kid row |}) ∧
    match k with
    | LoadedSigningKey kid priv pub jwk =>
        kid = kr_kid row ∧ kr_purpose row = "token_signing" ∧ importPKCS8 material = Ok priv ∧
        pub = publicOf priv ∧ published kid priv jwk ∧ ∀ m, m ∈ PRIVATE_MEMBERS → jwk !! m = None
    | LoadedEncryptionKey kid secret =>
        kid = kr_kid row ∧ kr_purpose row = "token_encryption" ∧ secret = material ∧
        byteLength secret = 32%nat
    end.
Proof.
  intros (_ & w & mat & Hw & Hu & Hk)%loadStoredKey_inv (_ & w' & mat' & Hw' & Hu' & Hk')%loadStoredKey_inv.
  simpl in *. assert (w' = w) as -> by congruence. assert (mat' = mat) as -> by congruence.
  assert (Hkk : k' = k).
  { destruct Hk as [(Hp & _ & priv & Hi & ->)|(Hp & _ & _ & ->)],
      Hk' as [(Hp' & _ & priv' & Hi' & ->)|(Hp' & _ & _ & ->)]; try congruence. }
  split; [done|]. apply unwrap_inv in Hu as (Hne & iv & _ & ->). exists iv, mat. split_and!; [done|done|].
  destruct Hk as [(Hp & _ & priv & Hi & ->)|(Hp & _ & Hl & ->)]; [|by split_and!].
  pose proof (trusted_published row priv) as Hpub. split_and!; try done.
  intros m Hm. destruct Hpub as (_ & _ & _ & _ & Hmem).
  match goal with |- ?j !! m = None => destruct (j !! m) eqn:E; [|done] end.
  exfalso. specialize (Hmem m ltac:(rewrite E; eauto)). unfold PRIVATE_MEMBERS, point_members in *.
  set_solver.
Qed.
End key_claims.

(** ** The hypotheses can hold *)

Module KeysSample.
(** The identity cipher with a checksum for its tag. *)
Definition toy_tag (k iv a p : Buffer) : Buffer :=
  Sample.le_bytes 16 (Sample.checksum (k +:+ iv +:+ a +:+ "|" +:+ p) 7).

Lemma toy_tag_length k iv a p : byteLength (toy_tag k iv a p) = 16%nat.
Proof. done. Qed.

#[export] Program Instance toy_gcm : AesGcm := {
  gcm_seal k iv a p := (p, toy_tag k iv a p);
  gcm_open k iv a b t := if String.eqb t (toy_tag k iv a b) then Some b else None;
}.
Next Obligation. done. Qed.
Next Obligation. intros. apply toy_tag_length. Qed.
Next Obligation. intros. cbn [fst snd]. by rewrite String.eqb_refl. Qed.
Next Obligation.
  intros k iv a b t p _ He. cbv beta in He.
  destruct (String.eqb_spec t (toy_tag k iv a b)) as [->|]; [|discriminate He].
  injection He as ->. reflexivity.
Qed.

(** A private key is a text, and its point is that text with a suffix. *)
#[export] Instance toy_jose : JoseKeys := {
  PrivKey := string; PubKey := string;
  importPKCS8 s := Ok s;
  exportJWK k := <["kty" := JString "EC"]> (<["crv" := JString "P-256"]>
    (<["x" := JString (k +:+ "x")]> (<["y" := JString (k +:+ "y")]> {[ "d" := JString k ]})));
  importJWK j := match j !! "x", j !! "k" with
                 | Some (JString x), _ => Ok (inl x)
                 | _, Some (JString s) => Ok (inr s)
                 | _, _ => Throw (EError "invalid JWK")
                 end;
  publicOf k := k +:+ "x";
}.

#[export] Instance toy_jose_laws : JoseKeysLaws toy_jose.
Proof.
  split. intros k j key Hp. assert (Hx : j !! "x" = Some (JString (k +:+ "x"))).
  { apply (f_equal (.!! "x")) in Hp. rewrite !pick_lookup in Hp.
    rewrite !decide_True in Hp by (unfold point_members; set_solver). rewrite Hp. done. }
  simpl. rewrite Hx. by intros [= <-].
Qed.

Definition provider : KeyProvider :=
  {| provider_id := "local"; kek := "0123456789abcdef0123456789abcdef" |}.
Definition iv : Buffer := "twelve bytes".
Definition slot : KeyContext := {| purpose := "token_signing"; ctx_kid := "k1" |}.
Definition other_slot : KeyContext := {| purpose := "token_signing"; ctx_kid := "k2" |}.

Definition jwk_of (kid : string) (k : string) : JWK :=
  <["kid" := JString kid]> (pick point_members (exportJWK k)).
Definition row (kid : string) (j : option JWK) : StoredKeyRow :=
  {| kr_kid := kid; kr_purpose := "token_signing"; kr_algorithm := "ES256";
     kr_wrappedKey := Some (wrap provider iv "pkcs8" slot); kr_kekId := "local"; kr_publicJwk := j |}.

(** A swapped point, a moved blob and a private member are refused. *)
Example tampered_rows :
  map (λ row, match loadStoredKey provider row with Ok _ => true | Throw _ => false end)
    [ row "k1" (Some (jwk_of "k1" "pkcs8")); row "k1" None; row "k1" (Some (jwk_of "k1" "other"));
      row "k2" (Some (jwk_of "k2" "pkcs8")); row "k1" (Some (exportJWK "pkcs8")) ]
  = [true; false; false; false; false].
Proof. vm_compute. reflexivity. Qed.

Lemma wrapped_key_bound_to_slot_witness :
  unwrap provider (wrap provider iv "secret" slot) slot = Ok "secret" ∧
  ((slot = slot ∧ "secret" = "secret") ∨
   ((aad slot, "secret") ≠ (aad slot, "secret") ∧
    gcm_seal (kek provider) iv (aad slot) "secret" = gcm_seal (kek provider) iv (aad slot) "secret")).
Proof.
  split; [vm_compute; reflexivity|].
  apply (wrapped_key_bound_to_slot provider iv "secret" slot slot "secret"); vm_compute; reflexivity.
Defined.

(** Two stored JWKs that differ in metadata load to one key. *)
Definition loaded : LoadedKey :=
  LoadedSigningKey "k1" ("pkcs8" : @PrivKey toy_jose) ("pkcs8x" : @PubKey toy_jose)
    (<["use" := JString "sig"]> (<["alg" := JString "ES256"]> (jwk_of "k1" "pkcs8"))).

Lemma database_cannot_substitute_a_key_witness :
  let j := <["use" := JString "sig"]> (jwk_of "k1" "pkcs8") in
  loadStoredKey provider (row "k1" (Some j)) = Ok loaded ∧ "pkcs8x" = publicOf ("pkcs8" : @PrivKey toy_jose).
Proof.
  intros j. split; [vm_compute; reflexivity|].
  destruct (database_cannot_substitute_a_key provider (row "k1" (Some (jwk_of "k1" "pkcs8"))) (Some j)
    loaded loaded) as [_ (iv' & m & _ & _ & _ & _ & _ & Hp & _)].
  - vm_compute. reflexivity.
  - vm_compute. reflexivity.
  - exact Hp.
Defined.
End KeysSample.
