(* ===== verification/Tokens.v ===== *)
(** Access tokens, nested JWTs: packages/crypto/src/tokens.ts.

    jose is a parameter: [JoseTokens] has its four entry points and
    [JoseTokensLaws] what its documentation promises of them. What the repository
    puts into a token, which options it verifies with, how it chooses keys and
    what it does with every failure is defined here. Times are seconds. *)
From S2P Require Import Prelude Domain Keys.
#[local] Open Scope Z_scope.

Abbreviation claim_set := (gmap string json) (only parsing).
Abbreviation header := (gmap string json) (only parsing).

Record DecryptOptions := {
  keyManagementAlgorithms : list string;
  contentEncryptionAlgorithms : list string;
  maxDecompressedLength : Z;
}.

Record VerifyOptions := {
  algorithms : list string;
  issuer_is : string; audience_is : string; typ_is : string;
  requiredClaims : list string;
  clockTolerance : Z;
}.

(** ** jose *)

Class JoseTokens `{JoseKeys} := {
  signJwt : PrivKey → header → claim_set → string;
  jwtVerify : string → (header → M PubKey) → VerifyOptions → Z → M (claim_set * header);
  compactEncrypt : Buffer → header → Buffer → Buffer → string;    (* key, header, plaintext, randomness *)
  compactDecrypt : string → (header → M Buffer) → DecryptOptions → M (Buffer * header);
  (* The signature, or the encryption, of this compact serialisation verifies. *)
  authentic_jws : PubKey → header → claim_set → string → Prop;
  authentic_jwe : Buffer → header → Buffer → string → Prop;
}.

Definition member_in (h : header) (m : string) (allowed : list string) : Prop :=
  ∃ a, h !! m = Some (JString a) ∧ a ∈ allowed.

Definition audience_of (p : claim_set) (aud : string) : Prop :=
  p !! "aud" = Some (JString aud) ∨ ∃ l, p !! "aud" = Some (JStringArray l) ∧ aud ∈ l.

(** What [jwtVerify] checks of a token whose signature verifies. *)
Record jwt_accepted (o : VerifyOptions) (now : Z) (h : header) (p : claim_set) : Prop := {
  ja_alg : member_in h "alg" (algorithms o);
  ja_issuer : p !! "iss" = Some (JString (issuer_is o));
  ja_audience : audience_of p (audience_is o);
  ja_required : ∀ c, c ∈ requiredClaims o → is_Some (p !! c);
  ja_exp : ∀ e, p !! "exp" = Some (JNumber e) → now < e + clockTolerance o;
}.

Class JoseTokensLaws `(JoseTokens) := {
  jwtVerify_sound : ∀ jws get o now p h, issuer_is o ≠ "" → audience_is o ≠ "" →
    jwtVerify jws get o now = Ok (p, h) →
    ∃ pub, get h = Ok pub ∧ authentic_jws pub h p jws ∧ jwt_accepted o now h p;
  jwtVerify_complete : ∀ k h p get o now,
    get h = Ok (publicOf k) → jwt_accepted o now h p →
    h !! "typ" = Some (JString (typ_is o)) → h !! "crit" = None → p !! "nbf" = None →
    (∃ e, p !! "exp" = Some (JNumber e)) → (∃ i, p !! "iat" = Some (JNumber i)) →
    jwtVerify (signJwt k h p) get o now = Ok (p, h);
  compactDecrypt_sound : ∀ jwe get o pt h,
    compactDecrypt jwe get o = Ok (pt, h) →
    ∃ k, get h = Ok k ∧ authentic_jwe k h pt jwe ∧
      member_in h "alg" (keyManagementAlgorithms o) ∧ member_in h "enc" (contentEncryptionAlgorithms o) ∧
      (maxDecompressedLength o = 0 → h !! "zip" = None);
  compactDecrypt_complete : ∀ k h pt rnd get o,
    get h = Ok k → member_in h "alg" (keyManagementAlgorithms o) →
    member_in h "enc" (contentEncryptionAlgorithms o) → h !! "zip" = None → h !! "crit" = None →
    compactDecrypt (compactEncrypt k h pt rnd) get o = Ok (pt, h);
}.

(** Of the tokens this service makes, what is handed back as the protected header
    is the one they were made with. *)
Class JoseHeaders `(JoseTokens) := {
  jwtVerify_header : ∀ k h p get o now p' h', jwtVerify (signJwt k h p) get o now = Ok (p', h') → h' = h;
  compactDecrypt_header : ∀ k h pt rnd get o pt' h',
    compactDecrypt (compactEncrypt k h pt rnd) get o = Ok (pt', h') → h' = h;
}.

(** ** The codec *)

Definition JWS_ALG : string := SIGNING_ALG.
Definition JWE_ALG : string := ENCRYPTION_ALG.
Definition JWE_ENC : string := "A256GCM".
Definition TOKEN_TYP : string := "crbk-at+jwt".
Definition NESTED_CTY : string := "JWT".
Definition TOKEN_KEY_BYTES : nat := ENCRYPTION_KEY_BYTES.

Record TokenPolicy := {
  issuer : string; audience : string; ttlSeconds : Z; clockToleranceSeconds : option Z;
}.

Definition tolerance (policy : TokenPolicy) : Z := default 0 (clockToleranceSeconds policy).

Definition required_claims : list string :=
  ["sub"; "tid"; "roles"; "permissions"; "iss"; "aud"; "exp"; "iat"].

Section tokens.
Context `{JoseTokens}.

Record SigningMaterial := { signing_kid : string; signing_key : PrivKey }.
Record EncryptionMaterial := { encryption_kid : string; encryption_key : Buffer }.
Record TokenMaterial := { signing : SigningMaterial; encryption : EncryptionMaterial }.

Record TokenResolvers := {
  resolve_signing : string → option PubKey;
  resolve_encryption : string → option Buffer;
}.

Record VerifiedToken := { claims : claim_set; outerHeader : header; innerHeader : header }.

Definition assertMaterial (material : TokenMaterial) : M unit :=
  let e := encryption material in
  let s := signing material in
  _ ← throw_if (negb (Nat.eqb (byteLength (encryption_key e)) TOKEN_KEY_BYTES))
        (EError ("Encryption key must be exactly " +:+ dec TOKEN_KEY_BYTES +:+ " bytes, got "
                   +:+ dec (byteLength (encryption_key e))));
  _ ← throw_if (String.eqb (signing_kid s) "" || String.eqb (encryption_kid e) "")
        (EError "Both signing and encryption material must carry a kid");
  throw_if (String.eqb (signing_kid s) (encryption_kid e))
        (EError "Signing and encryption keys must have distinct kids").

(** The payload [SignJWT] builds; the clock is read for [iat], then for [exp]. *)
Definition signed_claims (cs : claim_set) (policy : TokenPolicy) (iat_now exp_now : Z) : claim_set :=
  <["exp" := JNumber (exp_now + ttlSeconds policy)]> (<["iat" := JNumber iat_now]>
    (<["aud" := JString (audience policy)]> (<["iss" := JString (issuer policy)]> cs))).

Definition inner_header (kid : string) : header :=
  <["alg" := JString JWS_ALG]> (<["typ" := JString TOKEN_TYP]> {[ "kid" := JString kid ]}).
Definition outer_header (kid : string) : header :=
  <["alg" := JString JWE_ALG]> (<["enc" := JString JWE_ENC]> (<["cty" := JString NESTED_CTY]>
    (<["typ" := JString TOKEN_TYP]> {[ "kid" := JString kid ]}))).

Definition issueNestedToken (cs : claim_set) (material : TokenMaterial) (policy : TokenPolicy)
    (iat_now exp_now : Z) (rnd : Buffer) : M string :=
  _ ← assertMaterial material;
  let jws := signJwt (signing_key (signing material)) (inner_header (signing_kid (signing material)))
               (signed_claims cs policy iat_now exp_now) in
  Ok (compactEncrypt (encryption_key (encryption material))
        (outer_header (encryption_kid (encryption material))) jws rnd).

(** The two key callbacks: an absent kid is refused, and so is an unknown one. *)
Definition key_for {K} (layer what : string) (resolve : string → option K) (h : header) : M K :=
  match h !! "kid" with
  | Some (JString kid) =>
      if String.eqb kid "" then Throw (ETokenVerification (layer +:+ " header has no kid"))
      else match resolve kid with
           | Some key => Ok key
           | None => Throw (ETokenVerification ("unknown " +:+ what +:+ " kid"))
           end
  | _ => Throw (ETokenVerification (layer +:+ " header has no kid"))
  end.

Definition decrypt_options : DecryptOptions :=
  {| keyManagementAlgorithms := [JWE_ALG]; contentEncryptionAlgorithms := [JWE_ENC];
     maxDecompressedLength := 0 |}.
Definition verify_options (policy : TokenPolicy) : VerifyOptions :=
  {| algorithms := [JWS_ALG]; issuer_is := issuer policy; audience_is := audience policy;
     typ_is := TOKEN_TYP; requiredClaims := required_claims; clockTolerance := tolerance policy |}.

Definition verifyNestedToken (token : string) (resolvers : TokenResolvers) (policy : TokenPolicy) (now : Z)
    : M VerifiedToken :=
  decrypted ← rcatch (compactDecrypt token (key_for "outer" "encryption" (resolve_encryption resolvers))
                        decrypt_options)
                (λ _, Throw (ETokenVerification "decryption failed"));
  let (plaintext, outer) := decrypted : Buffer * header in
  _ ← throw_if (negb (strict_equal (outer !! "cty") (Some (JString NESTED_CTY))))
        (ETokenVerification "outer header is not a nested JWT");
  verified ← rcatch (jwtVerify plaintext (key_for "inner" "signing" (resolve_signing resolvers))
                       (verify_options policy) now)
               (λ _, Throw (ETokenVerification "signature or claims invalid"));
  let (payload, inner) := verified : claim_set * header in
  Ok {| claims := payload; outerHeader := outer; innerHeader := inner |}.
End tokens.

Section token_laws.
Context `{HT : JoseTokensLaws}.

Lemma key_for_Ok {K} layer what (resolve : string → option K) h key :
  key_for layer what resolve h = Ok key →
  ∃ kid, h !! "kid" = Some (JString kid) ∧ kid ≠ "" ∧ resolve kid = Some key.
Proof.
  unfold key_for. destruct (h !! "kid") as [[kid| | |]|]; try done.
  destruct (String.eqb_spec kid ""); [done|]. destruct (resolve kid) eqn:E; [|done].
  intros [= <-]. by exists kid.
Qed.

Lemma key_for_found {K} layer what (resolve : string → option K) h kid key :
  h !! "kid" = Some (JString kid) → kid ≠ "" → resolve kid = Some key →
  key_for layer what resolve h = Ok key.
Proof.
  intros Hh Hk Hr. unfold key_for. rewrite Hh, Hr. by destruct (String.eqb_spec kid "").
Qed.

Lemma assertMaterial_Ok m u : assertMaterial m = Ok u →
  byteLength (encryption_key (encryption m)) = 32%nat ∧
  signing_kid (signing m) ≠ "" ∧ encryption_kid (encryption m) ≠ "" ∧
  signing_kid (signing m) ≠ encryption_kid (encryption m).
Proof.
  unfold assertMaterial. intros Ha. invert_ok.
  apply negb_false_iff, Nat.eqb_eq in E. apply orb_false_iff in E0 as [E0 E1].
  apply String.eqb_neq in E0, E1, Ha. by split_and!.
Qed.

Lemma rcatch_Ok {E A} (m : result E A) h a :
  (∀ e, ∃ e', h e = Throw e') → rcatch m h = Ok a → m = Ok a.
Proof. intros Hh. destruct m as [|e]; simpl; [done|]. destruct (Hh e) as [e' ->]. done. Qed.

(** What acceptance means, before it is put in the words of the claim. *)
Lemma verifyNestedToken_inv token res policy now v :
  issuer policy ≠ "" → audience policy ≠ "" → verifyNestedToken token res policy now = Ok v →
  ∃ enc_kid enc_key sig_kid pub jws,
    outerHeader v !! "kid" = Some (JString enc_kid) ∧ resolve_encryption res enc_kid = Some enc_key ∧
    authentic_jwe enc_key (outerHeader v) jws token ∧
    innerHeader v !! "kid" = Some (JString sig_kid) ∧ resolve_signing res sig_kid = Some pub ∧
    authentic_jws pub (innerHeader v) (claims v) jws ∧ outerHeader v !! "zip" = None ∧
    member_in (outerHeader v) "alg" [JWE_ALG] ∧ member_in (outerHeader v) "enc" [JWE_ENC] ∧
    outerHeader v !! "cty" = Some (JString NESTED_CTY) ∧
    jwt_accepted (verify_options policy) now (innerHeader v) (claims v).
Proof.
  intros Hi Ha. unfold verifyNestedToken. intros Hv. rewrite mbind_rbind in Hv.
  apply rbind_Ok_inv in Hv as ([plaintext outer] & Hd & Hv).
  apply rcatch_Ok in Hd; [|by eauto]. apply compactDecrypt_sound in Hd as (k & Hk & Hjwe & Halg & Henc & Hz).
  apply key_for_Ok in Hk as (kid & Hkid & _ & Hres). simpl in Hz.
  rewrite mbind_rbind in Hv. apply rbind_Ok_inv in Hv as ([] & Hc & Hv).
  apply throw_if_Ok, negb_false_iff in Hc. unfold strict_equal in Hc.
  destruct (outer !! "cty") as [[c| | |]|] eqn:Ecty; try done. apply String.eqb_eq in Hc. subst c.
  rewrite mbind_rbind in Hv. apply rbind_Ok_inv in Hv as ([payload inner] & Hj & Hv).
  apply rcatch_Ok in Hj; [|by eauto].
  apply jwtVerify_sound in Hj as (pub & Hpub & Hjws & Hacc); [|done|done].
  apply key_for_Ok in Hpub as (skid & Hskid & _ & Hsres).
  injection Hv as <-. simpl. exists kid, k, skid, pub, plaintext. split_and!; auto.
Qed.

(** Every failure, of either layer, is a [TokenVerificationError]. *)
Lemma verifyNestedToken_fails token res policy now e :
  verifyNestedToken token res policy now = Throw e → ∃ reason, e = ETokenVerification reason.
Proof.
  unfold verifyNestedToken. rewrite mbind_rbind.
  destruct (compactDecrypt token _ _) as [[pt outer]|e1]; simpl; [|intros [= <-]; eauto].
  rewrite mbind_rbind. destruct (negb _); simpl; [intros [= <-]; eauto|].
  destruct (jwtVerify pt _ _ now) as [[p h]|e2]; simpl; [done|intros [= <-]; eauto].
Qed.

(** C8. An accepted token passed both layers: it decrypts under the key the
    registry holds for the outer kid, its inner signature verifies under the key
    held for the inner kid, neither header could choose the algorithm or
    compression, the content is declared a nested JWT, and the claims name this
    issuer and audience, are all present, and are not expired beyond the
    tolerance. Any other outcome is one [TokenVerificationError]. *)
Theorem accepted_token_is_authentic token res policy now :
  issuer policy ≠ "" → audience policy ≠ "" →
  match verifyNestedToken token res policy now with
  | Ok v =>
      ∃ enc_kid enc_key sig_kid pub jws,
        outerHeader v !! "kid" = Some (JString enc_kid) ∧ resolve_encryption res enc_kid = Some enc_key ∧
        authentic_jwe enc_key (outerHeader v) jws token ∧
        innerHeader v !! "kid" = Some (JString sig_kid) ∧ resolve_signing res sig_kid = Some pub ∧
        authentic_jws pub (innerHeader v) (claims v) jws ∧
        outerHeader v !! "zip" = None ∧ outerHeader v !! "cty" = Some (JString "JWT") ∧
        outerHeader v !! "alg" = Some (JString "A256KW") ∧ outerHeader v !! "enc" = Some (JString "A256GCM") ∧
        innerHeader v !! "alg" = Some (JString "ES256") ∧
        claims v !! "iss" = Some (JString (issuer policy)) ∧ audience_of (claims v) (audience policy) ∧
        (∀ c, c ∈ required_claims → is_Some (claims v !! c)) ∧
        ∀ e, claims v !! "exp" = Some (JNumber e) → now < e + tolerance policy
  | Throw e => ∃ reason, e = ETokenVerification reason
  end.
Proof.
  intros Hi Ha. destruct (verifyNestedToken token res policy now) as [v|e] eqn:E;
    [|by eapply verifyNestedToken_fails].
  apply verifyNestedToken_inv in E as (ek & k & sk & pub & jws & ? & ? & ? & ? & ? & ? & ? & Halg & Henc & ? & []);
    [|done|done].
  destruct Halg as (a1 & ? & ->%list_elem_of_singleton).
  destruct Henc as (a2 & ? & ->%list_elem_of_singleton).
  destruct ja_alg0 as (a3 & ? & ->%list_elem_of_singleton).
  exists ek, k, sk, pub, jws. by split_and!.
Qed.

Lemma signed_claims_keep cs policy n1 n2 c :
  c ∉ ["iss"; "aud"; "iat"; "exp"] → signed_claims cs policy n1 n2 !! c = cs !! c.
Proof. intros Hc. unfold signed_claims. rewrite !lookup_insert_ne by set_solver. done. Qed.

Lemma signed_claims_accepted cs policy n1 n2 now kid :
  (∀ c, c ∈ ["sub"; "tid"; "roles"; "permissions"] → is_Some (cs !! c)) →
  now < n2 + ttlSeconds policy + tolerance policy →
  jwt_accepted (verify_options policy) now (inner_header kid) (signed_claims cs policy n1 n2).
Proof.
  intros Hreq Hnow. split; simpl.
  - exists JWS_ALG. split; [done|]. by apply list_elem_of_singleton.
  - unfold signed_claims. by rewrite !lookup_insert_ne, lookup_insert_eq by done.
  - left. unfold signed_claims. by rewrite !lookup_insert_ne, lookup_insert_eq by done.
  - intros c Hc. destruct (decide (c ∈ ["iss"; "aud"; "iat"; "exp"])) as [Hin|Hni].
    + unfold signed_claims. rewrite !lookup_insert_is_Some. set_solver.
    + rewrite signed_claims_keep by done. apply Hreq. unfold required_claims in Hc. set_solver.
  - intros e He. unfold signed_claims in He. rewrite lookup_insert_eq in He. injection He as <-. lia.
Qed.

Lemma issued_token_verifies_lemma cs material policy n1 n2 rnd token res now :
  issueNestedToken cs material policy n1 n2 rnd = Ok token →
  resolve_encryption res (encryption_kid (encryption material)) = Some (encryption_key (encryption material)) →
  resolve_signing res (signing_kid (signing material)) = Some (publicOf (signing_key (signing material))) →
  (∀ c, c ∈ ["sub"; "tid"; "roles"; "permissions"] → is_Some (cs !! c)) → cs !! "nbf" = None →
  now < n2 + ttlSeconds policy + tolerance policy →
  verifyNestedToken token res policy now =
    Ok {| claims := signed_claims cs policy n1 n2;
          outerHeader := outer_header (encryption_kid (encryption material));
          innerHeader := inner_header (signing_kid (signing material)) |}.
Proof.
  intros Hissue He Hs Hreq Hnbf Hnow. unfold issueNestedToken in Hissue.
  rewrite mbind_rbind in Hissue. apply rbind_Ok_inv in Hissue as ([] & Hm & Htok).
  apply assertMaterial_Ok in Hm as (_ & Hsk & Hek & _). injection Htok as <-.
  unfold verifyNestedToken.
  erewrite compactDecrypt_complete; [|by eapply key_for_found|by eexists; split; [done|set_solver]
    |by eexists; split; [done|set_solver]|done|done].
  rewrite mbind_rbind. cbn [rcatch rbind].
  change (strict_equal (outer_header (encryption_kid (encryption material)) !! "cty")
    (Some (JString NESTED_CTY))) with true.
  cbn [negb throw_if]. rewrite mbind_rbind. cbn [rbind].
  erewrite jwtVerify_complete; [reflexivity|by eapply key_for_found|by apply signed_claims_accepted|done|done
    |by rewrite signed_claims_keep by set_solver| |].
  - eexists. unfold signed_claims. by rewrite lookup_insert_eq.
  - eexists. unfold signed_claims. by rewrite lookup_insert_ne, lookup_insert_eq by done.
Qed.

(** Nor does it verify anywhere else: where its outer kid resolves to nothing but
    the key that made it, a token is accepted only if both its kids resolve. *)
Lemma issued_token_resolves `{!JoseHeaders _} cs material policy n1 n2 rnd token res now v :
  issuer policy ≠ "" → audience policy ≠ "" →
  issueNestedToken cs material policy n1 n2 rnd = Ok token →
  (∀ k, resolve_encryption res (encryption_kid (encryption material)) = Some k →
     k = encryption_key (encryption material)) →
  verifyNestedToken token res policy now = Ok v →
  is_Some (resolve_encryption res (encryption_kid (encryption material))) ∧
  is_Some (resolve_signing res (signing_kid (signing material))).
Proof.
  intros Hi Ha Hissue He Hv. unfold issueNestedToken in Hissue. rewrite mbind_rbind in Hissue.
  apply rbind_Ok_inv in Hissue as ([] & Hm & Htok). injection Htok as <-. unfold verifyNestedToken in Hv.
  rewrite mbind_rbind in Hv. apply rbind_Ok_inv in Hv as ([pt outer] & Hd & Hv).
  apply rcatch_Ok in Hd; [|by eauto]. pose proof (compactDecrypt_header _ _ _ _ _ _ _ _ Hd) as ->.
  pose proof (compactDecrypt_sound _ _ _ _ _ Hd) as (k & Hk & _ & Halg & Henc & _).
  pose proof Hk as (kid & Hkid & _ & Hres)%key_for_Ok. injection Hkid as <-.
  rewrite (He _ Hres) in Hk. erewrite compactDecrypt_complete in Hd by done. injection Hd as <-.
  split; [by eexists|].
  rewrite mbind_rbind in Hv. apply rbind_Ok_inv in Hv as ([] & _ & Hv).
  rewrite mbind_rbind in Hv. apply rbind_Ok_inv in Hv as ([p h] & Hj & _).
  apply rcatch_Ok in Hj; [|by eauto]. pose proof (jwtVerify_header _ _ _ _ _ _ _ _ Hj) as ->.
  apply jwtVerify_sound in Hj as (pub & Hpub & _); [|done..].
  apply key_for_Ok in Hpub as (skid & Hskid & _ & Hsres). injection Hskid as <-. by eexists.
Qed.

(** Issuing and verifying are inverse: while the resolvers know both keys and
    until the lifetime plus tolerance is over, a token this service issued
    verifies, and yields exactly the claims it was issued with plus the
    registered ones, whatever those said before. *)
Theorem issued_token_verifies cs material policy n1 n2 rnd token res now :
  issueNestedToken cs material policy n1 n2 rnd = Ok token →
  resolve_encryption res (encryption_kid (encryption material)) = Some (encryption_key (encryption material)) →
  resolve_signing res (signing_kid (signing material)) = Some (publicOf (signing_key (signing material))) →
  (∀ c, c ∈ ["sub"; "tid"; "roles"; "permissions"] → is_Some (cs !! c)) → cs !! "nbf" = None →
  now < n2 + ttlSeconds policy + tolerance policy →
  verifyNestedToken token res policy now =
    Ok {| claims := signed_claims cs policy n1 n2;
          outerHeader := outer_header (encryption_kid (encryption material));
          innerHeader := inner_header (signing_kid (signing material)) |}.
Proof. apply issued_token_verifies_lemma. Qed.
End token_laws.

(** ** The laws can hold *)

Module TokensSample.
Import KeysSample.

#[export] Instance json_countable : Countable json.
Proof.
  apply (inj_countable'
    (λ j : json, match j with
       | JString s => inl (inl s) | JNumber n => inl (inr n)
       | JStringArray l => inr (inl l) | JOther => inr (inr ()) end : (string + Z) + (list string + unit))
    (λ x, match x with
       | inl (inl s) => JString s | inl (inr n) => JNumber n
       | inr (inl l) => JStringArray l | inr (inr _) => JOther end)).
  by intros [].
Defined.

(** A text for any countable value. *)
Fixpoint bits (p : positive) : string :=
  match p with xH => "" | xO p => String "0" (bits p) | xI p => String "1" (bits p) end.
Fixpoint unbits (s : string) : positive :=
  match s with
  | EmptyString => xH
  | String c s => if Ascii.eqb c "0" then xO (unbits s) else xI (unbits s)
  end.
Lemma unbits_bits p : unbits (bits p) = p.
Proof. induction p; simpl; congruence. Qed.

Definition text_of {A} `{Countable A} (a : A) : string := bits (encode a).
Definition of_text {A} `{Countable A} (s : string) : option A := decode (unbits s).
Lemma of_text_of {A} `{Countable A} (a : A) : of_text (text_of a) = Some a.
Proof. unfold of_text, text_of. by rewrite unbits_bits, decode_encode. Qed.

(** The text up to the first dot, and the text after it. *)
Fixpoint cut_dot (s : string) : option (string * string) :=
  match s with
  | EmptyString => None
  | String c s =>
      if Ascii.eqb c "." then Some (EmptyString, s)
      else (λ ab : string * string, (String c ab.1, ab.2)) <$> cut_dot s
  end.
Lemma cut_dot_bits p t : cut_dot (bits p +:+ String "." t) = Some (bits p, t).
Proof. induction p as [p IH|p IH|]; simpl; rewrite ?IH; done. Qed.

Definition of_dotted {A} `{Countable A} (s : string) : option (A * Buffer) :=
  ab ← cut_dot s; a ← of_text ab.1; Some (a, ab.2).
Lemma of_dotted_text {A} `{Countable A} (a : A) t : of_dotted (text_of a +:+ String "." t) = Some (a, t).
Proof. unfold of_dotted, text_of at 1. rewrite cut_dot_bits. cbn. change (bits (encode a)) with (text_of a). by rewrite of_text_of. Qed.

Definition str_in (j : option json) (l : list string) : bool :=
  match j with Some (JString s) => bool_decide (s ∈ l) | _ => false end.

Definition aud_ok (p : claim_set) (aud : string) : bool :=
  match p !! "aud" with
  | Some (JString s) => String.eqb s aud | Some (JStringArray l) => bool_decide (aud ∈ l) | _ => false
  end.

Definition accepted_b (o : VerifyOptions) (now : Z) (h : header) (p : claim_set) : bool :=
  str_in (h !! "alg") (algorithms o) && str_in (p !! "iss") [issuer_is o] && aud_ok p (audience_is o) &&
  forallb (λ c, bool_decide (is_Some (p !! c))) (requiredClaims o) &&
  match p !! "exp" with Some (JNumber e) => now <? e + clockTolerance o | _ => true end.

Lemma accepted_b_spec o now h p : accepted_b o now h p = true ↔ jwt_accepted o now h p.
Proof.
  unfold accepted_b. rewrite !andb_true_iff, forallb_forall. split.
  - intros [[[[H1 H2] H3] H4] H5]. split.
    + unfold str_in in H1. destruct (h !! "alg") as [[a| | |]|] eqn:Ea; try done. apply bool_decide_eq_true in H1.
      by exists a.
    + unfold str_in in H2. destruct (p !! "iss") as [[a| | |]|]; try done.
      apply bool_decide_eq_true in H2. by apply list_elem_of_singleton in H2 as ->.
    + unfold aud_ok, audience_of in *. destruct (p !! "aud") as [[a| |l|]|]; try done.
      * apply String.eqb_eq in H3 as ->. by left.
      * apply bool_decide_eq_true in H3. right. by exists l.
    + intros c Hc. apply list_elem_of_In in Hc. specialize (H4 c Hc). by apply bool_decide_eq_true in H4.
    + intros e He. rewrite He in H5. by apply Z.ltb_lt.
  - intros [(a & Ha & Hin) H2 H3 H4 H5]. split_and!.
    + rewrite Ha. simpl. by apply bool_decide_eq_true.
    + rewrite H2. simpl. apply bool_decide_eq_true. by apply list_elem_of_singleton.
    + unfold aud_ok. destruct H3 as [->|(l & -> & Hl)]; [apply String.eqb_refl|by apply bool_decide_eq_true].
    + intros c Hc. apply bool_decide_eq_true. apply H4. by apply list_elem_of_In.
    + destruct (p !! "exp") as [[| e | |]|]; try done. by apply Z.ltb_lt, H5.
Qed.

#[export] Instance toy_tokens : @JoseTokens toy_jose := {
  signJwt k h p := text_of (k : string, h, p);
  jwtVerify jws get o now :=
    match (of_text jws : option (string * header * claim_set)) with
    | Some (k, h, p) =>
        pub ← get h;
        if String.eqb pub (k +:+ "x") && accepted_b o now h p then Ok (p, h)
        else Throw (EError "invalid JWT")
    | None => Throw (EError "invalid compact JWS")
    end;
  compactEncrypt k h pt rnd := text_of (k : string, h) +:+ String "." pt;
  compactDecrypt jwe get o :=
    match (of_dotted jwe : option (Buffer * header * Buffer)) with
    | Some (k, h, pt) =>
        key ← get h;
        if String.eqb key k && str_in (h !! "alg") (keyManagementAlgorithms o) &&
           str_in (h !! "enc") (contentEncryptionAlgorithms o) && bool_decide (h !! "zip" = None)
        then Ok (pt, h) else Throw (EError "decryption operation failed")
    | None => Throw (EError "invalid compact JWE")
    end;
  authentic_jws pub h p jws := ∃ k : string, pub = k +:+ "x" ∧ of_text jws = Some (k, h, p);
  authentic_jwe k h pt jwe := of_dotted jwe = Some (k, h, pt);
}.

Lemma str_in_spec j l : str_in j l = true ↔ ∃ a, j = Some (JString a) ∧ a ∈ l.
Proof.
  destruct j as [[a| | |]|]; simpl; try (split; [done|naive_solver]).
  rewrite bool_decide_eq_true. naive_solver.
Qed.

#[export] Instance toy_tokens_laws : JoseTokensLaws toy_tokens.
Proof.
  split.
  - intros jws get o now p h _ _ He. cbn [jwtVerify toy_tokens] in He.
    destruct (of_text jws) as [[[k h0] p0]|] eqn:Et; [|done]. rewrite mbind_rbind in He.
    apply rbind_Ok_inv in He as (pub & Hg & He).
    destruct (String.eqb_spec pub (k +:+ "x")) as [->|]; [|done].
    destruct (accepted_b o now h0 p0) eqn:Ea; [|done]. injection He as <- <-.
    exists (k +:+ "x"). split_and!; [done|by exists k|by apply accepted_b_spec].
  - intros k h p get o now Hg Hacc _ _ _ _ _. cbn [jwtVerify signJwt toy_tokens]. rewrite of_text_of, Hg.
    rewrite mbind_rbind. cbn [rbind publicOf toy_jose]. rewrite String.eqb_refl.
    by rewrite (proj2 (accepted_b_spec o now h p) Hacc).
  - intros jwe get o pt h He. cbn [compactDecrypt toy_tokens] in He.
    destruct (of_dotted jwe) as [[[k h0] pt0]|] eqn:Et; [|done]. rewrite mbind_rbind in He.
    apply rbind_Ok_inv in He as (key & Hg & He). destruct (_ && _) eqn:Eb in He; [|done].
    injection He as <- <-. rewrite !andb_true_iff in Eb. destruct Eb as [[[Hk Ha] Hc] Hz].
    apply String.eqb_eq in Hk as ->. apply str_in_spec in Ha, Hc. apply bool_decide_eq_true in Hz.
    exists k. by split_and!.
  - intros k h pt rnd get o Hg Ha Hc Hz _. cbn [compactDecrypt compactEncrypt toy_tokens].
    rewrite of_dotted_text, Hg, mbind_rbind. cbn [rbind]. apply str_in_spec in Ha, Hc.
    by rewrite String.eqb_refl, Ha, Hc, bool_decide_eq_true_2.
Qed.

#[export] Instance toy_headers : JoseHeaders toy_tokens.
Proof.
  split.
  - intros k h p get o now p' h'. cbn [jwtVerify signJwt toy_tokens]. rewrite of_text_of, mbind_rbind.
    intros (pub & _ & He)%rbind_Ok_inv. destruct (_ && _); [|done]. by injection He as _ <-.
  - intros k h pt rnd get o pt' h'. cbn [compactDecrypt compactEncrypt toy_tokens]. rewrite of_dotted_text, mbind_rbind.
    intros (key & _ & He)%rbind_Ok_inv. destruct (_ && _); [|done]. by injection He as _ <-.
Qed.

Definition policy : TokenPolicy :=
  {| issuer := "kit"; audience := "api"; ttlSeconds := 900; clockToleranceSeconds := Some 5 |}.
Definition material : TokenMaterial :=
  {| signing := {| signing_kid := "s1"; signing_key := ("sk" : @PrivKey toy_jose) |};
     encryption := {| encryption_kid := "e1"; encryption_key := "0123456789abcdef0123456789abcdef" |} |}.
Definition resolvers : TokenResolvers :=
  {| resolve_signing := λ kid, if String.eqb kid "s1" then Some ("skx" : @PubKey toy_jose) else None;
     resolve_encryption := λ kid, if String.eqb kid "e1" then Some "0123456789abcdef0123456789abcdef" else None |}.
Definition user_claims : claim_set :=
  <["sub" := JString "u1"]> (<["tid" := JString "t1"]> (<["roles" := JStringArray []]>
    {[ "permissions" := JStringArray ["users:read"] ]})).
Definition token : string :=
  compactEncrypt (encryption_key (encryption material)) (outer_header "e1")
    (signJwt (signing_key (signing material)) (inner_header "s1") (signed_claims user_claims policy 100 100)) "".

Lemma token_issued : issueNestedToken user_claims material policy 100 100 "" = Ok token.
Proof.
  unfold issueNestedToken. replace (assertMaterial material) with (Ok () : M unit) by (vm_compute; reflexivity).
  reflexivity.
Qed.

(** Expiry is exact, and the tolerance is the whole of the leeway. *)
Example token_expires :
  is_Some (to_option (verifyNestedToken token resolvers policy 1004)) ∧
  verifyNestedToken token resolvers policy 1005 = Throw (ETokenVerification "signature or claims invalid") ∧
  verifyNestedToken token {| resolve_signing := λ _, None; resolve_encryption := resolve_encryption resolvers |}
    policy 100 = Throw (ETokenVerification "signature or claims invalid") ∧
  verifyNestedToken "" resolvers policy 100 = Throw (ETokenVerification "decryption failed").
Proof. vm_compute. split_and!; try reflexivity. eauto. Qed.

Lemma accepted_token_is_authentic_witness :
  is_Some (to_option (verifyNestedToken token resolvers policy 1004)) ∧
  ∀ v, verifyNestedToken token resolvers policy 1004 = Ok v →
    audience_of (claims v) "api" ∧ ∀ e, claims v !! "exp" = Some (JNumber e) → 1004 < e + 5.
Proof.
  split; [vm_compute; eauto|]. intros v Hv.
  assert (Hi : issuer policy ≠ "") by discriminate. assert (Ha : audience policy ≠ "") by discriminate.
  pose proof (accepted_token_is_authentic token resolvers policy 1004 Hi Ha) as Ht. rewrite Hv in Ht.
  destruct Ht as (? & ? & ? & ? & ? & ? & ? & ? & ? & ? & ? & ? & ? & ? & ? & ? & ? & Haud & _ & He).
  exact (conj Haud He).
Defined.

Lemma issued_token_verifies_witness :
  verifyNestedToken token resolvers policy 1004 =
    Ok {| claims := signed_claims user_claims policy 100 100; outerHeader := outer_header "e1";
          innerHeader := inner_header "s1" |}.
Proof.
  apply (issued_token_verifies user_claims material policy 100 100 "" token resolvers 1004).
  - exact token_issued.
  - reflexivity.
  - reflexivity.
  - intros c Hc. repeat (apply elem_of_cons in Hc as [->|Hc]; [vm_compute; eauto|]). set_solver.
  - reflexivity.
  - vm_compute. reflexivity.
Defined.
End TokensSample.
