(* ===== verification/KeyStore.v ===== *)
(** The key registry's table and the commands that change it:
    packages/db/src/keys/manage-keys.ts and the config_keys migration.

    Commands of any number of operators interleave statement by statement: the
    read of [activate] is one step, and its two updates, which commit together or
    not at all, another. The table refuses, as Postgres does, a row that breaks a
    constraint, and then the transaction changes nothing. Times are
    milliseconds. *)
From S2P Require Import Prelude Domain AuditHash Keys.
#[local] Open Scope Z_scope.

(** ** The table *)

Inductive Purpose := token_signing | token_encryption.
Inductive KeyAlgorithm := ES256 | A256KW.
#[export] Instance Purpose_eq_dec : EqDecision Purpose.
Proof. solve_decision. Defined.
#[export] Instance KeyAlgorithm_eq_dec : EqDecision KeyAlgorithm.
Proof. solve_decision. Defined.

Definition purpose_text (p : Purpose) : string :=
  match p with token_signing => "token_signing" | token_encryption => "token_encryption" end.
Definition algorithm_text (a : KeyAlgorithm) : string :=
  match a with ES256 => "ES256" | A256KW => "A256KW" end.

Record ConfigKey := {
  ck_purpose : Purpose; ck_algorithm : KeyAlgorithm; ck_state : KeyState;
  ck_wrappedKey : option Buffer; ck_kekId : string; ck_publicJwk : option (gmap string json);
  ck_activatedAt : option Z; ck_retiringAt : option Z; ck_notAfter : option Z;
  ck_revokedAt : option Z; ck_revokedReason : option string;
}.

Abbreviation Table := (gmap string ConfigKey) (only parsing).

(** The CHECK constraints of one row. *)
Definition purpose_algorithm_ck (r : ConfigKey) : bool :=
  match ck_purpose r, ck_algorithm r with
  | token_signing, ES256 | token_encryption, A256KW => true
  | _, _ => false
  end.
Definition public_jwk_ck (r : ConfigKey) : bool :=
  match ck_purpose r, ck_publicJwk r with
  | token_signing, Some _ | token_encryption, None => true
  | _, _ => false
  end.
Definition material_ck (r : ConfigKey) : bool :=
  match ck_state r, ck_wrappedKey r with
  | revoked, None => bool_decide (is_Some (ck_revokedAt r)) && bool_decide (is_Some (ck_revokedReason r))
  | revoked, Some _ => false
  | _, Some _ => true
  | _, None => false
  end.
Definition retiring_not_after_ck (r : ConfigKey) : bool :=
  match ck_state r with
  | retiring => bool_decide (is_Some (ck_notAfter r)) && bool_decide (is_Some (ck_retiringAt r))
  | _ => true
  end.
Definition config_key_ck (r : ConfigKey) : bool :=
  purpose_algorithm_ck r && public_jwk_ck r && material_ck r && retiring_not_after_ck r.

Definition active_for (purpose : Purpose) (kv : string * ConfigKey) : Prop :=
  ck_state kv.2 = active_key ∧ ck_purpose kv.2 = purpose.
#[export] Instance active_for_dec purpose kv : Decision (active_for purpose kv).
Proof. unfold active_for. apply _. Defined.

(** The partial unique index: is there another active row of this purpose? *)
Definition active_elsewhere (t : Table) (kid : string) (r : ConfigKey) : bool :=
  bool_decide (ck_state r = active_key) &&
  existsb (λ kv, bool_decide (active_for (ck_purpose r) kv) && negb (String.eqb kv.1 kid)) (map_to_list t).

(** [UPDATE] of an existing row, [INSERT] of a new one. *)
Definition write_row (t : Table) (kid : string) (r : ConfigKey) : M Table :=
  if negb (config_key_ck r) then Throw (EPg "23514")
  else if active_elsewhere t kid r then Throw (EPrismaKnown "P2002")
  else Ok (<[kid := r]> t).
Definition insert_row (t : Table) (kid : string) (r : ConfigKey) : M Table :=
  match t !! kid with Some _ => Throw (EPrismaKnown "P2002") | None => write_row t kid r end.
Definition update_row (t : Table) (kid : string) (f : ConfigKey → ConfigKey) : M Table :=
  match t !! kid with Some r => write_row t kid (f r) | None => Throw (EPrismaKnown "P2025") end.

(** [findFirst({ where: { purpose, state: "active" } })] *)
Definition find_active (purpose : Purpose) (t : Table) : option string :=
  fst <$> List.find (λ kv, bool_decide (active_for purpose kv)) (map_to_list t).

(** ** The commands *)

(** [None] is a variable that is not a finite number. *)
Definition overlapSeconds (ttl skew : option (option Z)) : Z :=
  let ttl := default (Some 900) ttl in
  let skew := default (Some 5) skew in
  default 900 ttl + default 5 skew.

(** The columns of the two kinds of new key. *)
Definition pending_row (purpose : Purpose) (kekId : string) (wrapped : Buffer) (jwk : option (gmap string json))
    : ConfigKey :=
  {| ck_purpose := purpose;
     ck_algorithm := match purpose with token_signing => ES256 | token_encryption => A256KW end;
     ck_state := pending; ck_wrappedKey := Some wrapped; ck_kekId := kekId; ck_publicJwk := jwk;
     ck_activatedAt := None; ck_retiringAt := None; ck_notAfter := None;
     ck_revokedAt := None; ck_revokedReason := None |}.

Definition set_retiring (now notAfter : Z) (r : ConfigKey) : ConfigKey :=
  {| ck_purpose := ck_purpose r; ck_algorithm := ck_algorithm r; ck_state := retiring;
     ck_wrappedKey := ck_wrappedKey r; ck_kekId := ck_kekId r; ck_publicJwk := ck_publicJwk r;
     ck_activatedAt := ck_activatedAt r; ck_retiringAt := Some now; ck_notAfter := Some notAfter;
     ck_revokedAt := ck_revokedAt r; ck_revokedReason := ck_revokedReason r |}.
Definition set_active (now : Z) (r : ConfigKey) : ConfigKey :=
  {| ck_purpose := ck_purpose r; ck_algorithm := ck_algorithm r; ck_state := active_key;
     ck_wrappedKey := ck_wrappedKey r; ck_kekId := ck_kekId r; ck_publicJwk := ck_publicJwk r;
     ck_activatedAt := Some now; ck_retiringAt := ck_retiringAt r; ck_notAfter := ck_notAfter r;
     ck_revokedAt := ck_revokedAt r; ck_revokedReason := ck_revokedReason r |}.
Definition set_revoked (now : Z) (reason : string) (r : ConfigKey) : ConfigKey :=
  {| ck_purpose := ck_purpose r; ck_algorithm := ck_algorithm r; ck_state := revoked;
     ck_wrappedKey := None; ck_kekId := ck_kekId r; ck_publicJwk := ck_publicJwk r;
     ck_activatedAt := ck_activatedAt r; ck_retiringAt := ck_retiringAt r; ck_notAfter := ck_notAfter r;
     ck_revokedAt := Some now; ck_revokedReason := Some reason |}.

(** The two updates of [activate]'s transaction, which commit together or not at
    all; [current] is what its [findFirst] read, [notAfter] what was computed before
    the transaction began, and each update reads the clock itself. *)
Definition activate_write (kid : string) (notAfter retiringAt activatedAt : Z) (current : option string) (t : Table)
    : M Table :=
  t1 ← match current with
       | Some k => update_row t k (set_retiring retiringAt notAfter)
       | None => Ok t
       end;
  update_row t1 kid (set_active activatedAt).

(** [activate] with nothing in between: the table after it, and the kid it
    retired. It reads the clock three times. *)
Definition activate (overlap : Z) (purpose : Purpose) (kid : string) (now retiringAt activatedAt : Z) (t : Table)
    : M (Table * option string) :=
  let notAfter := now + overlap * 1000 in
  let current := find_active purpose t in
  t2 ← activate_write kid notAfter retiringAt activatedAt current t;
  Ok (t2, current).

(** The check before a revocation; [None] when there is nothing to do. *)
Definition revoke_check (kid : string) (t : Table) : M (option unit) :=
  match t !! kid with
  | None => Throw (EError ("No key with kid " +:+ kid))
  | Some key =>
      match ck_state key with
      | revoked => Ok None
      | active_key => Throw (EError (kid +:+ " is the ACTIVE " +:+ purpose_text (ck_purpose key) +:+ " key."))
      | _ => Ok (Some ())
      end
  end.
Definition revoke_write (kid reason : string) (now : Z) (t : Table) : M Table :=
  update_row t kid (set_revoked now reason).

(** [resolvePurpose] *)
Definition resolvePurpose (value : option string) : M (option Purpose) :=
  match value with
  | None => Ok None
  | Some v =>
      if String.eqb v "" then Ok None
      else if String.eqb v "signing" || String.eqb v "token_signing" then Ok (Some token_signing)
      else if String.eqb v "encryption" || String.eqb v "token_encryption" then Ok (Some token_encryption)
      else Throw (EError ("Unknown purpose " +:+ quote +:+ v +:+ quote +:+ ". Use " +:+ quote +:+ "signing"
                            +:+ quote +:+ " or " +:+ quote +:+ "encryption" +:+ quote +:+ "."))
  end.

(** ** Creating a key *)

Section creation.
Context `{AesGcm}.

(** [generateSigningKey] and [generateEncryptionKey]; the kid, the private key as
    PKCS8, its exported point and the secret are what they draw. *)
Record GeneratedSigningKey := { gs_kid : string; gs_privatePkcs8 : Buffer; gs_publicJwk : gmap string json }.
Definition generateSigningKey (kid : string) (pkcs8 : Buffer) (point : gmap string json) : GeneratedSigningKey :=
  {| gs_kid := kid; gs_privatePkcs8 := pkcs8;
     gs_publicJwk := <["use" := JString "sig"]> (<["alg" := JString SIGNING_ALG]> (<["kid" := JString kid]> point)) |}.
Record GeneratedEncryptionKey := { ge_kid : string; ge_secret : Buffer }.
Definition generateEncryptionKey (kid : string) (random : Buffer) : GeneratedEncryptionKey :=
  {| ge_kid := kid; ge_secret := random |}.

(** [createPending]; [material] and [point] are what the key was made of. *)
Definition createPending (provider : KeyProvider) (purpose : Purpose) (kid : string) (iv material : Buffer)
    (point : gmap string json) (t : Table) : M Table :=
  let context := {| Keys.purpose := purpose_text purpose; ctx_kid := kid |} in
  match purpose with
  | token_signing =>
      let key := generateSigningKey kid material point in
      insert_row t (gs_kid key)
        (pending_row purpose (provider_id provider) (wrap provider iv (gs_privatePkcs8 key) context) (Some (gs_publicJwk key)))
  | token_encryption =>
      let key := generateEncryptionKey kid material in
      insert_row t (ge_kid key)
        (pending_row purpose (provider_id provider) (wrap provider iv (ge_secret key) context) None)
  end.

(** Whatever the purpose, one row under the kid. *)
Lemma createPending_row provider purpose kid iv material point t :
  createPending provider purpose kid iv material point t =
    insert_row t kid
      (pending_row purpose (provider_id provider)
        (wrap provider iv material {| Keys.purpose := purpose_text purpose; ctx_kid := kid |})
        match purpose with
        | token_signing => Some (gs_publicJwk (generateSigningKey kid material point))
        | token_encryption => None
        end).
Proof. by destruct purpose. Qed.

(** The row as the loader reads it. *)
Definition stored_row (kid : string) (r : ConfigKey) : StoredKeyRow :=
  {| kr_kid := kid; kr_purpose := purpose_text (ck_purpose r); kr_algorithm := algorithm_text (ck_algorithm r);
     kr_wrappedKey := ck_wrappedKey r; kr_kekId := ck_kekId r; kr_publicJwk := ck_publicJwk r |}.
End creation.

(** ** Operators at work *)

Inductive Proc :=
  | Created (purpose : Purpose) (kid : string)     (* before its [activate] *)
  | Activating (purpose : Purpose) (kid : string) (notAfter : Z) (current : option string)  (* past its [findFirst] *)
  | Revoking (kid reason : string).                (* past the check, before the update *)

Record key_state := { table : Table; procs : gmap nat Proc; errors : list exn }.

Inductive key_label :=
  | CreateKey (p : nat) (purpose : Purpose) (kid : string) (iv material : Buffer) (point : gmap string json)
  | ActivateRead (p : nat) (now : Z)                         (* the clock, then [findFirst] *)
  | ActivateWrite (p : nat) (retiringAt activatedAt : Z)     (* the two updates *)
  | RevokeCheck (p : nat) (kid reason : string)
  | RevokeWrite (p : nat) (now : Z)
  | Crash (p : nat).

Section lifecycle.
Context `{AesGcm} (provider : KeyProvider) (overlap : Z).

Definition done_with (p : nat) (r : M Table) (s : key_state) : key_state :=
  match r with
  | Ok t => {| table := t; procs := delete p (procs s); errors := errors s |}
  | Throw e => {| table := table s; procs := delete p (procs s); errors := errors s ++ [e] |}
  end.

Definition key_step (l : key_label) (s : key_state) : option key_state :=
  match l with
  | CreateKey p purpose kid iv material point =>
      match procs s !! p with
      | Some _ => None
      | None =>
          match createPending provider purpose kid iv material point (table s) with
          | Ok t => Some {| table := t; procs := <[p := Created purpose kid]> (procs s); errors := errors s |}
          | Throw e => Some (done_with p (Throw e) s)
          end
      end
  | ActivateRead p now =>
      match procs s !! p with
      | Some (Created purpose kid) =>
          Some {| table := table s;
                  procs := <[p := Activating purpose kid (now + overlap * 1000) (find_active purpose (table s))]> (procs s);
                  errors := errors s |}
      | _ => None
      end
  | ActivateWrite p t1 t2 =>
      match procs s !! p with
      | Some (Activating purpose kid notAfter current) =>
          Some (done_with p (activate_write kid notAfter t1 t2 current (table s)) s)
      | _ => None
      end
  | RevokeCheck p kid reason =>
      match procs s !! p with
      | Some _ => None
      | None =>
          match revoke_check kid (table s) with
          | Throw e => Some (done_with p (Throw e) s)
          | Ok None => Some s
          | Ok (Some _) =>
              Some {| table := table s; procs := <[p := Revoking kid reason]> (procs s); errors := errors s |}
          end
      end
  | RevokeWrite p now =>
      match procs s !! p with
      | Some (Revoking kid reason) => Some (done_with p (revoke_write kid reason now (table s)) s)
      | _ => None
      end
  | Crash p => Some {| table := table s; procs := delete p (procs s); errors := errors s |}
  end.

Fixpoint key_exec (tr : list key_label) (s : key_state) : option key_state :=
  match tr with
  | [] => Some s
  | l :: tr => match key_step l s with Some s' => key_exec tr s' | None => None end
  end.

(** [rotate] and [init] for one purpose. *)
Definition rotate_labels (p : nat) (purpose : Purpose) (kid : string) (iv material : Buffer)
    (point : gmap string json) (now t1 t2 : Z) : list key_label :=
  [CreateKey p purpose kid iv material point; ActivateRead p now; ActivateWrite p t1 t2].
Definition init_labels (p : nat) (purpose : Purpose) (kid : string) (iv material : Buffer)
    (point : gmap string json) (now t1 t2 : Z) (t : Table) : list key_label :=
  match find_active purpose t with
  | Some _ => []
  | None => rotate_labels p purpose kid iv material point now t1 t2
  end.

Lemma key_exec_app tr1 tr2 s :
  key_exec (tr1 ++ tr2) s = match key_exec tr1 s with Some s' => key_exec tr2 s' | None => None end.
Proof. revert s. induction tr1 as [|l tr1 IH]; intros s; [done|]. cbn. by destruct (key_step l s). Qed.

Definition empty_registry : key_state := {| table := ∅; procs := ∅; errors := [] |}.

(** ** The table stays well formed *)

Definition one_active (t : Table) : Prop :=
  ∀ k1 k2 r1 r2, t !! k1 = Some r1 → t !! k2 = Some r2 →
    ck_state r1 = active_key → ck_state r2 = active_key → ck_purpose r1 = ck_purpose r2 → k1 = k2.

(** What every accepted write keeps. *)
Definition rows_ok (t : Table) : Prop := (∀ k r, t !! k = Some r → config_key_ck r = true) ∧ one_active t.

(** The key a process created and has not activated yet. *)
Definition owned (P : Proc) : option (Purpose * string) :=
  match P with
  | Created purpose kid | Activating purpose kid _ _ => Some (purpose, kid)
  | Revoking _ _ => None
  end.

(** [hist] holds everything done so far. *)
Section invariant.
Context (hist : list key_label).

(** The end of the overlap is set on retiring, and not before: it is an overlap
    after the clock of the activation that retired the key, as that activation
    read it before its transaction. *)
Definition overlap_ok (r : ConfigKey) : Prop :=
  (ck_state r = retiring → ∃ p t0 t1 t2, ActivateRead p t0 ∈ hist ∧ ActivateWrite p t1 t2 ∈ hist ∧
     ck_retiringAt r = Some t1 ∧ ck_notAfter r = Some (t0 + overlap * 1000)) ∧
  (ck_state r = pending ∨ ck_state r = active_key → ck_notAfter r = None).

Record key_inv (s : key_state) : Prop := {
  ki_ok : rows_ok (table s);
  ki_overlap : ∀ k r, table s !! k = Some r → overlap_ok r;
  ki_created : ∀ p P purpose kid, procs s !! p = Some P → owned P = Some (purpose, kid) →
    ∃ r, table s !! kid = Some r ∧ ck_purpose r = purpose ∧ (ck_state r = pending ∨ ck_state r = revoked);
  ki_distinct : ∀ p q P Q A B kid, procs s !! p = Some P → owned P = Some (A, kid) →
    procs s !! q = Some Q → owned Q = Some (B, kid) → p = q;
  ki_current : ∀ p purpose kid notAfter k, procs s !! p = Some (Activating purpose kid notAfter (Some k)) →
    ∃ r, table s !! k = Some r ∧ ck_purpose r = purpose ∧ ck_state r ≠ pending;
  ki_started : ∀ p purpose kid notAfter current, procs s !! p = Some (Activating purpose kid notAfter current) →
    ∃ t0, ActivateRead p t0 ∈ hist ∧ notAfter = t0 + overlap * 1000;
  ki_revoking : ∀ p kid reason, procs s !! p = Some (Revoking kid reason) → is_Some (table s !! kid);
}.

Lemma active_elsewhere_false t kid r :
  active_elsewhere t kid r = false ↔
  (ck_state r = active_key → ∀ k r', t !! k = Some r' → ck_state r' = active_key →
     ck_purpose r' = ck_purpose r → k = kid).
Proof.
  unfold active_elsewhere. rewrite andb_false_iff, bool_decide_eq_false. split.
  - intros [Hn|He] Ha k r' Hk Hst Hp; [done|].
    destruct (String.eqb_spec k kid) as [|Hne]; [done|]. exfalso.
    rewrite <- not_true_iff_false in He. apply He. apply existsb_exists.
    exists (k, r'). split; [by apply list_elem_of_In, elem_of_map_to_list|].
    rewrite bool_decide_eq_true_2 by (by split). simpl. by destruct (String.eqb_spec k kid).
  - intros Hall. destruct (decide (ck_state r = active_key)) as [Ha|]; [right|by left].
    apply not_true_iff_false. intros (kv & Hin & Hb)%existsb_exists.
    apply list_elem_of_In in Hin. destruct kv as [k r']. apply elem_of_map_to_list in Hin.
    apply andb_true_iff in Hb as [[Hst Hp]%bool_decide_eq_true Hk]. simpl in *.
    rewrite (Hall Ha k r' Hin Hst Hp), String.eqb_refl in Hk. done.
Qed.

Lemma write_row_Ok t kid r t' : write_row t kid r = Ok t' →
  config_key_ck r = true ∧ active_elsewhere t kid r = false ∧ t' = <[kid := r]> t.
Proof.
  unfold write_row. destruct (config_key_ck r); [|done]. simpl. destruct (active_elsewhere t kid r); [done|].
  by intros [= <-].
Qed.

Lemma write_rows_ok t kid r t' : write_row t kid r = Ok t' → rows_ok t → rows_ok t'.
Proof.
  intros (Hck & Hel & ->)%write_row_Ok [Hr Hone]. rewrite active_elsewhere_false in Hel. split.
  - intros k r' Hk. destruct (decide (k = kid)) as [->|].
    + rewrite lookup_insert_eq in Hk. by injection Hk as <-.
    + rewrite lookup_insert_ne in Hk by done. by eapply Hr.
  - intros k1 k2 r1 r2 H1 H2 Ha1 Ha2 Hp.
    destruct (decide (k1 = kid)) as [->|], (decide (k2 = kid)) as [->|]; [done| | |].
    + rewrite lookup_insert_eq in H1. injection H1 as <-. rewrite lookup_insert_ne in H2 by done.
      symmetry. by eapply Hel.
    + rewrite lookup_insert_eq in H2. injection H2 as <-. rewrite lookup_insert_ne in H1 by done.
      by eapply Hel.
    + rewrite lookup_insert_ne in H1, H2 by done. by eapply Hone.
Qed.

Lemma update_row_Ok t kid f t' : update_row t kid f = Ok t' →
  ∃ r, t !! kid = Some r ∧ write_row t kid (f r) = Ok t' ∧ t' = <[kid := f r]> t.
Proof.
  unfold update_row. destruct (t !! kid) as [r|]; [|done]. intros Hw. exists r.
  split_and!; [done|done|]. by apply write_row_Ok in Hw as (_ & _ & ->).
Qed.

Lemma find_active_Some purpose t k : find_active purpose t = Some k →
  ∃ r, t !! k = Some r ∧ ck_state r = active_key ∧ ck_purpose r = purpose.
Proof.
  unfold find_active. destruct (List.find _ _) as [[k' r]|] eqn:E; [|done]. intros [= ->].
  apply List.find_some in E as [Hin Hb]. apply list_elem_of_In, elem_of_map_to_list in Hin.
  apply bool_decide_eq_true in Hb as [Hst Hp]. by exists r.
Qed.

Lemma find_active_None purpose t k r :
  find_active purpose t = None → t !! k = Some r → ck_state r = active_key → ck_purpose r ≠ purpose.
Proof.
  unfold find_active. destruct (List.find _ _) as [|] eqn:E; [done|]. intros _ Hk Hst Hp.
  pose proof (List.find_none _ _ E (k, r)) as Hn. rewrite <- list_elem_of_In, elem_of_map_to_list in Hn.
  specialize (Hn Hk). simpl in Hn. by apply bool_decide_eq_false in Hn; apply Hn.
Qed.

Lemma set_active_ck now r : config_key_ck r = true → ck_state r = pending → config_key_ck (set_active now r) = true.
Proof.
  intros Hc Hst. unfold config_key_ck, material_ck, retiring_not_after_ck in *.
  rewrite Hst in Hc. simpl in *. by destruct (ck_wrappedKey r).
Qed.

Lemma material_kept st r : config_key_ck r = true → ck_state r = st → (st = revoked ↔ ck_wrappedKey r = None).
Proof.
  intros Hc <-. unfold config_key_ck, material_ck in Hc.
  destruct (ck_state r), (ck_wrappedKey r); rewrite ?andb_false_r in Hc; done.
Qed.

(** A row that was revoked is refused by the material check. *)
Lemma update_keeps_material t kid f t' r :
  rows_ok t → t !! kid = Some r → update_row t kid f = Ok t' →
  ck_wrappedKey (f r) = ck_wrappedKey r → ck_state (f r) ≠ revoked → ck_state r ≠ revoked.
Proof.
  intros [Hck _] Hr Hu Hw Hne Hst. apply update_row_Ok in Hu as (r' & Hr' & Hwr & _).
  assert (r' = r) as -> by congruence. apply write_row_Ok in Hwr as (Hc & _ & _).
  apply Hne. apply (material_kept _ _ Hc eq_refl). rewrite Hw. by apply (material_kept _ _ (Hck _ _ Hr) eq_refl).
Qed.

Lemma update_row_error t kid f e r : t !! kid = Some r → update_row t kid f = Throw e →
  e = EPg "23514" ∨ e = EPrismaKnown "P2002".
Proof.
  unfold update_row, write_row. intros ->. destruct (config_key_ck (f r)); simpl; [|intros [= <-]; auto].
  destruct (active_elsewhere t kid (f r)); [intros [= <-]; auto|done].
Qed.

Lemma retire_ok now notAfter t k old :
  rows_ok t → t !! k = Some old → ck_state old = active_key →
  update_row t k (set_retiring now notAfter) = Ok (<[k := set_retiring now notAfter old]> t).
Proof.
  intros [Hck _] Hk Hko. set (old' := set_retiring now notAfter old).
  assert (Hold : config_key_ck old' = true).
  { pose proof (Hck _ _ Hk) as Hc. unfold old', config_key_ck, material_ck, retiring_not_after_ck in *.
    rewrite Hko in Hc. simpl in *. rewrite !andb_true_iff in *. naive_solver. }
  unfold update_row. rewrite Hk. unfold write_row. fold old'. rewrite Hold. cbn [negb].
  by rewrite (proj2 (active_elsewhere_false t k old')).
Qed.

(** What the two updates do when they are accepted. *)
Definition activated (kid : string) (notAfter t1 t2 : Z) (current : option string) (r : ConfigKey) (t t' : Table) : Prop :=
  match current with
  | Some k => ∃ old, k ≠ kid ∧ t !! k = Some old ∧ (ck_state old = active_key ∨ ck_state old = retiring) ∧
                t' = <[kid := set_active t2 r]> (<[k := set_retiring t1 notAfter old]> t)
  | None => t' = <[kid := set_active t2 r]> t
  end.

(** [activate] on a pending key with nothing in between. *)
Lemma activate_spec purpose kid notAfter u1 u2 t r :
  rows_ok t → t !! kid = Some r → ck_purpose r = purpose → ck_state r = pending →
  ∃ t', activate_write kid notAfter u1 u2 (find_active purpose t) t = Ok t' ∧
        activated kid notAfter u1 u2 (find_active purpose t) r t t'.
Proof.
  intros Hok Hr Hp Hst. pose proof Hok as [Hck Hone]. unfold activate_write, activated.
  pose proof (set_active_ck u2 r (Hck _ _ Hr) Hst) as Hnew.
  destruct (find_active purpose t) as [k|] eqn:Ef.
  - destruct (find_active_Some _ _ _ Ef) as (old & Hk & Hko & Hkp).
    assert (Hne : k ≠ kid) by (intros ->; congruence).
    rewrite (retire_ok u1 notAfter t k old) by done. rewrite mbind_rbind. cbn [rbind].
    set (t1 := <[k := _]> t). assert (Hr1 : t1 !! kid = Some r) by (unfold t1; by rewrite lookup_insert_ne).
    unfold update_row. rewrite Hr1. unfold write_row. rewrite Hnew. cbn [negb].
    rewrite (proj2 (active_elsewhere_false t1 kid (set_active u2 r))); [eexists; split; [done|]; exists old; auto|].
    intros _ k' r' Hk' Hst' Hp'. apply lookup_insert_Some in Hk' as [[_ <-]|[Hne' Hk']]; [done|].
    exfalso. apply Hne'. eapply Hone; eauto. simpl in Hp'. congruence.
  - rewrite mbind_rbind. cbn [rbind]. unfold update_row. rewrite Hr.
    unfold write_row. rewrite Hnew. cbn [negb].
    rewrite (proj2 (active_elsewhere_false t kid (set_active u2 r))); [by eexists|].
    intros _ k' r' Hk' Hst' Hp'. exfalso. eapply find_active_None; eauto. simpl in Hp'. congruence.
Qed.

Lemma activate_rows_ok kid notAfter u1 u2 current t t' :
  activate_write kid notAfter u1 u2 current t = Ok t' → rows_ok t → rows_ok t'.
Proof.
  unfold activate_write. intros Ha Hok. rewrite mbind_rbind in Ha. apply rbind_Ok_inv in Ha as (t1 & H1 & Ha).
  assert (Hok1 : rows_ok t1).
  { destruct current; [|by injection H1 as <-].
    apply update_row_Ok in H1 as (r1 & _ & Hw & _). by eapply write_rows_ok. }
  apply update_row_Ok in Ha as (r2 & _ & Hw & _). by eapply write_rows_ok.
Qed.

Lemma revoke_write_ok kid reason now t r :
  rows_ok t → t !! kid = Some r → revoke_write kid reason now t = Ok (<[kid := set_revoked now reason r]> t).
Proof.
  intros [Hck _] Hr. unfold revoke_write, update_row. rewrite Hr. unfold write_row.
  assert (Hnew : config_key_ck (set_revoked now reason r) = true).
  { pose proof (Hck _ _ Hr) as Hc. unfold config_key_ck, material_ck, retiring_not_after_ck in *.
    simpl in *. rewrite !andb_true_iff in *. naive_solver. }
  rewrite Hnew. cbn [negb]. by rewrite (proj2 (active_elsewhere_false t kid (set_revoked now reason r))).
Qed.

Lemma createPending_Ok purpose kid iv material point t t' :
  createPending provider purpose kid iv material point t = Ok t' →
  t !! kid = None ∧ ∃ r, t' = <[kid := r]> t ∧ ck_purpose r = purpose ∧ ck_state r = pending ∧
    write_row t kid r = Ok t' ∧ ck_notAfter r = None.
Proof.
  rewrite createPending_row; unfold insert_row. destruct (t !! kid) eqn:E; [done|]. intros Hw.
  split; [done|]. pose proof Hw as Hw'. apply write_row_Ok in Hw' as (_ & _ & ->).
  eexists. split_and!; [reflexivity|done|done|done|done].
Qed.

(** A valid pending row is never refused: the only error of a creation is a kid
    that is taken. *)
Lemma createPending_fresh purpose kid iv material point t :
  t !! kid = None → is_Some (to_option (createPending provider purpose kid iv material point t)).
Proof.
  intros Hk. rewrite createPending_row; unfold insert_row. rewrite Hk. unfold write_row.
  rewrite (proj2 (active_elsewhere_false _ _ _)) by done. destruct purpose; cbn; eauto.
Qed.

(** *** Every step keeps the invariant *)

(** Ending a process changes nothing else. *)
Lemma inv_end_proc p s errs :
  key_inv s → key_inv {| table := table s; procs := delete p (procs s); errors := errs |}.
Proof.
  intros []. split; simpl; try done; intros *;
    repeat (intros [_ ?]%lookup_delete_Some || intros ?); eauto.
Qed.

(** A process ends with a write that keeps the others' rows. *)
Lemma inv_write p s t' errs :
  key_inv s → rows_ok t' → (∀ k r, t' !! k = Some r → overlap_ok r) →
  (∀ k r, table s !! k = Some r → ∃ r', t' !! k = Some r' ∧ ck_purpose r' = ck_purpose r ∧
     (ck_state r ≠ pending → ck_state r' ≠ pending)) →
  (∀ q Q P kid r, q ≠ p → procs s !! q = Some Q → owned Q = Some (P, kid) → table s !! kid = Some r →
     ∃ r', t' !! kid = Some r' ∧ (ck_state r' = ck_state r ∨ ck_state r' = revoked)) →
  key_inv {| table := t'; procs := delete p (procs s); errors := errs |}.
Proof.
  intros [] Hok Hov Hkeep Hcr. split; simpl; try done.
  - intros q Q P kid [Hne Hq]%lookup_delete_Some HQ. destruct (ki_created0 _ _ _ _ Hq HQ) as (r & Hr & <- & Hst).
    destruct (Hcr q Q (ck_purpose r) kid r (not_eq_sym Hne) Hq HQ Hr) as (r' & Hr' & Hs).
    destruct (Hkeep _ _ Hr) as (r'' & Hr'' & Hp & _).
    exists r'. split_and!; [done|congruence|]. destruct Hs as [->| ->]; auto.
  - intros q q' P Q A B kid [_ Hq]%lookup_delete_Some HP [_ Hq']%lookup_delete_Some HQ. eauto.
  - intros q P kid now k [_ Hq]%lookup_delete_Some. destruct (ki_current0 _ _ _ _ _ Hq) as (r & Hr & <- & Hst).
    destruct (Hkeep _ _ Hr) as (r' & Hr' & Hp & Hs). exists r'. auto.
  - intros q P kid now k [_ Hq]%lookup_delete_Some. eauto.
  - intros q kid reason [_ Hq]%lookup_delete_Some. destruct (ki_revoking0 _ _ _ Hq) as [r Hr].
    destruct (Hkeep _ _ Hr) as (r' & Hr' & _). by exists r'.
Qed.

Lemma overlap_ok_set_active now r : overlap_ok r → ck_state r = pending → overlap_ok (set_active now r).
Proof. intros [_ Hn] Hst. split; [done|]. intros _. apply Hn. by left. Qed.
Lemma overlap_ok_set_retiring p t0 t1 t2 r :
  ActivateRead p t0 ∈ hist → ActivateWrite p t1 t2 ∈ hist → overlap_ok (set_retiring t1 (t0 + overlap * 1000) r).
Proof. intros H0 H1. split; [intros _; by exists p, t0, t1, t2|]. by intros [?|?]. Qed.
Lemma overlap_ok_set_revoked now reason r : overlap_ok (set_revoked now reason r).
Proof. split; [done|]. by intros [?|?]. Qed.

Lemma overlap_insert (t : Table) k r :
  (∀ k r, t !! k = Some r → overlap_ok r) → overlap_ok r →
  ∀ k' r', <[k := r]> t !! k' = Some r' → overlap_ok r'.
Proof. intros Ht Hr k' r' [[_ <-]|[_ Hk']]%lookup_insert_Some; eauto. Qed.

(** Everything the updates of an activation can answer: they are refused as a
    whole, because the key was revoked or another activation came first, or they
    activate a pending key. *)
Lemma activate_cases s p purpose kid notAfter u1 u2 current :
  key_inv s → procs s !! p = Some (Activating purpose kid notAfter current) →
  (∃ e, activate_write kid notAfter u1 u2 current (table s) = Throw e ∧ (e = EPg "23514" ∨ e = EPrismaKnown "P2002")) ∨
  ∃ r t', table s !! kid = Some r ∧ ck_purpose r = purpose ∧ ck_state r = pending ∧
    activate_write kid notAfter u1 u2 current (table s) = Ok t' ∧ activated kid notAfter u1 u2 current r (table s) t' ∧
    match current with Some k => ∃ old, table s !! k = Some old ∧ ck_purpose old = purpose | None => True end.
Proof.
  intros Hinv Hp. destruct (ki_created _ Hinv _ _ _ _ Hp eq_refl) as (r & Hr & Hpu & Hst).
  assert (Hpend : ck_state r ≠ revoked → ck_state r = pending) by (destruct Hst; done).
  unfold activate_write, activated. destruct current as [k|].
  - destruct (ki_current _ Hinv _ _ _ _ _ Hp) as (old & Hold & Hop & Hos).
    set (old' := set_retiring u1 notAfter old).
    destruct (update_row (table s) k _) as [t1|e] eqn:E1; rewrite mbind_rbind; cbn [rbind].
    2: { left. exists e. split; [done|]. by eapply update_row_error. }
    pose proof (update_keeps_material _ _ _ _ _ (ki_ok _ Hinv) Hold E1 eq_refl ltac:(done)) as Hnr.
    apply update_row_Ok in E1 as (old0 & Hold0 & Hw1 & ->). assert (old0 = old) as -> by congruence.
    assert (Hne : k ≠ kid) by (intros ->; assert (old = r) as -> by congruence; destruct Hst; congruence).
    pose proof (write_rows_ok _ _ _ _ Hw1 (ki_ok _ Hinv)) as Hok1.
    assert (Hr1 : <[k := old']> (table s) !! kid = Some r) by (by rewrite lookup_insert_ne).
    destruct (update_row _ kid _) as [t'|e] eqn:E2; [right|left; exists e; split; [done|by eapply update_row_error]].
    pose proof (update_keeps_material _ _ _ _ _ Hok1 Hr1 E2 eq_refl ltac:(done)) as Hnr2.
    apply update_row_Ok in E2 as (r0 & Hr0 & _ & ->). fold old' in Hr0. assert (r0 = r) as -> by congruence.
    eexists r, _. split_and!; [done|done|auto|done| |by exists old]. exists old. split_and!; [done|done| |done].
    destruct (ck_state old); auto; done.
  - rewrite mbind_rbind. cbn [rbind].
    destruct (update_row _ kid _) as [t'|e] eqn:E2; [right|left; exists e; split; [done|by eapply update_row_error]].
    pose proof (update_keeps_material _ _ _ _ _ (ki_ok _ Hinv) Hr E2 eq_refl ltac:(done)) as Hnr2.
    apply update_row_Ok in E2 as (r0 & Hr0 & _ & ->). assert (r0 = r) as -> by congruence.
    eexists r, _. split_and!; auto.
Qed.

(** The rows after an accepted activation. *)
Lemma activated_row kid notAfter u1 u2 current r t t' k' r' :
  activated kid notAfter u1 u2 current r t t' → t !! kid = Some r → t !! k' = Some r' →
  (k' = kid ∧ r' = r ∧ t' !! k' = Some (set_active u2 r)) ∨
  (k' ≠ kid ∧ current = Some k' ∧ (ck_state r' = active_key ∨ ck_state r' = retiring) ∧
     t' !! k' = Some (set_retiring u1 notAfter r')) ∨
  (k' ≠ kid ∧ current ≠ Some k' ∧ t' !! k' = Some r').
Proof.
  unfold activated. intros Ha Hr Hk.
  destruct (decide (k' = kid)) as [->|Hne].
  { left. split_and!; [done|congruence|]. destruct current; [destruct Ha as (? & _ & _ & _ & ->)|subst t'];
      by rewrite lookup_insert_eq. }
  right. destruct current as [k|]; [|subst t'; right; by rewrite lookup_insert_ne].
  destruct Ha as (old & Hkk & Hold & Hst & ->). rewrite lookup_insert_ne by done.
  destruct (decide (k = k')) as [->|Hne2]; [left|right].
  - assert (old = r') as -> by congruence. rewrite lookup_insert_eq. auto.
  - rewrite lookup_insert_ne by done. split_and!; [done|congruence|done].
Qed.

Lemma inv_activate s p purpose kid notAfter u1 u2 current :
  key_inv s → procs s !! p = Some (Activating purpose kid notAfter current) → ActivateWrite p u1 u2 ∈ hist →
  key_inv (done_with p (activate_write kid notAfter u1 u2 current (table s)) s).
Proof.
  intros Hinv Hp Hw.
  destruct (activate_cases s p purpose kid notAfter u1 u2 current Hinv Hp) as [(e & -> & _)|(r & t' & Hr & Hpu & Hst & Ha & Hact & _)];
    [by apply inv_end_proc|].
  pose proof (activate_rows_ok _ _ _ _ _ _ _ Ha (ki_ok _ Hinv)) as Hok. rewrite Ha. cbn [done_with].
  pose proof (ki_overlap _ Hinv) as Hov. apply inv_write; [done|done| | |].
  - pose proof (overlap_ok_set_active u2 r (Hov _ _ Hr) Hst) as Hnew. unfold activated in Hact.
    destruct (ki_started _ Hinv _ _ _ _ _ Hp) as (t0 & Ht0 & ->). destruct current as [k|].
    + destruct Hact as (old & _ & _ & _ & ->).
      apply overlap_insert; [|done]. apply overlap_insert; [done|by eapply overlap_ok_set_retiring].
    + subst t'. by apply overlap_insert.
  - intros k' r' Hk'.
    destruct (activated_row _ _ _ _ _ _ _ _ _ _ Hact Hr Hk') as [(_ & -> & ->)|[(_ & _ & _ & ->)|(_ & _ & ->)]]; eauto.
  - intros q Q P kid' r' Hne Hq HQ Hr'.
    destruct (activated_row _ _ _ _ _ _ _ _ _ _ Hact Hr Hr') as [(-> & _ & _)|[(_ & _ & Hs & _)|(_ & _ & ->)]]; [| |eauto].
    + exfalso. apply Hne. by eapply (ki_distinct _ Hinv _ _ _ _ _ _ _ Hq HQ Hp).
    + exfalso. destruct (ki_created _ Hinv _ _ _ _ Hq HQ) as (r0 & Hr0 & _ & Hs0).
      assert (r0 = r') as -> by congruence. destruct Hs, Hs0; congruence.
Qed.

Lemma inv_revoke s p kid reason now :
  key_inv s → procs s !! p = Some (Revoking kid reason) →
  key_inv (done_with p (revoke_write kid reason now (table s)) s).
Proof.
  intros Hinv Hp. destruct (ki_revoking _ Hinv _ _ _ Hp) as [r Hr].
  pose proof (revoke_write_ok kid reason now (table s) r (ki_ok _ Hinv) Hr) as Hw.
  assert (Hok : rows_ok (<[kid := set_revoked now reason r]> (table s))).
  { unfold revoke_write in Hw. pose proof Hw as Hu. apply update_row_Ok in Hu as (r' & Hr' & Hw' & _).
    eapply write_rows_ok; [exact Hw'|apply Hinv]. }
  rewrite Hw. cbn [done_with]. apply inv_write; [done|done| | |].
  - apply overlap_insert, overlap_ok_set_revoked. apply Hinv.
  - intros k r' Hk. destruct (decide (k = kid)) as [->|].
    + exists (set_revoked now reason r). rewrite lookup_insert_eq. simpl. split_and!; [done|congruence|done].
    + exists r'. rewrite lookup_insert_ne by done. auto.
  - intros q Q P kid' r' Hne Hq HQ Hr'. destruct (decide (kid' = kid)) as [->|].
    + exists (set_revoked now reason r). rewrite lookup_insert_eq. auto.
    + exists r'. rewrite lookup_insert_ne by done. auto.
Qed.

Lemma inv_create s p purpose kid iv material point t' :
  key_inv s → procs s !! p = None →
  createPending provider purpose kid iv material point (table s) = Ok t' →
  key_inv {| table := t'; procs := <[p := Created purpose kid]> (procs s); errors := errors s |}.
Proof.
  intros Hinv Hp Hc. apply createPending_Ok in Hc as (Hk & r & Ht' & Hpu & Hst & Hw & Hna).
  pose proof (write_rows_ok _ _ _ _ Hw (ki_ok _ Hinv)) as Hok. subst t'.
  destruct Hinv.
  assert (Hold : ∀ q Q P, procs s !! q = Some Q → owned Q = Some (P, kid) → False).
  { intros q Q P Hq HQ. destruct (ki_created0 _ _ _ _ Hq HQ) as (r' & Hr' & _). congruence. }
  split; simpl; try done.
  - apply overlap_insert; [done|]. split; [intros Hr; congruence|done].
  - intros q Q P kid' [[<- <-]|[Hne Hq]]%lookup_insert_Some HQ.
    + injection HQ as <- <-. exists r. rewrite lookup_insert_eq. auto.
    + destruct (ki_created0 _ _ _ _ Hq HQ) as (r' & Hr' & H1 & H2). exists r'.
      rewrite lookup_insert_ne by (intros ->; congruence). auto.
  - intros q q' P Q A B kid' Hq HP Hq' HQ.
    apply lookup_insert_Some in Hq as [[<- <-]|[_ Hq]], Hq' as [[<- <-]|[_ Hq']]; [done| | |by eauto].
    + injection HP as <- <-. exfalso. eauto.
    + injection HQ as <- <-. exfalso. eauto.
  - intros q P kid' now k [[_ ?]|[_ Hq]]%lookup_insert_Some; [done|].
    destruct (ki_current0 _ _ _ _ _ Hq) as (r' & Hr' & ?). exists r'. by rewrite lookup_insert_ne by congruence.
  - intros q P kid' now k [[_ ?]|[_ Hq]]%lookup_insert_Some; [done|eauto].
  - intros q kid' reason [[_ ?]|[_ Hq]]%lookup_insert_Some; [done|].
    rewrite lookup_insert_is_Some'. right. eauto.
Qed.

Lemma inv_read s p purpose kid now :
  key_inv s → procs s !! p = Some (Created purpose kid) → ActivateRead p now ∈ hist →
  key_inv {| table := table s;
             procs := <[p := Activating purpose kid (now + overlap * 1000) (find_active purpose (table s))]> (procs s);
             errors := errors s |}.
Proof.
  intros [] Hp Hl.
  assert (Hback : ∀ q Q P k,
    <[p := Activating purpose kid (now + overlap * 1000) (find_active purpose (table s))]> (procs s) !! q = Some Q →
    owned Q = Some (P, k) → ∃ Q', procs s !! q = Some Q' ∧ owned Q' = Some (P, k)).
  { intros q Q P k [[<- <-]|[_ Hq]]%lookup_insert_Some HQ; [|by exists Q]. by eexists. }
  split; simpl; try done.
  - intros q Q P k Hq HQ. destruct (Hback _ _ _ _ Hq HQ) as (Q' & ? & ?). eauto.
  - intros q q' P Q A B k Hq HP Hq' HQ. destruct (Hback _ _ _ _ Hq HP) as (? & ? & ?), (Hback _ _ _ _ Hq' HQ) as (? & ? & ?).
    eauto.
  - intros q P kid' now' k [[_ Hq]|[_ Hq]]%lookup_insert_Some; [|by eauto].
    injection Hq as -> -> _ Hf. apply find_active_Some in Hf as (r & Hr & Hst & Hpu). exists r.
    split_and!; [done|done|congruence].
  - intros q P kid' n cur [[<- Hq]|[_ Hq]]%lookup_insert_Some; [|by eauto].
    injection Hq as _ _ <- _. by exists now.
  - intros q kid' reason [[_ ?]|[_ Hq]]%lookup_insert_Some; [done|eauto].
Qed.

Lemma inv_revoke_check s p kid reason :
  key_inv s → is_Some (table s !! kid) →
  key_inv {| table := table s; procs := <[p := Revoking kid reason]> (procs s); errors := errors s |}.
Proof.
  intros [] Hk. split; simpl; try done.
  - intros q Q P kid' [[_ <-]|[_ Hq]]%lookup_insert_Some; [done|eauto].
  - intros q q' P Q A B kid' [[_ <-]|[_ Hq]]%lookup_insert_Some ? [[_ <-]|[_ Hq']]%lookup_insert_Some ?; eauto; done.
  - intros q P kid' now k [[_ ?]|[_ Hq]]%lookup_insert_Some; [done|eauto].
  - intros q P kid' now k [[_ ?]|[_ Hq]]%lookup_insert_Some; [done|eauto].
  - intros q kid' reason' [[_ [= <- <-]]|[_ Hq]]%lookup_insert_Some; eauto.
Qed.

Lemma revoke_check_found kid t u : revoke_check kid t = Ok (Some u) →
  ∃ r, t !! kid = Some r ∧ (ck_state r = pending ∨ ck_state r = retiring).
Proof.
  unfold revoke_check. destruct (t !! kid) as [r|]; [|done]. intros Hc. exists r. split; [done|].
  destruct (ck_state r); auto; done.
Qed.

Lemma key_inv_step l s s' : key_step l s = Some s' → l ∈ hist → key_inv s → key_inv s'.
Proof.
  intros Hstep Hl Hinv. destruct l as [p purpose kid iv material point|p now|p u1 u2|p kid reason|p now|p]; cbn in Hstep.
  - destruct (procs s !! p) eqn:Ep; [done|]. destruct (createPending _ _ _ _ _ _ _) as [t'|e] eqn:Ec;
      injection Hstep as <-; [by eapply inv_create|by apply inv_end_proc].
  - destruct (procs s !! p) as [[purpose kid| |]|] eqn:Ep; try done. injection Hstep as <-.
    by apply inv_read.
  - destruct (procs s !! p) as [[|purpose kid now current|]|] eqn:Ep; try done. injection Hstep as <-.
    by eapply inv_activate.
  - destruct (procs s !! p) eqn:Ep; [done|]. destruct (revoke_check kid (table s)) as [[[]|]|e] eqn:Ec;
      injection Hstep as <-; [|done|by apply inv_end_proc].
    apply revoke_check_found in Ec as (r & Hr & _). by apply inv_revoke_check.
  - destruct (procs s !! p) as [[| |kid reason]|] eqn:Ep; try done. injection Hstep as <-.
    by apply inv_revoke.
  - injection Hstep as <-. by apply inv_end_proc.
Qed.

Lemma empty_key_inv : key_inv empty_registry.
Proof.
  split; [split|..]; cbn; unfold one_active; intros;
    repeat match goal with H : ∅ !! _ = Some _ |- _ => rewrite lookup_empty in H; discriminate H end.
Qed.

Lemma key_inv_exec tr s s' : key_exec tr s = Some s' → tr ⊆ hist → key_inv s → key_inv s'.
Proof.
  revert s. induction tr as [|l tr IH]; intros s Hr Hsub Hinv; [by injection Hr as <-|].
  cbn [key_exec] in Hr. destruct (key_step l s) as [s1|] eqn:E; [|done].
  eapply IH; [done| |eapply key_inv_step; [done| |done]]; set_solver.
Qed.

(** *** Rows over time *)

(** What one step can do to a row that is there. *)
Definition row_step (r r' : ConfigKey) : Prop :=
  ck_purpose r' = ck_purpose r ∧
  (r' = r ∨ (ck_state r = pending ∧ ck_state r' = active_key) ∨
   ((ck_state r = active_key ∨ ck_state r = retiring) ∧ ck_state r' = retiring) ∨ ck_state r' = revoked).

Lemma step_row l s s' k r :
  key_step l s = Some s' → key_inv s → table s !! k = Some r →
  ∃ r', table s' !! k = Some r' ∧ row_step r r' ∧
    (ck_state r' = revoked → r' = r ∨
       ∃ p reason now, l = RevokeWrite p now ∧ procs s !! p = Some (Revoking k reason)) ∧
    (ck_state r = active_key → ck_state r' = retiring →
       ∃ k' r'', table s' !! k' = Some r'' ∧ ck_state r'' = active_key ∧ ck_purpose r'' = ck_purpose r).
Proof.
  intros Hstep Hinv Hk.
  assert (Hsame : ∀ s0 : key_state, table s0 = table s →
    ∃ r', table s0 !! k = Some r' ∧ row_step r r' ∧ (ck_state r' = revoked → r' = r ∨
       ∃ p reason now, l = RevokeWrite p now ∧ procs s !! p = Some (Revoking k reason)) ∧
    (ck_state r = active_key → ck_state r' = retiring →
       ∃ k' r'', table s0 !! k' = Some r'' ∧ ck_state r'' = active_key ∧ ck_purpose r'' = ck_purpose r)).
  { intros s0 ->. exists r. split_and!; [done|by split; [|left]|auto|congruence]. }
  destruct l as [p purpose kid iv material point|p now|p u1 u2|p kid reason|p now|p]; cbn in Hstep.
  - destruct (procs s !! p); [done|]. destruct (createPending _ _ _ _ _ _ _) as [t'|e] eqn:Ec;
      injection Hstep as <-; [|by apply Hsame]. apply createPending_Ok in Ec as (Hn & r0 & -> & _).
    exists r. cbn [table]. rewrite lookup_insert_ne by congruence.
    split_and!; [done|by split; [|left]|auto|congruence].
  - destruct (procs s !! p) as [[| |]|]; try done. injection Hstep as <-. by apply Hsame.
  - destruct (procs s !! p) as [[|purpose kid now current|]|] eqn:Ep; try done. injection Hstep as <-.
    destruct (activate_cases s p purpose kid now u1 u2 current Hinv Ep)
      as [(e & -> & _)|(r0 & t' & Hr0 & Hpu & Hst & -> & Hact & Hcur)]; [by apply Hsame|]. cbn [done_with table].
    destruct (activated_row _ _ _ _ _ _ _ _ _ _ Hact Hr0 Hk) as [(_ & -> & ->)|[(Hne & -> & Hs & ->)|(_ & _ & ->)]];
      eexists; (split; [reflexivity|]).
    + split; [split; [done|right; left; done]|]. simpl. split; congruence.
    + split; [split; [done|right; right; left; done]|]. split; [done|]. intros _ _.
      destruct Hcur as (old & Hold & Hop). assert (old = r) as -> by congruence.
      exists kid, (set_active u2 r0).
      destruct (activated_row _ _ _ _ _ _ _ _ _ _ Hact Hr0 Hr0) as [(_ & _ & ->)|[(? & _)|(? & _)]]; try done.
      split_and!; [done|done|simpl; congruence].
    + split_and!; [by split; [|left]|auto|congruence].
  - destruct (procs s !! p); [done|]. destruct (revoke_check kid (table s)) as [[]|e];
      injection Hstep as <-; by apply Hsame.
  - destruct (procs s !! p) as [[| |kid reason]|] eqn:Ep; try done. injection Hstep as <-.
    destruct (ki_revoking _ Hinv _ _ _ Ep) as [r0 Hr0].
    rewrite (revoke_write_ok kid reason now (table s) r0 (ki_ok _ Hinv) Hr0). cbn [done_with table].
    destruct (decide (k = kid)) as [->|Hne].
    + assert (r0 = r) as -> by congruence. rewrite lookup_insert_eq. eexists. split; [done|].
      split; [split; [done|auto]|]. simpl. split; [|congruence]. intros _. right. by exists p, reason, now.
    + rewrite lookup_insert_ne by done. exists r. split_and!; [done|by split; [|left]|auto|congruence].
  - injection Hstep as <-. by apply Hsame.
Qed.

(** What becomes of a row that is there: it keeps its purpose; once revoked it
    stays so; unless revoked it keeps its material; and an active key is active
    still, or retiring, or revoked. *)
Lemma step_material l s s' k r r' :
  key_step l s = Some s' → key_inv s → table s !! k = Some r → table s' !! k = Some r' → ck_state r' ≠ revoked →
  stored_row k r' = stored_row k r.
Proof.
  intros Hstep Hinv Hk Hk' Hne.
  destruct l as [p purpose kid iv material point|p now|p u1 u2|p kid reason|p now|p]; cbn in Hstep.
  - destruct (procs s !! p); [done|]. destruct (createPending _ _ _ _ _ _ _) as [t'|e] eqn:Ec; injection Hstep as <-;
      [|cbn in Hk'; congruence]. apply createPending_Ok in Ec as (Hn & r0 & -> & _). cbn in Hk'.
    rewrite lookup_insert_ne in Hk' by congruence. congruence.
  - destruct (procs s !! p) as [[| |]|]; try done. injection Hstep as <-. cbn in Hk'. congruence.
  - destruct (procs s !! p) as [[|purpose kid na current|]|] eqn:Ep; try done. injection Hstep as <-.
    destruct (activate_cases s p purpose kid na u1 u2 current Hinv Ep)
      as [(e & Ha & _)|(r0 & t' & Hr0 & Hpu & Hst & Ha & Hact & Hcur)]; rewrite Ha in Hk'; cbn in Hk'; [congruence|].
    destruct (activated_row _ _ _ _ _ _ _ _ _ _ Hact Hr0 Hk) as [(_ & -> & He)|[(_ & _ & _ & He)|(_ & _ & He)]];
      rewrite He in Hk'; by injection Hk' as <-.
  - destruct (procs s !! p); [done|]. destruct (revoke_check kid (table s)) as [[]|e]; injection Hstep as <-;
      cbn in Hk'; congruence.
  - destruct (procs s !! p) as [[| |kid reason]|] eqn:Ep; try done. injection Hstep as <-.
    destruct (ki_revoking _ Hinv _ _ _ Ep) as [r0 Hr0].
    rewrite (revoke_write_ok kid reason now (table s) r0 (ki_ok _ Hinv) Hr0) in Hk'. cbn in Hk'.
    apply lookup_insert_Some in Hk' as [[_ <-]|[_ Hk']]; [done|congruence].
  - injection Hstep as <-. cbn in Hk'. congruence.
Qed.

Lemma rows_persist tr s s' k r :
  key_exec tr s = Some s' → tr ⊆ hist → key_inv s → table s !! k = Some r →
  ∃ r', table s' !! k = Some r' ∧ ck_purpose r' = ck_purpose r ∧
    (ck_state r' ≠ revoked → stored_row k r' = stored_row k r) ∧ (ck_state r = revoked → ck_state r' = revoked) ∧
    (ck_state r = retiring ∨ ck_state r = active_key →
     ck_state r' = active_key ∨ ck_state r' = retiring ∨ ck_state r' = revoked).
Proof.
  revert s r. induction tr as [|l tr IH]; intros s r Hr Hsub Hinv Hk.
  { injection Hr as <-. exists r. split_and!; [done..|]. tauto. }
  cbn [key_exec] in Hr. destruct (key_step l s) as [s0|] eqn:E; [|done].
  destruct (step_row _ _ _ _ _ E Hinv Hk) as (r0 & Hk0 & [Hp Hrs] & _).
  destruct (IH s0 r0 Hr ltac:(set_solver) (key_inv_step _ _ _ E ltac:(set_solver) Hinv) Hk0)
    as (r' & Hk' & Hp' & Hm & Hrev & Hst).
  exists r'. split_and!; [done|congruence| | |].
  - intros Hne. rewrite Hm by done. eapply step_material; [exact E|exact Hinv|exact Hk|exact Hk0|]. auto.
  - intros Hs. apply Hrev. destruct Hrs as [->|[[? _]|[[[?|?] _]|?]]]; congruence.
  - intros Hs. destruct Hrs as [->|[[? _]|[[_ ?]|?]]]; [auto|destruct Hs; congruence|auto|auto].
Qed.

(** *** How long a key stays usable *)

(** The key can be used until [limit], or was revoked. *)
Definition usable_until (limit : Z) (r : ConfigKey) : Prop :=
  ck_state r = revoked ∨ ck_state r = active_key ∨
  (ck_state r = retiring ∧ ∃ n, ck_notAfter r = Some n ∧ limit ≤ n).

(** The overlap of every activation now past its [findFirst], or of every one
    begun in [tr], ends no earlier than [limit]. *)
Definition in_flight_until (limit : Z) (s : key_state) : Prop :=
  ∀ p purpose kid notAfter current,
    procs s !! p = Some (Activating purpose kid notAfter current) → limit ≤ notAfter.
Definition begun_until (limit : Z) (tr : list key_label) : Prop :=
  ∀ p now, ActivateRead p now ∈ tr → limit ≤ now + overlap * 1000.

Lemma procs_done_with p r s q P : procs (done_with p r s) !! q = Some P → q ≠ p ∧ procs s !! q = Some P.
Proof. destruct r; cbn; intros [? ?]%lookup_delete_Some; auto. Qed.


Lemma in_flight_step limit l s s' :
  key_step l s = Some s' → begun_until limit [l] → in_flight_until limit s → in_flight_until limit s'.
Proof.
  intros Hstep Hl Hs q purpose kid notAfter current Hq.
  destruct l as [p pu k iv material point|p now|p u1 u2|p k reason|p now|p]; cbn in Hstep.
  - destruct (procs s !! p); [done|]. destruct (createPending _ _ _ _ _ _ _); injection Hstep as <-; cbn in Hq.
    + apply lookup_insert_Some in Hq as [[_ ?]|[_ Hq]]; [done|eauto].
    + apply lookup_delete_Some in Hq as [_ Hq]. eauto.
  - destruct (procs s !! p) as [[pu k| |]|]; try done. injection Hstep as <-. cbn in Hq.
    apply lookup_insert_Some in Hq as [[_ Hq]|[_ Hq]]; [|eauto]. injection Hq as _ _ <- _.
    apply (Hl p now). set_solver.
  - destruct (procs s !! p) as [[| |]|]; try done. injection Hstep as <-. apply procs_done_with in Hq as [_ Hq]. eauto.
  - destruct (procs s !! p); [done|]. destruct (revoke_check k (table s)) as [[]|]; injection Hstep as <-; cbn in Hq.
    + apply lookup_insert_Some in Hq as [[_ ?]|[_ Hq]]; [done|eauto].
    + eauto.
    + apply lookup_delete_Some in Hq as [_ Hq]. eauto.
  - destruct (procs s !! p) as [[| |]|]; try done. injection Hstep as <-. apply procs_done_with in Hq as [_ Hq]. eauto.
  - injection Hstep as <-. cbn in Hq. apply lookup_delete_Some in Hq as [_ Hq]. eauto.
Qed.

(** Only an activation moves the end of an overlap, to the one it computed. *)
Lemma usable_step limit l s s' k r :
  key_step l s = Some s' → key_inv s → in_flight_until limit s → table s !! k = Some r → usable_until limit r →
  ∃ r', table s' !! k = Some r' ∧ usable_until limit r'.
Proof.
  intros Hstep Hinv Hfl Hk Hu.
  destruct l as [p pu kid iv material point|p now|p u1 u2|p kid reason|p now|p]; cbn in Hstep.
  - destruct (procs s !! p); [done|]. destruct (createPending _ _ _ _ _ _ _) as [t'|e] eqn:Ec; injection Hstep as <-;
      [|by exists r]. apply createPending_Ok in Ec as (Hn & r0 & -> & _). exists r. cbn.
    by rewrite lookup_insert_ne by congruence.
  - destruct (procs s !! p) as [[| |]|]; try done. injection Hstep as <-. by exists r.
  - destruct (procs s !! p) as [[|purpose kid na current|]|] eqn:Ep; try done. injection Hstep as <-.
    destruct (activate_cases s p purpose kid na u1 u2 current Hinv Ep)
      as [(e & -> & _)|(r0 & t' & Hr0 & _ & _ & -> & Hact & _)]; [by exists r|]. cbn.
    destruct (activated_row _ _ _ _ _ _ _ _ _ _ Hact Hr0 Hk) as [(_ & -> & ->)|[(_ & _ & _ & ->)|(_ & _ & ->)]];
      (eexists; split; [reflexivity|]); [by right; left| |done].
    right; right. split; [done|]. exists na. split; [done|]. eapply Hfl, Ep.
  - destruct (procs s !! p); [done|]. destruct (revoke_check kid (table s)) as [[]|e]; injection Hstep as <-; by exists r.
  - destruct (procs s !! p) as [[| |kid reason]|] eqn:Ep; try done. injection Hstep as <-.
    destruct (ki_revoking _ Hinv _ _ _ Ep) as [r0 Hr0].
    rewrite (revoke_write_ok kid reason now (table s) r0 (ki_ok _ Hinv) Hr0). cbn.
    destruct (decide (k = kid)) as [->|Hne]; [|rewrite lookup_insert_ne by done; by exists r].
    rewrite lookup_insert_eq. eexists. split; [reflexivity|]. by left.
  - injection Hstep as <-. by exists r.
Qed.

Lemma usable_persists limit tr s s' k r :
  key_exec tr s = Some s' → tr ⊆ hist → key_inv s → in_flight_until limit s → begun_until limit tr →
  table s !! k = Some r → usable_until limit r → ∃ r', table s' !! k = Some r' ∧ usable_until limit r'.
Proof.
  revert s r. induction tr as [|l tr IH]; intros s r Hr Hsub Hinv Hfl Hb Hk Hu.
  { injection Hr as <-. by exists r. }
  cbn [key_exec] in Hr. destruct (key_step l s) as [s0|] eqn:E; [|done].
  destruct (usable_step _ _ _ _ _ _ E Hinv Hfl Hk Hu) as (r0 & Hk0 & Hu0).
  eapply (IH s0 r0 Hr); try done; [set_solver|eapply key_inv_step; [exact E|set_solver|done]| |].
  - eapply in_flight_step; [exact E| |done]. intros p now Hp. apply (Hb p now). set_solver.
  - intros p now Hp. apply (Hb p now). set_solver.
Qed.

Lemma usable_until_usable limit r now :
  overlap_ok r → usable_until limit r → ck_state r ≠ revoked → now < limit →
  isKeyUsable (ck_state r) (ck_notAfter r) now = true.
Proof.
  intros [_ Hn] [?|[Ha|(Hr & n & Hna & Hle)]] Hne Hlt; [done| |]; unfold isKeyUsable.
  - by rewrite Ha, Hn by auto.
  - rewrite Hr, Hna. apply Z.ltb_lt. lia.
Qed.

(** *** There is always an active key *)

(** Nobody revokes a key that is still waiting for its activation. *)
Definition orderly (l : key_label) (s : key_state) : bool :=
  match l with
  | RevokeCheck _ kid _ =>
      match table s !! kid with Some r => negb (bool_decide (ck_state r = pending)) | None => true end
  | _ => true
  end.
Fixpoint orderly_exec (tr : list key_label) (s : key_state) : bool :=
  match tr with
  | [] => true
  | l :: tr => orderly l s && match key_step l s with Some s' => orderly_exec tr s' | None => true end
  end.

Definition revoking_inv (s : key_state) : Prop :=
  ∀ p kid reason, procs s !! p = Some (Revoking kid reason) →
    ∃ r, table s !! kid = Some r ∧ (ck_state r = retiring ∨ ck_state r = revoked).

Lemma revoking_inv_step l s s' :
  key_step l s = Some s' → orderly l s = true → key_inv s → revoking_inv s → revoking_inv s'.
Proof.
  intros Hstep Hord Hinv Hrev q kid reason Hq.
  assert (Hold : procs s !! q = Some (Revoking kid reason) →
    ∃ r, table s' !! kid = Some r ∧ (ck_state r = retiring ∨ ck_state r = revoked)).
  { intros Hq0. destruct (Hrev _ _ _ Hq0) as (r & Hr & Hst).
    destruct (step_row _ _ _ _ _ Hstep Hinv Hr) as (r' & Hr' & [_ Hrs] & _). exists r'. split; [done|].
    destruct Hrs as [->|[[? _]|[[_ ?]|?]]]; destruct Hst; auto; congruence. }
  destruct l as [p purpose kid0 iv material point|p now|p u1 u2|p kid0 reason0|p now|p]; cbn in Hstep.
  - destruct (procs s !! p) eqn:Ep; [done|].
    destruct (createPending _ _ _ _ _ _ _) as [t'|e]; injection Hstep as <-; apply Hold; cbn in Hq.
    + by apply lookup_insert_Some in Hq as [[_ ?]|[_ ?]].
    + by apply lookup_delete_Some in Hq as [_ ?].
  - destruct (procs s !! p) as [[| |]|] eqn:Ep; try done. injection Hstep as <-. apply Hold.
    cbn in Hq. by apply lookup_insert_Some in Hq as [[_ ?]|[_ ?]].
  - destruct (procs s !! p) as [[|purpose kid0 now current|]|] eqn:Ep; try done. injection Hstep as <-. apply Hold.
    by apply procs_done_with in Hq as [_ ?].
  - destruct (procs s !! p) eqn:Ep; [done|].
    destruct (revoke_check kid0 (table s)) as [[[]|]|e] eqn:Ec; injection Hstep as <-.
    + cbn in Hq. apply lookup_insert_Some in Hq as [[-> [= -> ->]]|[_ Hq]]; [|by apply Hold].
      apply revoke_check_found in Ec as (r & Hr & Hst). unfold orderly in Hord. rewrite Hr in Hord.
      exists r. cbn. split; [done|]. apply negb_true_iff, bool_decide_eq_false in Hord. destruct Hst; auto; done.
    + by apply Hold.
    + apply Hold. cbn in Hq. by apply lookup_delete_Some in Hq as [_ ?].
  - destruct (procs s !! p) as [[| |kid0 reason0]|] eqn:Ep; try done. injection Hstep as <-. apply Hold.
    by apply procs_done_with in Hq as [_ ?].
  - injection Hstep as <-. apply Hold. cbn in Hq. by apply lookup_delete_Some in Hq as [_ ?].
Qed.

Definition has_active (purpose : Purpose) (t : Table) : Prop :=
  ∃ k r, t !! k = Some r ∧ ck_state r = active_key ∧ ck_purpose r = purpose.

Lemma has_active_step l s s' purpose :
  key_step l s = Some s' → key_inv s → revoking_inv s →
  has_active purpose (table s) → has_active purpose (table s').
Proof.
  intros Hstep Hinv Hrev (k & r & Hk & Hst & Hp).
  destruct (step_row _ _ _ _ _ Hstep Hinv Hk) as (r' & Hk' & [Hpu Hrs] & Hr & Ha).
  destruct Hrs as [->|[[? _]|[[_ Hret]|Hre]]]; [by exists k, r|congruence| |].
  - destruct (Ha Hst Hret) as (k' & r'' & ? & ? & ?). exists k', r''. split_and!; [done|done|congruence].
  - exfalso. destruct (Hr Hre) as [->|(p & reason & now & -> & Hq)]; [congruence|].
    destruct (Hrev _ _ _ Hq) as (r0 & Hr0 & [?|?]); congruence.
Qed.

Lemma orderly_exec_inv tr s s' :
  key_exec tr s = Some s' → tr ⊆ hist → orderly_exec tr s = true → key_inv s → revoking_inv s →
  key_inv s' ∧ revoking_inv s' ∧ ∀ purpose, has_active purpose (table s) → has_active purpose (table s').
Proof.
  revert s. induction tr as [|l tr IH]; intros s Hr Hsub Ho Hinv Hrev; [by injection Hr as <-|].
  cbn [key_exec orderly_exec] in Hr, Ho. apply andb_true_iff in Ho as [Hl Ho].
  destruct (key_step l s) as [s1|] eqn:E; [|done].
  destruct (IH s1 Hr ltac:(set_solver) Ho (key_inv_step _ _ _ E ltac:(set_solver) Hinv)
    (revoking_inv_step _ _ _ E Hl Hinv Hrev)) as (? & ? & Hact).
  split_and!; [done|done|]. intros purpose Ha. by eapply Hact, has_active_step.
Qed.

(** *** Rotation *)

Lemma find_active_unique t kid r :
  one_active t → t !! kid = Some r → ck_state r = active_key → find_active (ck_purpose r) t = Some kid.
Proof.
  intros Hone Hk Hst. destruct (find_active (ck_purpose r) t) as [k|] eqn:E.
  - apply find_active_Some in E as (r' & Hk' & Hst' & Hp'). f_equal. by eapply Hone.
  - exfalso. by eapply find_active_None.
Qed.

Lemma rotate_spec s p purpose kid iv material point now u1 u2 :
  rotate_labels p purpose kid iv material point now u1 u2 ⊆ hist →
  key_inv s → procs s !! p = None → table s !! kid = None →
  ∃ s', key_exec (rotate_labels p purpose kid iv material point now u1 u2) s = Some s' ∧
    errors s' = errors s ∧ procs s' = procs s ∧
    find_active purpose (table s') = Some kid ∧
    (∀ old r, find_active purpose (table s) = Some old → table s !! old = Some r →
       table s' !! old = Some (set_retiring u1 (now + overlap * 1000) r)) ∧
    (∀ k, k ≠ kid → find_active purpose (table s) ≠ Some k → table s' !! k = table s !! k).
Proof.
  intros Hl Hinv Hp Hk.
  destruct (createPending_fresh purpose kid iv material point (table s) Hk) as [t' Ht'].
  unfold rotate_labels. cbn [key_exec key_step]. rewrite Hp.
  destruct (createPending provider purpose kid iv material point (table s)) as [t0|] eqn:Ec; [|done].
  set (s1 := {| table := t0; procs := _; errors := _ |}).
  assert (Hinv1 : key_inv s1) by (by eapply inv_create).
  assert (Hp1 : procs s1 !! p = Some (Created purpose kid)) by apply lookup_insert_eq.
  apply createPending_Ok in Ec as (_ & r & Ht0 & Hpu & Hst & _).
  destruct (activate_spec purpose kid (now + overlap * 1000) u1 u2 t0 r (ki_ok _ Hinv1)) as (t1 & Ha & Hact);
    [subst t0; apply lookup_insert_eq|done|done|].
  pose proof (activate_rows_ok _ _ _ _ _ _ _ Ha (ki_ok _ Hinv1)) as [_ Hone].
  assert (Hr0 : t0 !! kid = Some r) by (subst t0; apply lookup_insert_eq).
  assert (Hfind : find_active purpose t0 = find_active purpose (table s)).
  { destruct (find_active purpose (table s)) as [k|] eqn:E.
    - apply find_active_Some in E as (r' & Hk' & Hst' & <-). apply find_active_unique; [apply Hinv1| |done].
      subst t0. rewrite lookup_insert_ne; [done|congruence].
    - destruct (find_active purpose t0) as [k|] eqn:E0; [|done]. exfalso.
      apply find_active_Some in E0 as (r' & Hk' & Hst' & Hp'). subst t0.
      apply lookup_insert_Some in Hk' as [[_ <-]|[_ Hk']]; [congruence|]. by eapply find_active_None. }
  rewrite Hp1. cbn [procs]. rewrite lookup_insert_eq. unfold s1. cbn [table]. rewrite Ha. cbn [done_with].
  eexists. split; [reflexivity|]. cbn. rewrite Hfind in Hact.
  assert (Hrow : ∀ k r', t0 !! k = Some r' → k ≠ kid → table s !! k = Some r')
    by (intros k r' H0 Hne; subst t0; by rewrite lookup_insert_ne in H0).
  split_and!.
  - done.
  - rewrite insert_insert_eq, delete_insert_id; done.
  - rewrite <- Hpu. change (ck_purpose r) with (ck_purpose (set_active u2 r)).
    apply find_active_unique; [done| |done].
    by destruct (activated_row _ _ _ _ _ _ _ _ _ _ Hact Hr0 Hr0) as [(_ & _ & ->)|[(? & _)|(? & _)]].
  - intros old r0 Hold Hr1. assert (Hr1' : t0 !! old = Some r0) by (subst t0; rewrite lookup_insert_ne; congruence).
    destruct (activated_row _ _ _ _ _ _ _ _ _ _ Hact Hr0 Hr1') as [(-> & _)|[(_ & _ & _ & ->)|(_ & Hne & _)]];
      [congruence|done|done].
  - intros k Hne Hnf. assert (Hkk : t0 !! k = table s !! k) by (subst t0; by rewrite lookup_insert_ne).
    rewrite <- Hkk. destruct (t0 !! k) as [r'|] eqn:E.
    + by destruct (activated_row _ _ _ _ _ _ _ _ _ _ Hact Hr0 E) as [(? & _)|[(_ & ? & _)|(_ & _ & ->)]].
    + unfold activated in Hact. destruct (find_active purpose (table s)) as [k0|]; [|subst t1; by rewrite lookup_insert_ne].
      destruct Hact as (old0 & _ & Hold0 & _ & ->). rewrite !lookup_insert_ne by congruence. done.
Qed.

End invariant.

Lemma reachable_inv tr s : key_exec tr empty_registry = Some s → key_inv tr s.
Proof. intros Hr. eapply key_inv_exec; [exact Hr|done|apply empty_key_inv]. Qed.

(** ** What the commands guarantee *)

(** C18. However operators interleave, abort or lose races, the registry satisfies
    every constraint, holds at most one active key per purpose, never keeps the
    material of a revoked key, and gives every retiring key the end of its overlap:
    an overlap after the clock as the activation that retired it read it before
    its transaction, however long its statements then took. *)
Theorem registry_well_formed tr s kid r :
  key_exec tr empty_registry = Some s → table s !! kid = Some r →
  config_key_ck r = true ∧
  (ck_state r = active_key → ∀ kid' r', table s !! kid' = Some r' → ck_state r' = active_key →
     ck_purpose r' = ck_purpose r → kid' = kid) ∧
  (ck_state r = retiring → ∃ p t0 t1 t2, ActivateRead p t0 ∈ tr ∧ ActivateWrite p t1 t2 ∈ tr ∧
     ck_retiringAt r = Some t1 ∧ ck_notAfter r = Some (t0 + overlap * 1000)) ∧
  (ck_state r = revoked ↔ ck_wrappedKey r = None).
Proof.
  intros Hr Hk. pose proof (reachable_inv _ _ Hr) as Hinv.
  destruct (ki_ok _ _ Hinv) as [Hck Hone]. pose proof (Hck _ _ Hk) as Hc. split_and!; [done| | |].
  - intros Ha kid' r' Hk' Ha' Hp. by eapply Hone.
  - by apply (proj1 (ki_overlap _ _ Hinv kid r Hk)).
  - unfold config_key_ck, material_ck in Hc.
    destruct (ck_state r), (ck_wrappedKey r); rewrite ?andb_false_r in Hc; done.
Qed.

(** C36. Revocation is final: the row is kept, stays revoked and stays without its
    material, whatever is done to the registry afterwards. *)
Theorem revocation_is_final tr1 tr2 s1 s2 kid r :
  key_exec tr1 empty_registry = Some s1 → key_exec tr2 s1 = Some s2 →
  table s1 !! kid = Some r → ck_state r = revoked →
  ∃ r', table s2 !! kid = Some r' ∧ ck_state r' = revoked ∧ ck_wrappedKey r' = None ∧ ck_purpose r' = ck_purpose r.
Proof.
  intros H1 H2 Hk Hst. pose proof (key_inv_exec (tr1 ++ tr2) _ _ _ H1 ltac:(set_solver) (empty_key_inv _)) as Hinv.
  destruct (rows_persist (tr1 ++ tr2) _ _ _ kid r H2 ltac:(set_solver) Hinv Hk) as (r' & Hk' & Hp & _ & Hrev & _).
  specialize (Hrev Hst). exists r'. split_and!; [done|done| |done].
  pose proof (key_inv_exec (tr1 ++ tr2) _ _ _ H2 ltac:(set_solver) Hinv) as Hinv2.
  by apply (material_kept _ _ (proj1 (ki_ok _ _ Hinv2) _ _ Hk') eq_refl).
Qed.

(** C19. Once a purpose has an active key it always has one: no rotation, crash or
    revocation, at any point of any interleaving in which nobody revokes a key
    that still waits to be activated, leaves the deployment unable to issue. *)
Theorem always_an_active_key tr1 tr2 s1 s2 purpose :
  key_exec tr1 empty_registry = Some s1 → orderly_exec tr1 empty_registry = true →
  find_active purpose (table s1) ≠ None →
  key_exec tr2 s1 = Some s2 → orderly_exec tr2 s1 = true →
  find_active purpose (table s2) ≠ None.
Proof.
  intros H1 O1 Ha H2 O2.
  destruct (orderly_exec_inv (tr1 ++ tr2) _ _ _ H1 ltac:(set_solver) O1 (empty_key_inv _) ltac:(done)) as (Hinv & Hrev & _).
  destruct (orderly_exec_inv (tr1 ++ tr2) _ _ _ H2 ltac:(set_solver) O2 Hinv Hrev) as (_ & _ & Hact).
  destruct (find_active purpose (table s1)) as [k|] eqn:Ef; [|done].
  apply find_active_Some in Ef as (r & Hr & Hst & Hp).
  destruct (Hact purpose) as (k' & r' & Hk' & Hst' & Hp'); [by exists k, r|].
  intros Hn. by eapply find_active_None.
Qed.

(** Rotating a purpose, from any state operators can reach, succeeds: the new
    key is the active one, the one it replaces keeps its material and retires
    with the end of the overlap, and every other key is untouched. *)
Theorem rotate_rotates tr s p purpose kid iv material point now t1 t2 :
  key_exec tr empty_registry = Some s → procs s !! p = None → table s !! kid = None →
  ∃ s', key_exec (rotate_labels p purpose kid iv material point now t1 t2) s = Some s' ∧
    errors s' = errors s ∧ procs s' = procs s ∧
    find_active purpose (table s') = Some kid ∧
    (∀ old r, find_active purpose (table s) = Some old → table s !! old = Some r →
       table s' !! old = Some (set_retiring t1 (now + overlap * 1000) r)) ∧
    (∀ k, k ≠ kid → find_active purpose (table s) ≠ Some k → table s' !! k = table s !! k).
Proof.
  intros Hr. apply (rotate_spec (tr ++ rotate_labels p purpose kid iv material point now t1 t2)); [set_solver|].
  eapply key_inv_exec; [exact Hr|set_solver|apply empty_key_inv].
Qed.
End lifecycle.

(** ** What was created loads *)

Section creation_loads.
Context `{AesGcm} `{JoseKeysLaws}.

(** The material is what the generators draw: a private key with its exported
    point, or 32 bytes. *)
Definition drawn (purpose : Purpose) (material : Buffer) (point : gmap string json) : Prop :=
  match purpose with
  | token_signing =>
      ∃ priv, importPKCS8 material = Ok priv ∧ point = pick point_members (exportJWK priv) ∧
        (∀ m, m ∈ point_members → ∃ v, exportJWK priv !! m = Some (JString v)) ∧
        ∀ kid, is_Some (to_option (importVerificationKey
          (<["use" := JString "sig"]> (<["alg" := JString SIGNING_ALG]> (<["kid" := JString kid]> point)))))
  | token_encryption => byteLength material = ENCRYPTION_KEY_BYTES
  end.

Lemma strict_equal_refl j : (∃ s, j = Some (JString s)) → strict_equal j j = true.
Proof. intros [s ->]. apply String.eqb_refl. Qed.

Lemma trusted_own row point :
  (∀ m, m ∈ point_members → ∃ v, point !! m = Some (JString v)) →
  (∀ m, is_Some (point !! m) → m ∈ point_members) →
  kr_publicJwk row = Some (<["use" := JString "sig"]> (<["alg" := JString SIGNING_ALG]>
    (<["kid" := JString (kr_kid row)]> point))) →
  trustedPublicJwk row point = Ok (<["use" := JString "sig"]> (<["alg" := JString SIGNING_ALG]>
    (<["kid" := JString (kr_kid row)]> point))).
Proof.
  intros Hs Hdom Hj. unfold trustedPublicJwk. rewrite Hj.
  set (jwk := <["use" := _]> _).
  assert (Hpt : ∀ m, m ∈ point_members → jwk !! m = point !! m).
  { intros m Hm. unfold jwk. rewrite !lookup_insert_ne; [done|..]; intros <-; unfold point_members in Hm; set_solver. }
  assert (Hsame : sameKeyMaterial point jwk = true).
  { unfold sameKeyMaterial. rewrite !Hpt by (unfold point_members; set_solver).
    rewrite !strict_equal_refl; [done|apply Hs; unfold point_members; set_solver..]. }
  rewrite Hsame.
  replace (jwk !! "kid") with (Some (JString (kr_kid row))) by (unfold jwk; by rewrite !lookup_insert_ne, lookup_insert_eq by done).
  replace (jwk !! "alg") with (Some (JString SIGNING_ALG)) by (unfold jwk; by rewrite lookup_insert_ne, lookup_insert_eq by done).
  replace (jwk !! "use") with (Some (JString "sig")) by (unfold jwk; by rewrite lookup_insert_eq).
  rewrite !strict_equal_refl by eauto.
  assert (Hleak : filter (λ member, jwk !! member ≠ None) PRIVATE_MEMBERS = []).
  { destruct (filter _ PRIVATE_MEMBERS) as [|m l] eqn:E; [done|]. exfalso.
    assert (Hm : m ∈ filter (λ member, jwk !! member ≠ None) PRIVATE_MEMBERS) by (rewrite E; apply list_elem_of_here).
    apply list_elem_of_filter in Hm as [Hne Hm]. apply Hne.
    assert (Hnp : m ∉ point_members) by (unfold PRIVATE_MEMBERS, point_members in *; set_solver).
    unfold jwk. rewrite !lookup_insert_ne by (intros <-; unfold PRIVATE_MEMBERS in Hm; set_solver).
    destruct (point !! m) eqn:Ep; [|done]. exfalso. apply Hnp, Hdom. by rewrite Ep. }
  rewrite Hleak. rewrite andb_false_r. cbn. done.
Qed.

Lemma wrap_is_loaded provider purpose kid iv material point t t' r :
  byteLength iv = IV_BYTES → material ≠ "" →
  createPending provider purpose kid iv material point t = Ok t' → t' !! kid = Some r →
  ck_wrappedKey r = Some (wrap provider iv material {| Keys.purpose := purpose_text purpose; ctx_kid := kid |}) ∧
  ck_kekId r = provider_id provider ∧ ck_purpose r = purpose ∧
  purpose_algorithm_ck r = true ∧
  ck_publicJwk r = match purpose with
    | token_signing => Some (<["use" := JString "sig"]> (<["alg" := JString SIGNING_ALG]>
                         (<["kid" := JString kid]> point)))
    | token_encryption => None end.
Proof.
  intros Hiv Hne Hc Hr. rewrite createPending_row in Hc; unfold insert_row in Hc. destruct (t !! kid); [done|].
  apply write_row_Ok in Hc as (_ & _ & ->). rewrite lookup_insert_eq in Hr. injection Hr as <-.
  by destruct purpose.
Qed.

(** What [createPending] stores, [loadStoredKey] loads: the row it wrote is
    accepted by every check of the loader under the same key-encrypting key, and
    yields the key that was drawn. *)
Theorem created_key_loads provider purpose kid iv material point t t' r :
  byteLength iv = IV_BYTES → material ≠ "" → drawn purpose material point →
  createPending provider purpose kid iv material point t = Ok t' → t' !! kid = Some r →
  match purpose with
  | token_signing => ∃ priv jwk, importPKCS8 material = Ok priv ∧ published kid priv jwk ∧
      loadStoredKey provider (stored_row kid r) = Ok (LoadedSigningKey kid priv (publicOf priv) jwk)
  | token_encryption => loadStoredKey provider (stored_row kid r) = Ok (LoadedEncryptionKey kid material)
  end.
Proof.
  intros Hiv Hne Hd Hc Hr.
  destruct (wrap_is_loaded _ _ _ _ _ _ _ _ _ Hiv Hne Hc Hr) as (Hw & Hkek & Hp & Ha & Hj).
  unfold purpose_algorithm_ck in Ha. rewrite Hp in Ha. unfold loadStoredKey, stored_row. cbn.
  rewrite Hw, Hkek, String.eqb_refl, Hp. destruct purpose; cbn -[unwrap wrap].
  - destruct (ck_algorithm r); [|done]. cbn -[unwrap wrap].
    rewrite unwrap_wrap by done. destruct Hd as (priv & Hi & -> & Hs & Himp). cbn. unfold derivePublicJwk.
    rewrite Hi. cbn. rewrite trusted_own.
    + cbn. unfold importSigningKey. rewrite Hi. cbn. destruct (Himp kid) as [pub Hpub].
      destruct (importVerificationKey _) as [pub'|] eqn:Ev; [|done]. cbn.
      exists priv. eexists. split_and!; [done|apply (trusted_published (stored_row kid r))|].
      assert (pub' = publicOf priv) as ->; [|done].
      unfold importVerificationKey in Ev. rewrite mbind_rbind in Ev. apply rbind_Ok_inv in Ev as (key & Hkey & Ev).
      destruct key as [key|]; [|done]. injection Ev as <-. eapply import_point; [|exact Hkey].
      exact (proj1 (trusted_published (stored_row kid r) priv)).
    + intros m Hm. rewrite pick_lookup, decide_True by done. by apply Hs.
    + intros m [v Hv]. rewrite pick_lookup in Hv. by case_decide.
    + by cbn.
  - destruct (ck_algorithm r); [done|]. cbn -[unwrap wrap]. rewrite unwrap_wrap by done. cbn.
    cbn in Hd. by rewrite Hd.
Qed.
End creation_loads.

(** ** The hypotheses can hold *)

Module KeyStoreSample.
Import KeysSample.

Definition point_of (pkcs8 : string) : gmap string json := pick point_members (exportJWK (JoseKeys := toy_jose) pkcs8).
Definition new_key (p : nat) (kid : string) : key_label :=
  CreateKey p token_signing kid iv kid (point_of kid).
Abbreviation run := (key_exec provider 905).
Definition state_of (tr : list key_label) : key_state := default empty_registry (run tr empty_registry).

(** Two operators rotate at once; the replaced key is then revoked. *)
Definition rotations : list key_label :=
  [new_key 1 "k1"; ActivateRead 1 1000; ActivateWrite 1 1003 1004; new_key 1 "k2"; new_key 2 "k3"; ActivateRead 2 5000; ActivateWrite 2 5007 5009; ActivateRead 1 6000; ActivateWrite 1 6002 6002].
Definition revoked_k1 : list key_label := [RevokeCheck 1 "k1" "leaked"; RevokeWrite 1 9000].

Lemma registry_well_formed_witness :
  ck_state <$> table (state_of rotations) !! "k3" = Some retiring ∧
  ∀ r, table (state_of rotations) !! "k3" = Some r →
    ck_state r = retiring → ∃ p t0 t1 t2, ActivateRead p t0 ∈ rotations ∧ ActivateWrite p t1 t2 ∈ rotations ∧
      ck_retiringAt r = Some t1 ∧ ck_notAfter r = Some (t0 + 905 * 1000).
Proof.
  split; [vm_compute; reflexivity|]. intros r Hr.
  assert (He : run rotations empty_registry = Some (state_of rotations)) by (vm_compute; reflexivity).
  destruct (registry_well_formed provider 905 rotations (state_of rotations) "k3" r He Hr) as (_ & _ & Hov & _).
  exact Hov.
Defined.

(** An activation that read the active key before another one went through is
    refused by the one-active index, and retires nothing. *)
Definition lost_race : list key_label :=
  [new_key 1 "k1"; ActivateRead 1 1000; ActivateWrite 1 1003 1004; new_key 1 "k2"; new_key 2 "k3";
   ActivateRead 1 5000; ActivateRead 2 5100; ActivateWrite 2 5103 5104; ActivateWrite 1 5200 5201].
Example lost_race_changes_nothing :
  errors (state_of lost_race) = [EPrismaKnown "P2002"] ∧
  table (state_of lost_race) = table (state_of (take 8 lost_race)) ∧
  find_active token_signing (table (state_of lost_race)) = Some "k3".
Proof. vm_compute. split_and!; reflexivity. Qed.

Definition later : list key_label := [new_key 1 "k4"; ActivateRead 1 9500; ActivateWrite 1 9501 9502].
Lemma revocation_is_final_witness :
  ck_state <$> table (state_of (rotations ++ revoked_k1)) !! "k1" = Some revoked ∧
  ∀ r, table (state_of (rotations ++ revoked_k1)) !! "k1" = Some r → ck_state r = revoked →
  ∃ r', table (state_of (rotations ++ revoked_k1 ++ later)) !! "k1" = Some r' ∧
    ck_state r' = revoked ∧ ck_wrappedKey r' = None ∧ ck_purpose r' = ck_purpose r.
Proof.
  split; [vm_compute; reflexivity|]. intros r Hr Hst.
  apply (revocation_is_final provider 905 (rotations ++ revoked_k1) later
    (state_of (rotations ++ revoked_k1)) (state_of (rotations ++ revoked_k1 ++ later)) "k1").
  - vm_compute. reflexivity.
  - vm_compute. reflexivity.
  - exact Hr.
  - exact Hst.
Defined.

Lemma always_an_active_key_witness :
  find_active token_signing (table (state_of (rotations ++ revoked_k1))) ≠ None.
Proof.
  apply (always_an_active_key provider 905 (take 3 rotations) (drop 3 rotations ++ revoked_k1)
    (state_of (take 3 rotations))); try (vm_compute; reflexivity). vm_compute. discriminate.
Defined.

Lemma rotate_rotates_witness :
  ∃ s', run (rotate_labels 1 token_signing "k4" iv "k4" (point_of "k4") 8000 8003 8004) (state_of rotations) = Some s' ∧
    find_active token_signing (table s') = Some "k4".
Proof.
  destruct (rotate_rotates provider 905 rotations (state_of rotations) 1 token_signing "k4" iv "k4" (point_of "k4") 8000 8003 8004)
    as (s' & Hr & _ & _ & Hf & _).
  - vm_compute. reflexivity.
  - vm_compute. reflexivity.
  - vm_compute. reflexivity.
  - exists s'. split; [exact Hr|exact Hf].
Defined.

Definition with_k1 : gmap string ConfigKey :=
  default ∅ (to_option (createPending provider token_signing "k1" iv "k1" (point_of "k1") ∅)).
Lemma created_key_loads_witness :
  is_Some (with_k1 !! "k1") ∧
  ∀ r, with_k1 !! "k1" = Some r →
    ∃ priv jwk, importPKCS8 "k1" = Ok priv ∧ published "k1" priv jwk ∧
      loadStoredKey provider (stored_row "k1" r) = Ok (LoadedSigningKey "k1" priv (publicOf priv) jwk).
Proof.
  split; [vm_compute; eauto|]. intros r Hr.
  apply (created_key_loads provider token_signing "k1" iv "k1" (point_of "k1") ∅ with_k1 r).
  - reflexivity.
  - discriminate.
  - exists ("k1" : @PrivKey toy_jose). split; [reflexivity|]. split; [reflexivity|]. split.
    + intros m Hm. repeat (apply elem_of_cons in Hm as [->|Hm]; [vm_compute; eauto|]). by apply not_elem_of_nil in Hm.
    + intros kid. cbn. eauto.
  - vm_compute. reflexivity.
  - exact Hr.
Defined.

(** The check of a revocation and its update are two statements. If the key is
    activated between them, the update revokes the active key, and the deployment
    has none. *)
Definition race : list key_label :=
  [new_key 1 "k1"; ActivateRead 1 1000; ActivateWrite 1 1003 1004; new_key 1 "k2"; RevokeCheck 2 "k2" "made by mistake";
   ActivateRead 1 5000; ActivateWrite 1 5002 5003; RevokeWrite 2 5004].
Example revoking_a_pending_key_can_lose_the_active_one :
  is_Some (run race empty_registry) ∧ find_active token_signing (table (state_of race)) = None ∧
  errors (state_of race) = [] ∧ orderly_exec provider 905 race empty_registry = false.
Proof. vm_compute. split_and!; try reflexivity. eauto. Qed.
End KeyStoreSample.
