(* ===== verification/KeyRegistry.v ===== *)
(** The running service's view of the keys, and its tokens:
    services/auth/src/keys/key-registry.service.ts and auth/token.service.ts.

    A snapshot is loaded from the registry's rows, replaced as a whole by each
    refresh, and read synchronously by the codec's resolvers. Times are
    milliseconds here, and jose's seconds are their quotient by 1000. *)
From S2P Require Import Prelude Domain AuditHash Keys Tokens KeyStore.
#[local] Open Scope Z_scope.

(** ** A JavaScript Map with string keys, in insertion order *)

Abbreviation JsMap A := (list (string * A)) (only parsing).

Fixpoint map_set {A} (k : string) (v : A) (m : JsMap A) : JsMap A :=
  match m with
  | [] => [(k, v)]
  | (k', v') :: m => if String.eqb k' k then (k, v) :: m else (k', v') :: map_set k v m
  end.
Definition map_get {A} (k : string) (m : JsMap A) : option A :=
  snd <$> List.find (λ kv, String.eqb kv.1 k) m.

Lemma map_get_set {A} k k' (v : A) m :
  map_get k' (map_set k v m) = if String.eqb k k' then Some v else map_get k' m.
Proof.
  unfold map_get. induction m as [|[k0 v0] m IH]; simpl; [by destruct (String.eqb k k')|].
  destruct (String.eqb_spec k0 k) as [->|Hne]; simpl.
  - by destruct (String.eqb k k').
  - destruct (String.eqb_spec k0 k') as [->|]; [|done].
    destruct (String.eqb_spec k k') as [->|]; done.
Qed.

Lemma map_set_elem {A} k (v : A) m kv : kv ∈ map_set k v m → kv = (k, v) ∨ kv ∈ m.
Proof.
  induction m as [|[k0 v0] m IH]; simpl; [intros ->%list_elem_of_singleton; by left|].
  destruct (String.eqb k0 k); intros [->|Hin]%elem_of_cons; rewrite ?elem_of_cons; auto.
  destruct (IH Hin); auto.
Qed.

(** ** The snapshot *)

Definition REFRESH_COOLDOWN_MS : Z := 30000.
Definition REFRESH_INTERVAL_MS : Z := 60000.

Section registry.
Context `{AesGcm} `{JoseTokens}.

Record SigningEntry := {
  se_privateKey : PrivKey; se_publicKey : PubKey; se_publicJwk : gmap string json;
  se_state : KeyState; se_notAfter : option Z;
}.
Record EncryptionEntry := { ee_secret : Buffer; ee_state : KeyState; ee_notAfter : option Z }.

Record Snapshot := {
  sn_signing : JsMap SigningEntry;
  sn_encryption : JsMap EncryptionEntry;
  activeSigningKid : option string;
  activeEncryptionKid : option string;
}.

Definition EMPTY : Snapshot :=
  {| sn_signing := []; sn_encryption := []; activeSigningKid := None; activeEncryptionKid := None |}.

(** [add]: the key under its kid, with the state its row carries. *)
Definition add_key (key : LoadedKey) (r : ConfigKey) (next : Snapshot) : Snapshot :=
  let is_active := bool_decide (ck_state r = active_key) in
  match key with
  | LoadedSigningKey kid priv pub jwk =>
      {| sn_signing := map_set kid {| se_privateKey := priv; se_publicKey := pub; se_publicJwk := jwk;
                                      se_state := ck_state r; se_notAfter := ck_notAfter r |} (sn_signing next);
         sn_encryption := sn_encryption next;
         activeSigningKid := if is_active then Some kid else activeSigningKid next;
         activeEncryptionKid := activeEncryptionKid next |}
  | LoadedEncryptionKey kid secret =>
      {| sn_signing := sn_signing next;
         sn_encryption := map_set kid {| ee_secret := secret; ee_state := ck_state r;
                                         ee_notAfter := ck_notAfter r |} (sn_encryption next);
         activeSigningKid := activeSigningKid next;
         activeEncryptionKid := if is_active then Some kid else activeEncryptionKid next |}
  end.

(** The loop of [refresh]: a row that does not load costs that key only. *)
Definition load_row (provider : KeyProvider) (next : Snapshot) (row : string * ConfigKey) : Snapshot :=
  match ck_wrappedKey row.2 with
  | None => next
  | Some _ =>
      match loadStoredKey provider (stored_row row.1 row.2) with
      | Ok key => add_key key row.2 next
      | Throw _ => next
      end
  end.
Definition load_rows (provider : KeyProvider) (rows : list (string * ConfigKey)) : Snapshot :=
  fold_left (load_row provider) rows EMPTY.

(** [findMany({ where: { state: { in: ["active", "retiring"] } } })] *)
Definition usable_states (kv : string * ConfigKey) : Prop :=
  ck_state kv.2 = active_key ∨ ck_state kv.2 = retiring.
#[global] Instance usable_states_dec kv : Decision (usable_states kv).
Proof. unfold usable_states. apply _. Defined.
Definition findMany (t : gmap string ConfigKey) : list (string * ConfigKey) :=
  filter usable_states (map_to_list t).

(** [resolvers()], at the moment jose calls them. *)
Definition resolvers (s : Snapshot) (now : Z) : TokenResolvers :=
  {| resolve_signing := λ kid,
       match map_get kid (sn_signing s) with
       | Some e => if isKeyUsable (se_state e) (se_notAfter e) now then Some (se_publicKey e) else None
       | None => None
       end;
     resolve_encryption := λ kid,
       match map_get kid (sn_encryption s) with
       | Some e => if isKeyUsable (ee_state e) (ee_notAfter e) now then Some (ee_secret e) else None
       | None => None
       end |}.

Definition activeMaterial (s : Snapshot) : M TokenMaterial :=
  match activeSigningKid s, activeEncryptionKid s with
  | None, _ => Throw (ENoActiveKey "token_signing")
  | Some _, None => Throw (ENoActiveKey "token_encryption")
  | Some sk, Some ek =>
      match map_get sk (sn_signing s), map_get ek (sn_encryption s) with
      | None, _ => Throw (ENoActiveKey "token_signing")
      | Some _, None => Throw (ENoActiveKey "token_encryption")
      | Some se, Some ee =>
          Ok {| signing := {| signing_kid := sk; signing_key := se_privateKey se |};
                encryption := {| encryption_kid := ek; encryption_key := ee_secret ee |} |}
      end
  end.

(** [jwks()], through [toJwks]. *)
Definition toJwks (keys : list (gmap string json)) : list (gmap string json) := keys.
Definition jwks (s : Snapshot) (now : Z) : list (gmap string json) :=
  toJwks (se_publicJwk <$>
    filter (λ e, isKeyUsable (se_state e) (se_notAfter e) now = true)
      (filter (λ e, se_state e = active_key ∨ se_state e = retiring) (snd <$> sn_signing s))).

(** ** What a snapshot holds *)

(** The entry a row gives, if it gives one. *)
Definition signing_of (provider : KeyProvider) (kid : string) (r : ConfigKey) : option SigningEntry :=
  match loadStoredKey provider (stored_row kid r) with
  | Ok (LoadedSigningKey _ priv pub jwk) =>
      Some {| se_privateKey := priv; se_publicKey := pub; se_publicJwk := jwk;
              se_state := ck_state r; se_notAfter := ck_notAfter r |}
  | _ => None
  end.
Definition encryption_of (provider : KeyProvider) (kid : string) (r : ConfigKey) : option EncryptionEntry :=
  match loadStoredKey provider (stored_row kid r) with
  | Ok (LoadedEncryptionKey _ secret) =>
      Some {| ee_secret := secret; ee_state := ck_state r; ee_notAfter := ck_notAfter r |}
  | _ => None
  end.

Lemma load_rows_snoc provider rows row :
  load_rows provider (rows ++ [row]) = load_row provider (load_rows provider rows) row.
Proof. unfold load_rows. by rewrite fold_left_app. Qed.

Lemma loadStoredKey_slot provider row k : loadStoredKey provider row = Ok k →
  match k with
  | LoadedSigningKey kid _ _ _ => kid = kr_kid row ∧ kr_purpose row = "token_signing"
  | LoadedEncryptionKey kid _ => kid = kr_kid row ∧ kr_purpose row = "token_encryption"
  end.
Proof.
  unfold loadStoredKey. destruct (kr_wrappedKey row); [|done]. intros Hk.
  destruct (String.eqb_spec (kr_purpose row) "token_signing"); [by invert_ok|].
  destruct (String.eqb_spec (kr_purpose row) "token_encryption"); by invert_ok.
Qed.
Lemma loadStoredKey_kid provider row k : loadStoredKey provider row = Ok k →
  match k with LoadedSigningKey kid _ _ _ | LoadedEncryptionKey kid _ => kid end = kr_kid row.
Proof. intros Hk%loadStoredKey_slot. by destruct k; destruct Hk. Qed.

(** What one row changes: its own kid, in the table of its purpose. *)
Lemma load_row_get provider next kid r k :
  map_get k (sn_signing (load_row provider next (kid, r))) =
    (if String.eqb kid k then match signing_of provider kid r with
                              | Some e => Some e | None => map_get k (sn_signing next) end
     else map_get k (sn_signing next)) ∧
  map_get k (sn_encryption (load_row provider next (kid, r))) =
    (if String.eqb kid k then match encryption_of provider kid r with
                              | Some e => Some e | None => map_get k (sn_encryption next) end
     else map_get k (sn_encryption next)).
Proof.
  unfold load_row, signing_of, encryption_of. cbn [fst snd].
  assert (Hskip : ck_wrappedKey r = None → ∃ e, loadStoredKey provider (stored_row kid r) = Throw e).
  { intros Hw. unfold loadStoredKey, stored_row. cbn. rewrite Hw. eauto. }
  destruct (ck_wrappedKey r); [|destruct (Hskip eq_refl) as [e ->]; by destruct (String.eqb kid k)].
  destruct (loadStoredKey provider (stored_row kid r)) as [[kid' priv pub jwk|kid' secret]|e] eqn:E;
    try (apply loadStoredKey_kid in E; cbn in E; subst kid');
    cbn [add_key sn_signing sn_encryption]; rewrite ?map_get_set; by destruct (String.eqb kid k).
Qed.

Lemma load_rows_get provider rows kid :
  NoDup (fst <$> rows) →
  (∀ r, (kid, r) ∈ rows →
     map_get kid (sn_signing (load_rows provider rows)) = signing_of provider kid r ∧
     map_get kid (sn_encryption (load_rows provider rows)) = encryption_of provider kid r) ∧
  (kid ∉ fst <$> rows →
     map_get kid (sn_signing (load_rows provider rows)) = None ∧
     map_get kid (sn_encryption (load_rows provider rows)) = None).
Proof.
  induction rows as [|[k0 r0] rows IH] using rev_ind; intros Hnd.
  { split; [intros r Hin; by apply not_elem_of_nil in Hin|done]. }
  rewrite fmap_app in Hnd. apply NoDup_app in Hnd as (Hnd & Hdisj & _).
  assert (Hk0 : k0 ∉ fst <$> rows) by (intros Hin; apply (Hdisj _ Hin); cbn; by apply list_elem_of_singleton).
  destruct (IH Hnd) as [IH1 IH2]. rewrite load_rows_snoc.
  destruct (load_row_get provider (load_rows provider rows) k0 r0 kid) as [-> ->]. split.
  - intros r [Hin|Hin]%elem_of_app.
    + destruct (String.eqb_spec k0 kid) as [->|]; [|by apply IH1].
      exfalso. apply Hk0. by apply (list_elem_of_fmap_2 fst) in Hin.
    + apply list_elem_of_singleton in Hin. injection Hin as -> ->. rewrite String.eqb_refl.
      destruct (IH2 Hk0) as [-> ->]. by destruct (signing_of _ _ _), (encryption_of _ _ _).
  - rewrite fmap_app, not_elem_of_app. intros [Hni Hne]. destruct (String.eqb_spec k0 kid) as [->|]; [|by apply IH2].
    exfalso. apply Hne. cbn. by apply list_elem_of_singleton.
Qed.

Lemma findMany_NoDup t : NoDup (fst <$> findMany t).
Proof.
  unfold findMany. eapply sublist_NoDup; [apply (NoDup_fst_map_to_list t)|].
  apply fmap_sublist, sublist_filter.
Qed.

Lemma elem_of_findMany t kid r : (kid, r) ∈ findMany t ↔ t !! kid = Some r ∧ usable_states (kid, r).
Proof. unfold findMany. rewrite list_elem_of_filter, elem_of_map_to_list. naive_solver. Qed.

(** A snapshot of a table, by kid. *)
Lemma snapshot_get provider t kid :
  map_get kid (sn_signing (load_rows provider (findMany t)))
    = (r ← t !! kid; if decide (usable_states (kid, r)) then signing_of provider kid r else None) ∧
  map_get kid (sn_encryption (load_rows provider (findMany t)))
    = (r ← t !! kid; if decide (usable_states (kid, r)) then encryption_of provider kid r else None).
Proof.
  destruct (load_rows_get provider (findMany t) kid (findMany_NoDup t)) as [Hg1 Hg2].
  assert (Hno : (∀ r, (kid, r) ∉ findMany t) →
    map_get kid (sn_signing (load_rows provider (findMany t))) = None ∧
    map_get kid (sn_encryption (load_rows provider (findMany t))) = None).
  { intros Hn. apply Hg2. intros ([k r] & -> & Hin)%list_elem_of_fmap. by apply (Hn r). }
  destruct (t !! kid) as [r|] eqn:Er; cbn.
  - case_decide as Hu; [apply Hg1, elem_of_findMany; by split|].
    apply Hno. intros r' [? ?]%elem_of_findMany. by simplify_eq.
  - apply Hno. intros r' [? _]%elem_of_findMany. congruence.
Qed.

(** *** The active keys *)

Definition loads_signing (provider : KeyProvider) (kid : string) (r : ConfigKey) (priv : PrivKey) (pub : PubKey)
    (jwk : gmap string json) : Prop :=
  loadStoredKey provider (stored_row kid r) = Ok (LoadedSigningKey kid priv pub jwk).
Definition loads_encryption (provider : KeyProvider) (kid : string) (r : ConfigKey) (secret : Buffer) : Prop :=
  loadStoredKey provider (stored_row kid r) = Ok (LoadedEncryptionKey kid secret).

Lemma signing_of_Some provider kid r e : signing_of provider kid r = Some e →
  loads_signing provider kid r (se_privateKey e) (se_publicKey e) (se_publicJwk e) ∧
  se_state e = ck_state r ∧ se_notAfter e = ck_notAfter r.
Proof.
  unfold signing_of, loads_signing. destruct (loadStoredKey _ _) as [[k priv pub jwk|]|] eqn:E; try done.
  intros [= <-]. cbn. apply loadStoredKey_kid in E. cbn in E. by subst k.
Qed.
Lemma encryption_of_Some provider kid r e : encryption_of provider kid r = Some e →
  loads_encryption provider kid r (ee_secret e) ∧ ee_state e = ck_state r ∧ ee_notAfter e = ck_notAfter r.
Proof.
  unfold encryption_of, loads_encryption. destruct (loadStoredKey _ _) as [[|k secret]|] eqn:E; try done.
  intros [= <-]. cbn. apply loadStoredKey_kid in E. cbn in E. by subst k.
Qed.

(** The active kids of a snapshot, row by row: the last active row that loads. *)
Lemma load_row_active provider next kid r :
  activeSigningKid (load_row provider next (kid, r)) =
    (if bool_decide (ck_state r = active_key ∧ is_Some (signing_of provider kid r))
     then Some kid else activeSigningKid next) ∧
  activeEncryptionKid (load_row provider next (kid, r)) =
    (if bool_decide (ck_state r = active_key ∧ is_Some (encryption_of provider kid r))
     then Some kid else activeEncryptionKid next).
Proof.
  unfold load_row, signing_of, encryption_of. cbn [fst snd].
  assert (Hskip : ck_wrappedKey r = None → ∃ e, loadStoredKey provider (stored_row kid r) = Throw e).
  { intros Hw. unfold loadStoredKey, stored_row. cbn. rewrite Hw. eauto. }
  assert (Hno : ∀ A, bool_decide (ck_state r = active_key ∧ is_Some (@None A)) = false).
  { intros A. apply bool_decide_eq_false. intros [_ [? ?]]. done. }
  destruct (ck_wrappedKey r); [|destruct (Hskip eq_refl) as [e ->]; cbn; by rewrite !Hno].
  destruct (loadStoredKey provider (stored_row kid r)) as [[kid' priv pub jwk|kid' secret]|e] eqn:E;
    [apply loadStoredKey_kid in E; cbn in E; subst kid'..|cbn; by rewrite !Hno];
    cbn [add_key activeSigningKid activeEncryptionKid]; rewrite Hno; split; try done;
    destruct (decide (ck_state r = active_key)) as [Ha|Ha];
    rewrite ?(bool_decide_eq_true_2 _ Ha), ?(bool_decide_eq_false_2 _ Ha);
    (rewrite bool_decide_eq_true_2 by (split; [done|by eexists])) || (rewrite bool_decide_eq_false_2 by naive_solver);
    done.
Qed.

Lemma active_signing_elem provider rows kid :
  activeSigningKid (load_rows provider rows) = Some kid →
  ∃ r, (kid, r) ∈ rows ∧ ck_state r = active_key ∧ is_Some (signing_of provider kid r).
Proof.
  induction rows as [|[k0 r0] rows IH] using rev_ind; [done|]. rewrite load_rows_snoc.
  rewrite (proj1 (load_row_active _ _ _ _)). case_bool_decide as Hb.
  - intros [= <-]. exists r0. split; [|done]. apply elem_of_app. right. by apply list_elem_of_singleton.
  - intros (r & Hin & ?)%IH. exists r. split; [apply elem_of_app; by left|done].
Qed.
Lemma active_encryption_elem provider rows kid :
  activeEncryptionKid (load_rows provider rows) = Some kid →
  ∃ r, (kid, r) ∈ rows ∧ ck_state r = active_key ∧ is_Some (encryption_of provider kid r).
Proof.
  induction rows as [|[k0 r0] rows IH] using rev_ind; [done|]. rewrite load_rows_snoc.
  rewrite (proj2 (load_row_active _ _ _ _)). case_bool_decide as Hb.
  - intros [= <-]. exists r0. split; [|done]. apply elem_of_app. right. by apply list_elem_of_singleton.
  - intros (r & Hin & ?)%IH. exists r. split; [apply elem_of_app; by left|done].
Qed.

Lemma active_signing_some provider rows kid r :
  (kid, r) ∈ rows → ck_state r = active_key → is_Some (signing_of provider kid r) →
  is_Some (activeSigningKid (load_rows provider rows)).
Proof.
  induction rows as [|[k0 r0] rows IH] using rev_ind; [by intros ?%not_elem_of_nil|].
  intros Hin Ha Hs. rewrite load_rows_snoc, (proj1 (load_row_active _ _ _ _)). case_bool_decide as Hb; [done|].
  apply IH; [|done|done]. apply elem_of_app in Hin as [?|Hin]; [done|]. apply list_elem_of_singleton in Hin.
  exfalso. apply Hb. by simplify_eq.
Qed.
Lemma active_encryption_some provider rows kid r :
  (kid, r) ∈ rows → ck_state r = active_key → is_Some (encryption_of provider kid r) →
  is_Some (activeEncryptionKid (load_rows provider rows)).
Proof.
  induction rows as [|[k0 r0] rows IH] using rev_ind; [by intros ?%not_elem_of_nil|].
  intros Hin Ha Hs. rewrite load_rows_snoc, (proj2 (load_row_active _ _ _ _)). case_bool_decide as Hb; [done|].
  apply IH; [|done|done]. apply elem_of_app in Hin as [?|Hin]; [done|]. apply list_elem_of_singleton in Hin.
  exfalso. apply Hb. by simplify_eq.
Qed.

Lemma signing_purpose provider kid r : is_Some (signing_of provider kid r) → ck_purpose r = token_signing.
Proof.
  intros [e He%signing_of_Some]. destruct He as [Hl%loadStoredKey_slot _]. cbn in Hl.
  destruct Hl as [_ Hp]. by destruct (ck_purpose r).
Qed.
Lemma encryption_purpose provider kid r : is_Some (encryption_of provider kid r) → ck_purpose r = token_encryption.
Proof.
  intros [e He%encryption_of_Some]. destruct He as [Hl%loadStoredKey_slot _]. cbn in Hl.
  destruct Hl as [_ Hp]. by destruct (ck_purpose r).
Qed.

(** [kid] is the active key of its purpose, and it loads. *)
Definition active_signing (provider : KeyProvider) (t : gmap string ConfigKey) (kid : string) (priv : PrivKey) : Prop :=
  ∃ r pub jwk, t !! kid = Some r ∧ ck_state r = active_key ∧ loads_signing provider kid r priv pub jwk.
Definition active_encryption (provider : KeyProvider) (t : gmap string ConfigKey) (kid : string) (secret : Buffer) : Prop :=
  ∃ r, t !! kid = Some r ∧ ck_state r = active_key ∧ loads_encryption provider kid r secret.

Lemma loads_signing_of provider kid r priv pub jwk : loads_signing provider kid r priv pub jwk →
  signing_of provider kid r = Some {| se_privateKey := priv; se_publicKey := pub; se_publicJwk := jwk;
    se_state := ck_state r; se_notAfter := ck_notAfter r |}.
Proof. unfold loads_signing, signing_of. by intros ->. Qed.
Lemma loads_encryption_of provider kid r secret : loads_encryption provider kid r secret →
  encryption_of provider kid r = Some {| ee_secret := secret; ee_state := ck_state r; ee_notAfter := ck_notAfter r |}.
Proof. unfold loads_encryption, encryption_of. by intros ->. Qed.

Lemma active_signing_kid provider t kid priv :
  rows_ok t → active_signing provider t kid priv →
  activeSigningKid (load_rows provider (findMany t)) = Some kid ∧
  ∃ e, map_get kid (sn_signing (load_rows provider (findMany t))) = Some e ∧ se_privateKey e = priv.
Proof.
  intros [_ Hone] (r & pub & jwk & Hr & Ha & Hl). pose proof (loads_signing_of _ _ _ _ _ _ Hl) as He.
  assert (Hin : (kid, r) ∈ findMany t) by (apply elem_of_findMany; split; [done|by left]).
  destruct (active_signing_some provider _ kid r Hin Ha ltac:(by eexists)) as [k Hk].
  destruct (active_signing_elem _ _ _ Hk) as (r' & [Hr' _]%elem_of_findMany & Ha' & Hs').
  assert (k = kid) as ->.
  { eapply Hone; eauto. rewrite (signing_purpose provider k r' Hs').
    symmetry. apply (signing_purpose provider kid). by eexists. }
  split; [done|]. eexists. rewrite (proj1 (snapshot_get provider t kid)), Hr. cbn.
  rewrite decide_True by (by left). rewrite He. by split.
Qed.
Lemma active_encryption_kid provider t kid secret :
  rows_ok t → active_encryption provider t kid secret →
  activeEncryptionKid (load_rows provider (findMany t)) = Some kid ∧
  ∃ e, map_get kid (sn_encryption (load_rows provider (findMany t))) = Some e ∧ ee_secret e = secret.
Proof.
  intros [_ Hone] (r & Hr & Ha & Hl). pose proof (loads_encryption_of _ _ _ _ Hl) as He.
  assert (Hin : (kid, r) ∈ findMany t) by (apply elem_of_findMany; split; [done|by left]).
  destruct (active_encryption_some provider _ kid r Hin Ha ltac:(by eexists)) as [k Hk].
  destruct (active_encryption_elem _ _ _ Hk) as (r' & [Hr' _]%elem_of_findMany & Ha' & Hs').
  assert (k = kid) as ->.
  { eapply Hone; eauto. rewrite (encryption_purpose provider k r' Hs').
    symmetry. apply (encryption_purpose provider kid). by eexists. }
  split; [done|]. eexists. rewrite (proj2 (snapshot_get provider t kid)), Hr. cbn.
  rewrite decide_True by (by left). rewrite He. by split.
Qed.

(** A snapshot's material is the registry's active key of each purpose. *)
Lemma activeMaterial_Ok provider t m :
  rows_ok t → activeMaterial (load_rows provider (findMany t)) = Ok m ↔
  active_signing provider t (signing_kid (signing m)) (signing_key (signing m)) ∧
  active_encryption provider t (encryption_kid (encryption m)) (encryption_key (encryption m)).
Proof.
  intros Hok. set (s := load_rows provider (findMany t)). split.
  - unfold activeMaterial. destruct (activeSigningKid s) as [sk|] eqn:Es; [|done].
    destruct (activeEncryptionKid s) as [ek|] eqn:Ee; [|done].
    destruct (active_signing_elem _ _ _ Es) as (r1 & [Hr1 Hu1]%elem_of_findMany & Ha1 & [e1 He1]).
    destruct (active_encryption_elem _ _ _ Ee) as (r2 & [Hr2 Hu2]%elem_of_findMany & Ha2 & [e2 He2]).
    unfold s. rewrite (proj1 (snapshot_get provider t sk)), (proj2 (snapshot_get provider t ek)), Hr1, Hr2. cbn.
    rewrite !decide_True, He1, He2 by done. intros [= <-]. cbn.
    apply signing_of_Some in He1 as [Hl1 _]. apply encryption_of_Some in He2 as [Hl2 _]. split.
    + by exists r1, (se_publicKey e1), (se_publicJwk e1).
    + by exists r2.
  - intros [Hs He]. destruct (active_signing_kid _ _ _ _ Hok Hs) as [Hsk (e1 & Hg1 & Hp1)].
    destruct (active_encryption_kid _ _ _ _ Hok He) as [Hek (e2 & Hg2 & Hp2)].
    unfold activeMaterial, s. rewrite Hsk, Hek, Hg1, Hg2, Hp1, Hp2.
    by destruct m as [[] []].
Qed.

(** *** The claims *)

Lemma isKeyUsable_states kid r now :
  isKeyUsable (ck_state r) (ck_notAfter r) now = true → usable_states (kid, r).
Proof. unfold isKeyUsable, usable_states. cbn. destruct (ck_state r); auto; done. Qed.

(** The running service follows the registry: right after a refresh, a kid in
    a token resolves exactly when the registry has an active or retiring, not yet
    expired row under that kid whose key loads, and to that key; every other kid,
    revoked, pending, expired or forged, resolves to nothing. A row that cannot
    be loaded affects no other. *)
Theorem resolvers_follow_registry provider t now kid :
  (∀ pub, resolve_signing (resolvers (load_rows provider (findMany t)) now) kid = Some pub ↔
    ∃ r priv jwk, t !! kid = Some r ∧ isKeyUsable (ck_state r) (ck_notAfter r) now = true ∧
      loads_signing provider kid r priv pub jwk) ∧
  (∀ secret, resolve_encryption (resolvers (load_rows provider (findMany t)) now) kid = Some secret ↔
    ∃ r, t !! kid = Some r ∧ isKeyUsable (ck_state r) (ck_notAfter r) now = true ∧
      loads_encryption provider kid r secret).
Proof.
  cbn. destruct (snapshot_get provider t kid) as [-> ->]. destruct (t !! kid) as [r|] eqn:Er; cbn;
    [|split; intros; split; [done|naive_solver|done|naive_solver]].
  split; intros key; split.
  - case_decide; [|done]. destruct (signing_of provider kid r) as [e|] eqn:Ee; [|done].
    apply signing_of_Some in Ee as (Hl & -> & ->). case_match; [|done]. intros [= <-]. eauto 8.
  - intros (r' & priv & jwk & [= <-] & Hu & Hl). rewrite decide_True by (by eapply isKeyUsable_states).
    rewrite (loads_signing_of _ _ _ _ _ _ Hl). cbn. by rewrite Hu.
  - case_decide; [|done]. destruct (encryption_of provider kid r) as [e|] eqn:Ee; [|done].
    apply encryption_of_Some in Ee as (Hl & -> & ->). case_match; [|done]. intros [= <-]. eauto 8.
  - intros (r' & [= <-] & Hu & Hl). rewrite decide_True by (by eapply isKeyUsable_states).
    rewrite (loads_encryption_of _ _ _ _ Hl). cbn. by rewrite Hu.
Qed.

Lemma map_set_keys {A} k (v : A) (m : JsMap A) : NoDup (fst <$> m) → NoDup (fst <$> map_set k v m).
Proof.
  induction m as [|[k0 v0] m IH]; intros Hnd; [apply NoDup_singleton|]. simpl.
  rewrite fmap_cons in Hnd. apply NoDup_cons in Hnd as [Hni Hnd]. destruct (String.eqb_spec k0 k) as [->|Hne].
  - rewrite fmap_cons. by apply NoDup_cons.
  - rewrite fmap_cons. apply NoDup_cons. split; [|by apply IH]. cbn.
    intros ([k' v'] & Hk & Hin)%list_elem_of_fmap. cbn in Hk. subst k'.
    apply map_set_elem in Hin as [[= -> _]|Hin]; [done|]. apply Hni. by apply (list_elem_of_fmap_2 fst) in Hin.
Qed.

Lemma map_get_elem {A} k (v : A) (m : JsMap A) : NoDup (fst <$> m) → (k, v) ∈ m ↔ map_get k m = Some v.
Proof.
  unfold map_get. induction m as [|[k0 v0] m IH]; intros Hnd.
  { split; [by intros ?%not_elem_of_nil|done]. }
  rewrite fmap_cons in Hnd. apply NoDup_cons in Hnd as [Hni Hnd]. cbn.
  destruct (String.eqb_spec k0 k) as [->|Hne]; cbn.
  - rewrite elem_of_cons. split; [|intros [= ->]; by left]. intros [[= ->]|Hin]; [done|].
    exfalso. apply Hni. by apply (list_elem_of_fmap_2 fst) in Hin.
  - rewrite elem_of_cons, <- IH by done. split; [intros [[= ? _]|?]; [congruence|done]|by right].
Qed.

Lemma load_rows_keys provider rows : NoDup (fst <$> sn_signing (load_rows provider rows)).
Proof.
  induction rows as [|[k0 r0] rows IH] using rev_ind; [apply NoDup_nil_2|]. rewrite load_rows_snoc.
  unfold load_row. destruct (ck_wrappedKey _); [|done]. destruct (loadStoredKey _ _) as [[]|]; [|done|done].
  by apply map_set_keys.
Qed.
End registry.

(** ** Publishing *)

Section publishing.
Context `{AesGcm} `{JK : JoseKeys} `{!JoseKeysLaws JK} `{JT : !JoseTokens}.

Lemma jwks_entries (s : Snapshot) now j : NoDup (fst <$> sn_signing s) →
  j ∈ jwks s now ↔
  ∃ kid e, map_get kid (sn_signing s) = Some e ∧ isKeyUsable (se_state e) (se_notAfter e) now = true ∧ se_publicJwk e = j.
Proof.
  intros Hnd. unfold jwks, toJwks. rewrite list_elem_of_fmap. split.
  - intros (e & -> & He). rewrite !list_elem_of_filter in He. destruct He as (Hu & _ & Hin).
    apply list_elem_of_fmap in Hin as ([kid e'] & -> & Hin). exists kid, e'.
    rewrite <- map_get_elem by done. done.
  - intros (kid & e & Hg & Hu & <-). exists e. split; [done|]. rewrite !list_elem_of_filter.
    apply map_get_elem in Hg; [|done]. split_and!; [done| |by apply (list_elem_of_fmap_2 snd) in Hg].
    unfold isKeyUsable in Hu. destruct (se_state e); auto; done.
Qed.

(** C34. The published JWKS is exact: it lists the public half of every active or
    retiring, unexpired signing key that loads, under the kid tokens name and
    derived from the wrapped private key, and nothing else; no entry has a private
    member. *)
Theorem jwks_is_exact provider t now j :
  (j ∈ jwks (load_rows provider (findMany t)) now ↔
   ∃ kid r priv pub, t !! kid = Some r ∧ isKeyUsable (ck_state r) (ck_notAfter r) now = true ∧
     loads_signing provider kid r priv pub j) ∧
  (j ∈ jwks (load_rows provider (findMany t)) now →
   (∃ kid priv, published kid priv j) ∧ ∀ m, m ∈ PRIVATE_MEMBERS → j !! m = None).
Proof.
  rewrite jwks_entries by apply load_rows_keys.
  assert (Hiff : (∃ kid e, map_get kid (sn_signing (load_rows provider (findMany t))) = Some e ∧
      isKeyUsable (se_state e) (se_notAfter e) now = true ∧ se_publicJwk e = j) ↔
    ∃ kid r priv pub, t !! kid = Some r ∧ isKeyUsable (ck_state r) (ck_notAfter r) now = true ∧
      loads_signing provider kid r priv pub j).
  { split.
    - intros (kid & e & Hg & Hu & <-). rewrite (proj1 (snapshot_get provider t kid)) in Hg.
      destruct (t !! kid) as [r|] eqn:Er; [|done]. cbn in Hg. case_decide; [|done].
      apply signing_of_Some in Hg as (Hl & Hs & Hn). rewrite Hs, Hn in Hu. by exists kid, r, (se_privateKey e), (se_publicKey e).
    - intros (kid & r & priv & pub & Hr & Hu & Hl). exists kid. eexists.
      rewrite (proj1 (snapshot_get provider t kid)), Hr. cbn. rewrite decide_True by (by eapply isKeyUsable_states).
      rewrite (loads_signing_of _ _ _ _ _ _ Hl). by split_and!. }
  split; [exact Hiff|]. intros (kid & r & priv & pub & Hr & _ & Hl)%Hiff.
  apply loadStoredKey_inv in Hl as (_ & w & mat & _ & _ & [(_ & _ & priv' & _ & He)|(_ & _ & _ & He)]); [|done].
  injection He as _ _ ->. pose proof (trusted_published (stored_row kid r) priv') as Hpub. cbn in Hpub.
  split; [by exists kid, priv'|]. intros m Hm. destruct Hpub as (_ & _ & _ & _ & Hmem).
  match goal with |- ?x !! m = None => destruct (x !! m) eqn:E; [|done] end.
  exfalso. specialize (Hmem m ltac:(rewrite E; by eexists)). unfold PRIVATE_MEMBERS, point_members in *. set_solver.
Qed.
End publishing.

(** ** Refreshing *)

(** Events of one process: a request whose token did not verify asks for a
    refresh, the interval timer fires, and the database answers a query. *)
Inductive refresh_event :=
  | Miss (q : nat) (now : Z)
  | Tick (q : nat) (now : Z)
  | Answer (q : nat) (rows : M (list (string * ConfigKey))).

Section refreshing.
Context `{AesGcm} `{JoseTokens} (provider : KeyProvider).

Record Registry := {
  snapshot : Snapshot;
  lastRefreshAt : Z;
  inFlight : option nat;          (* the query requests share *)
  queries : gset nat;             (* sent, not yet answered *)
  miss_queries : list Z;          (* when requests caused one *)
}.

(** [refresh], up to its query. *)
Definition refresh_start (q : nat) (now : Z) (s : Registry) : Registry :=
  {| snapshot := snapshot s; lastRefreshAt := now; inFlight := inFlight s;
     queries := {[ q ]} ∪ queries s; miss_queries := miss_queries s |}.

Definition refreshIfStale (q : nat) (now : Z) (s : Registry) : Registry :=
  match inFlight s with
  | Some _ => s
  | None =>
      if now - lastRefreshAt s <? REFRESH_COOLDOWN_MS then s
      else let s := refresh_start q now s in
           {| snapshot := snapshot s; lastRefreshAt := lastRefreshAt s; inFlight := Some q;
              queries := queries s; miss_queries := miss_queries s ++ [now] |}
  end.

(** The rest of [refresh]: a failed query keeps the previous snapshot. *)
Definition refresh_end (q : nat) (rows : M (list (string * ConfigKey))) (s : Registry) : Registry :=
  {| snapshot := match rows with Ok rows => load_rows provider rows | Throw _ => snapshot s end;
     lastRefreshAt := lastRefreshAt s;
     inFlight := if decide (inFlight s = Some q) then None else inFlight s;
     queries := queries s ∖ {[ q ]}; miss_queries := miss_queries s |}.

Definition refresh_step (e : refresh_event) (s : Registry) : option Registry :=
  match e with
  | Miss q now => if decide (q ∈ queries s) then None else Some (refreshIfStale q now s)
  | Tick q now => if decide (q ∈ queries s) then None else Some (refresh_start q now s)
  | Answer q rows => if decide (q ∈ queries s) then Some (refresh_end q rows s) else None
  end.

Fixpoint refresh_exec (es : list refresh_event) (s : Registry) : option Registry :=
  match es with
  | [] => Some s
  | e :: es => match refresh_step e s with Some s' => refresh_exec es s' | None => None end
  end.

Definition boot : Registry :=
  {| snapshot := EMPTY; lastRefreshAt := 0; inFlight := None; queries := ∅; miss_queries := [] |}.

Definition event_time (e : refresh_event) : option Z :=
  match e with Miss _ now | Tick _ now => Some now | Answer _ _ => None end.

(** Queries requests cause are a cooldown apart, and none is newer than the last
    refresh. *)
Fixpoint spaced (gap : Z) (ts : list Z) : Prop :=
  match ts with
  | t :: ((t' :: _) as ts') => t + gap ≤ t' ∧ spaced gap ts'
  | _ => True
  end.
Definition spaced_inv (s : Registry) : Prop :=
  spaced REFRESH_COOLDOWN_MS (miss_queries s) ∧ ∀ t, last (miss_queries s) = Some t → t ≤ lastRefreshAt s.

Lemma spaced_snoc gap ts t :
  spaced gap ts → (∀ t0, last ts = Some t0 → t0 + gap ≤ t) → spaced gap (ts ++ [t]).
Proof.
  induction ts as [|t0 [|t1 ts] IH]; cbn; [done| |].
  - intros _ Hl. split; [by apply Hl|done].
  - intros [Hg1 Hg2] Hl. split; [done|]. by apply IH.
Qed.

Lemma spaced_lookup gap ts i j ti tj :
  0 ≤ gap → spaced gap ts → (i < j)%nat → ts !! i = Some ti → ts !! j = Some tj → ti + gap ≤ tj.
Proof.
  intros Hg. revert i j ti tj. induction ts as [|t0 ts IH]; intros i j ti tj Hs Hij Hi Hj; [done|].
  destruct j as [|j]; [lia|]. destruct ts as [|t1 ts]; [done|]. destruct Hs as [Hg1 Hg2].
  destruct i as [|i]; [|eapply (IH i j); eauto; lia]. injection Hi as ->.
  destruct j as [|j]; [by injection Hj as ->|].
  pose proof (IH 0%nat (S j) t1 tj Hg2 ltac:(lia) eq_refl Hj). lia.
Qed.

Lemma spaced_exec es s s' :
  refresh_exec es s = Some s' → spaced_inv s →
  StronglySorted Z.le (lastRefreshAt s :: omap event_time es) → spaced_inv s'.
Proof.
  revert s. induction es as [|e es IH]; intros s Hr Hinv Hs; [by injection Hr as <-|].
  cbn [refresh_exec] in Hr. destruct (refresh_step e s) as [s1|] eqn:E; [|done].
  destruct Hinv as [Hsp Hlast].
  destruct e as [q now|q now|q rows]; cbn in E, Hs; case_decide; try done; injection E as <-.
  - apply StronglySorted_inv in Hs as [Hs Hall]. apply Forall_cons in Hall as [Hle Hall].
    unfold refreshIfStale in Hr. destruct (inFlight s).
    { apply (IH s Hr); [done|]. constructor; [|done]. by apply StronglySorted_inv in Hs as [Hs _]. }
    destruct (Z.ltb_spec (now - lastRefreshAt s) REFRESH_COOLDOWN_MS) as [|Hge].
    { apply (IH s Hr); [done|]. constructor; [|done]. by apply StronglySorted_inv in Hs as [Hs _]. }
    eapply (IH _ Hr); [|exact Hs]. split; cbn.
    + apply spaced_snoc; [done|]. intros t0 Ht0%Hlast. lia.
    + intros t0. rewrite last_snoc. intros [= ->]. lia.
  - apply StronglySorted_inv in Hs as [Hs Hall]. apply Forall_cons in Hall as [Hle Hall].
    apply (IH _ Hr); [|exact Hs]. split; [done|]. cbn. intros t0 Ht0%Hlast. lia.
  - apply (IH _ Hr); [|exact Hs]. by split.
Qed.

(** C35. However many tokens with unknown kids arrive, and however slowly the
    database answers, requests cause at most one query per cooldown window. *)
Theorem miss_queries_bounded es s i j ti tj :
  refresh_exec es boot = Some s → StronglySorted Z.le (0 :: omap event_time es) →
  (i < j)%nat → miss_queries s !! i = Some ti → miss_queries s !! j = Some tj →
  ti + REFRESH_COOLDOWN_MS ≤ tj.
Proof.
  intros Hr Hs Hij Hi Hj.
  assert (Hinv : spaced_inv s) by (eapply spaced_exec; [exact Hr|by split|exact Hs]).
  eapply spaced_lookup; [done|apply Hinv|done..].
Qed.

(** The rows of the latest query that was answered at all. *)
Fixpoint last_answer (es : list refresh_event) (rows : option (list (string * ConfigKey))) :
    option (list (string * ConfigKey)) :=
  match es with
  | [] => rows
  | Answer _ (Ok rows') :: es => last_answer es (Some rows')
  | _ :: es => last_answer es rows
  end.

Lemma last_answer_exec es s s' rows :
  refresh_exec es s = Some s' → snapshot s = default EMPTY (load_rows provider <$> rows) →
  snapshot s' = default EMPTY (load_rows provider <$> last_answer es rows).
Proof.
  revert s rows. induction es as [|e es IH]; intros s rows Hr Hs; [by injection Hr as <-|].
  cbn [refresh_exec] in Hr. destruct (refresh_step e s) as [s1|] eqn:E; [|done].
  destruct e as [q now|q now|q ans]; cbn in E; case_decide; try done; injection E as <-; cbn [last_answer].
  - eapply IH; [exact Hr|]. unfold refreshIfStale. destruct (inFlight s); [done|]. by destruct (_ <? _).
  - by eapply IH; [exact Hr|].
  - destruct ans as [rows'|e]; (eapply IH; [exact Hr|done]).
Qed.

(** The snapshot is always, as a whole, that of the latest query the database
    answered: a failing database never drops the keys in use, and no mixture of
    two readings is ever served. *)
Theorem snapshot_is_the_last_answer es s :
  refresh_exec es boot = Some s →
  snapshot s = default EMPTY (load_rows provider <$> last_answer es None).
Proof. intros Hr. by eapply last_answer_exec. Qed.
End refreshing.
