(* ===== verification/TokenService.v ===== *)
(** Issuing and verifying the service's tokens over the key registry:
    services/auth/src/auth/token.service.ts, and the inspection tool that must
    agree with it, packages/db/src/keys/decode-token.ts.

    Times are milliseconds; [Date.now()] is read once per call. *)
From S2P Require Import Prelude Domain Base64 AuditHash Keys Tokens KeyStore KeyRegistry.
From Stdlib Require Import FunctionalExtensionality.
#[local] Open Scope Z_scope.

Section service.
Context `{AesGcm} `{JK : JoseKeys} `{!JoseTokens}.

(** [{ ...claims }] *)
Definition claims_json (c : AccessTokenClaims) : gmap string json :=
  <["sub" := JString (sub c)]> (<["tid" := JString (tid c)]> (<["roles" := JStringArray (roles c)]>
    {[ "permissions" := JStringArray (permissions c) ]})).

Definition issue (s : Snapshot) (policy : TokenPolicy) (c : AccessTokenClaims) (iat_now exp_now : Z) (rnd : Buffer)
    : M string :=
  material ← activeMaterial s;
  issueNestedToken (claims_json c) material policy iat_now exp_now rnd.

Definition verifyOnce (token : string) (s : Snapshot) (policy : TokenPolicy) (now : Z) : M (gmap string json) :=
  v ← verifyNestedToken token (resolvers s now) policy (now / 1000); Ok (claims v).

(** The shape check at the end of [verify]. *)
Definition narrow (payload : gmap string json) : M AccessTokenClaims :=
  match payload !! "sub", payload !! "tid", payload !! "roles", payload !! "permissions" with
  | Some (JString s), Some (JString t), Some (JStringArray r), Some (JStringArray p) =>
      Ok {| sub := s; tid := t; roles := r; permissions := p |}
  | _, _, _, _ => Throw (EDomain InvalidAccessTokenError)
  end.

(** [verify]: the first attempt reads snapshot [s0], the retry whatever snapshot
    [s1] is in place once [refreshIfStale] has returned. *)
Definition verify (token : string) (s0 s1 : Snapshot) (policy : TokenPolicy) (now0 now1 : Z) : M AccessTokenClaims :=
  payload ← match verifyOnce token s0 policy now0 with
            | Ok p => Ok p
            | Throw (ETokenVerification _) =>
                match verifyOnce token s1 policy now1 with
                | Ok p => Ok p
                | Throw (ETokenVerification _) => Throw (EDomain InvalidAccessTokenError)
                | Throw e => Throw e
                end
            | Throw e => Throw e
            end;
  narrow payload.

(** ** The tool *)

(** The usable keys of the tool, by kid. *)
Definition decode_row (provider : KeyProvider)
    (next : JsMap (PubKey * KeyState * option Z) * JsMap (Buffer * KeyState * option Z)) (row : string * ConfigKey) :=
  match ck_wrappedKey row.2 with
  | None => next
  | Some _ =>
      match loadStoredKey provider (stored_row row.1 row.2) with
      | Ok (LoadedSigningKey kid _ pub _) =>
          (map_set kid (pub, ck_state row.2, ck_notAfter row.2) next.1, next.2)
      | Ok (LoadedEncryptionKey kid secret) =>
          (next.1, map_set kid (secret, ck_state row.2, ck_notAfter row.2) next.2)
      | Throw _ => next
      end
  end.
Definition decode_rows (provider : KeyProvider) (rows : list (string * ConfigKey)) :=
  fold_left (decode_row provider) rows ([], []).

Definition decode_usable {A} (now : Z) (entry : option (A * KeyState * option Z)) : option A :=
  match entry with
  | Some (key, st, notAfter) => if isKeyUsable st notAfter now then Some key else None
  | None => None
  end.

Definition decode_resolvers (provider : KeyProvider) (rows : list (string * ConfigKey)) (now : Z) : TokenResolvers :=
  {| resolve_signing := λ kid, decode_usable now (map_get kid (decode_rows provider rows).1);
     resolve_encryption := λ kid, decode_usable now (map_get kid (decode_rows provider rows).2) |}.

Record DecodeReport := {
  rep_outerHeader : gmap string json; rep_innerHeader : gmap string json;
  rep_activeSigningKid : option string; rep_signedByActiveKey : bool;
  rep_keysLoaded : nat * nat; rep_tokenBytes : nat; rep_claims : gmap string json;
}.

Definition find_active_signing (rows : list (string * ConfigKey)) : option string :=
  fst <$> List.find (λ kv : string * ConfigKey,
    bool_decide (ck_purpose kv.2 = token_signing) && bool_decide (ck_state kv.2 = active_key)) rows.

(** [main], on the text [readToken] returned. *)
Definition decode_token (token : string) (masterUrl kek_text : option string)
    (rows : M (list (string * ConfigKey))) (policy : TokenPolicy) (now : Z) : M DecodeReport :=
  _ ← throw_if (String.eqb token "") (EError "No token supplied.");
  let segments := length (split_on "." token) in
  _ ← throw_if (negb (Nat.eqb segments 5))
        (EError ("Expected a 5-segment compact JWE, got " +:+ dec segments +:+ ". Not a nested JWT."));
  _ ← throw_if (String.eqb (default "" masterUrl) "" || String.eqb (default "" kek_text) "")
        (EError "MASTER_DATABASE_URL and KEY_ENCRYPTION_KEY must be set.");
  provider ← LocalKeyProvider (from_base64url (default "" kek_text)) "local";
  rows ← rows;
  v ← verifyNestedToken token (decode_resolvers provider rows now) policy (now / 1000);
  let activeKid := find_active_signing rows in
  Ok {| rep_outerHeader := outerHeader v; rep_innerHeader := innerHeader v; rep_activeSigningKid := activeKid;
        rep_signedByActiveKey := strict_equal (innerHeader v !! "kid") (JString <$> activeKid);
        rep_keysLoaded := (length (decode_rows provider rows).1, length (decode_rows provider rows).2);
        rep_tokenBytes := byteLength token; rep_claims := claims v |}.

(** *** The tool loads what the service loads *)

Definition signing_view (e : SigningEntry) : PubKey * KeyState * option Z :=
  (se_publicKey e, se_state e, se_notAfter e).
Definition encryption_view (e : EncryptionEntry) : Buffer * KeyState * option Z :=
  (ee_secret e, ee_state e, ee_notAfter e).

Lemma map_set_map {A B} (f : A → B) k v (m : JsMap A) :
  map_set k (f v) (prod_map id f <$> m) = prod_map id f <$> map_set k v m.
Proof. induction m as [|[k0 v0] m IH]; [done|]. cbn. destruct (String.eqb k0 k); cbn; [done|]. f_equal. exact IH. Qed.

Lemma map_get_map {A B} (f : A → B) k (m : JsMap A) : map_get k (prod_map id f <$> m) = f <$> map_get k m.
Proof. unfold map_get. induction m as [|[k0 v0] m IH]; [done|]. cbn. by destruct (String.eqb k0 k). Qed.

Lemma decode_rows_view provider rows :
  decode_rows provider rows =
    (prod_map id signing_view <$> sn_signing (load_rows provider rows),
     prod_map id encryption_view <$> sn_encryption (load_rows provider rows)).
Proof.
  induction rows as [|row rows IH] using rev_ind; [done|]. unfold decode_rows in *.
  rewrite fold_left_app, load_rows_snoc. cbn [fold_left]. rewrite IH. unfold decode_row, load_row.
  destruct (ck_wrappedKey row.2); [|done]. destruct (loadStoredKey _ _) as [[kid priv pub jwk|kid secret]|e]; [..|done];
    cbn [add_key fst snd sn_signing sn_encryption]; f_equal; rewrite <- map_set_map; done.
Qed.

Lemma decode_resolvers_eq provider rows now :
  decode_resolvers provider rows now = resolvers (load_rows provider rows) now.
Proof.
  unfold decode_resolvers, resolvers. rewrite decode_rows_view. f_equal; extensionality kid; cbn [fst snd];
    rewrite map_get_map; by destruct (map_get kid _).
Qed.

(** The inspection tool cannot disagree with the service: on a token of five
    segments, with the service's key-encrypting key, rows, policy and clock, it
    reports exactly the claims and headers the service's own verification yields,
    and fails with its error otherwise. *)
Theorem decode_agrees_with_service token masterUrl kek_text provider rows policy now :
  length (split_on "." token) = 5%nat → masterUrl ≠ "" → kek_text ≠ "" →
  LocalKeyProvider (from_base64url kek_text) "local" = Ok provider →
  match decode_token token (Some masterUrl) (Some kek_text) (Ok rows) policy now,
        verifyNestedToken token (resolvers (load_rows provider rows) now) policy (now / 1000) with
  | Ok rep, Ok v => rep_claims rep = claims v ∧ rep_outerHeader rep = outerHeader v ∧
                    rep_innerHeader rep = innerHeader v ∧
                    rep_keysLoaded rep = (length (sn_signing (load_rows provider rows)),
                                          length (sn_encryption (load_rows provider rows)))
  | Throw e, Throw e' => e = e'
  | _, _ => False
  end.
Proof.
  intros Hseg Hm Hk Hp. unfold decode_token. unfold default, id. rewrite Hseg, Hp.
  assert (token ≠ "") as Ht by (intros ->; done).
  apply String.eqb_neq in Hm, Hk, Ht. rewrite Hm, Hk, Ht. cbn [throw_if Nat.eqb negb orb mbind result_bind rbind].
  rewrite decode_resolvers_eq, decode_rows_view.
  destruct (verifyNestedToken _ _ _ _) as [v|e]; [|done]. cbn. by rewrite !length_fmap.
Qed.
End service.

(** ** What the service guarantees *)

Section guarantees.
Context `{AesGcm} `{JK : JoseKeys} `{!JoseKeysLaws JK} `{JT : !JoseTokens} `{!JoseTokensLaws JT}.

Lemma verifyOnce_throws token s policy now e :
  verifyOnce token s policy now = Throw e → ∃ reason, e = ETokenVerification reason.
Proof.
  unfold verifyOnce. destruct (verifyNestedToken _ _ _ _) as [v|e'] eqn:E; cbn; [done|].
  intros [= <-]. by eapply verifyNestedToken_fails.
Qed.

Lemma narrow_cases p :
  (∃ c, narrow p = Ok c ∧ p !! "sub" = Some (JString (sub c)) ∧ p !! "tid" = Some (JString (tid c)) ∧
     p !! "roles" = Some (JStringArray (roles c)) ∧ p !! "permissions" = Some (JStringArray (permissions c))) ∨
  narrow p = Throw (EDomain InvalidAccessTokenError).
Proof.
  unfold narrow.
  destruct (p !! "sub") as [[| | |]|]; try (right; reflexivity).
  destruct (p !! "tid") as [[| | |]|]; try (right; reflexivity).
  destruct (p !! "roles") as [[| | |]|]; try (right; reflexivity).
  destruct (p !! "permissions") as [[| | |]|]; try (right; reflexivity).
  left. eexists. by split_and!.
Qed.

Lemma verify_cases token s0 s1 policy now0 now1 :
  (∃ c v s now, verify token s0 s1 policy now0 now1 = Ok c ∧
     (s = s0 ∧ now = now0 ∨ s = s1 ∧ now = now1) ∧
     verifyNestedToken token (resolvers s now) policy (now / 1000) = Ok v ∧
     claims v !! "sub" = Some (JString (sub c)) ∧ claims v !! "tid" = Some (JString (tid c)) ∧
     claims v !! "roles" = Some (JStringArray (roles c)) ∧
     claims v !! "permissions" = Some (JStringArray (permissions c))) ∨
  verify token s0 s1 policy now0 now1 = Throw (EDomain InvalidAccessTokenError).
Proof.
  assert (Hone : ∀ s now p, verifyOnce token s policy now = Ok p →
    ∃ v, verifyNestedToken token (resolvers s now) policy (now / 1000) = Ok v ∧ claims v = p).
  { intros s now p. unfold verifyOnce. destruct (verifyNestedToken _ _ _ _) as [v|]; cbn; [|done].
    intros [= <-]. by exists v. }
  unfold verify. destruct (verifyOnce token s0 policy now0) as [p|e] eqn:E0.
  - cbn. destruct (narrow_cases p) as [(c & -> & Hc)|Hn]; [|by right]. left.
    destruct (Hone _ _ _ E0) as (v & Hv & <-). exists c, v, s0, now0. split; [done|]. split; [by left|]. by split.
  - destruct (verifyOnce_throws _ _ _ _ _ E0) as [r ->].
    destruct (verifyOnce token s1 policy now1) as [p|e] eqn:E1.
    + cbn. destruct (narrow_cases p) as [(c & -> & Hc)|Hn]; [|by right]. left.
      destruct (Hone _ _ _ E1) as (v & Hv & <-). exists c, v, s1, now1. split; [done|]. split; [by right|]. by split.
    + destruct (verifyOnce_throws _ _ _ _ _ E1) as [r' ->]. by right.
Qed.

(** The service answers a token in exactly one of two ways: with well-typed
    claims, taken unchanged from a token that verified against the snapshot
    before or after the refresh, or with the one [InvalidAccessTokenError];
    nothing about which check failed, and no other error, gets out. *)
Theorem verify_is_uniform token s0 s1 policy now0 now1 :
  match verify token s0 s1 policy now0 now1 with
  | Ok c => ∃ v s now, (s = s0 ∧ now = now0 ∨ s = s1 ∧ now = now1) ∧
      verifyNestedToken token (resolvers s now) policy (now / 1000) = Ok v ∧
      claims v !! "sub" = Some (JString (sub c)) ∧ claims v !! "tid" = Some (JString (tid c)) ∧
      claims v !! "roles" = Some (JStringArray (roles c)) ∧
      claims v !! "permissions" = Some (JStringArray (permissions c))
  | Throw e => e = EDomain InvalidAccessTokenError
  end.
Proof.
  destruct (verify_cases token s0 s1 policy now0 now1) as [(c & v & s & now & -> & Hv)| ->]; [|done].
  by exists v, s, now.
Qed.

(** *** Sessions across a rotation *)

Lemma narrow_issued c policy n1 n2 : narrow (signed_claims (claims_json c) policy n1 n2) = Ok c.
Proof.
  unfold narrow. rewrite !signed_claims_keep by set_solver. unfold claims_json. destruct c. by simplify_map_eq.
Qed.

Lemma claims_json_required c m : m ∈ ["sub"; "tid"; "roles"; "permissions"] → is_Some (claims_json c !! m).
Proof.
  intros Hm. unfold claims_json. rewrite !lookup_insert_is_Some'. rewrite lookup_singleton_is_Some. set_solver.
Qed.

Lemma claims_json_nbf c : claims_json c !! "nbf" = None.
Proof. unfold claims_json. by rewrite !lookup_insert_ne, lookup_singleton_ne by done. Qed.

(** A token verifies wherever the two keys that made it resolve. *)
Lemma issue_verify s0 s1 s2 policy c n1 n2 rnd token now now' m :
  activeMaterial s0 = Ok m → issue s0 policy c n1 n2 rnd = Ok token →
  resolve_encryption (resolvers s1 now) (encryption_kid (encryption m)) = Some (encryption_key (encryption m)) →
  resolve_signing (resolvers s1 now) (signing_kid (signing m)) = Some (publicOf (signing_key (signing m))) →
  now / 1000 < n2 + ttlSeconds policy + tolerance policy →
  verify token s1 s2 policy now now' = Ok c.
Proof.
  intros Hm Hi He Hs Hnow. unfold issue in Hi. rewrite Hm in Hi. cbn in Hi. unfold verify, verifyOnce.
  pose proof (issued_token_verifies_lemma (claims_json c) m policy n1 n2 rnd token (resolvers s1 now) (now / 1000)
    Hi He Hs (claims_json_required c) (claims_json_nbf c) Hnow) as ->.
  cbn [rbind mbind result_bind claims]. apply narrow_issued.
Qed.

(** A key the loader accepted still resolves from a row that stores the same. *)
Lemma resolves_again provider t now kid r r' :
  t !! kid = Some r' → stored_row kid r' = stored_row kid r →
  isKeyUsable (ck_state r') (ck_notAfter r') now = true →
  (∀ priv pub jwk, loads_signing provider kid r priv pub jwk →
     resolve_signing (resolvers (load_rows provider (findMany t)) now) kid = Some (publicOf priv)) ∧
  (∀ secret, loads_encryption provider kid r secret →
     resolve_encryption (resolvers (load_rows provider (findMany t)) now) kid = Some secret).
Proof.
  intros Hr Hst Hu. cbn. destruct (snapshot_get provider t kid) as [-> ->]. rewrite Hr. cbn.
  rewrite !decide_True by (by eapply isKeyUsable_states). unfold loads_signing, loads_encryption.
  rewrite <- Hst. split.
  - intros priv pub jwk Hl. rewrite (loads_signing_of _ _ _ _ _ _ Hl).
    cbn [se_state se_notAfter se_publicKey]. rewrite Hu. f_equal.
    apply loadStoredKey_inv in Hl as (_ & w & mat & _ & _ & [(_ & _ & priv' & _ & He)|(_ & _ & _ & He)]); [|done].
    by injection He as -> -> _.
  - intros secret Hl. rewrite (loads_encryption_of _ _ _ _ Hl). cbn [ee_state ee_notAfter ee_secret]. by rewrite Hu.
Qed.

(** Nor can a row that stores the same make its kid resolve to another key. *)
Lemma resolves_only provider t now kid r :
  (∀ r', t !! kid = Some r' → stored_row kid r' = stored_row kid r) →
  (∀ priv pub jwk k, loads_signing provider kid r priv pub jwk →
     resolve_signing (resolvers (load_rows provider (findMany t)) now) kid = Some k → k = publicOf priv) ∧
  (∀ secret k, loads_encryption provider kid r secret →
     resolve_encryption (resolvers (load_rows provider (findMany t)) now) kid = Some k → k = secret).
Proof.
  intros Hsame. destruct (t !! kid) as [r'|] eqn:Hr.
  2: { cbn. destruct (snapshot_get provider t kid) as [-> ->]. by rewrite Hr. }
  destruct (isKeyUsable (ck_state r') (ck_notAfter r') now) eqn:Hu.
  - destruct (resolves_again provider t now kid r r' Hr (Hsame _ eq_refl) Hu) as [Hs He].
    split; intros *; [intros Hl|intros Hl]; [rewrite (Hs _ _ _ Hl)|rewrite (He _ Hl)]; congruence.
  - cbn. destruct (snapshot_get provider t kid) as [-> ->]. rewrite Hr. cbn. specialize (Hsame _ eq_refl).
    unfold loads_signing, loads_encryption. rewrite <- Hsame.
    case_decide; [|done]. split.
    + intros * Hl. rewrite (loads_signing_of _ _ _ _ _ _ Hl). cbn. by rewrite Hu.
    + intros * Hl. rewrite (loads_encryption_of _ _ _ _ Hl). cbn. by rewrite Hu.
Qed.

(** A token is answered with its claims by whatever instance has both keys after
    a refresh, if the snapshot it had before could not name them otherwise. *)
Lemma issue_verify_refreshed `{!JoseHeaders _} s0 s1 s2 policy c n1 n2 rnd token now1 now2 m :
  activeMaterial s0 = Ok m → issue s0 policy c n1 n2 rnd = Ok token → issuer policy ≠ "" → audience policy ≠ "" →
  (∀ k, resolve_encryption (resolvers s1 now1) (encryption_kid (encryption m)) = Some k →
     k = encryption_key (encryption m)) →
  (∀ k, resolve_signing (resolvers s1 now1) (signing_kid (signing m)) = Some k → k = publicOf (signing_key (signing m))) →
  resolve_encryption (resolvers s2 now2) (encryption_kid (encryption m)) = Some (encryption_key (encryption m)) →
  resolve_signing (resolvers s2 now2) (signing_kid (signing m)) = Some (publicOf (signing_key (signing m))) →
  now1 / 1000 < n2 + ttlSeconds policy + tolerance policy →
  now2 / 1000 < n2 + ttlSeconds policy + tolerance policy →
  verify token s1 s2 policy now1 now2 = Ok c.
Proof.
  intros Hm Hi Hpi Hpa He1 Hs1 He2 Hs2 Hn1 Hn2.
  destruct (verifyOnce token s1 policy now1) as [p|e] eqn:E1.
  - unfold verifyOnce in E1. rewrite mbind_rbind in E1. apply rbind_Ok_inv in E1 as (v & Hv & _).
    pose proof Hi as Hi'. unfold issue in Hi'. rewrite Hm in Hi'. cbn in Hi'.
    destruct (issued_token_resolves _ _ _ _ _ _ _ _ _ _ Hpi Hpa Hi' He1 Hv) as [[k Hk] [pub Hpub]].
    eapply issue_verify; [exact Hm|exact Hi| | |exact Hn1].
    + rewrite Hk. f_equal. by apply He1.
    + rewrite Hpub. f_equal. by apply Hs1.
  - destruct (verifyOnce_throws _ _ _ _ _ E1) as [r ->].
    pose proof (issue_verify s0 s2 EMPTY policy c n1 n2 rnd token now2 now2 m Hm Hi He2 Hs2 Hn2) as Hv.
    unfold verify in Hv |- *. rewrite E1. destruct (verifyOnce token s2 policy now2) as [p|e'] eqn:E2; [exact Hv|].
    destruct (verifyOnce_throws _ _ _ _ _ E2) as [r' ->].
    destruct (verifyOnce token EMPTY policy now2) as [p|e3] eqn:E3; [|by destruct (verifyOnce_throws _ _ _ _ _ E3) as [? ->]].
    exfalso. unfold verifyOnce in E3. rewrite mbind_rbind in E3. apply rbind_Ok_inv in E3 as (v & Hv3 & _).
    pose proof (verifyNestedToken_inv _ _ _ _ _ Hpi Hpa Hv3) as (? & ? & ? & ? & ? & _ & Hres & _). done.
Qed.

(** A key of the registry, whatever was done since. *)
Lemma key_since provider overlap tr0 tr1 s sB trA sA limit kid r :
  key_exec provider overlap tr0 empty_registry = Some s → key_exec provider overlap tr1 s = Some sB →
  trA `prefix_of` tr0 ++ tr1 → key_exec provider overlap trA empty_registry = Some sA →
  in_flight_until limit s → begun_until overlap limit tr1 →
  table s !! kid = Some r → ck_state r = active_key →
  (∀ r', table sB !! kid = Some r' → ck_state r' ≠ revoked) →
  (∀ r', table sA !! kid = Some r' → stored_row kid r' = stored_row kid r) ∧
  ∃ r', table sB !! kid = Some r' ∧ stored_row kid r' = stored_row kid r ∧
    ∀ now, now < limit → isKeyUsable (ck_state r') (ck_notAfter r') now = true.
Proof.
  intros H0 H1 [rest Hrest] HA Hfl Hb Hk Ha Hrev. set (hist := tr0 ++ tr1).
  assert (Hinv : key_inv overlap hist s) by (eapply key_inv_exec; [exact H0|set_solver|apply empty_key_inv]).
  assert (HinvA : key_inv overlap hist sA)
    by (eapply key_inv_exec; [exact HA|unfold hist; rewrite Hrest; set_solver|apply empty_key_inv]).
  assert (HAB : key_exec provider overlap rest sA = Some sB).
  { pose proof (key_exec_app provider overlap tr0 tr1 empty_registry) as Happ. rewrite H0, H1, Hrest, key_exec_app, HA in Happ.
    exact Happ. }
  destruct (rows_persist provider overlap hist _ _ _ kid r H1 ltac:(set_solver) Hinv Hk) as (rB & HkB & _ & HmB & _).
  assert (Hst : stored_row kid rB = stored_row kid r) by (apply HmB; eauto). split.
  - intros rA HkA.
    destruct (rows_persist provider overlap hist _ _ _ kid rA HAB ltac:(unfold hist; rewrite Hrest; set_solver) HinvA HkA)
      as (rB' & HkB' & _ & HmB' & _). assert (rB' = rB) as -> by congruence. rewrite <- Hst, HmB' by eauto. done.
  - exists rB. split_and!; [done|done|].
    destruct (usable_persists provider overlap hist limit _ _ _ kid r H1 ltac:(set_solver) Hinv Hfl Hb Hk ltac:(by right; left))
      as (rB' & HkB' & Hu). assert (rB' = rB) as -> by congruence. intros now Hnow.
    apply (usable_until_usable overlap hist limit); [|done|by eauto|done].
    eapply ki_overlap; [|exact HkB]. eapply key_inv_exec; [exact H1|set_solver|exact Hinv].
Qed.

(** C16. Rotations log nobody out. Take a token issued from the active keys of any
    reachable registry, and any steps of any operators from there: rotations of
    either purpose, however many and interleaved, creations, crashes, revocations
    of other keys. Until the token's lifetime and tolerance are over, every
    instance answers it with the claims it was issued with: the snapshot the
    instance has may be of any earlier or later moment, empty included, if the
    one its refresh loads was read since the token's keys were. The conditions
    are that the token's two keys are not revoked, and that every activation that
    was past its [findFirst] at issue, or began since, computed an end of overlap
    no earlier than the token's; an overlap of lifetime plus tolerance, the
    script's default, gives that to every activation begun after the issue. *)
Theorem session_survives_rotation `{!JoseHeaders _} provider overlap tr0 tr1 s sB trA sA policy c n1 n2 rnd token m now1 now2 :
  key_exec provider overlap tr0 empty_registry = Some s → key_exec provider overlap tr1 s = Some sB →
  trA `prefix_of` tr0 ++ tr1 → key_exec provider overlap trA empty_registry = Some sA →
  activeMaterial (load_rows provider (findMany (table s))) = Ok m →
  issue (load_rows provider (findMany (table s))) policy c n1 n2 rnd = Ok token →
  issuer policy ≠ "" → audience policy ≠ "" →
  (∀ kid r, kid ∈ [signing_kid (signing m); encryption_kid (encryption m)] → table sB !! kid = Some r → ck_state r ≠ revoked) →
  let expiry := n2 + ttlSeconds policy + tolerance policy in
  in_flight_until (expiry * 1000) s → begun_until overlap (expiry * 1000) tr1 →
  now1 / 1000 < expiry → now2 / 1000 < expiry →
  verify token (load_rows provider (findMany (table sA))) (load_rows provider (findMany (table sB))) policy now1 now2 = Ok c.
Proof.
  intros H0 H1 Hpre HA Hm Hissue Hpi Hpa Hrev expiry Hfl Hb Hn1 Hn2.
  destruct (proj1 (activeMaterial_Ok provider (table s) m (ki_ok _ _ _ (reachable_inv _ _ _ _ H0))) Hm)
    as [(r1 & pub & jwk & Hr1 & Ha1 & Hl1) (r2 & Hr2 & Ha2 & Hl2)].
  assert (Hlt : now2 < expiry * 1000).
  { pose proof (Z.div_mod now2 1000 ltac:(lia)). pose proof (Z.mod_pos_bound now2 1000 ltac:(lia)). lia. }
  destruct (key_since provider overlap _ _ _ _ _ _ _ _ r1 H0 H1 Hpre HA Hfl Hb Hr1 Ha1) as (HA1 & rB1 & HB1 & Hs1 & Hu1);
    [intros ?; apply Hrev; set_solver|].
  destruct (key_since provider overlap _ _ _ _ _ _ _ _ r2 H0 H1 Hpre HA Hfl Hb Hr2 Ha2) as (HA2 & rB2 & HB2 & Hs2 & Hu2);
    [intros ?; apply Hrev; set_solver|].
  eapply issue_verify_refreshed; [exact Hm|exact Hissue|done|done| | | | |done|done].
  - intros k. by eapply (proj2 (resolves_only provider _ now1 _ r2 HA2)).
  - intros k. by eapply (proj1 (resolves_only provider _ now1 _ r1 HA1)).
  - eapply (proj2 (resolves_again provider _ now2 _ r2 rB2 HB2 Hs2 (Hu2 now2 Hlt))). exact Hl2.
  - eapply (proj1 (resolves_again provider _ now2 _ r1 rB1 HB1 Hs1 (Hu1 now2 Hlt))). exact Hl1.
Qed.

(** C17. Revoking works: once a revoked key's state has been read, no token of any
    kind verifies under its kid, whichever layer names it. *)
Theorem revoked_kid_never_verifies provider t kid r token policy now v :
  t !! kid = Some r → ck_state r = revoked → issuer policy ≠ "" → audience policy ≠ "" →
  verifyNestedToken token (resolvers (load_rows provider (findMany t)) now) policy (now / 1000) = Ok v →
  outerHeader v !! "kid" ≠ Some (JString kid) ∧ innerHeader v !! "kid" ≠ Some (JString kid).
Proof.
  intros Hr Hst Hi Ha Hv.
  destruct (verifyNestedToken_inv _ _ _ _ _ Hi Ha Hv) as (ek & k & sk & pub & jws & Hek & Hres & _ & Hsk & Hsres & _).
  cbn in Hres, Hsres. rewrite Hek, Hsk. split; intros He; injection He as ->.
  - rewrite (proj2 (snapshot_get provider t kid)), Hr in Hres. cbn in Hres.
    rewrite decide_False in Hres; [done|]. intros [?|?]; cbn in *; congruence.
  - rewrite (proj1 (snapshot_get provider t kid)), Hr in Hsres. cbn in Hsres.
    rewrite decide_False in Hsres; [done|]. intros [?|?]; cbn in *; congruence.
Qed.
End guarantees.

(** ** The hypotheses can hold *)

Module ServiceSample.
Import KeysSample TokensSample KeyStoreSample.

Definition secret (c : string) : Buffer := "0123456789abcdef0123456789abcde" +:+ c.
Definition new_secret (p : nat) (kid : string) (c : string) : key_label :=
  CreateKey p token_encryption kid iv (secret c) ∅.
Definition deployed : list key_label :=
  [new_key 1 "s1"; ActivateRead 1 0; ActivateWrite 1 3 4; new_secret 1 "e1" "1"; ActivateRead 1 10; ActivateWrite 1 12 13].
Definition rotated : list key_label := rotate_labels 1 token_signing "s2" iv "s2" (point_of "s2") 200000 200003 200004.

Definition snapshot_of (tr : list key_label) : Snapshot :=
  load_rows provider (findMany (table (state_of tr))).
Definition user : AccessTokenClaims :=
  {| sub := "u1"; tid := "t1"; roles := []; permissions := ["users:read"] |}.

Definition token_of (tr : list key_label) (n : Z) : string :=
  default "" (to_option (issue (snapshot_of tr) policy user n n "")).

(** The service keeps issuing with the key of its snapshot until the next
    interval, at most a minute; such a token is refused before it expires. *)
Example token_of_a_stale_instance_dies_early :
  let token := token_of deployed 259 in
  verify token (snapshot_of (deployed ++ rotated)) EMPTY policy 1104999 0 = Ok user ∧
  verify token (snapshot_of (deployed ++ rotated)) EMPTY policy 1105000 0 = Throw (EDomain InvalidAccessTokenError) ∧
  1105000 / 1000 < 259 + ttlSeconds policy.
Proof. vm_compute. split_and!; reflexivity. Qed.

(** Both purposes are rotated, the second while an operator is stopped halfway
    through another rotation. *)
Definition rotated_twice : list key_label :=
  rotated ++ [new_key 2 "s3"; ActivateRead 2 300000; new_secret 3 "e2" "2"; ActivateRead 3 310000; ActivateWrite 3 310002 310003;
              ActivateWrite 2 310500 310501; RevokeCheck 4 "s2" "leaked"; RevokeWrite 4 320000].

Lemma begun_until_list overlap limit tr :
  Forall (λ l, match l with ActivateRead _ now => limit ≤ now + overlap * 1000 | _ => True end) tr →
  begun_until overlap limit tr.
Proof. intros Hf p now Hin. by eapply (proj1 (Forall_forall _ _) Hf) in Hin. Qed.

(** The instance has not loaded anything yet. *)
Lemma session_survives_rotation_witness :
  verify (token_of deployed 200) (snapshot_of []) (snapshot_of (deployed ++ rotated_twice)) policy 1100000 1104999 = Ok user ∧
  ck_state <$> table (state_of (deployed ++ rotated_twice)) !! "s1" = Some retiring.
Proof.
  split; [|vm_compute; reflexivity].
  destruct (activeMaterial (snapshot_of deployed)) as [m|] eqn:Hm; [|vm_compute in Hm; discriminate Hm].
  apply (session_survives_rotation provider 905 deployed rotated_twice (state_of deployed)
    (state_of (deployed ++ rotated_twice)) [] (state_of []) policy user 200 200 "" (token_of deployed 200) m);
    [vm_compute; reflexivity|vm_compute; reflexivity|by eexists|vm_compute; reflexivity|exact Hm|vm_compute; reflexivity
    |discriminate|discriminate| | | |reflexivity|reflexivity].
  - assert (Hkids : [signing_kid (signing m); encryption_kid (encryption m)] = ["s1"; "e1"]).
    { assert (Hc : (λ m, [signing_kid (signing m); encryption_kid (encryption m)]) <$>
          to_option (activeMaterial (snapshot_of deployed)) = Some ["s1"; "e1"]) by (vm_compute; reflexivity).
      rewrite Hm in Hc. injection Hc as -> ->. reflexivity. }
    rewrite Hkids. intros kid r Hkid Hr Hst.
    assert (Hc : (ck_state <$> table (state_of (deployed ++ rotated_twice)) !! "s1") = Some retiring ∧
                 (ck_state <$> table (state_of (deployed ++ rotated_twice)) !! "e1") = Some retiring)
      by (split; vm_compute; reflexivity).
    destruct Hc as [Hc1 Hc2].
    apply elem_of_cons in Hkid as [->|Hkid]; [rewrite Hr in Hc1; injection Hc1; congruence|].
    apply list_elem_of_singleton in Hkid as ->. rewrite Hr in Hc2. injection Hc2. congruence.
  - intros p pu kid na cur Hp.
    assert (He : procs (state_of deployed) !! p = None)
      by (replace (procs (state_of deployed)) with (∅ : gmap nat Proc) by (vm_compute; reflexivity); apply lookup_empty).
    congruence.
  - apply begun_until_list. repeat constructor; vm_compute; discriminate.
Defined.

(** During the overlap both the new key and the retiring one are published. *)
Lemma jwks_is_exact_witness :
  let published_keys := jwks (snapshot_of (deployed ++ rotated)) 200001 in
  length published_keys = 2%nat ∧
  ∀ j, j ∈ published_keys → ∀ m, m ∈ PRIVATE_MEMBERS → j !! m = None.
Proof.
  intros keys. split; [vm_compute; reflexivity|]. intros j Hj.
  exact (proj2 (proj2 (jwks_is_exact provider (table (state_of (deployed ++ rotated))) 200001 j) Hj)).
Defined.

Definition s1_revoked : list key_label := deployed ++ rotated ++ [RevokeCheck 2 "s1" "leaked"; RevokeWrite 2 300000].
Lemma revoked_kid_never_verifies_witness :
  ck_state <$> table (state_of s1_revoked) !! "s1" = Some revoked ∧
  ∀ r v, table (state_of s1_revoked) !! "s1" = Some r → ck_state r = revoked →
    verifyNestedToken (token_of (deployed ++ rotated) 300) (KeyRegistry.resolvers (snapshot_of s1_revoked) 400000) policy 400 = Ok v →
    outerHeader v !! "kid" ≠ Some (JString "s1") ∧ innerHeader v !! "kid" ≠ Some (JString "s1").
Proof.
  split; [vm_compute; reflexivity|]. intros r v Hr Hst Hv.
  apply (revoked_kid_never_verifies provider (table (state_of s1_revoked)) "s1" r
    (token_of (deployed ++ rotated) 300) policy 400000 v Hr Hst); [discriminate|discriminate|exact Hv].
Defined.

Example fresh_token_verifies :
  is_Some (to_option (verifyNestedToken (token_of (deployed ++ rotated) 300) (KeyRegistry.resolvers (snapshot_of s1_revoked) 400000)
    policy 400)).
Proof. vm_compute. eauto. Qed.

(** The toy tokens have no five segments; a malformed one does. *)
Lemma decode_agrees_with_service_witness :
  match decode_token "a.b.c.d.e" (Some "postgres://m") (Some "MDEyMzQ1Njc4OWFiY2RlZjAxMjM0NTY3ODlhYmNkZWY")
          (Ok (findMany (table (state_of deployed)))) policy 1000,
        verifyNestedToken "a.b.c.d.e" (KeyRegistry.resolvers (snapshot_of deployed) 1000) policy 1 with
  | Ok rep, Ok v => rep_claims rep = claims v ∧ rep_outerHeader rep = outerHeader v ∧
                    rep_innerHeader rep = innerHeader v ∧
                    rep_keysLoaded rep = (length (sn_signing (snapshot_of deployed)),
                                          length (sn_encryption (snapshot_of deployed)))
  | Throw e, Throw e' => e = e'
  | _, _ => False
  end.
Proof.
  apply (decode_agrees_with_service "a.b.c.d.e" "postgres://m" "MDEyMzQ1Njc4OWFiY2RlZjAxMjM0NTY3ODlhYmNkZWY"
    provider (findMany (table (state_of deployed))) policy 1000); [reflexivity|discriminate|discriminate|].
  vm_compute. reflexivity.
Defined.

(** Two forged kids in a row, while the first query is still running. *)
Definition burst : list refresh_event :=
  [Tick 1 100; Answer 1 (Ok (findMany (table (state_of deployed)))); Miss 2 40000; Miss 3 40001;
   Answer 2 (Throw (EPg "57P01")); Miss 4 40002; Miss 5 70000].
Definition after_burst : Registry := default boot (refresh_exec provider burst boot).

Lemma miss_queries_bounded_witness :
  miss_queries after_burst = [40000; 70000] ∧ 40000 + REFRESH_COOLDOWN_MS ≤ 70000.
Proof.
  split; [vm_compute; reflexivity|].
  apply (miss_queries_bounded provider burst after_burst 0 1).
  - vm_compute. reflexivity.
  - repeat constructor; vm_compute; discriminate.
  - lia.
  - vm_compute. reflexivity.
  - vm_compute. reflexivity.
Defined.

Lemma snapshot_is_the_last_answer_witness : snapshot after_burst = snapshot_of deployed.
Proof.
  refine (snapshot_is_the_last_answer provider burst after_burst _). vm_compute. reflexivity.
Defined.
End ServiceSample.
