(* ===== verification/Guards.v ===== *)
(** The guards of the service: services/auth/src/common/authorization-header.ts,
    tenancy/tenant.guard.ts, auth/access-token.guard.ts, rbac/permissions.guard.ts,
    rbac/tenant-authenticated.decorator.ts and tenants/control-plane.guard.ts.

    A guard is a function of the request that returns the request it leaves, or
    throws. Nest runs the guards of a route in order and stops at the first that
    throws. White space is ASCII white space. *)
From S2P Require Import Prelude Domain AuditHash AuditWriter ConnectionManager TenantRouting Keys Tokens.
From S2P Require Import KeyStore KeyRegistry TokenService.
#[local] Open Scope Z_scope.

(** ** Requests *)

Inductive HeaderValue := One (v : string) | Many (vs : list string).

(** What the guards read of a request and what they put on it; a client is the
    database its pool connects to. *)
Record Request := {
  rq_headers : gmap string HeaderValue;      (* names in lower case, as Node gives them *)
  rq_rawHeaders : option (list string);      (* name, value, name, value, as sent *)
  rq_method : string; rq_url : string; rq_route : option string; rq_ip : string;
  rq_tenant : option Tenant; rq_tenantDb : option string; rq_user : option AccessTokenClaims;
}.

(** How many header lines have this name. *)
Fixpoint count_names (name : string) (raw : list string) : nat :=
  match raw with
  | [] => 0
  | n :: rest => (if String.eqb (toLowerCase n) name then 1 else 0) +
                 match rest with [] => 0 | _ :: rest => count_names name rest end
  end.

Definition singleAuthorizationHeader (req : Request) : option string :=
  let header := match rq_headers req !! "authorization" with Some (One v) => Some v | _ => None end in
  match rq_rawHeaders req with
  | Some raw => if Nat.ltb 1 (count_names "authorization" raw) then None else header
  | None => header
  end.

(** ** The tenant *)

(** [value ?? other], then the check that it is one non-empty string. *)
Definition tenantHeader (req : Request) : option string :=
  let value := match rq_headers req !! "x-tenant-id" with
               | Some v => Some v
               | None => rq_headers req !! "x-tenant"
               end in
  match value with
  | Some (One v) => if Nat.ltb 0 (String.length v) then Some v else None
  | _ => None
  end.

Definition with_tenant (req : Request) (t : Tenant) (db : string) : Request :=
  {| rq_headers := rq_headers req; rq_rawHeaders := rq_rawHeaders req; rq_method := rq_method req;
     rq_url := rq_url req; rq_route := rq_route req; rq_ip := rq_ip req;
     rq_tenant := Some t; rq_tenantDb := Some db; rq_user := rq_user req |}.
Definition with_user (req : Request) (c : AccessTokenClaims) : Request :=
  {| rq_headers := rq_headers req; rq_rawHeaders := rq_rawHeaders req; rq_method := rq_method req;
     rq_url := rq_url req; rq_route := rq_route req; rq_ip := rq_ip req;
     rq_tenant := rq_tenant req; rq_tenantDb := rq_tenantDb req; rq_user := Some c |}.

(** [TenantGuard.canActivate]: [rs] is the registry when the tenant is resolved,
    [cache] the client cache when the client is asked for. *)
Definition TenantGuard (rs : list TenantRecord) (cache : gmap string string) (req : Request)
    : M (Request * gmap string string) :=
  match tenantHeader req with
  | None => Throw (EDomain (TenantNotFoundError "(missing x-tenant-id header)"))
  | Some header =>
      tenant ← resolveTenant rs header;
      let (db, cache') := getTenantDb tenant cache in
      Ok (with_tenant req tenant db, cache')
  end.

(** ** The access token *)

(** What the guards and the login need of [TokenService]. *)
Class AccessTokens := {
  issueToken : AccessTokenClaims → M string;
  verifyToken : string → M AccessTokenClaims;
  verify_one_error token e : verifyToken token = Throw e → e = EDomain InvalidAccessTokenError;
  issue_internal c e : issueToken c = Throw e → internal e = true;
}.

(** While it is in date, what was issued is accepted; and it is one word, as the
    base64url segments of a compact serialisation are. *)
Class AccessTokensLaws `(AccessTokens) := {
  issued_is_accepted c token : issueToken c = Ok token → verifyToken token = Ok c;
  issued_is_a_word c token : issueToken c = Ok token → free_of " " token = true ∧ token ≠ "";
}.

Definition bearerToken (req : Request) : M string :=
  match singleAuthorizationHeader req with
  | None => Throw (EDomain InvalidAccessTokenError)
  | Some header =>
      match split_on " " header with
      | [scheme; value] =>
          if String.eqb (toLowerCase scheme) "bearer" && negb (String.eqb value "") then Ok value
          else Throw (EDomain InvalidAccessTokenError)
      | _ => Throw (EDomain InvalidAccessTokenError)
      end
  end.

Definition AccessTokenGuard `{AccessTokens} (req : Request) : M Request :=
  match rq_tenant req with
  | None => Throw (EDomain TenantContextMissingError)
  | Some tenant =>
      token ← bearerToken req;
      claims ← verifyToken token;
      if negb (String.eqb (tid claims) (tenant_id tenant)) then Throw (EDomain CrossTenantTokenError)
      else Ok (with_user req claims)
  end.

(** ** Permissions *)

(** [getAllAndOverride]: the handler's metadata, or the class's. *)
Definition required_permissions (handler class : option (list string)) : list string :=
  default [] (match handler with Some l => Some l | None => class end).

Definition denied_event (req : Request) (required missing : list string) (reason : string) (actorId : option string)
    : AppendAuditEvent :=
  {| ev_action := "authz.denied";
     ev_actorType := match actorId with None => actor_anonymous | Some _ => actor_user end;
     ev_actorId := actorId; ev_resourceType := None; ev_resourceId := None; ev_traceId := None;
     ev_sourceIp := Some (rq_ip req);
     ev_metadata := Some
       [ ("reason", reason); ("method", rq_method req);
         ("route", match rq_route req with Some r => r | None => hd "" (split_on "?" (rq_url req)) end);
         ("required", String.concat "," required); ("missing", String.concat "," missing) ] |}.

Definition ForbiddenException (msg : string) : exn := EHttp 403 (BodyObject (Some (MsgString msg))).

(** What the guard hands to the audit trail, and its answer. *)
Definition PermissionsGuard (handler class : option (list string)) (req : Request)
    : list AppendAuditEvent * M Request :=
  let required := required_permissions handler class in
  match required with
  | [] => ([], Ok req)
  | _ =>
      match rq_user req with
      | None => ([denied_event req required [] "no_authenticated_user" None],
                 Throw (ForbiddenException "No authenticated user"))
      | Some user =>
          let missing := filter (λ p, p ∉ permissions user) required in
          match missing with
          | [] => ([], Ok req)
          | _ => ([denied_event req required missing "missing_permission" (Some (sub user))],
                  Throw (ForbiddenException "Missing required permission"))
          end
      end
  end.

(** [@TenantAuthenticated(...required)] on a handler: the three guards in order. *)
Definition TenantAuthenticated `{AccessTokens} (required : list string) (rs : list TenantRecord)
    (cache : gmap string string) (req : Request) : list AppendAuditEvent * M Request :=
  match TenantGuard rs cache req with
  | Throw e => ([], Throw e)
  | Ok (req1, _) =>
      match AccessTokenGuard req1 with
      | Throw e => ([], Throw e)
      | Ok req2 => PermissionsGuard (Some required) None req2
      end
  end.

(** ** The control plane *)

(** [\s+(\S+)$] on what follows the scheme. *)
Fixpoint skip_spaces (s : string) : string :=
  match s with
  | EmptyString => EmptyString
  | String c s' => if is_js_space c then skip_spaces s' else s
  end.
Definition bearer (header : option string) : option string :=
  match header with
  | None => None
  | Some header =>
      let h := trim header in
      if String.eqb (toLowerCase (String.substring 0 6 h)) "bearer" then
        match String.substring 6 (String.length h - 6) h with
        | EmptyString => None
        | String c rest =>
            let credential := skip_spaces rest in
            if is_js_space c && sall (λ d, negb (is_js_space d)) credential && negb (String.eqb credential "")
            then Some credential else None
        end
      else None
  end.

(** [timingSafeEqual] throws on buffers of different lengths. *)
Definition timingSafeEqual (a b : Buffer) : M bool :=
  if Nat.eqb (byteLength a) (byteLength b) then Ok (String.eqb a b)
  else Throw (EError "Input buffers must have the same byte length").

Definition matches (expected presented : string) : M bool :=
  let candidate := presented in
  if negb (Nat.eqb (byteLength candidate) (byteLength expected)) then Ok false
  else timingSafeEqual candidate expected.

Definition ControlPlaneGuard (controlPlaneApiKey : string) (req : Request) : M bool :=
  match bearer (singleAuthorizationHeader req) with
  | None => Throw (EDomain ControlPlaneUnauthorizedError)
  | Some presented =>
      if String.eqb presented "" then Throw (EDomain ControlPlaneUnauthorizedError)
      else
        ok ← matches controlPlaneApiKey presented;
        if negb ok then Throw (EDomain ControlPlaneUnauthorizedError) else Ok true
  end.

(** ** The chain *)

Section chain.
Context `{AccessTokens}.

Lemma resolve_throws rs x e : resolveTenant rs x = Throw e → e = EDomain (TenantNotFoundError x).
Proof.
  unfold resolveTenant. destruct (if UUID x then _ else _) as [r|]; [|by intros [= <-]].
  case_decide; [done|by intros [= <-]].
Qed.

Lemma TenantGuard_Ok rs cache req r : TenantGuard rs cache req = Ok r ↔
  ∃ x t, tenantHeader req = Some x ∧ resolveTenant rs x = Ok t ∧
    r = (with_tenant req t (getTenantDb t cache).1, (getTenantDb t cache).2).
Proof.
  unfold TenantGuard. destruct (tenantHeader req) as [x|]; [|split; [done|by intros (? & ? & ? & _)]].
  rewrite mbind_rbind. destruct (resolveTenant rs x) as [t|e] eqn:E; cbn [rbind];
    [|split; [done|by intros (? & ? & [= <-] & ? & _); congruence]].
  destruct (getTenantDb t cache) as [db cache'] eqn:Ec. split.
  - intros [= <-]. exists x, t. by rewrite Ec.
  - intros (x' & t' & [= <-] & Ht & ->). assert (t' = t) as -> by congruence. by rewrite Ec.
Qed.

Lemma bearerToken_throws req e : bearerToken req = Throw e → e = EDomain InvalidAccessTokenError.
Proof. unfold bearerToken. intros He. repeat case_match; congruence. Qed.

Lemma AccessTokenGuard_Ok req t req' : rq_tenant req = Some t →
  AccessTokenGuard req = Ok req' ↔
  ∃ token c, bearerToken req = Ok token ∧ verifyToken token = Ok c ∧ tid c = tenant_id t ∧ req' = with_user req c.
Proof.
  unfold AccessTokenGuard. intros ->. rewrite mbind_rbind.
  destruct (bearerToken req) as [token|]; cbn [rbind]; [|split; [done|by intros (? & ? & ? & _)]].
  rewrite mbind_rbind.
  destruct (verifyToken token) as [c|] eqn:Ev; cbn [rbind];
    [|split; [done|by intros (? & ? & [= <-] & ? & _); congruence]].
  destruct (String.eqb_spec (tid c) (tenant_id t)) as [Ht|Ht]; cbn; split; try done.
  - intros [= <-]. by exists token, c.
  - intros (? & c' & [= <-] & Hc & _ & ->). assert (c' = c) as -> by congruence. done.
  - intros (? & c' & [= <-] & Hc & Ht' & _). congruence.
Qed.

Lemma AccessTokenGuard_throws req t e : rq_tenant req = Some t → AccessTokenGuard req = Throw e →
  e = EDomain InvalidAccessTokenError ∨ e = EDomain CrossTenantTokenError.
Proof.
  unfold AccessTokenGuard. intros ->. rewrite mbind_rbind.
  destruct (bearerToken req) as [token|e0] eqn:E1; cbn [rbind];
    [|intros [= <-]; left; by eapply bearerToken_throws].
  rewrite mbind_rbind. destruct (verifyToken token) as [c|e0] eqn:E2; cbn [rbind];
    [|intros [= <-]; left; by eapply verify_one_error].
  destruct (negb _); [intros [= <-]; by right|done].
Qed.

(** The last guard of the chain, on a request that has a user. *)
Lemma PermissionsGuard_cases required c req : rq_user req = Some c →
  (∀ p, p ∈ required → p ∈ permissions c) ∧ PermissionsGuard (Some required) None req = ([], Ok req) ∨
  ∃ missing, missing ≠ [] ∧ (∀ p, p ∈ missing ↔ p ∈ required ∧ p ∉ permissions c) ∧
    PermissionsGuard (Some required) None req
    = ([denied_event req required missing "missing_permission" (Some (sub c))],
       Throw (ForbiddenException "Missing required permission")).
Proof.
  unfold PermissionsGuard, required_permissions. intros ->. simpl. destruct required as [|p0 ps]; [left; split; [set_solver|done]|].
  set (required := p0 :: ps).
  destruct (filter (λ p, p ∉ permissions c) required) as [|m ms] eqn:Ef; [left|right].
  - split; [|done]. intros p Hp. destruct (decide (p ∈ permissions c)); [done|]. exfalso.
    apply (not_elem_of_nil p). rewrite <- Ef. by apply list_elem_of_filter.
  - exists (m :: ms). split_and!; [done| |done]. intros p. rewrite <- Ef, list_elem_of_filter. tauto.
Qed.

(** What it takes to pass the chain. *)
Lemma TenantAuthenticated_Ok required rs cache req req' :
  (TenantAuthenticated required rs cache req).2 = Ok req' ↔
  ∃ x t token c, tenantHeader req = Some x ∧ resolveTenant rs x = Ok t ∧
    bearerToken req = Ok token ∧ verifyToken token = Ok c ∧ tid c = tenant_id t ∧
    (∀ p, p ∈ required → p ∈ permissions c) ∧
    req' = with_user (with_tenant req t (getTenantDb t cache).1) c.
Proof.
  unfold TenantAuthenticated. split.
  - destruct (TenantGuard rs cache req) as [[req1 cache']|e] eqn:E1; [|done].
    apply TenantGuard_Ok in E1 as (x & t & Hx & Ht & [= -> ->]).
    destruct (AccessTokenGuard _) as [req2|e] eqn:E2; [|done].
    apply (AccessTokenGuard_Ok _ t) in E2 as (token & c & Hb & Hv & Htid & ->); [|done].
    destruct (PermissionsGuard_cases required c (with_user (with_tenant req t (getTenantDb t cache).1) c) eq_refl)
      as [[Hp ->]|(? & _ & _ & ->)]; [|done].
    intros [= <-]. by exists x, t, token, c.
  - intros (x & t & token & c & Hx & Ht & Hb & Hv & Htid & Hp & ->).
    rewrite (proj2 (TenantGuard_Ok rs cache req _)) by (exists x, t; by split_and!).
    cbv beta iota. rewrite (proj2 (AccessTokenGuard_Ok (with_tenant req t (getTenantDb t cache).1) t _ eq_refl))
      by (exists token, c; by split_and!).
    destruct (PermissionsGuard_cases required c (with_user (with_tenant req t (getTenantDb t cache).1) c) eq_refl)
      as [[_ ->]|(missing & Hne & Hm & _)]; [done|].
    destruct missing as [|m ms]; [done|]. exfalso. destruct (proj1 (Hm m) (list_elem_of_here _ _)) as [Hin Hnot]. auto.
Qed.

(** C3. Access control, exactly: a handler behind [@TenantAuthenticated] runs if and
    only if the tenant header names an active tenant, exactly one well-formed
    bearer header carries a token that verifies, that token was issued for this
    very tenant, and its claims hold every permission the route declares. The
    handler then sees this tenant, this tenant's client and those claims. *)
Theorem authorization_exact required rs cache req req' :
  (TenantAuthenticated required rs cache req).2 = Ok req' ↔
  ∃ x t token c, tenantHeader req = Some x ∧ resolveTenant rs x = Ok t ∧
    bearerToken req = Ok token ∧ verifyToken token = Ok c ∧ tid c = tenant_id t ∧
    (∀ p, p ∈ required → p ∈ permissions c) ∧
    req' = with_user (with_tenant req t (getTenantDb t cache).1) c.
Proof. apply TenantAuthenticated_Ok. Qed.

(** Refusals are uniform and recorded: a refused request gets one of four
    answers; only a missing permission is reported to the audit trail, as exactly
    one event that names the caller and that the audit table accepts, and every
    other request, accepted or refused, leaves no such event. *)
Theorem refusals_are_uniform required rs cache req :
  let '(events, answer) := TenantAuthenticated required rs cache req in
  match answer with
  | Ok _ => events = []
  | Throw e =>
      (events = [] ∧
        ((∃ x, e = EDomain (TenantNotFoundError x)) ∨ e = EDomain InvalidAccessTokenError ∨
         e = EDomain CrossTenantTokenError)) ∨
      (e = ForbiddenException "Missing required permission" ∧
       ∃ c ev, events = [ev] ∧ ev_action ev = "authz.denied" ∧ ev_actorId ev = Some (sub c) ∧
         ev_sourceIp ev = Some (rq_ip req) ∧ event_ck ev = true ∧ wf_append ev)
  end.
Proof.
  unfold TenantAuthenticated.
  destruct (TenantGuard rs cache req) as [[req1 cache']|e] eqn:E1.
  - apply TenantGuard_Ok in E1 as (x & t & Hx & Ht & [= -> ->]).
    destruct (AccessTokenGuard _) as [req2|e] eqn:E2.
    + apply (AccessTokenGuard_Ok _ t) in E2 as (token & c & _ & _ & _ & ->); [|done].
      destruct (PermissionsGuard_cases required c (with_user (with_tenant req t (getTenantDb t cache).1) c) eq_refl)
        as [[Hp ->]|(missing & _ & _ & ->)]; [done|]. right. split; [done|].
      eexists c, _. split_and!; [done..|]. unfold wf_append. cbn. repeat constructor; set_solver.
    + left. split; [done|]. apply (AccessTokenGuard_throws _ t) in E2; [tauto|done].
  - left. split; [done|]. left. unfold TenantGuard in E1. destruct (tenantHeader req) as [x|]; [|injection E1 as <-; eauto].
    rewrite mbind_rbind in E1. destruct (resolveTenant rs x) as [t|e'] eqn:Er; cbn [rbind] in E1.
    + by destruct (getTenantDb t cache).
    + injection E1 as <-. apply resolve_throws in Er as ->. eauto.
Qed.
End chain.

(** ** Two credentials are none *)

Lemma repeated_is_none req raw :
  rq_rawHeaders req = Some raw → (1 < count_names "authorization" raw)%nat → singleAuthorizationHeader req = None.
Proof. unfold singleAuthorizationHeader. intros -> Hc. by rewrite (proj2 (Nat.ltb_lt _ _) Hc). Qed.

(** A request that carries two Authorization lines, in whatever case and
    whatever they hold, is judged on neither: both planes answer as if it had
    carried none, even when either credential alone would have been accepted. *)
Theorem two_credentials_are_none `{AccessTokens} req raw t key :
  rq_rawHeaders req = Some raw → (1 < count_names "authorization" raw)%nat → rq_tenant req = Some t →
  AccessTokenGuard req = Throw (EDomain InvalidAccessTokenError) ∧
  ControlPlaneGuard key req = Throw (EDomain ControlPlaneUnauthorizedError).
Proof.
  intros Hraw Hc Ht. pose proof (repeated_is_none _ _ Hraw Hc) as Hn. split.
  - unfold AccessTokenGuard, bearerToken. by rewrite Ht, Hn.
  - unfold ControlPlaneGuard. by rewrite Hn.
Qed.

(** ** The control-plane credential *)

Definition all_space : string → bool := sall is_js_space.
Definition no_space : string → bool := sall (λ c, negb (is_js_space c)).

Lemma trimStart_split s : ∃ pre, s = pre +:+ trimStart s ∧ all_space pre = true.
Proof.
  induction s as [|c s (pre & He & Hp)]; [by exists ""|]. simpl. destruct (is_js_space c) eqn:Ec.
  - exists (String c pre). split; [exact (f_equal (String c) He)|]. unfold all_space in *. simpl. by rewrite Ec.
  - by exists "".
Qed.

Lemma trimEnd_split s : ∃ post, s = trimEnd s +:+ post ∧ all_space post = true.
Proof.
  induction s as [|c s (post & He & Hp)]; [by exists ""|]. simpl. destruct (trimEnd s) as [|d t] eqn:Et.
  - simpl in He. subst post. destruct (is_js_space c) eqn:Ec; [|by exists s].
    exists (String c s). split; [done|]. unfold all_space in *. simpl. by rewrite Ec.
  - exists post. split; [exact (f_equal (String c) He)|done].
Qed.

Lemma trimStart_app pre s : all_space pre = true → trimStart (pre +:+ s) = trimStart s.
Proof.
  induction pre as [|c pre IH]; [done|]. unfold all_space in *. simpl. destruct (is_js_space c); [|done]. auto.
Qed.

Lemma trimEnd_space post : all_space post = true → trimEnd post = "".
Proof.
  induction post as [|c post IH]; [done|]. unfold all_space in *. simpl.
  destruct (is_js_space c); [|done]. simpl. intros Hp. by rewrite IH.
Qed.

Lemma trimEnd_app s post : all_space post = true → trimEnd (s +:+ post) = trimEnd s.
Proof. intros Hp. induction s as [|c s IH]; [by apply trimEnd_space|]. simpl. by rewrite IH. Qed.

(** Nothing is cut off a text that ends in a word. *)
Lemma trimEnd_word a k : no_space k = true → k ≠ "" → trimEnd (a +:+ k) = a +:+ k.
Proof.
  intros Hk Hne. induction a as [|c a IH]; simpl.
  - induction k as [|d k IHk]; [done|]. unfold no_space in *. simpl in *.
    apply andb_true_iff in Hk as [Hd Hk]. destruct k as [|d' k']; [simpl; by destruct (is_js_space d)|].
    rewrite IHk by done. done.
  - rewrite IH. destruct (a +:+ k) eqn:E; [|done]. destruct a, k; done.
Qed.

Lemma skip_spaces_app sp k : all_space sp = true → skip_spaces (sp +:+ k) = skip_spaces k.
Proof.
  induction sp as [|c sp IH]; [done|]. unfold all_space in *. simpl. destruct (is_js_space c); [|done]. auto.
Qed.

Lemma skip_spaces_split s : ∃ sp, s = sp +:+ skip_spaces s ∧ all_space sp = true.
Proof.
  induction s as [|c s (sp & He & Hs)]; [by exists ""|]. simpl. destruct (is_js_space c) eqn:Ec; [|by exists ""].
  exists (String c sp). split; [exact (f_equal (String c) He)|]. unfold all_space in *. simpl. by rewrite Ec.
Qed.

Lemma skip_spaces_word k : no_space k = true → skip_spaces k = k.
Proof. destruct k as [|c k]; [done|]. unfold no_space. simpl. by destruct (is_js_space c). Qed.

(** What the header has to look like: RFC 9110's scheme in any case, white space,
    the credential, and white space around the whole. *)
Definition presents (h credential : string) : Prop :=
  ∃ pre scheme sp post, h = pre +:+ scheme +:+ sp +:+ credential +:+ post ∧
    toLowerCase scheme = "bearer" ∧ all_space pre = true ∧ all_space sp = true ∧ sp ≠ "" ∧
    all_space post = true ∧ no_space credential = true ∧ credential ≠ "".

(** A character whose lower case is a letter is no space. *)
Lemma scheme_not_space c s : lower_char c = "b"%char → trimStart (String c s) = String c s.
Proof.
  intros Hc. simpl. destruct (is_js_space c) eqn:E; [|done]. exfalso.
  destruct c as [[] [] [] [] [] [] [] []]; vm_compute in Hc, E; discriminate.
Qed.

Lemma bearer_presents h k : bearer (Some h) = Some k → presents h k.
Proof.
  unfold bearer. destruct (trimStart_split h) as (pre & Hpre & Hsp). destruct (trimEnd_split (trimStart h)) as (post & Hpost & Hps).
  fold (trim h) in Hpost. set (t := trim h) in *.
  destruct (String.eqb_spec (toLowerCase (String.substring 0 6 t)) "bearer") as [Hlow|]; [|done].
  assert (Hlen : String.length (String.substring 0 6 t) = 6%nat)
    by (rewrite <- (smap_length lower_char); change (smap lower_char) with toLowerCase; by rewrite Hlow).
  assert (Ht : t = String.substring 0 6 t +:+ String.substring 6 (String.length t - 6) t).
  { assert (Hge : (6 ≤ String.length t)%nat).
    { destruct (Nat.le_gt_cases 6 (String.length t)) as [|Hlt]; [done|]. exfalso.
      assert (∀ n s, (String.length s < n)%nat → (String.length (String.substring 0 n s) < n)%nat) as Hs.
      { induction n as [|n IH]; intros [|c s] Hl; simpl in *; try lia. specialize (IH s ltac:(lia)). lia. }
      specialize (Hs 6%nat t Hlt). lia. }
    pose proof (substring_split 0 6 t ltac:(lia)) as He.
    replace (String.substring 0 0 t) with ""%string in He by (by destruct t). exact (eq_sym He). }
  destruct (String.substring 6 _ t) as [|c rest] eqn:Er; [done|].
  destruct (skip_spaces_split rest) as (sp & Hrest & Hsps).
  destruct (is_js_space c) eqn:Ec; [|done]. cbn [andb].
  destruct (sall _ (skip_spaces rest)) eqn:En; [|done]. destruct (String.eqb_spec (skip_spaces rest) "") as [|Hne]; [done|].
  intros [= <-]. exists pre, (String.substring 0 6 t), (String c sp), post. split_and!; try done.
  - rewrite Hpre, Hpost. f_equal. rewrite Ht at 1. rewrite Hrest at 1. rewrite sapp_assoc. f_equal. cbn [String.append]. by rewrite sapp_assoc.
  - unfold all_space in *. simpl. by rewrite Ec.
Qed.

Lemma presents_bearer h k : presents h k → bearer (Some h) = Some k.
Proof.
  intros (pre & scheme & sp & post & -> & Hs & Hpre & Hsp & Hne & Hpost & Hk & Hk').
  assert (Hl : String.length scheme = 6%nat)
    by (rewrite <- (smap_length lower_char); change (smap lower_char) with toLowerCase; by rewrite Hs).
  assert (Htrim : trim (pre +:+ scheme +:+ sp +:+ k +:+ post) = scheme +:+ sp +:+ k).
  { unfold trim. rewrite trimStart_app by done. destruct scheme as [|c scheme]; [done|].
    assert (Hc : lower_char c = "b"%char) by (unfold toLowerCase in Hs; simpl in Hs; by injection Hs).
    change (String c scheme +:+ sp +:+ k +:+ post) with (String c (scheme +:+ sp +:+ k +:+ post)).
    rewrite scheme_not_space by done.
    change (String c (scheme +:+ sp +:+ k +:+ post)) with (String c scheme +:+ sp +:+ k +:+ post).
    rewrite <- !sapp_assoc, trimEnd_app by done. by rewrite trimEnd_word. }
  unfold bearer. rewrite Htrim. rewrite <- Hl at 1. rewrite substring_prefix, Hs. cbn [String.eqb Ascii.eqb].
  replace (String.substring 6 (String.length (scheme +:+ sp +:+ k) - 6) (scheme +:+ sp +:+ k)) with (sp +:+ k).
  2: { rewrite slength_app, Hl. replace (6 + _ - 6)%nat with (String.length (sp +:+ k)) by lia.
       rewrite <- Hl at 1. by rewrite substring_suffix. }
  destruct sp as [|c sp]; [done|]. unfold all_space in Hsp. simpl in Hsp. apply andb_true_iff in Hsp as [Hc Hsp].
  cbn [String.append]. rewrite skip_spaces_app, skip_spaces_word by done.
  unfold no_space in Hk. rewrite Hc, Hk. by destruct (String.eqb_spec k "").
Qed.

Lemma matches_spec expected presented : matches expected presented = Ok (String.eqb presented expected).
Proof.
  unfold matches, timingSafeEqual. destruct (Nat.eqb_spec (byteLength presented) (byteLength expected)) as [Hl|Hl]; [done|].
  cbn. destruct (String.eqb_spec presented expected) as [->|]; done.
Qed.

(** The control plane opens to its credential and to nothing else: the guard
    passes exactly the requests with one Authorization line that presents the
    configured key as a bearer, byte for byte; every other request gets the same
    401, and none makes the comparison throw. *)
Theorem control_plane_exact key req :
  match ControlPlaneGuard key req with
  | Ok b => b = true ∧ ∃ h, singleAuthorizationHeader req = Some h ∧ presents h key
  | Throw e => e = EDomain ControlPlaneUnauthorizedError ∧
               ∀ h, singleAuthorizationHeader req = Some h → ¬ presents h key
  end.
Proof.
  unfold ControlPlaneGuard. destruct (singleAuthorizationHeader req) as [h|] eqn:Eh; [|done].
  destruct (bearer (Some h)) as [k|] eqn:Eb.
  - pose proof (bearer_presents _ _ Eb) as Hp. destruct (String.eqb_spec k "") as [->|Hne].
    { exfalso. destruct Hp as (? & ? & ? & ? & _ & _ & _ & _ & _ & _ & _ & []). done. }
    rewrite matches_spec, mbind_rbind. cbn [rbind]. destruct (String.eqb_spec k key) as [->|Hk]; cbn; [by eauto|].
    split; [done|]. intros h' [= <-] Hp'%presents_bearer. congruence.
  - split; [done|]. intros h' [= <-] Hp%presents_bearer. congruence.
Qed.

(** ** The whole path of a request *)

(** [TokenService] as the guards and the login see it, at the moments they call
    it. *)
Section service_tokens.
Context `{AesGcm} `{JK : JoseKeys} `{!JoseKeysLaws JK} `{JT : !JoseTokens} `{!JoseTokensLaws JT}.

Lemma verify_only_error token s0 s1 policy now0 now1 e :
  verify token s0 s1 policy now0 now1 = Throw e → e = EDomain InvalidAccessTokenError.
Proof.
  destruct (verify_cases token s0 s1 policy now0 now1) as [(c & v & s & now & -> & _)| ->]; [done|congruence].
Qed.

Lemma internal_bind {A B} (m : M A) (k : A → M B) :
  (∀ e, m = Throw e → internal e = true) → (∀ a e, k a = Throw e → internal e = true) →
  ∀ e, (m ≫= k) = Throw e → internal e = true.
Proof. intros Hm Hk e. rewrite mbind_rbind. destruct m as [a|e']; cbn; [apply Hk|]. intros [= ->]. by apply Hm. Qed.

Lemma issue_error policy s c n1 n2 rnd e : issue s policy c n1 n2 rnd = Throw e → internal e = true.
Proof.
  revert e. unfold issue. apply internal_bind; [unfold activeMaterial; intros e; repeat case_match; by intros [= <-]|].
  intros m. unfold issueNestedToken. apply internal_bind; [|done]. unfold assertMaterial.
  apply internal_bind; [intros e; destruct (negb _); by intros [= <-]|]. intros _.
  apply internal_bind; [intros e; destruct (_ || _); by intros [= <-]|].
  intros _ e. destruct (String.eqb _ _); by intros [= <-].
Qed.

(** [s]: the snapshot when a token is issued; [s0] and [s1]: the snapshots before
    and after the refresh a failed verification asks for. *)
Definition service_tokens (policy : TokenPolicy) (s : Snapshot) (iat_now exp_now : Z) (rnd : Buffer)
    (s0 s1 : Snapshot) (now0 now1 : Z) : AccessTokens :=
  {| issueToken c := issue s policy c iat_now exp_now rnd;
     verifyToken token := verify token s0 s1 policy now0 now1;
     verify_one_error token e := verify_only_error token s0 s1 policy now0 now1 e;
     issue_internal c e := issue_error policy s c iat_now exp_now rnd e |}.
End service_tokens.

Section routed.
Context `{Sha256} `{AccessTokens}.

Lemma route_exec_app tr1 tr2 s s1 :
  route_exec tr1 s = Some s1 → route_exec (tr1 ++ tr2) s = route_exec tr2 s1.
Proof.
  revert s. induction tr1 as [|l tr1 IH]; intros s Hr; [by injection Hr as ->|].
  simpl in *. destruct (route_step l s); [by apply IH|done].
Qed.

Lemma resolved_grows tr s s' t : route_exec tr s = Some s' → t ∈ resolved s → t ∈ resolved s'.
Proof.
  revert s. induction tr as [|l tr IH]; intros s Hr Ht; [by injection Hr as <-|].
  simpl in Hr. destruct (route_step l s) as [s1|] eqn:E; [|done]. apply (IH s1 Hr).
  destruct l as [l|x|t0|]; simpl in E.
  - destruct (prov_step l (deployment s)); [|done]. by injection E as <-.
  - destruct (resolveTenant _ x); injection E as <-; [by apply elem_of_cons; right|done].
  - case_decide; [|done]. destruct (getTenantDb t0 (tenantCache s)). by injection E as <-.
  - by injection E as <-.
Qed.

(** C2. No request crosses tenants: in every reachable deployment, and whatever
    provisioning, deletion and other requests come between resolving the tenant
    and taking its client, an authorized request works on a database that is
    marked for the tenant its own token names, holds the tenant schema, and
    belongs to no other tenant. *)
Theorem authorized_request_stays_in_its_tenant tr1 x tr2 s1 s2 required req req' :
  route_exec tr1 idle = Some s1 → route_exec (ResolveTenant x :: tr2) s1 = Some s2 →
  Forall wf_label (prov_labels (tr1 ++ ResolveTenant x :: tr2)) →
  NoDup (ids_of (prov_labels (tr1 ++ ResolveTenant x :: tr2))) →
  tenantHeader req = Some x →
  (TenantAuthenticated required (registry (deployment s1)) (tenantCache s2) req).2 = Ok req' →
  ∃ c db d, rq_user req' = Some c ∧ rq_tenantDb req' = Some db ∧
    (∀ p, p ∈ required → p ∈ permissions c) ∧
    cluster (deployment s2) !! db = Some d ∧ tables d = Some tenant_schema ∧
    ∀ id, comment d = Some (tenantDatabaseMarker id) ↔ id = tid c.
Proof.
  intros H1 H2 Hwf Hnd Hx Hok.
  apply authorization_exact in Hok as (x' & t & token & c & Hx' & Ht & _ & _ & Htid & Hp & ->).
  assert (x' = x) as -> by congruence.
  destruct (route_inv_exec (tr1 ++ ResolveTenant x :: tr2) [] idle s2) as [used Hinv];
    [by rewrite (route_exec_app _ _ _ s1)|done|apply idle_inv|done|set_solver|].
  assert (Hin : t ∈ resolved s2).
  { cbn [route_exec route_step] in H2. rewrite Ht in H2. eapply resolved_grows; [exact H2|]. apply list_elem_of_here. }
  destruct (getTenantDb_own used s2 t Hinv Hin) as [Hdb _].
  destruct (ri_settled _ _ Hinv t Hin) as [(d & Hd & Hc & Hs) _].
  exists c, (tenant_databaseName t), d. cbn [rq_user rq_tenantDb with_user with_tenant]. rewrite Hdb.
  split_and!; try done. intros id. rewrite Hc, Htid. split; [|by intros ->].
  intros [= He]. by rewrite He.
Qed.
End routed.

(** ** The hypotheses can hold *)

Module GuardsSample.
#[local] Existing Instance Sample.toy.
Import KeysSample TokensSample KeyStoreSample ServiceSample ProvisioningSample RoutingSample.

Definition admin : AccessTokenClaims :=
  {| sub := "u1"; tid := id1; roles := ["tenant-admin"]; permissions := ["users:read"; "users:write"] |}.

(** The instance issues and verifies with the keys of its registry. *)
#[export] Instance tokens : AccessTokens :=
  service_tokens policy (snapshot_of deployed) 200 200 "" (snapshot_of deployed) EMPTY 250000 0.

Definition admin_token : string := default "" (to_option (issueToken admin)).

Definition request (tenant : string) (authorization : string) (raw : list string) : Request :=
  {| rq_headers := <["x-tenant-id" := One tenant]> {[ "authorization" := One authorization ]};
     rq_rawHeaders := Some raw; rq_method := "GET"; rq_url := "/api/users?page=2"; rq_route := Some "/api/users";
     rq_ip := "203.0.113.7"; rq_tenant := None; rq_tenantDb := None; rq_user := None |}.
Definition own : Request :=
  request "acme" ("Bearer " +:+ admin_token) ["X-Tenant-Id"; "acme"; "Authorization"; "Bearer " +:+ admin_token].

Definition provisioned : list route_label := map Elsewhere (provision_statements 1 acme id1).
Definition meanwhile : list route_label := [Elsewhere (DeleteRow id1)].
Definition before_request : route_state := default idle (route_exec provisioned idle).
Definition at_handler : route_state := default idle (route_exec (ResolveTenant "acme" :: meanwhile) before_request).

Definition run_chain (required : list string) (req : Request) : list AppendAuditEvent * M Request :=
  TenantAuthenticated required (registry (deployment before_request)) (tenantCache at_handler) req.

(** What the chain does with a good request, one without the permission, one for
    a tenant that does not exist, and one with no token. *)
Example chain_answers :
  (∃ r, (run_chain ["users:read"] own).2 = Ok r ∧ rq_tenantDb r = Some "tenant_acme") ∧
  (run_chain ["roles:manage"] own).2 = Throw (ForbiddenException "Missing required permission") ∧
  length (run_chain ["roles:manage"] own).1 = 1%nat ∧
  (run_chain [] (request "globex" "" [])).2 = Throw (EDomain (TenantNotFoundError "globex")) ∧
  (run_chain [] (request "acme" "Basic YTpi" [])).2 = Throw (EDomain InvalidAccessTokenError).
Proof. split_and!; try (vm_compute; reflexivity). eexists. split; vm_compute; reflexivity. Qed.

Lemma authorized_request_stays_in_its_tenant_witness :
  is_Some (to_option (run_chain ["users:read"] own).2) ∧
  ∀ r, (run_chain ["users:read"] own).2 = Ok r →
  ∃ c db d, rq_user r = Some c ∧ rq_tenantDb r = Some db ∧ (∀ p, p ∈ ["users:read"] → p ∈ permissions c) ∧
    cluster (deployment at_handler) !! db = Some d ∧ tables d = Some tenant_schema ∧
    ∀ id, comment d = Some (tenantDatabaseMarker id) ↔ id = tid c.
Proof.
  split; [vm_compute; eauto|]. intros r Hr.
  apply (authorized_request_stays_in_its_tenant provisioned "acme" meanwhile before_request at_handler ["users:read"] own r).
  - vm_compute. reflexivity.
  - vm_compute. reflexivity.
  - repeat constructor.
  - compute_decide.
  - vm_compute. reflexivity.
  - exact Hr.
Defined.

Definition twice : Request :=
  with_tenant (request "acme" ("Bearer " +:+ admin_token)
    ["authorization"; "Bearer " +:+ admin_token; "AUTHORIZATION"; "Bearer other"]) tenant_acme "tenant_acme".
Lemma two_credentials_are_none_witness :
  AccessTokenGuard twice = Throw (EDomain InvalidAccessTokenError) ∧
  ControlPlaneGuard "secret" twice = Throw (EDomain ControlPlaneUnauthorizedError).
Proof.
  apply (two_credentials_are_none twice
    ["authorization"; "Bearer " +:+ admin_token; "AUTHORIZATION"; "Bearer other"] tenant_acme).
  - reflexivity.
  - vm_compute. lia.
  - reflexivity.
Defined.

Example control_plane_forms :
  ControlPlaneGuard "k3y" (request "x" "  bEARER   k3y " []) = Ok true ∧
  ControlPlaneGuard "k3y" (request "x" "Bearer k3y x" []) = Throw (EDomain ControlPlaneUnauthorizedError) ∧
  ControlPlaneGuard "k3y" (request "x" "Bearerk3y" []) = Throw (EDomain ControlPlaneUnauthorizedError) ∧
  ControlPlaneGuard "k3y" (request "x" "Bearer k3yy" []) = Throw (EDomain ControlPlaneUnauthorizedError).
Proof. vm_compute. split_and!; reflexivity. Qed.
End GuardsSample.
