(* ===== verification/AuditTrail.v ===== *)
(** Recording events on the right chain: services/auth/src/audit/audit.service.ts,
    the request context it reads (tenancy/tenant-context.service.ts) and the
    provisioning endpoint (tenants/tenants.service.ts).

    [appendAuditEvent] is a parameter here, because other processes append to the
    same chain between two calls: AuditWriter.v says what it does to the table. *)
From S2P Require Import Prelude Domain AuditHash AuditWriter ConnectionManager.
#[local] Open Scope Z_scope.

(** ** The request's tenant *)

(** What TenantGuard put on the request. *)
Record RequestWithTenant := { req_tenant : option Tenant; req_tenantDb : option string }.

Definition tenant (req : RequestWithTenant) : M Tenant :=
  match req_tenant req with None => Throw (EDomain TenantContextMissingError) | Some t => Ok t end.
Definition db (req : RequestWithTenant) : M string :=
  match req_tenantDb req with None => Throw (EDomain TenantContextMissingError) | Some d => Ok d end.

(** ** The trail *)

(** The chain of the master database, or of the database a client connects to. *)
Inductive chain := Master | TenantChain (databaseName : string).

(** An error line: everything needed to reconstruct the event. *)
Record LostEvent := { lost_where : option chain; lost_event : AppendAuditEvent; lost_reason : exn }.

Record trail (A : Type) := { chains : A; lost : list LostEvent }.
Arguments chains {A} t.
Arguments lost {A} t.

Section audit.
Context {A : Type} (appendAuditEvent : chain → AppendAuditEvent → A → A * M AppendedAuditEvent).

Definition append (client : chain) (event : AppendAuditEvent) (s : trail A) : trail A :=
  match appendAuditEvent client event (chains s) with
  | (c, Ok _) => {| chains := c; lost := lost s |}
  | (c, Throw err) =>
      {| chains := c; lost := lost s ++ [{| lost_where := Some client; lost_event := event; lost_reason := err |}] |}
  end.

Definition tenantEvent (req : RequestWithTenant) (event : AppendAuditEvent) (s : trail A) : trail A :=
  match (client ← db req; t ← tenant req; Ok client) with
  | Throw err =>
      {| chains := chains s; lost := lost s ++ [{| lost_where := None; lost_event := event; lost_reason := err |}] |}
  | Ok client => append (TenantChain client) event s
  end.

Definition controlPlaneEvent (event : AppendAuditEvent) (s : trail A) : trail A := append Master event s.

(** Every event ends up in exactly one of two places. *)
Lemma append_or_lost client event s :
  (∃ a, (appendAuditEvent client event (chains s)).2 = Ok a ∧ lost (append client event s) = lost s) ∨
  (∃ e, (appendAuditEvent client event (chains s)).2 = Throw e ∧
     lost (append client event s) = lost s ++ [{| lost_where := Some client; lost_event := event; lost_reason := e |}]).
Proof.
  unfold append. destruct (appendAuditEvent client event (chains s)) as [c [a|e]]; [left|right]; eauto.
Qed.

(** ** Provisioning a tenant over HTTP *)

Definition provisioned_event (p : ProvisionedTenant) : AppendAuditEvent :=
  {| ev_action := "tenant.provisioned"; ev_actorType := actor_control_plane; ev_actorId := None;
     ev_resourceType := Some "tenant"; ev_resourceId := Some (tenant_id (prov_tenant p)); ev_traceId := None;
     ev_sourceIp := None;
     ev_metadata := Some
       ([("slug", tenant_slug (prov_tenant p)); ("databaseName", tenant_databaseName (prov_tenant p))] ++
        if prov_resumed p then [("resumed", "true")] else []) |}.

(** [TenantsService.provision]; [provisioned] is what [provisionTenant] answered. *)
Definition provision (provisioned : M ProvisionedTenant) (s : trail A) : trail A * M Tenant :=
  match provisioned with
  | Throw e => (s, Throw e)
  | Ok p => (controlPlaneEvent (provisioned_event p) s, Ok (prov_tenant p))
  end.

(** A tenant is answered for if and only if it was provisioned, whatever becomes
    of the record; and the record is one the master chain's constraints accept,
    on the master chain, or else in the log. *)
Theorem provision_records provisioned s :
  (provision provisioned s).2 = (p ← provisioned; Ok (prov_tenant p)) ∧
  match provisioned with
  | Throw _ => (provision provisioned s).1 = s
  | Ok p =>
      event_ck (provisioned_event p) = true ∧ wf_append (provisioned_event p) ∧
      ((∃ a, (appendAuditEvent Master (provisioned_event p) (chains s)).2 = Ok a ∧
          lost (provision provisioned s).1 = lost s) ∨
       ∃ e, lost (provision provisioned s).1
         = lost s ++ [{| lost_where := Some Master; lost_event := provisioned_event p; lost_reason := e |}])
  end.
Proof.
  destruct provisioned as [p|e]; [|done]. split; [done|]. split_and!; [done| |].
  - unfold wf_append, provisioned_event. destruct (prov_resumed p); cbn; repeat constructor; set_solver.
  - destruct (append_or_lost Master (provisioned_event p) s) as [(a & Ha & Hl)|(e & _ & Hl)]; [left|right]; eauto.
Qed.
End audit.
