(* ===== verification/AuthService.v ===== *)
(** Registering and logging in: services/auth/src/auth/auth.service.ts and
    auth/password.service.ts, over packages/crypto/src/passwords.ts and the users
    and roles of packages/db/prisma/tenant/schema.prisma.

    A method is a function of the [world] (the limiter, the tenant's tables, the
    process's decoy hash, the audit trail) that returns the world after it and
    what it answered or threw. [fault] says which database calls fail, and how;
    moments are when a call reaches Redis. *)
From S2P Require Import Prelude Domain AuditHash AuditWriter RateLimit Limiter LoginThrottle TokenService.
From S2P Require Import Guards AuditTrail.
#[local] Open Scope Z_scope.

(** ** Passwords *)

Record HashOptions := { argon_type : string; memoryCost : Z; timeCost : Z; parallelism : Z }.

Definition ARGON2_OPTIONS : HashOptions :=
  {| argon_type := "argon2id"; memoryCost := 19456; timeCost := 2; parallelism := 1 |}.

(** The argon2 package; an error is its message. A salt is drawn per hash. *)
Class Argon2 := {
  argon2_hash : string → HashOptions → Buffer → result string string;
  argon2_verify : string → string → result string bool;
  argon2_needsRehash : string → HashOptions → result string bool;
}.

(** A digest verifies the password it was made from, and is not older than the
    options it was made with. *)
Class Argon2Laws `(Argon2) := {
  verify_own p o salt h : argon2_hash p o salt = Ok h → argon2_verify h p = Ok true;
  rehash_own p o salt h : argon2_hash p o salt = Ok h → argon2_needsRehash h o = Ok false;
}.

Definition DECOY : string := "decoy-value-never-a-real-password".

Section passwords.
Context `{Argon2}.

Definition hashPassword (plaintext : string) (salt : Buffer) : result string string :=
  argon2_hash plaintext ARGON2_OPTIONS salt.
Definition verifyPassword (storedHash plaintext : string) : bool :=
  match argon2_verify storedHash plaintext with Ok b => b | Throw _ => false end.
Definition needsRehash (storedHash : string) : bool :=
  match argon2_needsRehash storedHash ARGON2_OPTIONS with Ok b => b | Throw _ => false end.
End passwords.

(** ** The tenant's tables *)

Inductive UserStatus := user_active | user_disabled.
#[export] Instance UserStatus_eq_dec : EqDecision UserStatus.
Proof. solve_decision. Defined.

Record User := {
  user_id : string; user_email : string; passwordHash : string; user_status : UserStatus;
  user_createdAt : Z;                         (* milliseconds *)
}.
Record Role := { role_id : string; role_name : string; role_permissions : list string }.

Record tenant_tables := {
  users : list User;
  roles_table : list Role;
  user_roles : list (string * string);        (* user id, role id *)
}.

Definition find_user (email : string) (t : tenant_tables) : option User :=
  List.find (λ u, String.eqb (user_email u) email) (users t).

(** [user.create]: the unique index on the email. *)
Definition create_user (id : string) (now : Z) (email hash : string) (t : tenant_tables) : M (tenant_tables * User) :=
  match find_user email t with
  | Some _ => Throw (EPrismaKnown "P2002")
  | None =>
      let u := {| user_id := id; user_email := email; passwordHash := hash; user_status := user_active;
                user_createdAt := now |} in
      Ok ({| users := users t ++ [u]; roles_table := roles_table t; user_roles := user_roles t |}, u)
  end.

(** [user.update({ where: { id }, data: { passwordHash } })] *)
Definition set_hash (id hash : string) (t : tenant_tables) : M tenant_tables :=
  if existsb (λ u, String.eqb (user_id u) id) (users t) then
    Ok {| users := (λ u, if String.eqb (user_id u) id
                         then {| user_id := user_id u; user_email := user_email u; passwordHash := hash;
                                 user_status := user_status u; user_createdAt := user_createdAt u |} else u) <$> users t;
          roles_table := roles_table t; user_roles := user_roles t |}
  else Throw (EPrismaKnown "P2025").

(** The roles assigned to a user, in the order of the assignments. *)
Definition assignments (userId : string) (t : tenant_tables) : list Role :=
  omap (λ a : string * string,
          if String.eqb a.1 userId then List.find (λ r, String.eqb (role_id r) a.2) (roles_table t) else None)
       (user_roles t).

(** [[...new Set(l)]]: the first occurrence of each, in order. *)
Definition unique (l : list string) : list string := foldl (λ acc x, if decide (x ∈ acc) then acc else acc ++ [x]) [] l.

(** What [loadAuthz] makes of the rows. *)
Definition authz (userId : string) (t : tenant_tables) : list string * list string :=
  let rs := assignments userId t in
  (role_name <$> rs, unique (mjoin (role_permissions <$> rs))).

(** ** The service *)

Inductive db_op := FindUser | CreateUser | UpdateHash | LoadAuthz | ListUsers.

Definition normaliseEmail (email : string) : string := toLowerCase (trim email).

(** What a request works on. The counters are of the database lookups of users
    and of the password verifications, which are the work an attacker can ask
    for. *)
Record core `{Redis} := {
  limiter : Limiter;
  tables : tenant_tables;
  decoyHash : option (result string string);       (* the memoised promise *)
  lookups : nat; verifications : nat;
}.
Section core_updates.
Context `{Redis}.
Definition set_limiter (L : Limiter) (c : core) : core :=
  {| limiter := L; tables := tables c; decoyHash := decoyHash c; lookups := lookups c;
     verifications := verifications c |}.
Definition set_tables (t : tenant_tables) (c : core) : core :=
  {| limiter := limiter c; tables := t; decoyHash := decoyHash c; lookups := lookups c;
     verifications := verifications c |}.
Definition set_decoy (h : result string string) (c : core) : core :=
  {| limiter := limiter c; tables := tables c; decoyHash := Some h; lookups := lookups c;
     verifications := verifications c |}.
Definition count_lookup (c : core) : core :=
  {| limiter := limiter c; tables := tables c; decoyHash := decoyHash c; lookups := S (lookups c);
     verifications := verifications c |}.
Definition count_verification (c : core) : core :=
  {| limiter := limiter c; tables := tables c; decoyHash := decoyHash c; lookups := lookups c;
     verifications := S (verifications c) |}.
End core_updates.

Record world `{Redis} (A : Type) := { state : core; audit : trail A }.
Arguments state {_ A} w.
Arguments audit {_ A} w.

(** When the throttle's four calls reach Redis. *)
Record Moments := { check_acct : moment; check_addr : moment; record_acct : moment; record_addr : moment }.

Section service.
Context `{Sha256} `{Redis} `{Argon2} `{AccessTokens}.
Context {A : Type} (appendAuditEvent : chain → AppendAuditEvent → A → A * M AppendedAuditEvent).
Context (config : ThrottleConfig) (fault : db_op → option string) (req : RequestWithTenant).

Definition St (B : Type) : Type := world A → world A * M B.
#[export] Instance st_ret : MRet St := λ B b w, (w, Ok b).
#[export] Instance st_bind : MBind St := λ B C k m w,
  let '(w1, r) := m w in match r with Ok b => k b w1 | Throw e => (w1, Throw e) end.

Definition lift {B} (r : M B) : St B := λ w, (w, r).
Definition throw {B} (e : exn) : St B := lift (Throw e).

(** A computation on the core. *)
Definition on_core {B} (f : core → core * M B) : St B :=
  λ w, let '(c, r) := f (state w) in ({| state := c; audit := audit w |}, r).
Definition with_limiter {B} (f : Limiter → Limiter * M B) : St B :=
  on_core (λ c, let '(L, r) := f (limiter c) in (set_limiter L c, r)).
Definition with_tables {B} (op : db_op) (f : tenant_tables → M (tenant_tables * B)) : St B :=
  on_core (λ c, match fault op with
                | Some code => (c, Throw (EPrismaKnown code))
                | None => match f (tables c) with
                          | Throw e => (c, Throw e)
                          | Ok (t, b) => (set_tables t c, Ok b)
                          end
                end).

Definition query {B} (op : db_op) (f : tenant_tables → B) : St B :=
  on_core (λ c, (c, match fault op with
                    | Some code => Throw (EPrismaKnown code)
                    | None => Ok (f (tables c))
                    end)).

(** [this.audit.tenantEvent(...)] *)
Definition emit (event : AppendAuditEvent) : St unit :=
  λ w, ({| state := state w; audit := tenantEvent appendAuditEvent req event (audit w) |}, Ok ()).

(** [try { m } catch (err) { h err }] *)
Definition catch {B} (m : St B) (h : exn → St B) : St B :=
  λ w, let '(w1, r) := m w in match r with Ok b => (w1, Ok b) | Throw e => h e w1 end.

(** *** Passwords *)

Definition hash (plaintext : string) (salt : Buffer) : St string :=
  lift (match hashPassword plaintext salt with Ok h => Ok h | Throw msg => Throw (EError msg) end).
Definition verify_password (storedHash plaintext : string) : St bool :=
  on_core (λ c, (count_verification c, Ok (verifyPassword storedHash plaintext))).

(** [decoyHash ??= hashPassword(...)], then a verification whose answer is not
    used. *)
Definition verifyAgainstDecoy (salt : Buffer) (plaintext : string) : St unit :=
  h ← on_core (λ c,
        let h := match decoyHash c with Some h => h | None => hashPassword DECOY salt end in
        (set_decoy h c, match h with Ok h => Ok h | Throw msg => Throw (EError msg) end));
  _ ← verify_password h plaintext;
  mret ().

(** *** Registering *)

Definition registered_event (u : User) : AppendAuditEvent :=
  {| ev_action := "user.registered"; ev_actorType := actor_system; ev_actorId := None;
     ev_resourceType := Some "user"; ev_resourceId := Some (user_id u); ev_traceId := None; ev_sourceIp := None;
     ev_metadata := Some [("email", user_email u)] |}.

(** [new_id] is what gen_random_uuid() draws and [now] when; [salt] is what argon2
    draws. *)
Definition register (new_id : string) (now : Z) (salt : Buffer) (email password : string) : St (string * string) :=
  passwordHash ← hash password salt;
  catch
    (_ ← lift (db req);
     created ← with_tables CreateUser (create_user new_id now (normaliseEmail email) passwordHash);
     _ ← emit (registered_event created);
     mret (user_id created, user_email created))
    (λ err, match err with
            | EPrismaKnown code =>
                if String.eqb code "P2002" then throw (EDomain EmailAlreadyRegisteredError) else throw err
            | _ => throw err
            end).

(** *** Logging in *)

(** The test [user?.status !== "active"] as what passes it. *)
Definition active_user (user : option User) : option User :=
  match user with
  | Some u => match user_status u with user_active => Some u | user_disabled => None end
  | None => None
  end.

Definition anonymous_event (action ip : string) (metadata : list (string * string)) : AppendAuditEvent :=
  {| ev_action := action; ev_actorType := actor_anonymous; ev_actorId := None; ev_resourceType := None;
     ev_resourceId := None; ev_traceId := None; ev_sourceIp := Some ip; ev_metadata := Some metadata |}.
Definition throttled_event (email ip : string) (err : exn) : AppendAuditEvent :=
  anonymous_event "auth.login.throttled" ip
    [("email", normaliseEmail email);
     ("reason", if bool_decide (err = EDomain LoginThrottleUnavailableError) then "throttle_unavailable"
                else "limit_exceeded")].
Definition failed_event (user : option User) (email ip reason : string) : AppendAuditEvent :=
  {| ev_action := "auth.login.failed";
     ev_actorType := match user with Some _ => actor_user | None => actor_anonymous end;
     ev_actorId := user_id <$> user; ev_resourceType := None; ev_resourceId := None; ev_traceId := None;
     ev_sourceIp := Some ip; ev_metadata := Some [("email", normaliseEmail email); ("reason", reason)] |}.
Definition succeeded_event (user : User) (ip : string) (roles : list string) : AppendAuditEvent :=
  {| ev_action := "auth.login.succeeded"; ev_actorType := actor_user; ev_actorId := Some (user_id user);
     ev_resourceType := Some "user"; ev_resourceId := Some (user_id user); ev_traceId := None;
     ev_sourceIp := Some ip;
     ev_metadata := Some [("email", user_email user); ("roles", String.concat "," roles)] |}.

(** A failure is logged and swallowed. *)
Definition upgradeHashIfStale (salt : Buffer) (userId storedHash password : string) : St unit :=
  if negb (needsRehash storedHash) then mret ()
  else catch
         (_ ← lift (db req);
          h ← hash password salt;
          with_tables UpdateHash (λ t, t' ← set_hash userId h t; Ok (t', ())))
         (λ _, mret ()).

Definition loadAuthz (userId : string) : St (list string * list string) :=
  _ ← lift (db req);
  query LoadAuthz (authz userId).

Definition findUnique (email : string) : St (option User) :=
  _ ← lift (db req);
  _ ← on_core (λ c, (count_lookup c, Ok ()));
  query FindUser (find_user email).

(** What follows a proven password. *)
Definition open_session (m : Moments) (salt : Buffer) (tenantId email password ip : string) (user : User)
    : St string :=
  _ ← with_limiter (λ L, (recordSuccess tenantId email (record_acct m) L, Ok ()));
  _ ← upgradeHashIfStale salt (user_id user) (passwordHash user) password;
  az ← loadAuthz (user_id user);
  accessToken ← lift (issueToken {| sub := user_id user; tid := tenantId; roles := az.1; permissions := az.2 |});
  _ ← emit (succeeded_event user ip az.1);
  mret accessToken.

Definition login (m : Moments) (salt : Buffer) (email password ip : string) : St string :=
  tenant ← lift (tenant req);
  let tenantId := tenant_id tenant in
  _ ← catch
        (with_limiter (assertWithinLimits config tenantId email ip (check_acct m) (check_addr m)))
        (λ err, _ ← emit (throttled_event email ip err); throw err);
  user ← findUnique (normaliseEmail email);
  let failure := with_limiter (recordFailure config tenantId email ip (record_acct m) (record_addr m)) in
  match active_user user with
  | None =>
      _ ← verifyAgainstDecoy salt password;
      _ ← failure;
      _ ← emit (failed_event user email ip (match user with Some _ => "account_not_active" | None => "no_such_user" end));
      throw (EDomain InvalidCredentialsError)
  | Some u =>
      ok ← verify_password (passwordHash u) password;
      if negb (ok : bool) then
        _ ← failure;
        _ ← emit (failed_event user email ip "wrong_password");
        throw (EDomain InvalidCredentialsError)
      else open_session m salt tenantId email password ip u
  end.
End service.

(** ** Running the service *)

Section running.
Context `{Sha256} `{Redis} `{Argon2} `{AccessTokens}.
Context {A : Type} (appendAuditEvent : chain → AppendAuditEvent → A → A * M AppendedAuditEvent).
Context (config : ThrottleConfig) (fault : db_op → option string) (req : RequestWithTenant).

Definition at_core (c : core) (w : world A) : world A := {| state := c; audit := audit w |}.
Definition emitted (ev : AppendAuditEvent) (w : world A) : world A :=
  {| state := state w; audit := tenantEvent appendAuditEvent req ev (audit w) |}.

(** The limiter after the check, and after a failure is counted. *)
Definition checked (m : Moments) (tenantId email ip : string) (L : Limiter) : Limiter * M unit :=
  assertWithinLimits config tenantId email ip (check_acct m) (check_addr m) L.
Definition counted (m : Moments) (tenantId email ip : string) (L : Limiter) : Limiter :=
  (recordFailure config tenantId email ip (record_acct m) (record_addr m) L).1.

Lemma recordFailure_Ok tenantId email ip ta td L :
  (recordFailure config tenantId email ip ta td L).2 = Ok ().
Proof.
  unfold recordFailure. destruct (storeConsume _ _ _ _ _ _) as [L1 ?]. destruct (addressKey_total ip) as [k ->].
  by destruct (storeConsume _ _ _ _ _ _) as [L2 ?].
Qed.

(** What follows a failed verification. *)
Definition rejected (m : Moments) (tenantId email ip : string) (ev : AppendAuditEvent) (w : world A)
    : world A * M string :=
  (emitted ev (at_core (set_limiter (counted m tenantId email ip (limiter (state w))) (state w)) w),
   Throw (EDomain InvalidCredentialsError)).

(** The run of [verifyAgainstDecoy]: the hash it verifies against. *)
Definition decoy (salt : Buffer) (c : core) : result string string :=
  match decoyHash c with Some h => h | None => hashPassword DECOY salt end.

(** A login, case by case. *)
Definition login_cases (m : Moments) (salt : Buffer) (email password ip : string) (w : world A)
    : world A * M string :=
  match tenant req with
  | Throw e => (w, Throw e)
  | Ok t =>
      let '(L1, r) := checked m (tenant_id t) email ip (limiter (state w)) in
      let w1 := at_core (set_limiter L1 (state w)) w in
      match r with
      | Throw e => (emitted (throttled_event email ip e) w1, Throw e)
      | Ok _ =>
          match db req with
          | Throw e => (w1, Throw e)
          | Ok _ =>
              let w2 := at_core (count_lookup (state w1)) w1 in
              match fault FindUser with
              | Some code => (w2, Throw (EPrismaKnown code))
              | None =>
                  let user := find_user (normaliseEmail email) (tables (state w)) in
                  match active_user user with
                  | None =>
                      let h := decoy salt (state w) in
                      let w3 := at_core (set_decoy h (state w2)) w2 in
                      match h with
                      | Throw msg => (w3, Throw (EError msg))
                      | Ok _ =>
                          rejected m (tenant_id t) email ip
                            (failed_event user email ip
                               (match user with Some _ => "account_not_active" | None => "no_such_user" end))
                            (at_core (count_verification (state w3)) w3)
                      end
                  | Some u =>
                      let w3 := at_core (count_verification (state w2)) w2 in
                      if verifyPassword (passwordHash u) password
                      then open_session appendAuditEvent fault req m salt (tenant_id t) email password ip u w3
                      else rejected m (tenant_id t) email ip (failed_event user email ip "wrong_password") w3
                  end
              end
          end
      end
  end.

Lemma bind_run {B C} (m : St B) (k : B → St C) (w : world A) :
  (m ≫= k) w = match m w with (w1, Ok b) => k b w1 | (w1, Throw e) => (w1, Throw e) end.
Proof. unfold mbind, st_bind. by destruct (m w) as [w1 [b|e]]. Qed.

Lemma login_run m salt email password ip w :
  login appendAuditEvent config fault req m salt email password ip w = login_cases m salt email password ip w.
Proof.
  unfold login, login_cases. rewrite bind_run. unfold lift at 1. destruct (tenant req) as [t|e]; [|done].
  rewrite bind_run. unfold catch, with_limiter, on_core, checked.
  destruct (assertWithinLimits _ _ _ _ _ _ _) as [L1 [[]|e]]; [|done].
  rewrite bind_run. unfold findUnique. rewrite bind_run. unfold lift. destruct (db req) as [d|e]; [|done].
  rewrite bind_run. unfold query, on_core. cbn [state audit].
  destruct (fault FindUser) as [code|]; [done|]. cbn [tables count_lookup set_limiter].
  set (user := find_user _ _). destruct (active_user user) as [u|].
  - rewrite bind_run. unfold verify_password, on_core. destruct (verifyPassword _ _); [done|].
    cbn [negb]. rewrite bind_run.
    match goal with |- context [recordFailure ?a ?b ?c ?d ?e ?f ?g] =>
      pose proof (recordFailure_Ok b c d e f g) as Hr; destruct (recordFailure a b c d e f g) as [L2 r] eqn:Ef end.
    cbn in Hr, Ef. subst r. unfold rejected, counted. cbn. by rewrite Ef.
  - rewrite bind_run. unfold verifyAgainstDecoy. rewrite bind_run. unfold on_core, decoy. cbn [decoyHash].
    destruct (match decoyHash _ with Some h => h | None => _ end) as [h|msg] eqn:Eh; cbn in Eh |- *; [|done].
    rewrite !bind_run. unfold verify_password, on_core, mret, st_ret. cbv beta iota zeta. rewrite bind_run.
    match goal with |- context [recordFailure ?a ?b ?c ?d ?e ?f ?g] =>
      pose proof (recordFailure_Ok b c d e f g) as Hr; destruct (recordFailure a b c d e f g) as [L2 r] eqn:Ef end.
    cbn in Hr, Ef. subst r. unfold rejected, counted. cbn. by rewrite Ef.
Qed.

(** The upgrade of a stale hash never fails, and touches at most that hash. *)
Definition upgraded (salt : Buffer) (userId password : string) (t t' : tenant_tables) : Prop :=
  t' = t ∨ ∃ h, hashPassword password salt = Ok h ∧ set_hash userId h t = Ok t'.

Lemma set_tables_same c : set_tables (tables c) c = c.
Proof. by destruct c. Qed.
Lemma at_core_same (w : world A) : at_core (state w) w = w.
Proof. by destruct w. Qed.

Lemma upgrade_run salt userId stored password w :
  ∃ t', upgraded salt userId password (tables (state w)) t' ∧
    upgradeHashIfStale fault req salt userId stored password w = (at_core (set_tables t' (state w)) w, Ok ()).
Proof.
  assert (Hsame : (at_core (set_tables (tables (state w)) (state w)) w, Ok ()) = (w, Ok () : M unit))
    by (by rewrite set_tables_same, at_core_same).
  unfold upgradeHashIfStale. destruct (needsRehash stored); cbn [negb].
  2: { exists (tables (state w)). split; [by left|]. by rewrite Hsame. }
  unfold catch. rewrite bind_run. unfold lift at 1. destruct (db req) as [d|e].
  2: { exists (tables (state w)). split; [by left|]. by rewrite Hsame. }
  rewrite bind_run. unfold hash, lift, with_tables, on_core. destruct (hashPassword password salt) as [h|msg] eqn:Eh.
  2: { exists (tables (state w)). split; [by left|]. by rewrite Hsame. }
  destruct (fault UpdateHash); [exists (tables (state w)); split; [by left|]; by rewrite set_tables_same|].
  destruct (set_hash userId h (tables (state w))) as [t'|e] eqn:Es; cbn.
  - exists t'. split; [right; by exists h|done].
  - exists (tables (state w)). split; [by left|]. by rewrite set_tables_same.
Qed.

Lemma upgraded_roles salt userId password t t' id :
  upgraded salt userId password t t' → authz id t' = authz id t.
Proof.
  intros [->|(h & _ & Hs)]; [done|]. unfold set_hash in Hs. destruct (existsb _ _); [|done].
  by injection Hs as <-.
Qed.

Lemma open_session_run m salt tenantId email password ip u w :
  ∃ t', upgraded salt (user_id u) password (tables (state w)) t' ∧
    open_session appendAuditEvent fault req m salt tenantId email password ip u w =
    let L' := recordSuccess tenantId email (record_acct m) (limiter (state w)) in
    let w1 := at_core (set_tables t' (set_limiter L' (state w))) w in
    match db req with
    | Throw e => (w1, Throw e)
    | Ok _ =>
        match fault LoadAuthz with
        | Some code => (w1, Throw (EPrismaKnown code))
        | None =>
            let az := authz (user_id u) (tables (state w)) in
            match issueToken {| sub := user_id u; tid := tenantId; roles := az.1; permissions := az.2 |} with
            | Throw e => (w1, Throw e)
            | Ok token => (emitted (succeeded_event u ip az.1) w1, Ok token)
            end
        end
    end.
Proof.
  set (L' := recordSuccess tenantId email (record_acct m) (limiter (state w))).
  destruct (upgrade_run salt (user_id u) (passwordHash u) password (at_core (set_limiter L' (state w)) w))
    as (t' & Hup & Hrun).
  exists t'. split; [done|]. unfold open_session. rewrite bind_run. unfold with_limiter, on_core. fold L'.
  rewrite bind_run. change {| state := _; audit := _ |} with (at_core (set_limiter L' (state w)) w). rewrite Hrun.
  rewrite bind_run. unfold loadAuthz. rewrite bind_run. unfold lift, query, on_core.
  destruct (db req) as [d|e]; [|done]. cbn [state audit at_core tables set_tables].
  destruct (fault LoadAuthz); [done|]. rewrite (upgraded_roles _ _ _ _ _ _ Hup). cbn [tables at_core state set_limiter].
  rewrite bind_run. destruct (issueToken _) as [token|e]; [|done]. by rewrite bind_run.
Qed.
End running.
