(* ===== verification/Sessions.v ===== *)
(** What registering and logging in guarantee: the theorems about
    AuthService.v, over the limiter, the guards and the audit trail. *)
From S2P Require Import Prelude Domain AuditHash AuditWriter RateLimit Limiter LoginThrottle ConnectionManager.
From S2P Require Import TenantRouting Keys Tokens KeyStore KeyRegistry TokenService Guards AuditTrail AuthService.
#[local] Open Scope Z_scope.

(** ** What a login gives away *)

Section secrecy.
Context `{Sha256} `{Redis} `{Argon2} `{AccessTokens}.
Context {A : Type} (appendAuditEvent : chain → AppendAuditEvent → A → A * M AppendedAuditEvent).
Context (config : ThrottleConfig) (fault : db_op → option string) (req : RequestWithTenant).

#[local] Abbreviation run_login := (login appendAuditEvent config fault req).

(** The credentials are not those of an active account: there is none, it is
    disabled, or the password is wrong. *)
Definition bad_credentials (email password : string) (t : tenant_tables) : Prop :=
  match active_user (find_user (normaliseEmail email) t) with
  | None => True
  | Some u => verifyPassword (passwordHash u) password = false
  end.

(** The decoy's hash can be computed, or was. *)
Definition decoy_works (salt : Buffer) (c : core) : Prop := ∃ h, decoy salt c = Ok h.

(** The Argon2 work of a run beyond its verifications: the process's decoy hash, if
    this run is the one that needed it first. *)
Definition at_most_the_decoy (salt : Buffer) (c c' : core) : Prop :=
  decoyHash c' = decoyHash c ∨ (decoyHash c = None ∧ decoyHash c' = Some (hashPassword DECOY salt)).

(** What can be observed of a run: its answer, the throttle's counters, the
    database lookups and the password verifications it cost. *)
Definition observed {B} (r : world A * M B) : M B * Limiter * nat * nat :=
  (r.2, limiter (state r.1), lookups (state r.1), verifications (state r.1)).

Lemma login_bad m salt email password ip (w : world A) :
  bad_credentials email password (tables (state w)) → decoy_works salt (state w) →
  let c := state w in
  observed (run_login m salt email password ip w) =
  match tenant req with
  | Throw e => (Throw e, limiter c, lookups c, verifications c)
  | Ok t =>
      let '(L1, r) := checked config m (tenant_id t) email ip (limiter c) in
      match r, db req, fault FindUser with
      | Throw e, _, _ => (Throw e, L1, lookups c, verifications c)
      | _, Throw e, _ => (Throw e, L1, lookups c, verifications c)
      | _, _, Some code => (Throw (EPrismaKnown code), L1, S (lookups c), verifications c)
      | _, _, None => (Throw (EDomain InvalidCredentialsError), counted config m (tenant_id t) email ip L1,
                       S (lookups c), S (verifications c))
      end
  end ∧ tables (state (run_login m salt email password ip w).1) = tables c ∧
  at_most_the_decoy salt c (state (run_login m salt email password ip w).1).
Proof.
  intros Hbad [h Hd] c. unfold bad_credentials in Hbad. rewrite login_run. unfold login_cases, observed, at_most_the_decoy.
  destruct (tenant req) as [t|e]; [|auto]. destruct (checked _ _ _ _ _ _) as [L1 [[]|e]]; [|auto].
  destruct (db req) as [d|e]; [|auto]. destruct (fault FindUser) as [code|]; [auto|].
  destruct (active_user _) as [u|]; [rewrite Hbad; auto|]. rewrite Hd. split; [done|]. split; [done|]. subst c.
  cbn. unfold decoy in Hd. destruct (decoyHash (state w)); [left; congruence|right; by rewrite Hd].
Qed.

(** C7. A failed login tells the caller nothing about the account: for an address
    that is not registered, a disabled account and a wrong password, in any two
    states of the tenant's tables, the answer is the same, the throttle counts the
    same, and as many users are looked up and as many passwords verified; no
    account is written. The first failure of a process without an active account
    behind it computes the decoy's hash on top; no later one, and no other
    failure, hashes anything. The decoy's hash is taken to succeed; the trail does
    tell the causes apart, on purpose, and is not shown to the caller. *)
Theorem login_failures_indistinguishable m salt email ip pw1 pw2 (w1 w2 : world A) :
  bad_credentials email pw1 (tables (state w1)) → bad_credentials email pw2 (tables (state w2)) →
  decoy_works salt (state w1) → decoy_works salt (state w2) →
  limiter (state w1) = limiter (state w2) → lookups (state w1) = lookups (state w2) →
  verifications (state w1) = verifications (state w2) →
  let run1 := run_login m salt email pw1 ip w1 in let run2 := run_login m salt email pw2 ip w2 in
  observed run1 = observed run2 ∧
  tables (state run1.1) = tables (state w1) ∧ tables (state run2.1) = tables (state w2) ∧
  at_most_the_decoy salt (state w1) (state run1.1) ∧ at_most_the_decoy salt (state w2) (state run2.1).
Proof.
  intros B1 B2 D1 D2 HL Hlk Hv run1 run2. subst run1 run2.
  destruct (login_bad m salt email pw1 ip w1 B1 D1) as (-> & -> & Hd1).
  destruct (login_bad m salt email pw2 ip w2 B2 D2) as (-> & -> & Hd2). by rewrite HL, Hlk, Hv.
Qed.

(** A throttled login costs nothing: when the check refuses, no user is looked
    up, no password is hashed or verified and no table is written; the caller
    gets the throttle's refusal, and the trail says which refusal it was. *)
Theorem throttled_login_costs_nothing m salt email password ip (w : world A) t e :
  tenant req = Ok t → (checked config m (tenant_id t) email ip (limiter (state w))).2 = Throw e →
  run_login m salt email password ip w =
    (emitted appendAuditEvent req (throttled_event email ip e)
       (at_core (set_limiter (checked config m (tenant_id t) email ip (limiter (state w))).1 (state w)) w),
     Throw e).
Proof.
  intros Ht He. rewrite login_run. unfold login_cases. rewrite Ht.
  destruct (checked _ _ _ _ _ _) as [L1 r]. simpl in He. by subst r.
Qed.

Lemma login_success m salt email password ip (w w' : world A) token :
  run_login m salt email password ip w = (w', Ok token) →
  ∃ t u L1, tenant req = Ok t ∧
    checked config m (tenant_id t) email ip (limiter (state w)) = (L1, Ok ()) ∧
    find_user (normaliseEmail email) (tables (state w)) = Some u ∧ user_status u = user_active ∧
    argon2_verify (passwordHash u) password = Ok true ∧
    issueToken {| sub := user_id u; tid := tenant_id t; roles := (authz (user_id u) (tables (state w))).1;
                  permissions := (authz (user_id u) (tables (state w))).2 |} = Ok token ∧
    limiter (state w') = recordSuccess (tenant_id t) email (record_acct m) L1 ∧
    verifications (state w') = S (verifications (state w)) ∧
    upgraded salt (user_id u) password (tables (state w)) (tables (state w')).
Proof.
  rewrite login_run. unfold login_cases. destruct (tenant req) as [t|e]; [|done].
  destruct (checked _ _ _ _ _ _) as [L1 [[]|e]] eqn:Ec; [|done]. destruct (db req) as [d|e] eqn:Ed; [|done].
  destruct (fault FindUser) as [code|]; [done|].
  destruct (active_user _) as [u|] eqn:Eu; [|by destruct (decoy salt (state w))].
  destruct (verifyPassword (passwordHash u) password) eqn:Ev; [|done].
  match goal with |- open_session _ _ _ _ _ ?tid _ _ _ _ ?w1 = _ → _ =>
    destruct (open_session_run appendAuditEvent fault req m salt tid email password ip u w1) as (t' & Hup & ->) end.
  rewrite Ed. destruct (fault LoadAuthz); [done|]. cbn [tables at_core state count_verification count_lookup set_limiter].
  destruct (issueToken _) as [tok|e] eqn:Ei; [|done]. intros [= <- <-].
  destruct (find_user _ _) as [u0|] eqn:Ef; [|done]. unfold active_user in Eu.
  destruct (user_status u0) eqn:Est; [|done]. injection Eu as ->.
  exists t, u, L1. split_and!; try done. unfold verifyPassword in Ev. by destruct (argon2_verify _ _) as [[]|].
Qed.

(** C6. A login succeeds only for an active account of this tenant whose stored
    digest verifies the password, when the throttle allows it; the token is issued
    for that account, this tenant and exactly the roles and permissions its
    assignments give it; the account's failures are cleared; and the digest
    stored afterwards is the old one, or a new one of this password. *)
Theorem login_success_sound m salt email password ip (w w' : world A) token :
  run_login m salt email password ip w = (w', Ok token) →
  ∃ t u L1, tenant req = Ok t ∧
    checked config m (tenant_id t) email ip (limiter (state w)) = (L1, Ok ()) ∧
    find_user (normaliseEmail email) (tables (state w)) = Some u ∧ user_status u = user_active ∧
    argon2_verify (passwordHash u) password = Ok true ∧
    issueToken {| sub := user_id u; tid := tenant_id t; roles := (authz (user_id u) (tables (state w))).1;
                  permissions := (authz (user_id u) (tables (state w))).2 |} = Ok token ∧
    limiter (state w') = recordSuccess (tenant_id t) email (record_acct m) L1 ∧
    verifications (state w') = S (verifications (state w)) ∧
    upgraded salt (user_id u) password (tables (state w)) (tables (state w')).
Proof. apply login_success. Qed.
End secrecy.

(** ** The trail of a login *)

Section trail.
Context `{Sha256} `{Redis} `{Argon2} `{AccessTokens}.
Context {A : Type} (appendAuditEvent : chain → AppendAuditEvent → A → A * M AppendedAuditEvent).
Context (config : ThrottleConfig) (fault : db_op → option string) (req : RequestWithTenant).

Lemma checked_errors m tid email ip L L1 e : checked config m tid email ip L = (L1, Throw e) →
  e = EDomain LoginThrottleUnavailableError ∨ ∃ ms, e = EDomain (TooManyRequestsError ms).
Proof.
  unfold checked, assertWithinLimits. destruct (storePeek _ _ _ _ L) as [L2 acct].
  destruct (addressKey_total ip) as [k ->]. destruct (storePeek _ _ _ _ L2) as [L3 addr].
  destruct (_ || _); [intros [= _ <-]; by left|]. destruct (_ || _); [intros [= _ <-]; right; by eexists|done].
Qed.

(** The event a login's answer calls for; an answer that is a fault of the
    service has none. *)
Definition expected_action (r : M string) : option string :=
  match r with
  | Ok _ => Some "auth.login.succeeded"
  | Throw (EDomain InvalidCredentialsError) => Some "auth.login.failed"
  | Throw (EDomain LoginThrottleUnavailableError) | Throw (EDomain (TooManyRequestsError _)) =>
      Some "auth.login.throttled"
  | Throw _ => None
  end.

Definition acceptable (ip action : string) (ev : AppendAuditEvent) : Prop :=
  ev_action ev = action ∧ event_ck ev = true ∧ wf_append ev ∧ ev_sourceIp ev = Some ip.

Lemma tenant_throws e : tenant req = Throw e → e = EDomain TenantContextMissingError.
Proof. unfold tenant. destruct (req_tenant req); [done|by intros [= <-]]. Qed.
Lemma db_throws e : db req = Throw e → e = EDomain TenantContextMissingError.
Proof. unfold db. destruct (req_tenantDb req); [done|by intros [= <-]]. Qed.

Lemma failed_acceptable user email ip reason : acceptable ip "auth.login.failed" (failed_event user email ip reason).
Proof. split_and!; [done|by destruct user| |done]. unfold wf_append. cbn. repeat constructor; set_solver. Qed.
Lemma throttled_acceptable email ip e : acceptable ip "auth.login.throttled" (throttled_event email ip e).
Proof. split_and!; [done|done| |done]. unfold wf_append. cbn. repeat constructor; set_solver. Qed.
Lemma succeeded_acceptable u ip rs : acceptable ip "auth.login.succeeded" (succeeded_event u ip rs).
Proof. split_and!; [done|done| |done]. unfold wf_append. cbn. repeat constructor; set_solver. Qed.

(** C37. The trail matches the answers: every login that is answered, with a token, a
    refusal of the credentials or a refusal of the throttle, hands the audit trail
    exactly one event, of the action that answer calls for, carrying the caller's
    address and meeting every constraint of the audit table; a login that fails
    on the service's side hands it none. *)
Theorem logins_are_audited m salt email password ip (w : world A) :
  let '(w', r) := login appendAuditEvent config fault req m salt email password ip w in
  match expected_action r with
  | Some action => ∃ ev, acceptable ip action ev ∧ audit w' = tenantEvent appendAuditEvent req ev (audit w)
  | None => audit w' = audit w
  end.
Proof.
  rewrite login_run. unfold login_cases, rejected.
  destruct (tenant req) as [t|e] eqn:Et; [|by apply tenant_throws in Et as ->].
  destruct (checked _ _ _ _ _ _) as [L1 [[]|e]] eqn:Ec.
  2: { destruct (checked_errors _ _ _ _ _ _ _ Ec) as [->|[ms ->]];
         (eexists; split; [apply throttled_acceptable|done]). }
  destruct (db req) as [d|e] eqn:Ed; [|by apply db_throws in Ed as ->].
  destruct (fault FindUser) as [code|]; [done|].
  destruct (active_user _) as [u|] eqn:Eu.
  2: { destruct (decoy salt (state w)) as [h|msg]; [|done]. eexists. split; [apply failed_acceptable|done]. }
  destruct (verifyPassword (passwordHash u) password); [|eexists; split; [apply failed_acceptable|done]].
  match goal with |- context [open_session _ _ _ _ _ ?tid _ _ _ _ ?w1] =>
    destruct (open_session_run appendAuditEvent fault req m salt tid email password ip u w1) as (t' & Hup & ->) end.
  rewrite Ed. destruct (fault LoadAuthz); [done|].
  cbv zeta. match goal with |- context [issueToken ?c] => destruct (issueToken c) as [tok|e] eqn:Ei end;
    [eexists; split; [apply succeeded_acceptable|done]|].
  destruct e as [dom| | | | | | |]; try done. by apply issue_internal in Ei.
Qed.
End trail.

(** ** The trail decides nothing *)

Section independence.
Context `{Sha256} `{Redis} `{Argon2} `{AccessTokens}.
Context {A1 : Type} (append1 : chain → AppendAuditEvent → A1 → A1 * M AppendedAuditEvent).
Context {A2 : Type} (append2 : chain → AppendAuditEvent → A2 → A2 * M AppendedAuditEvent).
Context (config : ThrottleConfig) (fault : db_op → option string) (req : RequestWithTenant).

(** Two computations that do and answer the same, their trails apart. *)
Definition agree {B} (m1 : St (A := A1) B) (m2 : St (A := A2) B) : Prop :=
  ∀ w1 w2, state w1 = state w2 → state (m1 w1).1 = state (m2 w2).1 ∧ (m1 w1).2 = (m2 w2).2.

Lemma agree_lift {B} (r : M B) : agree (lift r) (lift r).
Proof. by intros w1 w2 Hw. Qed.
Lemma agree_ret {B} (b : B) : agree (mret b) (mret b).
Proof. by intros w1 w2 Hw. Qed.
Lemma agree_throw {B} e : agree (throw (B := B) e) (throw e).
Proof. apply agree_lift. Qed.
Lemma agree_on_core {B} (f : core → core * M B) : agree (on_core f) (on_core f).
Proof. intros w1 w2 Hw. unfold on_core. rewrite Hw. by destruct (f (state w2)). Qed.
Lemma agree_emit ev : agree (emit append1 req ev) (emit append2 req ev).
Proof. by intros w1 w2 Hw. Qed.
Lemma agree_bind {B C} (m1 : St (A := A1) B) m2 (k1 : B → St (A := A1) C) k2 :
  agree m1 m2 → (∀ b, agree (k1 b) (k2 b)) → agree (m1 ≫= k1) (m2 ≫= k2).
Proof.
  intros Hm Hk w1 w2 Hw. rewrite !bind_run. destruct (Hm w1 w2 Hw) as [Hs Hr].
  destruct (m1 w1) as [w1' r1], (m2 w2) as [w2' r2]. simpl in *. subst r2. destruct r1; [by apply Hk|done].
Qed.
Lemma agree_catch {B} (m1 : St (A := A1) B) m2 (h1 : exn → St (A := A1) B) h2 :
  agree m1 m2 → (∀ e, agree (h1 e) (h2 e)) → agree (catch m1 h1) (catch m2 h2).
Proof.
  intros Hm Hh w1 w2 Hw. unfold catch. destruct (Hm w1 w2 Hw) as [Hs Hr].
  destruct (m1 w1) as [w1' r1], (m2 w2) as [w2' r2]. simpl in *. subst r2. destruct r1; [done|by apply Hh].
Qed.

Ltac solve_agree :=
  repeat first
    [ apply agree_lift | apply agree_ret | apply agree_throw | apply agree_on_core | apply agree_emit
    | apply agree_bind; [|intros ?] | apply agree_catch; [|intros ?] | case_match ].

(** Auditing fails open and stays out of the way: whether the trail accepts an
    event, refuses it or cannot be reached, a registration and a login answer the
    same and leave the same accounts, counters and work behind. *)
Theorem audit_never_changes_the_answer new_id now m salt email password ip :
  agree (login append1 config fault req m salt email password ip)
        (login append2 config fault req m salt email password ip) ∧
  agree (register append1 fault req new_id now salt email password)
        (register append2 fault req new_id now salt email password).
Proof.
  split.
  - unfold login, findUnique, open_session, upgradeHashIfStale, loadAuthz, verifyAgainstDecoy, verify_password, query,
      with_tables, with_limiter, hash. solve_agree.
  - unfold register, with_tables, hash. solve_agree.
Qed.
End independence.

(** ** Accounts and tokens that are used *)

Section usage.
Context `{Sha256} `{Redis} `{Argon2Laws} `{AT : AccessTokens}.
Context {A : Type} (appendAuditEvent : chain → AppendAuditEvent → A → A * M AppendedAuditEvent).
Context (config : ThrottleConfig) (fault : db_op → option string) (req : RequestWithTenant).

Lemma find_app_new (l : list User) email u :
  List.find (λ u, String.eqb (user_email u) email) l = None → user_email u = email →
  List.find (λ u, String.eqb (user_email u) email) (l ++ [u]) = Some u.
Proof.
  intros Hl He. induction l as [|x l IH]; simpl in *; [by rewrite He, String.eqb_refl|].
  destruct (String.eqb (user_email x) email); [done|auto].
Qed.

Lemma no_assignments id t : (∀ a, a ∈ user_roles t → a.1 ≠ id) → authz id t = ([], []).
Proof.
  intros Hno. unfold authz, assignments. assert (Hnil : ∀ l, (∀ a, a ∈ l → a.1 ≠ id) → omap (λ a : string * string,
    if String.eqb a.1 id then List.find (λ r, String.eqb (role_id r) a.2) (roles_table t) else None) l = []).
  { induction l as [|a l IH]; [done|]. intros Hl. cbn.
    destruct (String.eqb_spec a.1 id) as [He|_]; [exfalso; by apply (Hl a (list_elem_of_here _ _))|].
    apply IH. intros b Hb. apply Hl. by apply elem_of_cons; right. }
  by rewrite Hnil.
Qed.

Lemma register_Ok new_id now salt email password (w w1 : world A) id e :
  register appendAuditEvent fault req new_id now salt email password w = (w1, Ok (id, e)) →
  ∃ h d u, hashPassword password salt = Ok h ∧ db req = Ok d ∧
    u = {| user_id := new_id; user_email := normaliseEmail email; passwordHash := h; user_status := user_active;
           user_createdAt := now |} ∧
    id = new_id ∧ e = normaliseEmail email ∧ find_user (normaliseEmail email) (tables (state w)) = None ∧
    users (tables (state w1)) = users (tables (state w)) ++ [u] ∧
    roles_table (tables (state w1)) = roles_table (tables (state w)) ∧
    user_roles (tables (state w1)) = user_roles (tables (state w)).
Proof.
  unfold register. rewrite bind_run. unfold hash, lift at 1.
  destruct (hashPassword password salt) as [h|msg]; [|done]. unfold catch. rewrite bind_run. unfold lift.
  destruct (db req) as [d|err] eqn:Ed; [|apply db_throws in Ed as ->; done].
  rewrite bind_run. unfold with_tables, on_core.
  destruct (fault CreateUser) as [code|]; [by destruct (String.eqb code "P2002")|].
  unfold create_user. destruct (find_user _ _) as [u0|] eqn:Ef; [done|].
  rewrite bind_run. intros He. cbn in He. injection He as <- <- <-. by eexists h, d, _.
Qed.

(** Registering works: an account that was registered can log in with its
    password and any spelling of its address that differs in case and outer
    spaces, and the token it gets is its own, for this tenant, with no role and
    no permission. *)
Theorem registered_account_logs_in new_id now salt email password (w w1 : world A) id e m salt' email' ip w2 t L1 token :
  register appendAuditEvent fault req new_id now salt email password w = (w1, Ok (id, e)) →
  (∀ a, a ∈ user_roles (tables (state w)) → a.1 ≠ new_id) →
  tables (state w2) = tables (state w1) → normaliseEmail email' = normaliseEmail email →
  tenant req = Ok t → checked config m (tenant_id t) email' ip (limiter (state w2)) = (L1, Ok ()) →
  fault FindUser = None → fault LoadAuthz = None →
  issueToken {| sub := id; tid := tenant_id t; roles := []; permissions := [] |} = Ok token →
  (login appendAuditEvent config fault req m salt' email' password ip w2).2 = Ok token.
Proof.
  intros Hreg Hno Htab Hem Ht Hc Hf1 Hf2 Hi.
  apply register_Ok in Hreg as (h & d & u & Hh & Hd & Hu & -> & -> & Hnone & Husers & Hroles & Hassign).
  assert (Hfind : find_user (normaliseEmail email) (tables (state w1)) = Some u).
  { unfold find_user in *. rewrite Husers. apply find_app_new; [done|by subst u]. }
  rewrite login_run. unfold login_cases. rewrite Ht, Hc, Hd, Hf1, Hem, Htab, Hfind.
  assert (Hact : active_user (Some u) = Some u) by (by subst u). rewrite Hact. clear Hact.
  assert (Hv : verifyPassword (passwordHash u) password = true)
    by (subst u; unfold verifyPassword; cbn; by rewrite (verify_own _ _ _ _ Hh)).
  rewrite Hv.
  match goal with |- context [open_session _ _ _ _ _ ?tid _ _ _ _ ?w1] =>
    destruct (open_session_run appendAuditEvent fault req m salt' tid email' password ip u w1) as (t' & Hup & ->) end.
  rewrite Hd, Hf2. cbv zeta. cbn [tables at_core state count_verification count_lookup set_limiter].
  rewrite Htab, (no_assignments (user_id u)).
  - subst u. cbn [fst snd user_id]. by rewrite Hi.
  - rewrite Hassign. by subst u.
Qed.

Lemma bearer_word token req' :
  rq_headers req' !! "authorization" = Some (One ("Bearer " +:+ token)) →
  (∀ raw, rq_rawHeaders req' = Some raw → (count_names "authorization" raw ≤ 1)%nat) →
  free_of " " token = true → token ≠ "" → bearerToken req' = Ok token.
Proof.
  intros Hh Hraw Hf Hne. unfold bearerToken, singleAuthorizationHeader. rewrite Hh.
  assert (Hif : match rq_rawHeaders req' with
                | Some raw => if Nat.ltb 1 (count_names "authorization" raw) then None else Some ("Bearer " +:+ token)
                | None => Some ("Bearer " +:+ token)
                end = Some ("Bearer " +:+ token)).
  { destruct (rq_rawHeaders req') as [raw|]; [|done].
    by rewrite (proj2 (Nat.ltb_ge 1 (count_names "authorization" raw)) (Hraw raw eq_refl)). }
  rewrite Hif. change ("Bearer " +:+ token) with ("Bearer" +:+ String " " token).
  rewrite split_on_app by done. rewrite split_on_free by done.
  by destruct (String.eqb_spec token "").
Qed.

(** C38. A session is good in its own tenant and nowhere else: presented as a bearer,
    the token a login answered authenticates its holder in the tenant it logged in
    to, with the permissions its roles gave it, and in any other tenant it is
    refused, whatever accounts that tenant has. *)
Theorem login_token_opens_its_tenant `{!AccessTokensLaws AT} m salt email password ip (w w' : world A) token req' t' :
  login appendAuditEvent config fault req m salt email password ip w = (w', Ok token) →
  rq_headers req' !! "authorization" = Some (One ("Bearer " +:+ token)) →
  (∀ raw, rq_rawHeaders req' = Some raw → (count_names "authorization" raw ≤ 1)%nat) →
  rq_tenant req' = Some t' →
  ∃ t u, tenant req = Ok t ∧ find_user (normaliseEmail email) (tables (state w)) = Some u ∧
    let az := authz (user_id u) (tables (state w)) in
    AccessTokenGuard req' =
    if String.eqb (tenant_id t) (tenant_id t')
    then Ok (with_user req' {| sub := user_id u; tid := tenant_id t; roles := az.1; permissions := az.2 |})
    else Throw (EDomain CrossTenantTokenError).
Proof.
  intros Hl Hh Hraw Ht'. apply login_success in Hl as (t & u & L1 & Ht & _ & Hu & _ & _ & Hi & _).
  exists t, u. split_and!; [done|done|]. cbv zeta. destruct (issued_is_a_word _ _ Hi) as [Hf Hne].
  unfold AccessTokenGuard. rewrite Ht', (bearer_word token) by done. rewrite mbind_rbind. cbn [rbind].
  rewrite (issued_is_accepted _ _ Hi), mbind_rbind. cbn [rbind tid].
  by destruct (String.eqb_spec (tenant_id t) (tenant_id t')).
Qed.
End usage.

(** ** The hypotheses can hold *)

Module SessionsSample.
#[local] Existing Instance Sample.toy.
#[local] Existing Instance RedisMap.Redis_map.
Import KeysSample TokensSample KeyStoreSample ServiceSample ProvisioningSample RoutingSample GuardsSample ThrottleSample.

#[export] Instance HashOptions_eq_dec : EqDecision HashOptions.
Proof. solve_decision. Defined.

(** A digest that says whether it was made with the current options. *)
#[export] Instance toy_argon2 : Argon2 := {
  argon2_hash p o salt := Ok (String (if bool_decide (o = ARGON2_OPTIONS) then "c" else "o") p);
  argon2_verify h p := match h with String _ q => Ok (String.eqb q p) | EmptyString => Throw "pchstr must be a non-empty string" end;
  argon2_needsRehash h o :=
    Ok (bool_decide (o = ARGON2_OPTIONS) && match h with String c _ => Ascii.eqb c "o" | EmptyString => true end);
}.
#[export] Instance toy_argon2_laws : Argon2Laws toy_argon2.
Proof.
  split; intros p o salt h [= <-]; cbn.
  - by rewrite String.eqb_refl.
  - by case_bool_decide.
Qed.

Lemma bits_free p : free_of " " (bits p) = true.
Proof. induction p; [exact IHp|exact IHp|done]. Qed.

Definition deployed_material : TokenMaterial :=
  {| signing := {| signing_kid := "s1"; signing_key := ("s1" : @PrivKey toy_jose) |};
     encryption := {| encryption_kid := "e1"; encryption_key := secret "1" |} |}.
Lemma deployed_active : activeMaterial (snapshot_of deployed) = Ok deployed_material.
Proof. vm_compute. reflexivity. Qed.

Lemma deployed_encryption : resolve_encryption (KeyRegistry.resolvers (snapshot_of deployed) 250000) "e1" = Some (secret "1").
Proof. vm_compute. reflexivity. Qed.
Lemma deployed_signing : resolve_signing (KeyRegistry.resolvers (snapshot_of deployed) 250000) "s1" = Some ("s1x" : @PubKey toy_jose).
Proof. vm_compute. reflexivity. Qed.
Lemma in_date : 250000 / 1000 < 200 + ttlSeconds policy + tolerance policy.
Proof. vm_compute. reflexivity. Qed.

Lemma issued_word cs m p n1 n2 rnd token :
  issueNestedToken cs m p n1 n2 rnd = Ok token → free_of " " token = true ∧ token ≠ "".
Proof.
  unfold issueNestedToken. rewrite mbind_rbind. intros (_ & _ & Hi)%rbind_Ok_inv. cbv zeta in Hi.
  assert (Hj : ∃ b, signJwt (signing_key (signing m)) (inner_header (signing_kid (signing m)))
    (signed_claims cs p n1 n2) = bits b) by (eexists; reflexivity).
  destruct Hj as [b Hb]. rewrite Hb in Hi. clear Hb.
  revert Hi. generalize (encryption_key (encryption m)) (outer_header (encryption_kid (encryption m))).
  intros k h [= <-]. unfold compactEncrypt, toy_tokens, text_of. split.
  - rewrite free_of_app, bits_free. exact (bits_free b).
  - generalize (bits (encode (k, h))). by intros [|c s].
Qed.

#[export] Instance tokens_laws : AccessTokensLaws tokens.
Proof.
  split; intros c token Hi.
  - change (issue (snapshot_of deployed) policy c 200 200 "" = Ok token) in Hi.
    change (verify token (snapshot_of deployed) EMPTY policy 250000 0 = Ok c).
    revert Hi. generalize deployed_active, deployed_encryption, deployed_signing.
    generalize (snapshot_of deployed). intros s Ha He Hs Hi.
    exact (issue_verify s s EMPTY policy c 200 200 "" token 250000 0 deployed_material Ha Hi He Hs in_date).
  - change (issue (snapshot_of deployed) policy c 200 200 "" = Ok token) in Hi. revert Hi. unfold issue.
    rewrite deployed_active, mbind_rbind. cbn [rbind]. apply issued_word.
Qed.

Definition alice : User :=
  {| user_id := "u1"; user_email := "alice@acme.example"; passwordHash := "ocorrect horse"; user_status := user_active;
     user_createdAt := 1000 |}.
Definition bob : User :=
  {| user_id := "u2"; user_email := "bob@acme.example"; passwordHash := "chunter2hunter2"; user_status := user_disabled;
     user_createdAt := 2000 |}.
Definition admin_role : Role :=
  {| role_id := "r1"; role_name := "tenant-admin"; role_permissions := ["users:read"; "users:write"; "roles:manage"] |}.
Definition acme_tables : tenant_tables :=
  {| users := [alice; bob]; roles_table := [admin_role]; user_roles := [("u1", "r1")] |}.

(** The trail keeps every event it is given. *)
Definition events_only (c : chain) (ev : AppendAuditEvent) (l : list (chain * AppendAuditEvent)) :
    list (chain * AppendAuditEvent) * M AppendedAuditEvent :=
  (l ++ [(c, ev)], Ok {| appended_seq := 1; appended_occurredAt := ""; appended_hash := ""; appended_prevHash := "" |}).
Definition no_fault : db_op → option string := λ _, None.
Definition acme_request : RequestWithTenant :=
  {| req_tenant := Some tenant_acme; req_tenantDb := Some "tenant_acme" |}.
Definition moments (t : Z) : Moments :=
  {| check_acct := at_ t; check_addr := at_ t; record_acct := at_ (t + 5); record_addr := at_ (t + 5) |}.

Definition start (t : tenant_tables) : world (list (chain * AppendAuditEvent)) :=
  {| state := {| limiter := L0; tables := t; decoyHash := Some (Ok "cdecoy"); lookups := 0; verifications := 0 |};
     audit := {| chains := []; lost := [] |} |}.
Abbreviation try_login t email pw w :=
  (login events_only ThrottleSample.config no_fault acme_request (moments t) "salt" email pw "10.0.0.1" w).

(** An unknown address, a disabled account and a wrong password; then the third
    attempt on one address meets the throttle, even with the right password. *)
Example answers :
  (try_login 10 "nobody@acme.example" "x" (start acme_tables)).2 = Throw (EDomain InvalidCredentialsError) ∧
  (try_login 10 "bob@acme.example" "hunter2hunter2" (start acme_tables)).2 = Throw (EDomain InvalidCredentialsError) ∧
  (try_login 10 "alice@acme.example" "x" (start acme_tables)).2 = Throw (EDomain InvalidCredentialsError) ∧
  is_Some (to_option (try_login 10 " Alice@ACME.example " "correct horse" (start acme_tables)).2) ∧
  let w1 := (try_login 10 "nobody@acme.example" "x" (start acme_tables)).1 in
  let w2 := (try_login 20 "bob@acme.example" "x" w1).1 in
  (try_login 30 "alice@acme.example" "correct horse" w2).2 = Throw (EDomain (TooManyRequestsError 985)) ∧
  (map (λ e, ev_action e.2) (chains (audit (try_login 30 "alice@acme.example" "correct horse" w2).1)))
  = ["auth.login.failed"; "auth.login.failed"; "auth.login.throttled"].
Proof. vm_compute. split_and!; try reflexivity. eauto. Qed.

(** Two tenants' tables that differ in the account asked for; the second process
    has not hashed its decoy yet. *)
Definition fresh_process (t : tenant_tables) : world (list (chain * AppendAuditEvent)) :=
  {| state := {| limiter := L0; tables := t; decoyHash := None; lookups := 0; verifications := 0 |};
     audit := {| chains := []; lost := [] |} |}.
Lemma login_failures_indistinguishable_witness :
  let w1 := start acme_tables in
  let w2 := fresh_process {| users := []; roles_table := []; user_roles := [] |} in
  observed (try_login 10 "alice@acme.example" "wrong" w1) = observed (try_login 10 "alice@acme.example" "other" w2) ∧
  tables (state (try_login 10 "alice@acme.example" "wrong" w1).1) = tables (state w1).
Proof.
  intros w1 w2.
  destruct (login_failures_indistinguishable events_only ThrottleSample.config no_fault acme_request (moments 10) "salt"
    "alice@acme.example" "10.0.0.1" "wrong" "other" w1 w2) as (Ho & Ht & _).
  - reflexivity.
  - exact I.
  - by eexists.
  - by eexists.
  - reflexivity.
  - reflexivity.
  - reflexivity.
  - split; [exact Ho|exact Ht].
Defined.

(** The memoised promise of a decoy hash that failed once stays rejected: from then
    on an address nobody registered, or a disabled account, is answered with a
    fault and is not counted by the throttle, where a wrong password is refused and
    counted. *)
Example failed_decoy_tells_accounts_apart :
  let broken := {| state := set_decoy (Throw "Memory allocation error") (state (start acme_tables));
                   audit := audit (start acme_tables) |} in
  let unknown := try_login 10 "nobody@acme.example" "x" broken in
  unknown.2 = Throw (EError "Memory allocation error") ∧
  decoyHash (state unknown.1) = Some (Throw "Memory allocation error") ∧
  store (limiter (state unknown.1)) = store L0 ∧
  (try_login 10 "alice@acme.example" "x" broken).2 = Throw (EDomain InvalidCredentialsError).
Proof. vm_compute. auto. Qed.

Definition throttled : world (list (chain * AppendAuditEvent)) :=
  (try_login 20 "alice@acme.example" "y" (try_login 10 "alice@acme.example" "x" (start acme_tables)).1).1.
Lemma throttled_login_costs_nothing_witness :
  (try_login 30 "alice@acme.example" "correct horse" throttled).2 = Throw (EDomain (TooManyRequestsError 985)) ∧
  verifications (state (try_login 30 "alice@acme.example" "correct horse" throttled).1) = 2%nat.
Proof.
  rewrite (throttled_login_costs_nothing events_only ThrottleSample.config no_fault acme_request (moments 30) "salt"
    "alice@acme.example" "correct horse" "10.0.0.1" throttled tenant_acme (EDomain (TooManyRequestsError 985))).
  - split; vm_compute; reflexivity.
  - reflexivity.
  - vm_compute. reflexivity.
Defined.

Lemma login_success_sound_witness :
  is_Some (to_option (try_login 10 "Alice@acme.example" "correct horse" (start acme_tables)).2) ∧
  ∀ w' token, try_login 10 "Alice@acme.example" "correct horse" (start acme_tables) = (w', Ok token) →
  ∃ u, find_user "alice@acme.example" acme_tables = Some u ∧ argon2_verify (passwordHash u) "correct horse" = Ok true.
Proof.
  split; [vm_compute; eauto|]. intros w' token Hl.
  destruct (login_success_sound events_only ThrottleSample.config no_fault acme_request (moments 10) "salt"
    "Alice@acme.example" "correct horse" "10.0.0.1" (start acme_tables) w' token Hl)
    as (t & u & L1 & _ & _ & Hu & _ & Hv & _).
  exists u. split; [exact Hu|exact Hv].
Defined.

(** Carol registers, and logs in with another spelling of her address. *)
Abbreviation carol_registers :=
  (register events_only no_fault acme_request "u3" 3000 "salt" "Carol@acme.example" "correct horse 2" (start acme_tables)).
Abbreviation carol_checked :=
  (checked ThrottleSample.config (moments 50) id1 " CAROL@acme.example" "10.0.0.1" (limiter (state carol_registers.1))).
Lemma registered_account_logs_in_witness :
  is_Some (to_option (issueToken {| sub := "u3"; tid := id1; roles := []; permissions := [] |})) ∧
  ∀ token, issueToken {| sub := "u3"; tid := id1; roles := []; permissions := [] |} = Ok token →
  (try_login 50 " CAROL@acme.example" "correct horse 2" carol_registers.1).2 = Ok token.
Proof.
  split; [vm_compute; eauto|]. intros token Hi.
  apply (registered_account_logs_in events_only ThrottleSample.config no_fault acme_request "u3" 3000 "salt"
    "Carol@acme.example" "correct horse 2" (start acme_tables) carol_registers.1 "u3" "carol@acme.example" (moments 50) "salt"
    " CAROL@acme.example" "10.0.0.1" carol_registers.1 tenant_acme
    carol_checked.1 token).
  - transitivity (carol_registers.1, carol_registers.2); [apply surjective_pairing|].
    apply (f_equal (pair carol_registers.1)). vm_compute. reflexivity.
  - intros a Ha. apply list_elem_of_singleton in Ha as ->. discriminate.
  - reflexivity.
  - vm_compute. reflexivity.
  - reflexivity.
  - transitivity (carol_checked.1, carol_checked.2); [apply surjective_pairing|].
    apply (f_equal (pair carol_checked.1)). vm_compute. reflexivity.
  - reflexivity.
  - reflexivity.
  - exact Hi.
Defined.

Definition other_tenant : Tenant :=
  {| tenant_id := id2; tenant_slug := "globex"; tenant_databaseName := "tenant_globex"; tenant_status := active |}.
Definition with_token (t : Tenant) (token : string) : Request :=
  with_tenant (request "x" ("Bearer " +:+ token) ["Authorization"; "Bearer " +:+ token]) t (tenant_databaseName t).
Lemma login_token_opens_its_tenant_witness :
  is_Some (to_option (try_login 10 "Alice@acme.example" "correct horse" (start acme_tables)).2) ∧
  ∀ w' token, try_login 10 "Alice@acme.example" "correct horse" (start acme_tables) = (w', Ok token) →
  AccessTokenGuard (with_token other_tenant token) = Throw (EDomain CrossTenantTokenError).
Proof.
  split; [vm_compute; eauto|]. intros w' token Hl.
  destruct (login_token_opens_its_tenant events_only ThrottleSample.config no_fault acme_request (moments 10) "salt"
    "Alice@acme.example" "correct horse" "10.0.0.1" (start acme_tables) w' token (with_token other_tenant token) other_tenant Hl)
    as (t & u & Ht & _ & Hg).
  - reflexivity.
  - intros raw [= <-]. change (1 ≤ 1)%nat. lia.
  - reflexivity.
  - injection Ht as <-. rewrite Hg. reflexivity.
Defined.
End SessionsSample.
