(* ===== verification/Operator.v ===== *)
(** The operator's commands: packages/db/src/seed/seed-tenant-admin.ts and the
    command line of packages/db/src/keys/manage-keys.ts, whose actions are in
    KeyStore.v. What they print is not modelled, only what they do and whether
    they fail. *)
From S2P Require Import Prelude Domain Base64 Cli AuditHash AuditWriter RateLimit LoginThrottle Config ConnectionManager.
From S2P Require Import TenantRouting Keys KeyStore Guards AuditTrail AuthService Sessions.
#[local] Open Scope Z_scope.

(** [s.length] in UTF-16 units: a byte that continues a character counts for
    nothing, and a character of four bytes counts twice. *)
Fixpoint js_length (s : string) : nat :=
  match s with
  | EmptyString => 0
  | String c s' => ((if in_range 128 191 c then 0 else if in_range 240 255 c then 2 else 1) + js_length s')%nat
  end.

(** ** Seeding an administrator *)

Record SeedTenantAdminInput := { seed_tenant : string; seed_email : string; seed_password : string }.
Record SeedTenantAdminResult := {
  sr_tenantSlug : string; sr_databaseName : string; sr_userId : string; sr_email : string; sr_role : string;
  sr_created : bool;
}.

Definition find_role (name : string) (t : tenant_tables) : option Role :=
  List.find (λ r, String.eqb (role_name r) name) (roles_table t).

(** [userRole.upsert] with nothing to update. *)
Definition upsert_user_role (userId roleId : string) (t : tenant_tables) : tenant_tables :=
  if decide ((userId, roleId) ∈ user_roles t) then t
  else {| users := users t; roles_table := roles_table t; user_roles := user_roles t ++ [(userId, roleId)] |}.

Section seed.
Context `{Argon2}.

(** The transaction, on the tables when it runs. *)
Definition seed_transaction (existing : option User) (role : Role) (email password new_id : string) (now : Z) (salt : Buffer)
    (t : tenant_tables) : M (tenant_tables * string) :=
  created ← match existing with
            | Some u => Ok (t, user_id u)
            | None =>
                h ← match hashPassword password salt with Ok h => Ok h | Throw msg => Throw (EError msg) end;
                c ← create_user new_id now email h t;
                Ok (c.1, user_id c.2)
            end;
  Ok (upsert_user_role created.2 (role_id role) created.1, created.2).

(** [seedTenantAdmin]: [t0] is what the two lookups read, [t1] what the transaction
    runs on; the tables after it, and the report. *)
Definition seedTenantAdmin (rs : list TenantRecord) (cache : gmap string string) (input : SeedTenantAdminInput)
    (new_id : string) (now : Z) (salt : Buffer) (t0 t1 : tenant_tables) : M (tenant_tables * SeedTenantAdminResult) :=
  tenant ← resolveTenant rs (seed_tenant input);
  let email := toLowerCase (trim (seed_email input)) in
  match find_role TENANT_ADMIN_ROLE_NAME t0 with
  | None => Throw (EError ("Tenant " +:+ quote +:+ tenant_slug tenant +:+ quote +:+ " has no " +:+ quote +:+
              TENANT_ADMIN_ROLE_NAME +:+ quote +:+ " role. Its database was not provisioned by this version of the kit, "
              +:+ "or provisioning did not complete."))
  | Some role =>
      let existing := find_user email t0 in
      r ← seed_transaction existing role email (seed_password input) new_id now salt t1;
      Ok (r.1, {| sr_tenantSlug := tenant_slug tenant; sr_databaseName := (getTenantDb tenant cache).1;
                  sr_userId := r.2; sr_email := email; sr_role := TENANT_ADMIN_ROLE_NAME;
                  sr_created := match existing with Some _ => false | None => true end |})
  end.
End seed.

(** [main] up to the call: what is seeded, or what is missing. *)
Inductive seed_request := Seed (input : SeedTenantAdminInput) | Missing (what : list string) | TooShort | NoUrls.

Definition truthy (v : option string) : option string :=
  match v with Some EmptyString => None | v => v end.
Definition seed_main (argv : list string) (env : gmap string string) : seed_request :=
  let args := parseArgs argv ∅ in
  let tenant := truthy (args !! "tenant") in
  let email := truthy (args !! "email") in
  let password := truthy (match env !! "SEED_ADMIN_PASSWORD" with Some p => Some p | None => args !! "password" end) in
  match tenant, email, password with
  | Some tenant, Some email, Some password =>
      if Nat.ltb (js_length password) 12 then TooShort
      else match truthy (env !! "MASTER_DATABASE_URL"), truthy (env !! "TENANT_CLUSTER_URL") with
           | Some _, Some _ => Seed {| seed_tenant := tenant; seed_email := email; seed_password := password |}
           | _, _ => NoUrls
           end
  | _, _, _ =>
      Missing ((if tenant then [] else ["--tenant"]) ++ (if email then [] else ["--email"]) ++
               (if password then [] else ["--password or SEED_ADMIN_PASSWORD"]))
  end.

(** ** The key commands *)

Inductive key_command :=
  | Init | Rotate (only : option Purpose) | ListKeys | Revoke (kid reason : string)
  | RevokeNeedsBoth | UnknownCommand (command : string) | NoEnvironment | BadKek.

Definition keys_main (argv : list string) (env : gmap string string) : M key_command :=
  let args := parseArgs argv ∅ in
  let command := default "list" (List.find (λ a, negb (bool_decide (is_Some (flag_body a)))) argv) in
  match truthy (env !! "MASTER_DATABASE_URL"), truthy (env !! "KEY_ENCRYPTION_KEY") with
  | Some masterUrl, Some kek =>
      let kekBytes := from_base64url kek in
      if negb (Nat.eqb (byteLength kekBytes) 32) then Ok BadKek
      else
        provider ← LocalKeyProvider kekBytes "local";
        if String.eqb command "init" then Ok Init
        else if String.eqb command "rotate" then
          only ← resolvePurpose (args !! "purpose"); Ok (Rotate only)
        else if String.eqb command "list" then Ok ListKeys
        else if String.eqb command "revoke" then
          match truthy (args !! "kid"), truthy (args !! "reason") with
          | Some kid, Some reason => Ok (Revoke kid reason)
          | _, _ => Ok RevokeNeedsBoth
          end
        else Ok (UnknownCommand command)
  | _, _ => Ok NoEnvironment
  end.

(** ** What seeding does *)

Section seeding.
Context `{Argon2}.

Lemma find_after_create l email u : List.find (λ u, String.eqb (user_email u) email) l = None →
  user_email u = email → List.find (λ u, String.eqb (user_email u) email) (l ++ [u]) = Some u.
Proof.
  intros Hl He. induction l as [|x l IH]; simpl in *; [by rewrite He, String.eqb_refl|].
  destruct (String.eqb (user_email x) email); [done|auto].
Qed.

Lemma upsert_tables u r t : users (upsert_user_role u r t) = users t ∧
  roles_table (upsert_user_role u r t) = roles_table t ∧ (u, r) ∈ user_roles (upsert_user_role u r t) ∧
  ∀ a, a ∈ user_roles t → a ∈ user_roles (upsert_user_role u r t).
Proof. unfold upsert_user_role. case_decide; split_and!; try done; set_solver. Qed.

Lemma upsert_same u r t : (u, r) ∈ user_roles t → upsert_user_role u r t = t.
Proof. unfold upsert_user_role. by case_decide. Qed.

Lemma seed_inv rs cache input new_id now salt t0 t1 t' report :
  seedTenantAdmin rs cache input new_id now salt t0 t1 = Ok (t', report) →
  ∃ tenant role, resolveTenant rs (seed_tenant input) = Ok tenant ∧
    find_role TENANT_ADMIN_ROLE_NAME t0 = Some role ∧
    sr_tenantSlug report = tenant_slug tenant ∧ sr_email report = toLowerCase (trim (seed_email input)) ∧
    match find_user (sr_email report) t0 with
    | Some u => t' = upsert_user_role (user_id u) (role_id role) t1 ∧ sr_userId report = user_id u ∧ sr_created report = false
    | None => ∃ h u, hashPassword (seed_password input) salt = Ok h ∧
        u = {| user_id := new_id; user_email := sr_email report; passwordHash := h; user_status := user_active;
             user_createdAt := now |} ∧
        find_user (sr_email report) t1 = None ∧
        t' = upsert_user_role new_id (role_id role)
               {| users := users t1 ++ [u]; roles_table := roles_table t1; user_roles := user_roles t1 |} ∧
        sr_userId report = new_id ∧ sr_created report = true
    end.
Proof.
  unfold seedTenantAdmin, seed_transaction. intros He. rewrite mbind_rbind in He.
  apply rbind_Ok_inv in He as (tenant & Ht & He). cbv zeta in He.
  destruct (find_role _ t0) as [role|] eqn:Er; [|done]. rewrite mbind_rbind in He.
  apply rbind_Ok_inv in He as (r & Hr & He). injection He as <- <-. exists tenant, role. cbn [sr_email sr_tenantSlug sr_userId sr_created].
  split_and!; try done. rewrite mbind_rbind in Hr. apply rbind_Ok_inv in Hr as ([tc idc] & Hc & Hr). injection Hr as <-.
  destruct (find_user _ t0) as [u|]; [by injection Hc as <- <-|].
  rewrite mbind_rbind in Hc. apply rbind_Ok_inv in Hc as (h & Hh & Hc).
  destruct (hashPassword (seed_password input) salt) as [h0|msg] eqn:Eh; [|done]. injection Hh as ->.
  rewrite mbind_rbind in Hc. apply rbind_Ok_inv in Hc as ([tc' u] & Hcr & Hc). injection Hc as <- <-.
  unfold create_user in Hcr. destruct (find_user _ t1) eqn:Ef; [done|]. injection Hcr as <- <-.
  exists h. eexists. split_and!; reflexivity.
Qed.

(** Seeding an administrator is idempotent and only adds: it grants the
    tenant-admin role to the account of the given address, creates that account
    only when there is none, never touches a stored password or an existing
    grant, and seeding the same address again, whatever the password, changes
    nothing and reports the same account. *)
Theorem seed_is_idempotent rs cache input new_id now salt t t' report :
  seedTenantAdmin rs cache input new_id now salt t t = Ok (t', report) →
  (∃ u role, find_user (sr_email report) t' = Some u ∧ user_id u = sr_userId report ∧
     find_role TENANT_ADMIN_ROLE_NAME t' = Some role ∧ (user_id u, role_id role) ∈ user_roles t') ∧
  (∃ new, users t' = users t ++ new ∧ (sr_created report = false → new = [])) ∧
  (∀ a, a ∈ user_roles t → a ∈ user_roles t') ∧
  ∀ new_id' now' salt' password',
    seedTenantAdmin rs cache {| seed_tenant := seed_tenant input; seed_email := seed_email input;
                                seed_password := password' |} new_id' now' salt' t' t'
    = Ok (t', {| sr_tenantSlug := sr_tenantSlug report; sr_databaseName := sr_databaseName report;
                 sr_userId := sr_userId report; sr_email := sr_email report; sr_role := sr_role report;
                 sr_created := false |}).
Proof.
  intros Hs. pose proof Hs as Hs'. apply seed_inv in Hs as (tenant & role & Ht & Hrole & Hslug & Hem & Hcase).
  assert (Hdb : sr_databaseName report = (getTenantDb tenant cache).1 ∧ sr_role report = TENANT_ADMIN_ROLE_NAME).
  { unfold seedTenantAdmin in Hs'. rewrite Ht, mbind_rbind in Hs'. cbn [rbind] in Hs'. rewrite Hrole, mbind_rbind in Hs'.
    apply rbind_Ok_inv in Hs' as (r & _ & Hs'). by injection Hs' as _ <-. }
  destruct Hdb as [Hdb Hrn].
  assert (Hafter : ∃ u, find_user (sr_email report) t' = Some u ∧ user_id u = sr_userId report ∧
    find_role TENANT_ADMIN_ROLE_NAME t' = Some role ∧ (user_id u, role_id role) ∈ user_roles t' ∧
    (∃ new, users t' = users t ++ new ∧ (sr_created report = false → new = [])) ∧
    ∀ a, a ∈ user_roles t → a ∈ user_roles t').
  { destruct (find_user (sr_email report) t) as [u|] eqn:Eu.
    - destruct Hcase as (-> & Hid & Hc). destruct (upsert_tables (user_id u) (role_id role) t) as (H1 & H2 & H3 & H4).
      exists u. unfold find_user, find_role in *. rewrite H1, H2. split_and!; try done. exists []. by rewrite app_nil_r.
    - destruct Hcase as (h & u & Hh & Hu & Hn & -> & Hid & Hc).
      match goal with |- context [upsert_user_role ?a ?b ?c] => destruct (upsert_tables a b c) as (H1 & H2 & H3 & H4) end.
      exists u. unfold find_user, find_role in *. rewrite H1, H2. cbn [users roles_table user_roles] in *.
      split_and!; try done; [apply find_after_create; [done|by subst u]|by subst u|by subst u|].
      exists [u]. split; [done|congruence]. }
  destruct Hafter as (u & Hfu & Hid & Hfr & Hin & Hnew & Hkeep). split_and!; [by exists u, role|done|done|].
  intros new_id' now' salt' password'. unfold seedTenantAdmin. cbn [seed_tenant seed_email seed_password].
  rewrite Ht, mbind_rbind. cbn [rbind]. rewrite Hfr. cbv zeta. rewrite <- Hem, Hfu. unfold seed_transaction.
  rewrite !mbind_rbind. cbn [rbind fst snd]. rewrite upsert_same by done. by rewrite Hid, Hslug, Hdb, Hrn.
Qed.
End seeding.

(** ** The hypotheses can hold *)

Module OperatorSample.
#[local] Existing Instance Sample.toy.
#[local] Existing Instance RedisMap.Redis_map.
Import ProvisioningSample RoutingSample GuardsSample SessionsSample.

Definition acme_rows : list TenantRecord := registry (deployment before_request).
Definition seed_input : SeedTenantAdminInput :=
  {| seed_tenant := "acme"; seed_email := " Root@acme.example"; seed_password := "correct horse 9" |}.
Definition seeded : tenant_tables :=
  match seedTenantAdmin acme_rows ∅ seed_input "u9" 9000 "salt" acme_tables acme_tables with
  | Ok (t, _) => t | Throw _ => acme_tables end.

Lemma seed_is_idempotent_witness :
  user_roles seeded = [("u1", "r1"); ("u9", "r1")] ∧
  ∀ report, seedTenantAdmin acme_rows ∅ seed_input "u9" 9000 "salt" acme_tables acme_tables = Ok (seeded, report) →
  (∃ u role, find_user (sr_email report) seeded = Some u ∧ user_id u = sr_userId report ∧
     find_role TENANT_ADMIN_ROLE_NAME seeded = Some role ∧ (user_id u, role_id role) ∈ user_roles seeded).
Proof.
  split; [vm_compute; reflexivity|]. intros report Hs.
  exact (proj1 (seed_is_idempotent acme_rows ∅ seed_input "u9" 9000 "salt" acme_tables seeded report Hs)).
Defined.

(** Registration is open to whoever knows the slug. An account somebody registered
    under the administrator's address before the seed keeps the password it was
    registered with, and is the one the seed makes administrator: its holder then
    logs in with every permission. *)
Definition squatted : world (list (chain * AppendAuditEvent)) :=
  (register events_only no_fault acme_request "u7" 7000 "salt" "root@acme.example" "attacker's own pw" (start acme_tables)).1.
Definition seeded_squat : tenant_tables :=
  match seedTenantAdmin acme_rows ∅ seed_input "u9" 9000 "salt" (tables (state squatted)) (tables (state squatted)) with
  | Ok (t, _) => t | Throw _ => acme_tables end.
Example seeding_promotes_whoever_registered_first :
  user_roles seeded_squat = [("u1", "r1"); ("u7", "r1")] ∧
  is_Some (to_option (try_login 10 "root@acme.example" "attacker's own pw" (start seeded_squat)).2) ∧
  (try_login 10 "root@acme.example" "correct horse 9" (start seeded_squat)).2 = Throw (EDomain InvalidCredentialsError) ∧
  (authz "u7" seeded_squat).2 = ["users:read"; "users:write"; "roles:manage"].
Proof. vm_compute. split_and!; try reflexivity. eauto. Qed.

Example command_lines :
  seed_main ["--tenant"; "acme"; "--email"; "a@b.c"] {[ "SEED_ADMIN_PASSWORD" := "short" ]} = TooShort ∧
  seed_main ["--email"; "a@b.c"] ∅ = Missing ["--tenant"; "--password or SEED_ADMIN_PASSWORD"] ∧
  keys_main ["revoke"; "--kid"; "k1"] {[ "MASTER_DATABASE_URL" := "u"; "KEY_ENCRYPTION_KEY" := ConfigSample.key1 ]}
    = Ok RevokeNeedsBoth.
Proof. vm_compute. split_and!; reflexivity. Qed.
End OperatorSample.
