(* ===== verification/Endpoints.v ===== *)
(** The endpoints: the controllers of services/auth/src (auth, users, tenants,
    health and keys), what their decorators and DTOs declare, and what main.ts and
    the modules put around them.

    [serve] answers one request: the rate-limit guard, the guards of the route, the
    validation pipe, the handler, the envelope, and the filter for whatever was
    thrown on the way, in the order in which Nest runs them. Which route a request
    matches is the router's decision, so the endpoint is an argument. What other
    processes do while a request is served, what fails, and what is drawn at random
    are in [Circumstances]. *)
From S2P Require Import Prelude Dates Domain AuditHash AuditWriter RateLimit Limiter RateLimitGuard LoginThrottle.
From S2P Require Import ConnectionManager TenantRouting Keys Tokens KeyStore KeyRegistry TokenService.
From S2P Require Import Guards AuditTrail AuthService Sessions Http.
From stdpp Require Import functions.
#[local] Open Scope Z_scope.

(** ** Bodies *)

(** What the DTOs' decorators ask of a member. *)
Inductive constraint := IsEmail | IsString | MinLength (n : nat) | Matches (pattern : string → bool).
Definition Dto : Type := list (string * list constraint).

Definition LoginDto : Dto := [("email", [IsEmail]); ("password", [IsString])].
Definition RegisterDto : Dto := [("email", [IsEmail]); ("password", [IsString; MinLength 12])].
Definition ProvisionTenantDto : Dto := [("slug", [Matches valid_slug]); ("name", [IsString; MinLength 2])].

(** A member of a parsed object, which holds each key once. *)
Definition member (k : string) (body : json) : option json :=
  match body with
  | JObject o => snd <$> List.find (λ p, String.eqb p.1 k) o
  | _ => None
  end.
(** A member the handler reads as the string its DTO declares. *)
Definition field (k : string) (body : json) : string :=
  match member k body with Some (JString s) => s | _ => "" end.

(** class-validator, run by Nest's ValidationPipe with [whitelist] and
    [forbidNonWhitelisted]: what it thinks an address and a length are, and the
    errors it collects. *)
Class ClassValidator := {
  isEmail : string → bool;
  minLength : nat → string → bool;
  validate : Dto → json → list ValidationError;
}.

Section bodies.
Context `{ClassValidator}.

Definition satisfies (v : json) (c : constraint) : bool :=
  match v, c with
  | JString s, IsEmail => isEmail s
  | JString s, IsString => true
  | JString s, MinLength n => minLength n s
  | JString s, Matches p => p s
  | _, _ => false
  end.

(** Every declared member satisfies its constraints, and there is no other. *)
Definition well_formed (dto : Dto) (body : json) : bool :=
  match body with
  | JObject o =>
      forallb (λ '(k, cs), match member k body with Some v => forallb (satisfies v) cs | None => false end) dto &&
      forallb (λ p : string * json, existsb (λ d : string * list constraint, String.eqb d.1 p.1) dto) o
  | _ => false
  end.

Definition pipe (dto : option Dto) (body : json) : M json :=
  match dto with
  | None => Ok body
  | Some dto =>
      match validate dto body with
      | [] => Ok body
      | errors => Throw (EDomain (validationExceptionFactory errors))
      end
  end.
End bodies.

Class ClassValidatorLaws `(ClassValidator) := {
  validate_spec dto body : validate dto body = [] ↔ well_formed dto body = true;
}.

(** ** Routes *)

Inductive Endpoint := auth_register | auth_login | users_list | tenants_provision | health_check | keys_jwks.
#[export] Instance Endpoint_eq_dec : EqDecision Endpoint.
Proof. solve_decision. Defined.

Inductive guard_chain :=
  | Public
  | WithTenant                             (* @UseGuards(TenantGuard) *)
  | WithPermissions (required : list string)   (* @TenantAuthenticated(...) *)
  | ControlPlane.                          (* @UseGuards(ControlPlaneGuard) *)

Record Route := {
  verb : string; controller_path : string; handler_path : string;
  unlimited : bool; budget : option RateLimitOptions;
  chain_of : guard_chain; dto : option Dto;
  success : Z; raw : bool; own_headers : list (string * string);
}.

Definition register_route : Route :=
  {| verb := "POST"; controller_path := "auth"; handler_path := "register"; unlimited := false;
     budget := Some {| opt_limit := 10; opt_windowMs := 60000 |}; chain_of := WithTenant;
     dto := Some RegisterDto; success := 201; raw := false; own_headers := [] |}.
Definition login_route : Route :=
  {| verb := "POST"; controller_path := "auth"; handler_path := "login"; unlimited := false;
     budget := Some {| opt_limit := 20; opt_windowMs := 60000 |}; chain_of := WithTenant;
     dto := Some LoginDto; success := 201; raw := false; own_headers := [] |}.
Definition list_route : Route :=
  {| verb := "GET"; controller_path := "users"; handler_path := ""; unlimited := false; budget := None;
     chain_of := WithPermissions [PERMISSION_KEYS usersRead]; dto := None; success := 200; raw := false;
     own_headers := [] |}.
Definition provision_route : Route :=
  {| verb := "POST"; controller_path := "tenants"; handler_path := ""; unlimited := false;
     budget := Some {| opt_limit := 30; opt_windowMs := 3600000 |}; chain_of := ControlPlane;
     dto := Some ProvisionTenantDto; success := 201; raw := false; own_headers := [] |}.
Definition health_route : Route :=
  {| verb := "GET"; controller_path := "health"; handler_path := ""; unlimited := true; budget := None;
     chain_of := Public; dto := None; success := 200; raw := false; own_headers := [] |}.
Definition jwks_route : Route :=
  {| verb := "GET"; controller_path := ""; handler_path := ".well-known/jwks.json"; unlimited := false;
     budget := None; chain_of := Public; dto := None; success := 200; raw := true;
     own_headers := [ ("cache-control", "public, max-age=300, must-revalidate");
                      ("content-type", "application/jwk-set+json; charset=utf-8") ] |}.

Definition route (e : Endpoint) : Route :=
  match e with
  | auth_register => register_route
  | auth_login => login_route
  | users_list => list_route
  | tenants_provision => provision_route
  | health_check => health_route
  | keys_jwks => jwks_route
  end.

(** [setGlobalPrefix("api", { exclude: [".well-known/jwks.json"] })] *)
Definition unprefixed : list string := [".well-known/jwks.json"].
Definition route_url (e : Endpoint) : string :=
  let path := String.concat "/" (filter (.≠ "") [controller_path (route e); handler_path (route e)]) in
  if decide (path ∈ unprefixed) then "/" +:+ path else "/api/" +:+ path.

Example urls : map route_url [auth_register; auth_login; users_list; tenants_provision; health_check; keys_jwks] =
  ["/api/auth/register"; "/api/auth/login"; "/api/users"; "/api/tenants"; "/api/health"; "/.well-known/jwks.json"].
Proof. vm_compute. reflexivity. Qed.

(** ** The service while it serves *)

(** [PACKAGE_INFO]: [file] is the parsed package.json, if it could be read and
    parsed. *)
Definition readPackageInfo (file : option json) : json * json :=
  let get k := match file with
               | Some parsed => match member k parsed with None | Some JNull => JString "unknown" | Some v => v end
               | None => JString "unknown"
               end in
  (get "name", get "version").

(** The settings of AppConfig the request path reads. *)
Record Settings := {
  limits : GuardConfig; throttling : ThrottleConfig; apiKey : string; problemBaseUri : string;
}.

(** The process's own state, the databases of the tenants by the name a client
    connects to, and the provisionings it has asked for. *)
Record Service `{Redis} (A : Type) := {
  sv_limiter : Limiter;
  sv_cache : gmap string string;
  sv_decoy : option (result string string);
  sv_lookups : nat; sv_verifications : nat;
  sv_databases : string → tenant_tables;
  sv_provisionings : list ProvisionTenantInput;
  sv_trail : trail A;
}.
Arguments sv_limiter {_ A} s. Arguments sv_cache {_ A} s. Arguments sv_decoy {_ A} s.
Arguments sv_lookups {_ A} s. Arguments sv_verifications {_ A} s. Arguments sv_databases {_ A} s.
Arguments sv_provisionings {_ A} s. Arguments sv_trail {_ A} s.

Record Circumstances `{JoseKeys} := {
  at_client : moment; at_route : moment; at_throttle : Moments;   (* when the limiters' calls reach Redis *)
  rows : list TenantRecord;                        (* the registry when the tenant is resolved *)
  failing : string → db_op → option string;        (* which calls on which database fail *)
  provisionTenant : ProvisionTenantInput → M ProvisionedTenant;
  keys : Snapshot; now : Z;
  drawn_id : string; drawn_salt : Buffer; drawn_trace : string;
  started : Z; package_file : option json;         (* when the process started, and its package.json *)
}.

Section service.
Context `{Sha256} `{Redis} `{Argon2} `{AccessTokens} `{JoseKeys} `{ClassValidator}.
Context {A : Type} (appendAuditEvent : chain → AppendAuditEvent → A → A * M AppendedAuditEvent).
Context (settings : Settings).

Definition set_sv_limiter (L : Limiter) (s : Service A) : Service A :=
  {| sv_limiter := L; sv_cache := sv_cache s; sv_decoy := sv_decoy s; sv_lookups := sv_lookups s;
     sv_verifications := sv_verifications s; sv_databases := sv_databases s;
     sv_provisionings := sv_provisionings s; sv_trail := sv_trail s |}.
Definition set_guarded (cache : gmap string string) (t : trail A) (s : Service A) : Service A :=
  {| sv_limiter := sv_limiter s; sv_cache := cache; sv_decoy := sv_decoy s; sv_lookups := sv_lookups s;
     sv_verifications := sv_verifications s; sv_databases := sv_databases s;
     sv_provisionings := sv_provisionings s; sv_trail := t |}.
Definition set_provisioning (input : ProvisionTenantInput) (t : trail A) (s : Service A) : Service A :=
  {| sv_limiter := sv_limiter s; sv_cache := sv_cache s; sv_decoy := sv_decoy s; sv_lookups := sv_lookups s;
     sv_verifications := sv_verifications s; sv_databases := sv_databases s;
     sv_provisionings := sv_provisionings s ++ [input]; sv_trail := t |}.

(** *** Before the handler *)

(** A request as the router hands it on: with the route's pattern, and nothing
    that a guard puts on it. *)
Definition arrive (e : Endpoint) (req : Request) : Request :=
  {| rq_headers := rq_headers req; rq_rawHeaders := rq_rawHeaders req; rq_method := verb (route e);
     rq_url := rq_url req; rq_route := Some (route_url e); rq_ip := rq_ip req;
     rq_tenant := None; rq_tenantDb := None; rq_user := None |}.
Definition fastify (req : Request) : FastifyRequest :=
  {| req_method := rq_method req; routeOptionsUrl := rq_route req; req_url := rq_url req; req_ip := Some (rq_ip req) |}.
Definition metadata_of (r : Route) : RouteMetadata :=
  {| isHttp := true; noRateLimit := unlimited r; rateLimit := budget r |}.

Definition context (req : Request) : RequestWithTenant :=
  {| req_tenant := rq_tenant req; req_tenantDb := rq_tenantDb req |}.

(** The request and the client cache after TenantGuard. *)
Definition tenanted (cx : Circumstances) (cache : gmap string string) (req : Request)
    : Request * gmap string string :=
  match TenantGuard (rows cx) cache req with Ok r => r | Throw _ => (req, cache) end.

(** The guards of the route: the service after them, which may hold a new client
    and a recorded denial, and the request they leave. *)
Definition run_guards (c : guard_chain) (cx : Circumstances) (req : Request) (s : Service A) : Service A * M Request :=
  match c with
  | Public => (s, Ok req)
  | WithTenant =>
      (set_guarded (tenanted cx (sv_cache s) req).2 (sv_trail s) s,
       r ← TenantGuard (rows cx) (sv_cache s) req; Ok r.1)
  | WithPermissions required =>
      let '(req1, cache) := tenanted cx (sv_cache s) req in
      let '(events, outcome) := TenantAuthenticated required (rows cx) (sv_cache s) req in
      (set_guarded cache
         (foldl (λ t ev, tenantEvent appendAuditEvent (context req1) ev t) (sv_trail s) events) s, outcome)
  | ControlPlane =>
      (s, ok ← ControlPlaneGuard (apiKey settings) req;
          if (ok : bool) then Ok req else Throw (ForbiddenException "Forbidden resource"))
  end.

(** *** The handlers *)

(** The database the request's client connects to. *)
Definition client (req : Request) : string := default "" (rq_tenantDb req).

(** A method of a service on the request's tenant. *)
Definition on_tenant {B} (req : Request) (m : St (A := A) B) (s : Service A) : Service A * M B :=
  let d := client req in
  let '(w, r) := m {| state := {| limiter := sv_limiter s; tables := sv_databases s d; decoyHash := sv_decoy s;
                                  lookups := sv_lookups s; verifications := sv_verifications s |};
                      audit := sv_trail s |} in
  ({| sv_limiter := limiter (state w); sv_cache := sv_cache s; sv_decoy := decoyHash (state w);
      sv_lookups := lookups (state w); sv_verifications := verifications (state w);
      sv_databases := <[d := tables (state w)]> (sv_databases s);
      sv_provisionings := sv_provisionings s; sv_trail := audit w |}, r).

(** [UsersService.list]; accounts created at the same instant come in the table's
    order. *)
Definition created_before (u v : User) : Prop := user_createdAt u ≤ user_createdAt v.
#[export] Instance created_before_dec : RelDecision created_before.
Proof. intros u v. unfold created_before. apply _. Defined.
Definition status_text (st : UserStatus) : string :=
  match st with user_active => "active" | user_disabled => "disabled" end.
Definition user_row (u : User) : json :=
  JObject [ ("id", JString (user_id u)); ("email", JString (user_email u));
            ("status", JString (status_text (user_status u)));
            ("createdAt", JString (toISOString (user_createdAt u))) ].
Definition list_users (fault : db_op → option string) (req : RequestWithTenant) : St (A := A) json :=
  _ ← lift (db req);
  query fault ListUsers (λ t, JArray (user_row <$> merge_sort created_before (users t))).

Definition tenant_json (t : Tenant) : json :=
  JObject [ ("id", JString (tenant_id t)); ("slug", JString (tenant_slug t));
            ("databaseName", JString (tenant_databaseName t));
            ("status", JString match tenant_status t with
                               | provisioning => "provisioning" | active => "active" | suspended => "suspended"
                               end) ].

(** [HealthController.check] *)
Definition check (cx : Circumstances) : json :=
  let (name, version) := readPackageInfo (package_file cx) in
  JObject [ ("status", JString "ok"); ("service", name); ("version", version);
            ("startedAt", JString (toISOString (started cx)));
            ("uptimeSeconds", JNum ((now cx - started cx) / 1000)) ].

(** A derived JWK has string members only; what else a JWK could hold is not
    told apart in Keys.v. *)
Definition jwk_member (v : Keys.json) : json :=
  match v with
  | Keys.JString s => JString s
  | JNumber n => JNum n
  | JStringArray l => JArray (JString <$> l)
  | JOther => JNull
  end.
Definition jwks_document (published : list (gmap string Keys.json)) : json :=
  JObject [("keys", JArray ((λ k : gmap string Keys.json, JObject (map_to_list (jwk_member <$> k))) <$> published))].

Definition post_register (cx : Circumstances) (req : Request) (body : json) (s : Service A) : Service A * M payload :=
  let '(s', r) := on_tenant req (register appendAuditEvent (failing cx (client req)) (context req) (drawn_id cx) (now cx)
                    (drawn_salt cx) (field "email" body) (field "password" body)) s in
  (s', '(id, email) ← r; Ok (Bare (JObject [("id", JString id); ("email", JString email)]))).
Definition post_login (cx : Circumstances) (req : Request) (body : json) (s : Service A) : Service A * M payload :=
  let '(s', r) := on_tenant req (login appendAuditEvent (throttling settings) (failing cx (client req)) (context req)
                    (at_throttle cx) (drawn_salt cx) (field "email" body) (field "password" body) (rq_ip req)) s in
  (s', token ← r; Ok (Bare (JObject [("accessToken", JString token)]))).
Definition get_users (cx : Circumstances) (req : Request) (s : Service A) : Service A * M payload :=
  let '(s', r) := on_tenant req (list_users (failing cx (client req)) (context req)) s in
  (s', l ← r; Ok (Bare l)).
Definition post_tenant (cx : Circumstances) (body : json) (s : Service A) : Service A * M payload :=
  let input := {| in_slug := field "slug" body; in_name := field "name" body |} in
  let '(t, r) := provision appendAuditEvent (provisionTenant cx input) (sv_trail s) in
  (set_provisioning input t s, tenant ← r; Ok (Bare (tenant_json tenant))).

Definition handler (e : Endpoint) (cx : Circumstances) (req : Request) (body : json) (s : Service A)
    : Service A * M payload :=
  match e with
  | auth_register => post_register cx req body s
  | auth_login => post_login cx req body s
  | users_list => get_users cx req s
  | tenants_provision => post_tenant cx body s
  | health_check => (s, Ok (Bare (check cx)))
  | keys_jwks => (s, Ok (Bare (jwks_document (jwks (keys cx) (now cx)))))
  end.

(** *** The answer *)

Inductive Body := Problem (p : ProblemDetails) | Envelope (e : SuccessEnvelope) | Raw (p : payload).

Definition failed (cx : Circumstances) (req : Request) (err : exn) (headers : Headers) : Reply Body :=
  let reply := (filter_catch (problemBaseUri settings) err (drawn_trace cx) (rq_url req) headers).1 in
  {| reply_status := reply_status reply; reply_headers := onSend (reply_headers reply);
     reply_body := Problem <$> reply_body reply |}.

Definition succeeded (r : Route) (p : payload) (headers : Headers) : Reply Body :=
  {| reply_status := success r; reply_headers := onSend headers;
     reply_body := Some (match intercept (raw r) p with inl p => Raw p | inr e => Envelope e end) |}.

(** Nest sets a handler's own headers once the guards have passed. *)
Definition with_own_headers (r : Route) (headers : Headers) : Headers :=
  foldl (λ h kv, <[kv.1 := kv.2]> h) headers (own_headers r).

Definition serve (e : Endpoint) (cx : Circumstances) (req : Request) (body : json) (s : Service A)
    : Service A * Reply Body :=
  let r := route e in
  let req := arrive e req in
  let '(L, headers, admitted) :=
    canActivate (limits settings) (metadata_of r) (fastify req) (at_client cx) (at_route cx) (sv_limiter s) ∅ in
  let s1 := set_sv_limiter L s in
  match admitted with
  | Throw err => (s1, failed cx req err headers)
  | Ok _ =>
      let '(s2, guarded) := run_guards (chain_of r) cx req s1 in
      match guarded with
      | Throw err => (s2, failed cx req err headers)
      | Ok req' =>
          let headers' := with_own_headers r headers in
          match pipe (dto r) body with
          | Throw err => (s2, failed cx req err headers')
          | Ok body =>
              let '(s3, result) := handler e cx req' body s2 in
              match result with
              | Throw err => (s3, failed cx req err headers')
              | Ok p => (s3, succeeded r p headers')
              end
          end
      end
  end.
End service.
