(* ===== verification/Requests.v ===== *)
(** What serving a request guarantees: the theorems about [serve] of Endpoints.v,
    which composes the limiter, the guards, the validation, the handlers and what
    is sent back. *)
From S2P Require Import Prelude Domain AuditHash AuditWriter RateLimit Limiter RateLimitGuard LoginThrottle.
From S2P Require Import ConnectionManager TenantRouting Keys Tokens KeyStore KeyRegistry TokenService.
From S2P Require Import Guards AuditTrail AuthService Sessions Http Endpoints.
From stdpp Require Import functions.
#[local] Open Scope Z_scope.

(** ** Headers *)

Section headers.
Context `{Redis} (config : GuardConfig).

Definition limiter_header (k : string) : Prop :=
  k = "x-ratelimit-degraded" ∨ k = "x-ratelimit-limit" ∨ k = "x-ratelimit-remaining".

Lemma setHeaders_other r reply k : ¬ limiter_header k → setHeaders r reply !! k = reply !! k.
Proof.
  unfold limiter_header, setHeaders. intros Hk. destruct (degraded r).
  - rewrite lookup_insert_ne by (intros <-; tauto).
    by rewrite !lookup_delete_ne by (intros <-; tauto).
  - destruct (reply !! "x-ratelimit-degraded"); [done|]. by rewrite !lookup_insert_ne by (intros <-; tauto).
Qed.

(** The guard sets no other header. *)
Lemma canActivate_other meta rq t1 t2 L reply k :
  ¬ limiter_header k → (canActivate config meta rq t1 t2 L reply).1.2 !! k = reply !! k.
Proof.
  intros Hk. unfold canActivate. destruct (negb (isHttp meta)); [done|]. destruct (noRateLimit meta); [done|].
  destruct (clientId rq) as [c|e]; [|done]. destruct (storeConsume _ _ _ _ _ L) as [L1 g].
  destruct (negb (allowed g)); [by apply setHeaders_other|].
  destruct (rateLimit meta) as [o|]; [|by apply setHeaders_other].
  destruct (storeConsume _ _ _ _ _ L1) as [L2 r].
  destruct (negb (allowed r)); simpl; by rewrite !setHeaders_other.
Qed.
End headers.

Lemma onSend_cache h : onSend h !! "cache-control" = Some (default "no-store" (h !! "cache-control")).
Proof. unfold onSend. by rewrite !default_header_lookup. Qed.
Lemma onSend_sniff h :
  onSend h !! "x-content-type-options" = Some (default "nosniff" (h !! "x-content-type-options")).
Proof. unfold onSend. by rewrite !default_header_lookup. Qed.
Lemma onSend_type h : onSend h !! "content-type" = h !! "content-type".
Proof. unfold onSend. by rewrite !default_header_lookup. Qed.

(** ** Every answer *)

Section answers.
Context `{Sha256} `{Redis} `{Argon2} `{AccessTokens} `{JoseKeys} `{ClassValidator}.
Context {A : Type} (appendAuditEvent : chain → AppendAuditEvent → A → A * M AppendedAuditEvent).
Context (settings : Settings).

#[local] Abbreviation serve := (serve appendAuditEvent settings).
#[local] Abbreviation failed := (failed settings).

(** The document of an error, under the status it names, as problem+json and for
    no cache; or the payload, in an envelope and for no cache; or the bare key
    set, as such, for five minutes. *)
Definition well_shaped (e : Endpoint) (cx : Circumstances) (req : Request) (reply : Reply Body) : Prop :=
  let header k := reply_headers reply !! k in
  header "x-content-type-options" = Some "nosniff" ∧
  match reply_body reply with
  | Some (Problem p) =>
      (∃ err, p = toProblem (problemBaseUri settings) err (drawn_trace cx) (rq_url req)) ∧
      reply_status reply = p_status p ∧
      header "content-type" = Some "application/problem+json; charset=utf-8" ∧
      header "cache-control" = Some "no-store"
  | Some (Envelope _) =>
      e ≠ keys_jwks ∧ reply_status reply = success (route e) ∧ header "cache-control" = Some "no-store"
  | Some (Raw p) =>
      e = keys_jwks ∧ p = Bare (jwks_document (jwks (keys cx) (now cx))) ∧ reply_status reply = 200 ∧
      header "content-type" = Some "application/jwk-set+json; charset=utf-8" ∧
      header "cache-control" = Some "public, max-age=300, must-revalidate"
  | None => False
  end.

Definition no_defaults (h : Headers) : Prop := h !! "cache-control" = None ∧ h !! "x-content-type-options" = None.

(** What the filter adds for an error that asks the client to wait. *)
Definition waiting (err : exn) (h : Headers) : Headers :=
  match err with
  | EDomain d =>
      match too_many_requests d with
      | Some s => <["cache-control" := "no-store"]> (<["retry-after" := decZ s]> h)
      | None => h
      end
  | _ => h
  end.

Lemma waiting_lookup err h :
  waiting err h !! "x-content-type-options" = h !! "x-content-type-options" ∧
  (waiting err h !! "cache-control" = h !! "cache-control" ∨ waiting err h !! "cache-control" = Some "no-store").
Proof.
  unfold waiting. destruct err as [d| | | | | | |]; try (by split; [|left]).
  destruct (too_many_requests d); [|by split; [|left]]. split; [by rewrite !lookup_insert_ne|right; by rewrite lookup_insert_eq].
Qed.

Lemma failed_shape e cx req err h : no_defaults h → well_shaped e cx req (failed cx (arrive e req) err h).
Proof.
  intros [Hc Hn]. destruct (waiting_lookup err h) as [Wn Wc]. unfold well_shaped.
  change (reply_headers (failed cx (arrive e req) err h))
    with (onSend (<["content-type" := "application/problem+json; charset=utf-8"]> (waiting err h))).
  rewrite onSend_sniff, onSend_type, onSend_cache, lookup_insert_eq.
  rewrite !lookup_insert_ne by done. rewrite Wn, Hn. split; [done|]. split_and!; [by exists err|done..|].
  destruct Wc as [-> | ->]; [by rewrite Hc|done].
Qed.

(** C9. One shape per outcome, whatever happens: every answer to every endpoint
    forbids content sniffing; an error at any stage, expected or not, is one
    problem document under its own status and is never cached; a success is the
    envelope under the route's status and is never cached; and the key set alone is
    bare, under its registered media type and cacheable for five minutes. *)
Theorem answers_are_shaped e cx req body s : well_shaped e cx req (serve e cx req body s).2.
Proof.
  unfold Endpoints.serve.
  destruct (canActivate _ _ _ _ _ _ _) as [[L h] admitted] eqn:Ec.
  assert (Hh : no_defaults h).
  { pose proof (λ k Hk, canActivate_other (limits settings) (metadata_of (route e)) (fastify (arrive e req))
      (at_client cx) (at_route cx) (sv_limiter s) ∅ k Hk) as Ho. rewrite Ec in Ho. simpl in Ho.
    unfold limiter_header in Ho. split; (rewrite Ho; [done|naive_solver]). }
  destruct admitted as [b|err]; [|by apply failed_shape].
  destruct (run_guards _ _ _ _ _ _) as [s2 [req'|err]]; [|by apply failed_shape].
  destruct (decide (e = keys_jwks)) as [->|He].
  - destruct Hh as [Hc Hn]. unfold well_shaped. cbn [serve pipe route jwks_route dto handler succeeded reply_headers snd].
    rewrite onSend_sniff, onSend_type, onSend_cache. cbn [with_own_headers own_headers route jwks_route foldl fst snd].
    rewrite !lookup_insert_ne by done. rewrite Hn, lookup_insert_eq. split; [done|]. split_and!; try done.
    by rewrite lookup_insert_ne, lookup_insert_eq by done.
  - assert (Hown : with_own_headers (route e) h = h) by by destruct e. rewrite Hown.
    destruct (pipe _ body) as [v|err]; [|by apply failed_shape].
    destruct (handler _ _ _ _ _ _ _) as [s3 [p|err]]; [|by apply failed_shape].
    destruct Hh as [Hc Hn]. unfold well_shaped, succeeded. cbn [reply_headers reply_body reply_status snd].
    replace (raw (route e)) with false by by destruct e.
    rewrite onSend_sniff, onSend_cache, Hn, Hc. by split_and!.
Qed.

(** ** What a refused request has cost *)

(** Accounts, lookups of accounts, password verifications and hashes, and
    provisionings asked for. *)
Definition work (s : Service A) :=
  (sv_databases s, sv_lookups s, sv_verifications s, sv_decoy s, sv_provisionings s).

Lemma run_guards_work c cx req s : work (run_guards appendAuditEvent settings c cx req s).1 = work s.
Proof.
  destruct c; simpl; try done. destruct (tenanted _ _ _) as [req1 cache]. by destruct (TenantAuthenticated _ _ _ _).
Qed.

(** C39. Work is only done for requests that may ask for it: unless the limiter
    admitted the request, the guards of its route passed it and its body is exactly
    what the DTO declares, no account is read or changed, no password is hashed or
    verified and no tenant is provisioned. *)
Theorem refused_requests_do_no_work `{!ClassValidatorLaws _} e cx req body s :
  work (serve e cx req body s).1 = work s ∨
  ∃ L h b s2 req',
    canActivate (limits settings) (metadata_of (route e)) (fastify (arrive e req)) (at_client cx) (at_route cx)
      (sv_limiter s) ∅ = (L, h, Ok b) ∧
    run_guards appendAuditEvent settings (chain_of (route e)) cx (arrive e req) (set_sv_limiter L s) = (s2, Ok req') ∧
    ∀ d, dto (route e) = Some d → well_formed d body = true.
Proof.
  unfold Endpoints.serve. destruct (canActivate _ _ _ _ _ _ _) as [[L h] [b|err]]; [|by left].
  pose proof (run_guards_work (chain_of (route e)) cx (arrive e req) (set_sv_limiter L s)) as Hw.
  destruct (run_guards _ _ _ _ _ _) as [s2 [req'|err]] eqn:Eg; [|by left].
  destruct (pipe _ body) as [v|err] eqn:Ep; [|by left].
  right. exists L, h, b, s2, req'. split_and!; [done|done|]. intros d Hd. unfold pipe in Ep. rewrite Hd in Ep.
  apply validate_spec. by destruct (validate d body).
Qed.
End answers.

(** ** One tenant at a time *)

Section confinement.
Context `{Sha256} `{Redis} `{Argon2} `{AccessTokens} `{JoseKeys} `{ClassValidator}.
Context {A : Type} (appendAuditEvent : chain → AppendAuditEvent → A → A * M AppendedAuditEvent).
Context (settings : Settings).

#[local] Abbreviation serve := (serve appendAuditEvent settings).
#[local] Abbreviation run_guards := (run_guards appendAuditEvent settings).
#[local] Abbreviation handler := (handler appendAuditEvent settings).

Definition with_databases (f : string → tenant_tables) (s : Service A) : Service A :=
  {| sv_limiter := sv_limiter s; sv_cache := sv_cache s; sv_decoy := sv_decoy s; sv_lookups := sv_lookups s;
     sv_verifications := sv_verifications s; sv_databases := f;
     sv_provisionings := sv_provisionings s; sv_trail := sv_trail s |}.

(** A step that reads and writes the database [own] only: whatever the others
    hold, it answers the same, does the same to its own, and leaves them alone. *)
Definition confined {X} (own : option string) (step : Service A → Service A * X) (s : Service A) : Prop :=
  ∀ f, (∀ d, own = Some d → f d = sv_databases s d) →
  ∃ f', step (with_databases f s) = (with_databases f' (step s).1, (step s).2) ∧
    (∀ d, own ≠ Some d → f' d = f d) ∧ (∀ d, own = Some d → f' d = sv_databases (step s).1 d).

(** A step that reads and writes none. *)
Lemma confined_none {X} own (step : Service A → Service A * X) s :
  (∀ f, step (with_databases f s) = (with_databases f (step s).1, (step s).2)) →
  sv_databases (step s).1 = sv_databases s → confined own step s.
Proof. intros Hs Hd f Hf. exists f. split_and!; [apply Hs|done|]. intros d Hown. rewrite Hd. by apply Hf. Qed.

Lemma confined_on_tenant {B} req (m : St (A := A) B) s : confined (Some (client req)) (on_tenant req m) s.
Proof.
  intros f Hf. unfold on_tenant. cbn [with_databases sv_limiter sv_databases sv_decoy sv_lookups sv_verifications sv_trail].
  rewrite (Hf (client req)) by done. destruct (m _) as [w r]. eexists. split; [reflexivity|]. split.
  - intros d Hd. apply fn_lookup_insert_ne. congruence.
  - intros d [= <-]. cbn. by rewrite !fn_lookup_insert.
Qed.

Lemma confined_bind {X Y} own (step : Service A → Service A * X) (g : X → Y) s :
  confined own step s → confined own (λ s, let '(s', x) := step s in (s', g x)) s.
Proof.
  intros Hs f Hf. destruct (Hs f Hf) as (f' & -> & Hother & Hown). exists f'.
  destruct (step s) as [s' x]. by split_and!.
Qed.

Definition uses_tenant (e : Endpoint) : bool :=
  match chain_of (route e) with WithTenant | WithPermissions _ => true | Public | ControlPlane => false end.

Lemma handler_confined e cx req body s :
  confined (if uses_tenant e then Some (client req) else None) (handler e cx req body) s.
Proof.
  destruct e; cbn [uses_tenant chain_of route register_route login_route list_route provision_route health_route jwks_route].
  - apply (confined_bind _ (on_tenant req _) (λ r : M _, '(id, email) ← r; Ok (Bare _))), confined_on_tenant.
  - apply (confined_bind _ (on_tenant req _) (λ r : M _, token ← r; Ok (Bare _))), confined_on_tenant.
  - apply (confined_bind _ (on_tenant req _) (λ r : M _, l ← r; Ok (Bare l))), confined_on_tenant.
  - apply confined_none.
    + intros f. unfold Endpoints.handler, post_tenant. cbn. by destruct (provision _ _ _).
    + unfold Endpoints.handler, post_tenant. by destruct (provision _ _ _).
  - by apply confined_none.
  - by apply confined_none.
Qed.

(** The tenant the request names: the one its header resolves to in the registry. *)
Definition tenant_named (e : Endpoint) (cx : Circumstances) (req : Request) : option Tenant :=
  if uses_tenant e then x ← tenantHeader req; to_option (resolveTenant (rows cx) x) else None.

Lemma run_guards_with c cx req f s :
  run_guards c cx req (with_databases f s) = (with_databases f (run_guards c cx req s).1, (run_guards c cx req s).2).
Proof.
  destruct c; simpl; try done. destruct (tenanted _ _ _) as [req1 cache]. by destruct (TenantAuthenticated _ _ _ _).
Qed.

(** The client a request gets past its guards with is [getTenantDb]'s for the
    tenant it names. *)
Lemma run_guards_client e cx req s s2 req' :
  run_guards (chain_of (route e)) cx (arrive e req) s = (s2, Ok req') →
  match tenant_named e cx req with
  | Some t => uses_tenant e = true ∧ client req' = (getTenantDb t (sv_cache s)).1
  | None => uses_tenant e = false
  end.
Proof.
  unfold tenant_named, uses_tenant. destruct (chain_of (route e)) as [| |required|]; try done; unfold Endpoints.run_guards.
  - intros [= _ Hg]. rewrite mbind_rbind in Hg. apply rbind_Ok_inv in Hg as (r & Hg & [= <-]).
    apply TenantGuard_Ok in Hg as (x & t & Hx & Ht & ->). change (tenantHeader req = Some x) in Hx.
    rewrite Hx. cbn. by rewrite Ht.
  - destruct (tenanted _ _ _) as [req1 cache]. destruct (TenantAuthenticated _ _ _ _) as [events outcome] eqn:Eo.
    intros [= _ ->]. pose proof (f_equal snd Eo) as Ho. apply TenantAuthenticated_Ok in Ho
      as (x & t & token & c & Hx & Ht & _ & _ & _ & _ & ->). change (tenantHeader req = Some x) in Hx.
    rewrite Hx. cbn. by rewrite Ht.
Qed.

(** The client cache is [getTenantDb]'s business. *)
Lemma on_tenant_cache {B} req (m : St (A := A) B) s : sv_cache (on_tenant req m s).1 = sv_cache s.
Proof. unfold on_tenant. by destruct (m _). Qed.

Lemma handler_cache e cx req body s : sv_cache (handler e cx req body s).1 = sv_cache s.
Proof.
  destruct e; unfold Endpoints.handler, post_register, post_login, get_users, post_tenant; try done;
    try match goal with |- context [on_tenant ?r ?m s] =>
      pose proof (on_tenant_cache r m s); by destruct (on_tenant r m s) end.
  by destruct (provision _ _ _).
Qed.

Lemma run_guards_cache c cx req s :
  sv_cache (run_guards c cx req s).1 = sv_cache s ∨
  ∃ x t, resolveTenant (rows cx) x = Ok t ∧ sv_cache (run_guards c cx req s).1 = (getTenantDb t (sv_cache s)).2.
Proof.
  assert (Ht : (tenanted cx (sv_cache s) req).2 = sv_cache s ∨
    ∃ x t, resolveTenant (rows cx) x = Ok t ∧ (tenanted cx (sv_cache s) req).2 = (getTenantDb t (sv_cache s)).2).
  { unfold tenanted. destruct (TenantGuard _ _ _) as [r|] eqn:E; [|by left].
    apply TenantGuard_Ok in E as (x & t & _ & Ht & ->). right. by exists x, t. }
  destruct c; unfold Endpoints.run_guards; [by left|exact Ht| |by left].
  destruct (tenanted _ _ _) as [req1 cache]. by destruct (TenantAuthenticated _ _ _ _).
Qed.

Lemma serve_cache e cx req body s :
  sv_cache (serve e cx req body s).1 = sv_cache s ∨
  ∃ x t, resolveTenant (rows cx) x = Ok t ∧ sv_cache (serve e cx req body s).1 = (getTenantDb t (sv_cache s)).2.
Proof.
  unfold Endpoints.serve. destruct (canActivate _ _ _ _ _ _ _) as [[L h] [b|err]]; [|by left].
  pose proof (run_guards_cache (chain_of (route e)) cx (arrive e req) (set_sv_limiter L s)) as Hc.
  cbn [set_sv_limiter sv_cache] in Hc. destruct (run_guards _ _ _ _) as [s2 [req'|err]]; [|exact Hc].
  destruct (pipe _ body) as [v|err]; [|exact Hc].
  pose proof (handler_cache e cx req' v s2) as Hh.
  destruct (handler e cx req' v s2) as [s3 [p|err]]; cbn in Hh |- *; by rewrite Hh.
Qed.

(** If the cache answers with the database of the tenant named, serving stays in it. *)
Lemma serve_confined e cx req body s :
  (∀ t, tenant_named e cx req = Some t → (getTenantDb t (sv_cache s)).1 = tenant_databaseName t) →
  confined (tenant_databaseName <$> tenant_named e cx req) (serve e cx req body) s.
Proof.
  intros Hown f Hf. unfold Endpoints.serve. cbn [with_databases sv_limiter].
  destruct (canActivate _ _ _ _ _ _ _) as [[L h] [b|err]]; [|by exists f].
  change (set_sv_limiter L (with_databases f s)) with (with_databases f (set_sv_limiter L s)).
  rewrite run_guards_with. destruct (run_guards _ _ _ (set_sv_limiter L s)) as [s2 guarded] eqn:Eg. cbn [fst snd].
  assert (Hd : sv_databases s2 = sv_databases s).
  { pose proof (run_guards_work appendAuditEvent settings (chain_of (route e)) cx (arrive e req) (set_sv_limiter L s)) as Hw.
    rewrite Eg in Hw. by injection Hw. }
  rewrite <- Hd in Hf. destruct guarded as [req'|err]; [|by exists f].
  destruct (pipe _ body) as [v|err]; [|by exists f].
  assert (He : tenant_databaseName <$> tenant_named e cx req = if uses_tenant e then Some (client req') else None).
  { apply run_guards_client in Eg. destruct (tenant_named e cx req) as [t|]; [|by rewrite Eg].
    destruct Eg as [-> ->]. cbn. by rewrite (Hown t). }
  rewrite He in Hf |- *.
  destruct (handler_confined e cx req' v s2 f Hf) as (f' & -> & Hother & Hkeep).
  destruct (handler e cx req' v s2) as [s3 [p|err]]; by exists f'.
Qed.

(** *** One process in its deployment *)

(** The deployment, every registry it has had, and the process. *)
Record World := {
  w_deployment : prov_state;
  w_past : list (list TenantRecord);
  w_process : Service A;
}.

Inductive life_label :=
  | Meanwhile (l : prov_label)    (* provisioning, crashes, operators, other databases *)
  | Serves (e : Endpoint) (cx : Circumstances) (req : Request) (body : json)
  | Closes.                       (* close() *)

(** A request may have read the registry at any time before it is served. *)
Definition life_step (l : life_label) (w : World) : option World :=
  match l with
  | Meanwhile l =>
      match prov_step l (w_deployment w) with
      | Some d => Some {| w_deployment := d; w_past := registry d :: w_past w; w_process := w_process w |}
      | None => None
      end
  | Serves e cx req body =>
      if decide (rows cx ∈ w_past w)
      then Some {| w_deployment := w_deployment w; w_past := w_past w;
                   w_process := (serve e cx req body (w_process w)).1 |}
      else None
  | Closes =>
      Some {| w_deployment := w_deployment w; w_past := w_past w;
              w_process := set_guarded ∅ (sv_trail (w_process w)) (w_process w) |}
  end.

Fixpoint life_exec (tr : list life_label) (w : World) : option World :=
  match tr with
  | [] => Some w
  | l :: tr => match life_step l w with Some w' => life_exec tr w' | None => None end
  end.

(** Nothing is deployed, and the process has no client yet. *)
Definition day_one (s : Service A) : World :=
  {| w_deployment := empty_state; w_past := [[]]; w_process := set_guarded ∅ (sv_trail s) s |}.

Definition deployed_by (tr : list life_label) : list prov_label :=
  omap (λ l, match l with Meanwhile l => Some l | _ => None end) tr.

(** [t] was resolved at some time. *)
Definition once_resolved (w : World) (t : Tenant) : Prop :=
  ∃ rs x, rs ∈ w_past w ∧ resolveTenant rs x = Ok t.

Record world_inv (used : list string) (w : World) : Prop := {
  wi_prov : prov_inv used (w_deployment w);
  wi_settled : ∀ t, once_resolved w t → tenant_id t ∈ used ∧ settled (w_deployment w) t;
  wi_one : ∀ t t', once_resolved w t → once_resolved w t' → tenant_id t = tenant_id t' →
    tenant_databaseName t = tenant_databaseName t';
  wi_cache : ∀ id db, sv_cache (w_process w) !! id = Some db →
    ∃ t, once_resolved w t ∧ tenant_id t = id ∧ tenant_databaseName t = db;
}.

Lemma day_one_inv s : world_inv [] (day_one s).
Proof.
  assert (Hnone : ∀ t, ¬ once_resolved (day_one s) t).
  { intros t (rs & x & ->%list_elem_of_singleton & Ht). by apply resolve_inv in Ht as (r & Hr & _); apply not_elem_of_nil in Hr. }
  split; [apply empty_prov_inv|..].
  - intros t Ht. by destruct (Hnone t).
  - intros t t' Ht. by destruct (Hnone t).
  - intros id db Hc. cbn in Hc. by rewrite lookup_empty in Hc.
Qed.

(** A client for the tenant's own database, whenever the tenant was resolved. *)
Lemma world_client used w t : world_inv used w → once_resolved w t →
  (getTenantDb t (sv_cache (w_process w))).1 = tenant_databaseName t ∧
  ∀ id db, (getTenantDb t (sv_cache (w_process w))).2 !! id = Some db →
    ∃ t0, once_resolved w t0 ∧ tenant_id t0 = id ∧ tenant_databaseName t0 = db.
Proof.
  intros [] Ht. unfold getTenantDb. destruct (sv_cache (w_process w) !! tenant_id t) as [db|] eqn:Ec; simpl.
  - destruct (wi_cache0 _ _ Ec) as (t0 & Ht0 & Hid & <-). split; [by apply wi_one0|done].
  - split; [done|]. intros id db [[<- <-]|[_ Hi]]%lookup_insert_Some; [by exists t|by apply wi_cache0].
Qed.

Lemma world_inv_meanwhile used l w d :
  prov_step l (w_deployment w) = Some d → wf_label l → (∀ id, id ∈ new_ids l → id ∉ used) → world_inv used w →
  world_inv (new_ids l ++ used) {| w_deployment := d; w_past := registry d :: w_past w; w_process := w_process w |}.
Proof.
  intros Hstep Hwf Hnew []. pose proof (prov_inv_step _ _ _ _ Hstep Hwf wi_prov0 Hnew) as Hinv.
  set (w' := {| w_deployment := d; w_past := _; w_process := _ |}).
  assert (Hcase : ∀ t, once_resolved w' t → once_resolved w t ∨ ∃ x, resolveTenant (registry d) x = Ok t).
  { intros t (rs & x & [->|Hrs]%elem_of_cons & Ht); [right; by exists x|left; by exists rs, x]. }
  assert (Hset : ∀ t, once_resolved w' t → tenant_id t ∈ new_ids l ++ used ∧ settled d t).
  { intros t [Ht|[x Hx]]%Hcase; [|by eapply resolve_settled].
    destruct (wi_settled0 t Ht) as [Hu Hs]. split; [by apply elem_of_app; right|by eapply settled_step]. }
  split; [done|exact Hset| |].
  - intros t t' Ht Ht' Hid. destruct (Hset t Ht) as [_ Hs], (Hset t' Ht') as [_ Hs'].
    destruct (Hcase _ Ht) as [Ho|[x Hx]], (Hcase _ Ht') as [Ho'|[x' Hx']]; [by apply wi_one0|..].
    + by eapply resolve_agrees.
    + symmetry. by eapply resolve_agrees.
    + by eapply resolve_agrees.
  - intros id db (t & (rs & x & Hrs & Ht) & Hid & Hdb)%wi_cache0. exists t. split; [|done].
    exists rs, x. split; [by apply elem_of_cons; right|done].
Qed.

Lemma world_inv_serves used w e cx req body :
  world_inv used w → rows cx ∈ w_past w →
  world_inv used {| w_deployment := w_deployment w; w_past := w_past w;
                    w_process := (serve e cx req body (w_process w)).1 |}.
Proof.
  intros Hinv Hcx. pose proof Hinv as []. split; try done. cbn [w_process].
  destruct (serve_cache e cx req body (w_process w)) as [->|(x & t & Ht & ->)]; [done|].
  assert (Honce : once_resolved w t) by (by exists (rows cx), x). exact (proj2 (world_client used w t Hinv Honce)).
Qed.

Lemma world_inv_exec tr used w w' :
  life_exec tr w = Some w' → Forall wf_label (deployed_by tr) → world_inv used w → NoDup (ids_of (deployed_by tr)) →
  (∀ id, id ∈ ids_of (deployed_by tr) → id ∉ used) → ∃ used', world_inv used' w'.
Proof.
  revert used w. induction tr as [|l tr IH]; intros used w Hr Hwf Hinv Hnd Hnew.
  { injection Hr as <-. by exists used. }
  cbn [life_exec] in Hr. destruct (life_step l w) as [w1|] eqn:E; [|done].
  destruct l as [l|e cx req body|]; cbn in E.
  - destruct (prov_step l (w_deployment w)) as [d|] eqn:Ed; [|done]. injection E as <-.
    cbn in Hwf. apply list.Forall_cons in Hwf as [Hl Hwf].
    change (ids_of (deployed_by (Meanwhile l :: tr))) with (new_ids l ++ ids_of (deployed_by tr)) in Hnd, Hnew.
    apply list.NoDup_app in Hnd as (_ & Hdisj & Hnd).
    eapply (IH (new_ids l ++ used)); [exact Hr|done| |done|].
    + apply world_inv_meanwhile; try done. intros id Hid. apply Hnew. set_solver.
    + intros id Hid [Hin|Hin]%elem_of_app; [by apply (Hdisj id)|]. apply (Hnew id); [set_solver|done].
  - case_decide as Hcx; [|done]. injection E as <-. eapply (IH used); try done. by apply world_inv_serves.
  - injection E as <-. eapply (IH used); try done. destruct Hinv. by split.
Qed.


(** ** Provisioning *)

Lemma on_tenant_provisionings {B} req (m : St (A := A) B) s :
  sv_provisionings (on_tenant req m s).1 = sv_provisionings s.
Proof. unfold on_tenant. by destruct (m _). Qed.

Lemma handler_provisionings e cx req body s : e ≠ tenants_provision →
  sv_provisionings (handler e cx req body s).1 = sv_provisionings s.
Proof.
  destruct e; try done; intros _; unfold Endpoints.handler, post_register, post_login, get_users; try done;
    match goal with |- context [on_tenant ?r ?m s] =>
      pose proof (on_tenant_provisionings r m s); by destruct (on_tenant r m s) end.
Qed.

Lemma ControlPlaneGuard_Ok key req b : ControlPlaneGuard key req = Ok b →
  ∃ h, singleAuthorizationHeader req = Some h ∧ presents h key.
Proof.
  unfold ControlPlaneGuard. destruct (singleAuthorizationHeader req) as [h|]; [|done].
  destruct (bearer (Some h)) as [k|] eqn:Eb; [|done]. destruct (String.eqb k ""); [done|].
  rewrite matches_spec, mbind_rbind. cbn [rbind]. destruct (String.eqb_spec k key) as [->|]; [|done].
  intros _. exists h. split; [done|by apply bearer_presents].
Qed.

Lemma pipe_Ok `{!ClassValidatorLaws _} d body v : pipe (Some d) body = Ok v → v = body ∧ well_formed d body = true.
Proof.
  unfold pipe. destruct (validate d body) as [|err errs] eqn:Ev; [|done]. intros [= <-]. split; [done|].
  by apply validate_spec.
Qed.

Lemma well_formed_field dto k cs c body : well_formed dto body = true → (k, cs) ∈ dto → c ∈ cs →
  satisfies (JString (field k body)) c = true.
Proof.
  intros Hw Hk Hc. unfold well_formed in Hw. destruct body as [| | | | |o]; try done.
  apply andb_true_iff in Hw as [Hw _]. rewrite forallb_forall in Hw. apply list_elem_of_In in Hk.
  specialize (Hw _ Hk). cbv beta iota in Hw. unfold field.
  destruct (member k (JObject o)) as [v|]; [|done]. rewrite forallb_forall in Hw. apply list_elem_of_In in Hc.
  specialize (Hw _ Hc). by destruct v, c.
Qed.

(** C10. Tenants are provisioned for the operator only, and only under names that
    are safe: a request asks for at most one provisioning, and when it does it was
    to the provisioning endpoint, presented the control-plane key, and carried a
    slug of the declared form, from which a safe database name follows, and a name
    of at least two characters. *)
Theorem provisionings_are_authorized `{!ClassValidatorLaws _} e cx req body s :
  sv_provisionings (serve e cx req body s).1 = sv_provisionings s ∨
  ∃ input db,
    sv_provisionings (serve e cx req body s).1 = sv_provisionings s ++ [input] ∧ e = tenants_provision ∧
    (∃ h, singleAuthorizationHeader req = Some h ∧ presents h (apiKey settings)) ∧
    valid_slug (in_slug input) = true ∧ tenantDatabaseName (in_slug input) = Ok db ∧ SAFE_DB_NAME db = true ∧
    minLength 2 (in_name input) = true.
Proof.
  unfold Endpoints.serve. destruct (canActivate _ _ _ _ _ _ _) as [[L h] [b|err]]; [|by left].
  pose proof (run_guards_work appendAuditEvent settings (chain_of (route e)) cx (arrive e req) (set_sv_limiter L s)) as Hw.
  destruct (run_guards _ _ _ _) as [s2 [req'|err]] eqn:Eg; injection Hw as _ _ _ _ Hp; [|by left].
  destruct (pipe _ body) as [v|err] eqn:Ep; [|by left].
  destruct (decide (e = tenants_provision)) as [->|He].
  2: { left. transitivity (sv_provisionings (handler e cx req' v s2).1).
       - by destruct (handler e cx req' v s2) as [s3 [p|err]].
       - by rewrite handler_provisionings. }
  right. apply pipe_Ok in Ep as [-> Hwf].
  pose proof (well_formed_field _ "slug" [Matches valid_slug] _ _ Hwf ltac:(left) ltac:(left)) as Hslug.
  pose proof (well_formed_field _ "name" [IsString; MinLength 2] (MinLength 2) _ Hwf ltac:(right; left) ltac:(right; left)) as Hname.
  destruct (tenantDatabaseName_safe_injective _ _ Hslug Hslug) as (db & Hdb & Hsafe & _).
  exists {| in_slug := field "slug" body; in_name := field "name" body |}, db.
  injection Eg as _ Eg. rewrite mbind_rbind in Eg. apply rbind_Ok_inv in Eg as (b' & Hb & _).
  split_and!; try done.
  - cbn in Hp |- *. unfold post_tenant. cbn. destruct (provision _ _ _) as [t [tn|err]]; cbn; by rewrite Hp.
  - by apply (ControlPlaneGuard_Ok _ (arrive tenants_provision req) b').
Qed.

(** ** The list of users *)

(** What anybody may be shown of an account. *)
Definition public_part (u : User) : string * string * UserStatus * Z :=
  (user_id u, user_email u, user_status u, user_createdAt u).

Lemma list_users_run fault req s :
  let t := sv_databases s (client req) in
  on_tenant req (list_users fault (context req)) s =
  (with_databases (<[client req := t]> (sv_databases s)) s,
   d ← db (context req);
   match fault ListUsers with
   | Some code => Throw (EPrismaKnown code)
   | None => Ok (JArray (user_row <$> merge_sort created_before (users t)))
   end).
Proof.
  cbv zeta. unfold on_tenant, list_users. rewrite bind_run. unfold lift, query, on_core.
  by destruct (db (context req)), (fault ListUsers).
Qed.

Lemma rows_of_public l l' : public_part <$> l = public_part <$> l' →
  user_row <$> merge_sort created_before l = user_row <$> merge_sort created_before l'.
Proof.
  intros Hl. pose (shown := λ p : string * string * UserStatus * Z, let '(i, em, st, at_) := p in
    user_row {| user_id := i; user_email := em; passwordHash := ""; user_status := st; user_createdAt := at_ |}).
  pose (earlier := λ p q : string * string * UserStatus * Z, p.2 ≤ q.2).
  assert (Hdec : RelDecision earlier) by (intros p q; unfold earlier; apply _).
  assert (Hs : ∀ k, user_row <$> merge_sort created_before k = shown <$> merge_sort earlier (public_part <$> k)).
  { intros k. rewrite <- (merge_sort_fmap created_before earlier public_part) by done.
    rewrite <- list_fmap_compose. by apply list_fmap_ext. }
  by rewrite !Hs, Hl.
Qed.

(** C40. Reading accounts discloses what it is meant to and needs permission: two
    databases that agree on the identifier, address, status and creation time of
    every account get the same answer, so nothing of a digest or of anybody's roles
    is in it; and the list is only answered to a token of this very tenant that
    holds users:read. *)
Theorem users_list_discloses_no_secret cx req body s f :
  (∀ d, public_part <$> users (f d) = public_part <$> users (sv_databases s d)) →
  (serve users_list cx req body (with_databases f s)).2 = (serve users_list cx req body s).2 ∧
  (∀ env, reply_body (serve users_list cx req body s).2 = Some (Envelope env) →
   ∃ x t token c, tenantHeader req = Some x ∧ resolveTenant (rows cx) x = Ok t ∧ bearerToken req = Ok token ∧
     verifyToken token = Ok c ∧ tid c = tenant_id t ∧ "users:read" ∈ permissions c).
Proof.
  intros Hpub. unfold Endpoints.serve. cbn [with_databases sv_limiter].
  destruct (canActivate _ _ _ _ _ _ _) as [[L h] [b|err]]; [|by split].
  change (set_sv_limiter L (with_databases f s)) with (with_databases f (set_sv_limiter L s)).
  rewrite run_guards_with. destruct (run_guards _ _ _ (set_sv_limiter L s)) as [s2 [req'|err]] eqn:Eg; cbn [fst snd]; [|by split].
  assert (Hd : sv_databases s2 = sv_databases s).
  { pose proof (run_guards_work appendAuditEvent settings (chain_of (route users_list)) cx (arrive users_list req)
      (set_sv_limiter L s)) as Hw. rewrite Eg in Hw. by injection Hw. }
  cbn [pipe dto route list_route]. unfold Endpoints.handler, get_users. rewrite !list_users_run. cbn [with_databases sv_databases].
  rewrite (rows_of_public (users (f (client req'))) (users (sv_databases s2 (client req')))) by (rewrite Hd; apply Hpub).
  split.
  - by destruct (db (context req')), (failing cx (client req') ListUsers).
  - intros env _. unfold Endpoints.run_guards in Eg. cbn [chain_of route list_route] in Eg. destruct (tenanted _ _ _) as [req1 cache].
    destruct (TenantAuthenticated _ _ _ _) as [events outcome] eqn:Eo. injection Eg as _ ->.
    apply (f_equal snd), TenantAuthenticated_Ok in Eo as (x & t & token & c & Hx & Ht & Hb & Hv & Htid & Hp & _).
    exists x, t, token, c. split_and!; try done. apply Hp. left.
Qed.

(** A liveness probe is always answered, and costs nothing: no limiter, guard,
    database or key is asked. *)
Theorem health_always_answers cx req body s :
  serve health_check cx req body s
  = (s, {| reply_status := 200; reply_headers := onSend ∅;
           reply_body := Some (Envelope {| env_data := check cx; env_meta := [] |}) |}).
Proof. by destruct s. Qed.
End confinement.

(** ** The hypotheses can hold *)

Module RequestsSample.
#[local] Existing Instance Sample.toy.
#[local] Existing Instance RedisMap.Redis_map.
Import KeysSample TokensSample KeyStoreSample ServiceSample ProvisioningSample RoutingSample GuardsSample SessionsSample.

(** Addresses have an at sign; lengths are in bytes. *)
Definition shape_only : ClassValidator :=
  {| isEmail s := negb (free_of "@" s); minLength n s := Nat.leb n (String.length s); validate _ _ := [] |}.
#[export] Instance toy_validator : ClassValidator :=
  {| isEmail := @isEmail shape_only; minLength := @minLength shape_only;
     validate dto body := if @well_formed shape_only dto body then []
                          else [VError "body" ["is not as declared"] []] |}.
#[export] Instance toy_validator_laws : ClassValidatorLaws toy_validator.
Proof. split. intros dto body. change (well_formed dto body) with (@well_formed shape_only dto body).
  simpl. by destruct (well_formed dto body). Qed.

Definition the_settings : Settings :=
  {| limits := {| rateLimitDefaultLimit := 3; rateLimitDefaultWindowMs := 1000; rateLimitFailOpen := true |};
     throttling := ThrottleSample.config; apiKey := "k3y"; problemBaseUri := "https://kit.example/problems" |}.
Definition acme_created : ProvisionedTenant := {| prov_tenant := tenant_acme; prov_resumed := false |}.
Definition at_time (t : Z) : Circumstances :=
  {| at_client := ThrottleSample.at_ t; at_route := ThrottleSample.at_ t; at_throttle := moments t;
     rows := registry (deployment before_request); failing _ _ := None; provisionTenant _ := Ok acme_created;
     keys := snapshot_of deployed; now := t; drawn_id := "u3"; drawn_salt := "salt"; drawn_trace := "t-1";
     started := 0; package_file := Some (JObject [("version", JString "0.2.0")]) |}.
Definition initial : Service (list (chain * AppendAuditEvent)) :=
  {| sv_limiter := ThrottleSample.L0; sv_cache := ∅; sv_decoy := Some (Ok "cdecoy"); sv_lookups := 0; sv_verifications := 0;
     sv_databases d := if decide (d = "tenant_acme") then acme_tables else {| users := []; roles_table := []; user_roles := [] |};
     sv_provisionings := []; sv_trail := {| chains := []; lost := [] |} |}.

Definition credentials (email password : string) : json :=
  JObject [("email", JString email); ("password", JString password)].
Definition new_tenant : json := JObject [("slug", JString "acme"); ("name", JString "Acme")].
Definition anonymous : Request := request "acme" "" [].
Definition operator : Request := request "acme" "Bearer k3y" ["Authorization"; "Bearer k3y"].
#[local] Abbreviation run e req body t := (serve events_only the_settings e (at_time t) req body).
Definition code_of (r : Reply Body) : Z * option string :=
  (reply_status r, match reply_body r with Some (Problem p) => Some (p_code p) | _ => None end).

(** A login, a list, a provisioning, and what goes wrong with each; the fourth
    request of a second is one too many. *)
Example endpoint_answers :
  map (λ '(e, req, body), code_of (run e req body 10 initial).2)
    [ (auth_login, anonymous, credentials "alice@acme.example" "correct horse");
      (auth_login, anonymous, credentials "alice@acme.example" "x");
      (auth_login, anonymous, credentials "alice" "x");
      (auth_login, anonymous, JObject []);
      (auth_register, anonymous, credentials "dan@acme.example" "too short");
      (auth_register, anonymous, credentials "alice@acme.example" "correct horse 4");
      (users_list, own, JNull); (users_list, anonymous, JNull); (users_list, request "globex" "" [], JNull);
      (tenants_provision, operator, new_tenant); (tenants_provision, own, new_tenant);
      (tenants_provision, operator, JObject [("slug", JString "Acme"); ("name", JString "Acme")]);
      (keys_jwks, anonymous, JNull) ] =
  [ (201, None); (401, Some "INVALID_CREDENTIALS"); (422, Some "VALIDATION_FAILED"); (422, Some "VALIDATION_FAILED");
    (422, Some "VALIDATION_FAILED"); (409, Some "EMAIL_ALREADY_REGISTERED"); (200, None);
    (401, Some "INVALID_ACCESS_TOKEN"); (404, Some "TENANT_NOT_FOUND"); (201, None);
    (401, Some "CONTROL_PLANE_UNAUTHORIZED"); (422, Some "VALIDATION_FAILED"); (200, None) ] ∧
  let again e t s := run e own JNull t s in
  code_of (again users_list 40 (again users_list 30 (again users_list 20 (again users_list 10 initial).1).1).1).2
  = (429, Some "TOO_MANY_REQUESTS").
Proof. vm_compute. split; reflexivity. Qed.

(** Acme is provisioned and a user logs in; the tenant is then deleted, and a
    request that had resolved it before is still on its way. *)
Definition a_day : list life_label :=
  map Meanwhile (provision_statements 1 acme id1) ++
  [Serves auth_login (at_time 10) anonymous (credentials "alice@acme.example" "correct horse");
   Meanwhile (DeleteRow id1)].
Definition evening : World := default (day_one initial) (life_exec events_only the_settings a_day (day_one initial)).


(** Three requests that are not served: nothing was read, hashed or provisioned. *)
Lemma refused_requests_do_no_work_witness :
  Forall (λ '(e, req, body), work (run e req body 10 initial).1 = work initial)
    [ (auth_login, request "globex" "" [], credentials "alice@acme.example" "x"); (auth_login, anonymous, JObject []);
      (tenants_provision, own, new_tenant) ].
Proof.
  repeat apply Forall_cons_2; [..|apply Forall_nil_2].
  - destruct (refused_requests_do_no_work events_only the_settings auth_login (at_time 10) (request "globex" "" [])
      (credentials "alice@acme.example" "x") initial) as [Hw|(L & h & b & s2 & req' & Hc & Hg & Hd)]; [exact Hw|].
    exfalso. apply (f_equal snd) in Hg. vm_compute in Hg. discriminate.
  - destruct (refused_requests_do_no_work events_only the_settings auth_login (at_time 10) anonymous (JObject [])
      initial) as [Hw|(L & h & b & s2 & req' & Hc & Hg & Hd)]; [exact Hw|].
    specialize (Hd LoginDto eq_refl). discriminate.
  - destruct (refused_requests_do_no_work events_only the_settings tenants_provision (at_time 10) own new_tenant
      initial) as [Hw|(L & h & b & s2 & req' & Hc & Hg & Hd)]; [exact Hw|].
    exfalso. apply (f_equal snd) in Hg. vm_compute in Hg. discriminate.
Defined.

Lemma provisionings_are_authorized_witness :
  ∃ input db, sv_provisionings (run tenants_provision operator new_tenant 10 initial).1 = [input] ∧
    valid_slug (in_slug input) = true ∧ tenantDatabaseName (in_slug input) = Ok db ∧ SAFE_DB_NAME db = true.
Proof.
  destruct (provisionings_are_authorized events_only the_settings tenants_provision (at_time 10) operator new_tenant initial)
    as [Hs|(input & db & Hs & _ & _ & Hv & Hdb & Hsafe & _)].
  - exfalso. vm_compute in Hs. discriminate.
  - exists input, db. split; [exact Hs|]. split; [exact Hv|]. split; [exact Hdb|exact Hsafe].
Defined.

(** Another digest, and no roles. *)
Definition other_secrets (d : string) : tenant_tables :=
  let t := sv_databases initial d in
  {| users := (λ u, {| user_id := user_id u; user_email := user_email u; passwordHash := "other"; user_status := user_status u;
                       user_createdAt := user_createdAt u |}) <$> users t; roles_table := []; user_roles := [] |}.
Lemma users_list_discloses_no_secret_witness :
  (run users_list own JNull 10 (with_databases other_secrets initial)).2 = (run users_list own JNull 10 initial).2 ∧
  ∃ c, tid c = id1 ∧ "users:read" ∈ permissions c.
Proof.
  destruct (users_list_discloses_no_secret events_only the_settings (at_time 10) own JNull initial other_secrets)
    as [Hsame Hneeds].
  - intros d. unfold other_secrets. cbn [users]. rewrite <- list_fmap_compose. apply list_fmap_ext. intros i u _. reflexivity.
  - split; [exact Hsame|]. assert (Henv : ∃ env, reply_body (run users_list own JNull 10 initial).2 = Some (Envelope env)).
    { eexists. vm_compute. reflexivity. }
    destruct Henv as [env Henv]. destruct (Hneeds env Henv) as (x & t & token & c & Hx & Ht & _ & _ & Htid & Hp).
    exists c. split; [|exact Hp]. rewrite Htid. injection Hx as <-. vm_compute in Ht. injection Ht as <-. reflexivity.
Defined.
End RequestsSample.
