(* ===== verification/Claims.v ===== *)
(** The evidence behind COMPLIANCE.md: scripts/verify-claims.mjs, the parser of
    the control table, the coverage gate and the attribution of the suites'
    output to the controls.

    A suite is a program the script starts; what it prints and how it exits is a
    parameter. Printing is not modelled, exit codes and what is run are. *)
From S2P Require Import Prelude Cli.
#[local] Open Scope Z_scope.

(** ** Suites, registry, rows *)

(** [passMarker] is [None] for a suite judged by its exit code alone. *)
Record Suite := { label : string; command : string; args : list string; passMarker : option string }.

(** [match_] is [None] for an item without a text, which only a suite judged by
    its exit code has. *)
Record EvidenceItem := { suite : string; match_ : option string }.

Record ControlRow := { capability : string; status : string; hipaa : string; pci : string; soc2 : string }.

#[export] Instance ControlRow_eq_dec : EqDecision ControlRow.
Proof. solve_decision. Defined.

(** What [spawnSync] gives back. *)
Record Run := { ok : bool; output : string }.
Definition lines (r : Run) : list string := split_on "010" (output r).

Inductive judgement := passed | failed | missing.
#[export] Instance judgement_eq_dec : EqDecision judgement.
Proof. solve_decision. Defined.

(** Own members of an object, in insertion order. A capability spelled like a
    member every object inherits ([constructor], [toString]) is not modelled. *)
Definition member {A} (k : string) (o : list (string * A)) : option A :=
  snd <$> List.find (λ p, String.eqb p.1 k) o.

(** ** The table *)

(** [/^\|\s*-{3}/] *)
Definition is_separator (line : string) : bool :=
  match line with
  | String "|" rest => String.prefix "---" (trimStart rest)
  | _ => false
  end.

(** [s.replace(/\*\*/g, '')] *)
Fixpoint strip_bold (s : string) : string :=
  match s with
  | String "*" (String "*" rest) => strip_bold rest
  | String c rest => String c (strip_bold rest)
  | EmptyString => EmptyString
  end.

(** [line.split("|").slice(1, -1).map((c) => c.trim())] *)
Definition cells_of (line : string) : list string :=
  trim <$> removelast (tail (split_on "|" line)).

Definition row_of_cells (cells : list string) : option ControlRow :=
  match cells with
  | c0 :: c1 :: c2 :: c3 :: c4 :: _ =>
      Some {| capability := c0; status := trim (strip_bold c1); hipaa := c2; pci := c3; soc2 := c4 |}
  | _ => None
  end.

(** The loop over the lines. *)
Fixpoint parse_lines (inTable : bool) (ls : list string) : list ControlRow :=
  match ls with
  | [] => []
  | line :: ls =>
      if String.prefix "| Capability" line then parse_lines true ls
      else if negb inTable then parse_lines inTable ls
      else if negb (String.prefix "|" line) then []
      else if is_separator line then parse_lines inTable ls
      else match row_of_cells (cells_of line) with
           | Some row => row :: parse_lines inTable ls
           | None => parse_lines inTable ls
           end
  end.

Definition parseComplianceTable (markdown : string) : list ControlRow :=
  parse_lines false (split_on "010" markdown).

Section registry.
Variables (SUITES : list (string * Suite)) (RUN_ORDER : list string) (EVIDENCE : list (string * list EvidenceItem)).

(** ** The coverage gate *)

Inductive problem := NoEvidence (row : string) | UnknownCapability (key : string).

Definition implemented (row : ControlRow) : bool := String.eqb (status row) "Implemented".

Definition coverage_problems (rows : list ControlRow) : list problem :=
  omap (λ row, if implemented row && match member (capability row) EVIDENCE with
                                     | None | Some [] => true | Some _ => false end
               then Some (NoEvidence (capability row)) else None) rows ++
  omap (λ key, if bool_decide (key ∈ capability <$> rows) then None else Some (UnknownCapability key)) EVIDENCE.*1.

Definition runCoverageGate (rows : list ControlRow) : Z :=
  match coverage_problems rows with [] => 0 | _ => 1 end.

(** The figures the gate prints: the tally by status, in order of first
    appearance, the items behind the rows marked Implemented, all items, and the
    controls that have items without needing them. *)
Fixpoint tally (st : string) (acc : list (string * Z)) : list (string * Z) :=
  match acc with
  | [] => [(st, 1)]
  | (k, n) :: acc => if String.eqb k st then (k, n + 1) :: acc else (k, n) :: tally st acc
  end.
Definition counts (rows : list ControlRow) : list (string * Z) :=
  fold_left (λ acc r, tally (status r) acc) rows [].

Definition items_of (k : string) : Z := Z.of_nat (length (default [] (member k EVIDENCE))).
Definition implementedItems (rows : list ControlRow) : Z :=
  fold_left (λ n r, n + items_of (capability r)) (List.filter implemented rows) 0.
Definition allItems : Z := fold_left (λ n its, n + Z.of_nat (length its)) EVIDENCE.*2 0.
Definition extra (rows : list ControlRow) : list string :=
  List.filter (λ k, match List.find (λ r, String.eqb (capability r) k) rows with
                    | Some r => negb (String.eqb (status r) "Implemented")
                    | None => true
                    end) EVIDENCE.*1.

(** ** The full run *)

Definition needed : list string := remove_dups (suite <$> mjoin EVIDENCE.*2).

Definition validateRegistry : bool :=
  let unknown := List.filter (λ id, negb (bool_decide (is_Some (member id SUITES)))) needed in
  let unordered := List.filter (λ id, bool_decide (is_Some (member id SUITES)) &&
                                      negb (bool_decide (id ∈ RUN_ORDER))) needed in
  bool_decide (unknown = []) && bool_decide (unordered = []).

(** [None] is the TypeError on what is not there. *)
Definition judge (item : EvidenceItem) (run : option Run) : option judgement :=
  match member (suite item) SUITES, run with
  | Some s, Some run =>
      match passMarker s with
      | None => Some (if ok run then passed else failed)
      | Some marker =>
          let text := default "undefined" (match_ item) in
          if existsb (λ l, includes marker l && includes text l) (lines run) then Some passed
          else if includes text (output run) then Some failed else Some missing
      end
  | _, _ => None
  end.

Context {W : Type} (spawn : Suite → W → Run * W).

(** [results[id] = runSuite(id)] for the needed suites, in order. *)
Fixpoint run_suites (ids : list string) (w : W) : list (string * Run) * W :=
  match ids with
  | [] => ([], w)
  | id :: ids =>
      if bool_decide (id ∈ needed) then
        match member id SUITES with
        | Some s => let '(r, w) := spawn s w in
                    let '(rs, w) := run_suites ids w in ((id, r) :: rs, w)
        | None => run_suites ids w
        end
      else run_suites ids w
  end.

(** The items of the rows of the table, judged. *)
Definition judgements (rows : list ControlRow) (results : list (string * Run)) : list (option judgement) :=
  mjoin ((λ row, (λ item, judge item (member (suite item) results)) <$>
                   default [] (member (capability row) EVIDENCE)) <$> rows).

(** The exit code, [None] for a TypeError, and the suites that were run. *)
Definition runFull (rows : list ControlRow) (w : W) : option Z * list string :=
  if negb validateRegistry then (Some 1, [])
  else
    let '(results, _) := run_suites RUN_ORDER w in
    let js := judgements rows results in
    (if existsb (λ j, bool_decide (j = None)) js then None
     else if existsb (λ j, bool_decide (j = Some failed)) js then Some 1
     else if existsb (λ j, bool_decide (j = Some missing)) js then Some 1
     else Some 0, results.*1).

(** [main], on the contents of COMPLIANCE.md if it exists. *)
Definition main (markdown : option string) (argv : list string) (w : W) : option Z :=
  match markdown with
  | None => Some 1
  | Some markdown =>
      let rows := parseComplianceTable markdown in
      if bool_decide (rows = []) then Some 1
      else if bool_decide ("--coverage" ∈ argv) then Some (runCoverageGate rows)
      else if bool_decide ("--list" ∈ argv) then Some 0
      else (runFull rows w).1
  end.

(** ** What the exit codes mean *)

Lemma gate_spec rows :
  runCoverageGate rows = 0 ↔
    (∀ row, row ∈ rows → status row = "Implemented" →
       ∃ item items, member (capability row) EVIDENCE = Some (item :: items)) ∧
    (∀ key, key ∈ EVIDENCE.*1 → ∃ row, row ∈ rows ∧ capability row = key).
Proof.
  assert (Hnil : runCoverageGate rows = 0 ↔ coverage_problems rows = []).
  { unfold runCoverageGate. by destruct (coverage_problems rows). }
  assert (Homap : ∀ {A B} (f : A → option B) l, omap f l = [] ↔ ∀ x, x ∈ l → f x = None).
  { intros A B f l. induction l as [|x l IH]; simpl; [split; [set_solver|done]|].
    destruct (f x) eqn:E; [split; [done|]|rewrite IH; setoid_rewrite elem_of_cons; naive_solver].
    intros Hf. specialize (Hf x ltac:(by left)). congruence. }
  rewrite Hnil. unfold coverage_problems. rewrite app_nil, !Homap. unfold implemented. split.
  - intros [H1 H2]. split.
    + intros row Hrow Hs. specialize (H1 row Hrow). simpl in H1. rewrite Hs in H1. simpl in H1.
      destruct (member (capability row) EVIDENCE) as [[|item items]|]; [done| |done]. by exists item, items.
    + intros key Hk. specialize (H2 key Hk). simpl in H2. case_bool_decide as Hin; [|done].
      apply list_elem_of_fmap in Hin as (row & -> & Hrow). by exists row.
  - intros [H1 H2]. split.
    + intros row Hrow. simpl. destruct (String.eqb_spec (status row) "Implemented") as [Hs|]; [|done].
      destruct (H1 row Hrow Hs) as (item & items & ->). done.
    + intros key Hk. simpl. rewrite bool_decide_true; [done|]. destruct (H2 key Hk) as (row & Hrow & <-).
      by apply list_elem_of_fmap_2.
Qed.

(** The gate is the rule it enforces: it exits 0 exactly when every row
    marked Implemented has a non-empty list of evidence and every key of the
    registry is a capability of the table. *)
Theorem runCoverageGate_exact rows :
  runCoverageGate rows = 0 ↔
    (∀ row, row ∈ rows → status row = "Implemented" →
       ∃ item items, member (capability row) EVIDENCE = Some (item :: items)) ∧
    (∀ key, key ∈ EVIDENCE.*1 → ∃ row, row ∈ rows ∧ capability row = key).
Proof. apply gate_spec. Qed.

(** What it takes for an item to be judged passed. *)
Definition supported (item : EvidenceItem) (run : Run) : Prop :=
  ∃ s, member (suite item) SUITES = Some s ∧
    match passMarker s with
    | None => ok run = true
    | Some marker => ∃ l, l ∈ lines run ∧ includes marker l = true ∧
                          includes (default "undefined" (match_ item)) l = true
    end.

Lemma judge_passed item run :
  judge item (Some run) = Some passed ↔ supported item run.
Proof.
  unfold judge, supported. destruct (member (suite item) SUITES) as [s|] eqn:E; cycle 1.
  { split; [done|]. by intros (s & ? & _). }
  destruct (passMarker s) as [marker|] eqn:Em.
  - set (text := default "undefined" (match_ item)).
    destruct (existsb (λ l, includes marker l && includes text l) (lines run)) eqn:Ex.
    + split; [|done]. intros _. exists s. split; [done|]. rewrite Em.
      apply existsb_exists in Ex as (l & Hl & Hm). apply andb_true_iff in Hm as [H1 H2].
      exists l. split_and!; [by apply list_elem_of_In|done|done].
    + split; [by destruct (includes text (output run))|]. intros (s' & [= <-] & Hs). rewrite Em in Hs.
      destruct Hs as (l & Hl & H1 & H2). exfalso. apply not_true_iff_false in Ex. apply Ex.
      apply existsb_exists. exists l. split; [by apply list_elem_of_In|]. fold text in H2. by rewrite H1, H2.
  - split.
    + intros [= Hok]. exists s. split; [done|]. rewrite Em. by destruct (ok run).
    + intros (s' & [= <-] & Hs). rewrite Em in Hs. by rewrite Hs.
Qed.

Lemma judge_defined item run :
  judge item run ≠ None ↔ is_Some (member (suite item) SUITES) ∧ is_Some run.
Proof.
  unfold judge. destruct (member (suite item) SUITES) as [s|], run as [run|].
  - split; [by split|]. intros _. destruct (passMarker s); [|done]. by repeat case_match.
  - split; [done|]. by intros [_ []].
  - split; [done|]. by intros [[] _].
  - split; [done|]. by intros [[] _].
Qed.

Lemma member_in {A} k (o : list (string * A)) v : member k o = Some v → (k, v) ∈ o.
Proof.
  unfold member. destruct (List.find _ o) as [[k' v']|] eqn:E; simpl; [|done]. intros [= <-].
  apply List.find_some in E as [Hin He]. apply String.eqb_eq in He. simpl in He. subst.
  by apply list_elem_of_In.
Qed.

Lemma member_some {A} k (o : list (string * A)) : k ∈ o.*1 → is_Some (member k o).
Proof.
  intros ([k' v] & -> & Hin)%list_elem_of_fmap. unfold member.
  destruct (List.find _ o) as [p|] eqn:E; [by eexists|].
  apply list_elem_of_In in Hin. pose proof (List.find_none _ _ E _ Hin) as Hn. simpl in Hn.
  by rewrite String.eqb_refl in Hn.
Qed.

(** The suites that run, in the order of RUN_ORDER. *)
Definition runs_in_order : list string :=
  List.filter (λ id, bool_decide (id ∈ needed) && bool_decide (is_Some (member id SUITES))) RUN_ORDER.

Lemma run_suites_order ids w :
  (run_suites ids w).1.*1 =
  List.filter (λ id, bool_decide (id ∈ needed) && bool_decide (is_Some (member id SUITES))) ids.
Proof.
  revert w. induction ids as [|id ids IH]; intros w; [done|]. simpl.
  destruct (bool_decide (id ∈ needed)); [|apply IH]. simpl.
  destruct (member id SUITES) as [s|].
  - destruct (spawn s w) as [r w']. specialize (IH w'). destruct (run_suites ids w') as [rs w''].
    rewrite bool_decide_true by by eexists. cbn [fst] in *. rewrite fmap_cons. cbn [fst]. by rewrite IH.
  - rewrite bool_decide_false by (by intros []). apply IH.
Qed.

Lemma validated id :
  validateRegistry = true → id ∈ needed → is_Some (member id SUITES) ∧ id ∈ RUN_ORDER.
Proof.
  unfold validateRegistry. intros [H1 H2]%andb_true_iff Hid.
  apply bool_decide_eq_true in H1, H2. apply list_elem_of_In in Hid.
  assert (Hs : is_Some (member id SUITES)).
  { destruct (decide (is_Some (member id SUITES))) as [|Hn]; [done|].
    assert (Hin : id ∈ List.filter (λ id, negb (bool_decide (is_Some (member id SUITES)))) needed).
    { apply list_elem_of_In, filter_In. split; [done|]. by rewrite bool_decide_false. }
    rewrite H1 in Hin. by apply elem_of_nil in Hin. }
  split; [done|]. destruct (decide (id ∈ RUN_ORDER)) as [|Hn]; [done|].
  assert (Hin : id ∈ List.filter (λ id, bool_decide (is_Some (member id SUITES)) &&
                                        negb (bool_decide (id ∈ RUN_ORDER))) needed).
  { apply list_elem_of_In, filter_In. split; [done|]. by rewrite bool_decide_true, bool_decide_false. }
  rewrite H2 in Hin. by apply elem_of_nil in Hin.
Qed.

(** An item of a row of the table, and where its suite's output is. *)
Definition claimed (rows : list ControlRow) (item : EvidenceItem) : Prop :=
  ∃ row items, row ∈ rows ∧ member (capability row) EVIDENCE = Some items ∧ item ∈ items.

Lemma claimed_needed rows item : claimed rows item → suite item ∈ needed.
Proof.
  intros (row & items & _ & Hm & Hi). unfold needed. apply elem_of_remove_dups, list_elem_of_fmap_2.
  apply list_elem_of_join. exists items. split; [done|]. apply member_in in Hm.
  by apply (list_elem_of_fmap_2 snd) in Hm.
Qed.

Lemma in_judgements rows results j :
  j ∈ judgements rows results ↔
  ∃ item, claimed rows item ∧ j = judge item (member (suite item) results).
Proof.
  unfold judgements. rewrite list_elem_of_join. split.
  - intros (js & Hj & Hjs). apply list_elem_of_fmap in Hjs as (row & -> & Hrow).
    apply list_elem_of_fmap in Hj as (item & -> & Hitem). exists item. split; [|done].
    destruct (member (capability row) EVIDENCE) as [items|] eqn:E; simpl in Hitem; [|by apply elem_of_nil in Hitem].
    by exists row, items.
  - intros (item & (row & items & Hrow & Hm & Hi) & ->).
    exists ((λ item, judge item (member (suite item) results)) <$> default [] (member (capability row) EVIDENCE)).
    split; [rewrite Hm; by apply (list_elem_of_fmap_2 (λ item, judge item (member (suite item) results)))|].
    by apply (list_elem_of_fmap_2 (λ row, (λ item, judge item (member (suite item) results)) <$>
      default [] (member (capability row) EVIDENCE))).
Qed.

Lemma existsb_false_elem {A} (f : A → bool) l : existsb f l = false ↔ ∀ x, x ∈ l → f x = false.
Proof.
  induction l as [|x l IH]; simpl; [split; [set_solver|done]|].
  rewrite orb_false_iff, IH. setoid_rewrite elem_of_cons. naive_solver.
Qed.

Lemma runFull_spec rows w :
  validateRegistry = true →
  let results := (run_suites RUN_ORDER w).1 in
  (runFull rows w).2 = runs_in_order ∧
  ((runFull rows w).1 = Some 0 ∨ (runFull rows w).1 = Some 1) ∧
  ((runFull rows w).1 = Some 0 ↔
     ∀ item, claimed rows item → ∃ run, member (suite item) results = Some run ∧ supported item run).
Proof.
  intros Hv. cbv zeta. unfold runFull. rewrite Hv. cbn [negb].
  pose proof (run_suites_order RUN_ORDER w) as Hord. fold runs_in_order in Hord.
  destruct (run_suites RUN_ORDER w) as [results w']. cbn [fst] in *.
  assert (Hres : ∀ item, claimed rows item → is_Some (member (suite item) SUITES) ∧
    ∃ run, member (suite item) results = Some run).
  { intros item Hc. destruct (validated _ Hv (claimed_needed _ _ Hc)) as [Hs Ho]. split; [done|].
    apply member_some. rewrite Hord. apply list_elem_of_In, filter_In. split; [by apply list_elem_of_In|].
    by rewrite !bool_decide_true by (done || by eapply claimed_needed). }
  assert (Hn : existsb (λ j, bool_decide (j = None)) (judgements rows results) = false).
  { apply existsb_false_elem. intros j (item & Hc & ->)%in_judgements. apply bool_decide_eq_false.
    apply judge_defined. destruct (Hres item Hc) as (Hs & run & Hr). rewrite Hr. by split. }
  rewrite Hn, Hord.
  assert (Hall : existsb (λ j, bool_decide (j = Some failed)) (judgements rows results) = false ∧
                 existsb (λ j, bool_decide (j = Some missing)) (judgements rows results) = false ↔
                 ∀ item, claimed rows item → ∃ run, member (suite item) results = Some run ∧ supported item run).
  { rewrite !existsb_false_elem. split.
    - intros [Hf Hm] item Hc. destruct (Hres item Hc) as (Hs & run & Hr). exists run. split; [done|].
      apply judge_passed. assert (Hin : judge item (Some run) ∈ judgements rows results)
        by (apply in_judgements; exists item; by rewrite Hr).
      specialize (Hf _ Hin). specialize (Hm _ Hin). apply bool_decide_eq_false in Hf, Hm.
      assert (Hd : judge item (Some run) ≠ None) by (apply judge_defined; by split).
      by destruct (judge item (Some run)) as [[]|].
    - intros Hall. split; intros j (item & Hc & ->)%in_judgements; apply bool_decide_eq_false;
        destruct (Hall item Hc) as (run & -> & Hsup); apply judge_passed in Hsup; by rewrite Hsup. }
  destruct (existsb (λ j, bool_decide (j = Some failed)) (judgements rows results)) eqn:Ef;
    [|destruct (existsb (λ j, bool_decide (j = Some missing)) (judgements rows results)) eqn:Em];
    cbn [fst snd]; (split; [done|]); (split; [by auto|]); rewrite <- Hall; split; try done; by intros [? ?].
Qed.

(** The full run does what it says. With a registry it accepts it never ends
    in an exception, it runs each suite the registry needs, in the order given,
    and it exits 0 exactly when each item of each row of the table is supported
    by a passing line of its suite, or by the exit code of a suite judged so. *)
Theorem runFull_exact rows w :
  validateRegistry = true →
  let results := (run_suites RUN_ORDER w).1 in
  (runFull rows w).2 = runs_in_order ∧
  ((runFull rows w).1 = Some 0 ∨ (runFull rows w).1 = Some 1) ∧
  ((runFull rows w).1 = Some 0 ↔
     ∀ item, claimed rows item → ∃ run, member (suite item) results = Some run ∧ supported item run).
Proof. apply runFull_spec. Qed.
(** The two modes together are the claim the script is for: when the gate and
    a full run over the same table both exit 0, each row marked Implemented has
    evidence, and each item of it is supported by what its suite printed. *)
Theorem implemented_rows_are_supported rows w :
  validateRegistry = true → runCoverageGate rows = 0 → (runFull rows w).1 = Some 0 →
  ∀ row, row ∈ rows → status row = "Implemented" →
  ∃ item items, member (capability row) EVIDENCE = Some (item :: items) ∧
    ∀ item', item' ∈ item :: items →
      ∃ run, member (suite item') (run_suites RUN_ORDER w).1 = Some run ∧ supported item' run.
Proof.
  intros Hv Hg Hf row Hrow Hst. apply gate_spec in Hg as [Hg _].
  destruct (runFull_spec rows w Hv) as (_ & _ & Hrun).
  destruct (Hg row Hrow Hst) as (item & items & Hm). exists item, items. split; [done|].
  intros item' Hi. apply (proj1 Hrun Hf). by exists row, (item :: items).
Qed.

(** The exit code of a suite that prints markers takes no part in a judgement. *)
Lemma judge_ignores_the_exit_code item s marker out b :
  member (suite item) SUITES = Some s → passMarker s = Some marker →
  judge item (Some {| ok := b; output := out |}) = judge item (Some {| ok := true; output := out |}).
Proof. intros Hs Hm. unfold judge. by rewrite Hs, Hm. Qed.
End registry.

(** ** Reading back a table *)

(** A cell of a table: its text, trimmed, without bars or line ends. *)
Definition plain_cell (s : string) : bool :=
  free_of "|" s && free_of "010" s && String.eqb (trimStart s) s && String.eqb (trimEnd s) s.

(** How COMPLIANCE.md writes a row; the status may be bold. *)
Definition write_row (bold : bool) (r : ControlRow) : string :=
  "| " +:+ String.concat " | "
    [capability r; if bold then "**" +:+ status r +:+ "**" else status r; hipaa r; pci r; soc2 r] +:+ " |".

Definition writable (r : ControlRow) : bool :=
  plain_cell (capability r) && plain_cell (status r) && plain_cell (hipaa r) && plain_cell (pci r) &&
  plain_cell (soc2 r) && free_of "*" (status r) && negb (String.prefix "---" (capability r)) &&
  negb (String.prefix "Capability" (capability r)).

Lemma trimEnd_blank s : trimEnd (s +:+ " ") = trimEnd s.
Proof. induction s as [|c s IH]; [done|]. simpl. by rewrite IH. Qed.

Lemma trimmed_head c s : trimStart (String c s) = String c s → is_js_space c = false.
Proof.
  simpl. intros Hs. destruct (is_js_space c) eqn:E; [|done]. exfalso.
  assert (Hl : ∀ t, (String.length (trimStart t) ≤ String.length t)%nat).
  { induction t as [|d t IH]; simpl; [lia|]. destruct (is_js_space d); simpl; lia. }
  specialize (Hl s). rewrite Hs in Hl. simpl in Hl. lia.
Qed.

Lemma trim_cell s : plain_cell s = true → trim (" " +:+ s +:+ " ") = s.
Proof.
  unfold plain_cell. rewrite !andb_true_iff, !String.eqb_eq. intros [[_ Hs] He].
  unfold trim. change (trimStart (" " +:+ s +:+ " ")) with (trimStart (s +:+ " ")).
  destruct s as [|c s]; [done|].
  pose proof (trimmed_head c s Hs) as Hc.
  assert (trimStart (String c s +:+ " ") = String c s +:+ " ") as -> by (simpl; by rewrite Hc).
  by rewrite trimEnd_blank.
Qed.

Lemma strip_bold_free s t : free_of "*" s = true → strip_bold (s +:+ t) = s +:+ strip_bold t.
Proof.
  induction s as [|c s IH]; [done|]. unfold free_of in *. simpl. intros [Hc Hs]%andb_true_iff.
  rewrite <- IH by done. destruct c as [[] [] [] [] [] [] [] []]; try done.
Qed.

Lemma strip_bold_id s : free_of "*" s = true → strip_bold s = s.
Proof. intros Hs. rewrite <- (sapp_nil_r s) at 1. rewrite strip_bold_free by done. simpl. apply sapp_nil_r. Qed.

(** The cells between the bars. *)
Lemma cells_written cs :
  forallb plain_cell cs = true → cs ≠ [] →
  cells_of ("| " +:+ String.concat " | " cs +:+ " |") = cs.
Proof.
  intros Hcs Hne. unfold cells_of.
  assert (Hsplit : ∀ cs, forallb plain_cell cs = true → cs ≠ [] →
    split_on "|" (" " +:+ String.concat " | " cs +:+ " |") = ((λ c, " " +:+ c +:+ " ") <$> cs) ++ [""]).
  { clear. intros cs. induction cs as [|c [|c' cs] IH]; intros Hcs Hne; [done| |].
    - simpl in Hcs. rewrite andb_true_r in Hcs. simpl String.concat.
      change (" " +:+ c +:+ " |") with (" " +:+ c +:+ " " +:+ String "|" "").
      rewrite <- !sapp_assoc, split_on_app; [simpl; by rewrite ?sapp_assoc|].
      unfold plain_cell in Hcs. rewrite !andb_true_iff in Hcs. destruct Hcs as [[[Hf _] _] _].
      rewrite !free_of_app, Hf. done.
    - simpl in Hcs. apply andb_true_iff in Hcs as [Hc Hcs].
      assert (" " +:+ String.concat " | " (c :: c' :: cs) +:+ " |" =
        (" " +:+ c +:+ " ") +:+ String "|" (" " +:+ String.concat " | " (c' :: cs) +:+ " |")) as ->.
      { change (String.concat " | " (c :: c' :: cs)) with (c +:+ " | " +:+ String.concat " | " (c' :: cs)).
        by rewrite !sapp_assoc. }
      rewrite split_on_app, IH by (done || unfold plain_cell in Hc; rewrite !andb_true_iff in Hc;
        destruct Hc as [[[Hf _] _] _]; by rewrite !free_of_app, Hf). done. }
  change ("| " +:+ String.concat " | " cs +:+ " |") with ("" +:+ String "|" (" " +:+ String.concat " | " cs +:+ " |")).
  rewrite split_on_app, Hsplit by done. cbn [tail]. rewrite removelast_last, <- list_fmap_compose.
  clear -Hcs. induction cs as [|c cs IH]; [done|]. simpl in Hcs. apply andb_true_iff in Hcs as [Hc Hcs].
  rewrite fmap_cons, IH by done. unfold compose at 1. by rewrite trim_cell.
Qed.

Lemma trimEnd_star s : trimEnd (s +:+ "*") = s +:+ "*".
Proof. induction s as [|c s IH]; [done|]. simpl. rewrite IH. by destruct s. Qed.

Lemma plain_trim s : plain_cell s = true → trim s = s.
Proof. unfold plain_cell, trim. rewrite !andb_true_iff, !String.eqb_eq. by intros [[_ ->] ->]. Qed.

Lemma bold_cell s : plain_cell s = true → plain_cell ("**" +:+ s +:+ "**") = true.
Proof.
  unfold plain_cell. rewrite !andb_true_iff, !String.eqb_eq. intros [[[H1 H2] _] _].
  rewrite !free_of_app, H1, H2. split_and!; try done.
  change ("**" +:+ s +:+ "**") with ("**" +:+ s +:+ "*" +:+ "*"). rewrite <- (sapp_assoc s), <- sapp_assoc.
  by rewrite trimEnd_star.
Qed.

Lemma row_written bold r : writable r = true → row_of_cells (cells_of (write_row bold r)) = Some r.
Proof.
  unfold writable. rewrite !andb_true_iff. intros [[[[[[[H1 H2] H3] H4] H5] Hstar] _] _].
  unfold write_row. rewrite cells_written; [| |done]; cycle 1.
  { cbn [forallb]. rewrite H1, H3, H4, H5. destruct bold; [by rewrite bold_cell|by rewrite H2]. }
  cbn [row_of_cells]. destruct r as [c st h p s2]. cbn [capability status hipaa pci soc2] in *.
  assert (Hst : ∀ t, strip_bold t = "" → trim (strip_bold (st +:+ t)) = st).
  { intros t Ht. rewrite strip_bold_free, Ht, sapp_nil_r by done. by apply plain_trim. }
  destruct bold; [change (strip_bold ("**" +:+ st +:+ "**")) with (strip_bold (st +:+ "**")); by rewrite Hst|].
  rewrite <- (sapp_nil_r st) at 1. by rewrite Hst.
Qed.

Lemma prefix_space p s t : free_of " " p = true → String.prefix p (s +:+ " " +:+ t) = String.prefix p s.
Proof.
  revert s. induction p as [|c p IH]; intros s Hp; [by destruct s|].
  unfold free_of in *. simpl in Hp. apply andb_true_iff in Hp as [Hc Hp].
  destruct s as [|d s]; simpl.
  - destruct (ascii_dec c " ") as [->|]; [done|done].
  - destruct (ascii_dec c d); [by apply IH|done].
Qed.

Lemma prefix_shorter p q s : String.prefix (p +:+ q) s = true → String.prefix p s = true.
Proof.
  revert s. induction p as [|c p IH]; intros s; [by destruct s|]. destruct s as [|d s]; [done|].
  simpl. destruct (ascii_dec c d); [apply IH|done].
Qed.

(** What follows the capability in a row. *)
Lemma write_row_shape bold r : ∃ t, write_row bold r = "| " +:+ capability r +:+ " " +:+ "| " +:+ t.
Proof. eexists. unfold write_row. cbn [String.concat]. rewrite !sapp_assoc. reflexivity. Qed.

Lemma row_line bold r :
  writable r = true →
  String.prefix "| Capability" (write_row bold r) = false ∧ String.prefix "|" (write_row bold r) = true ∧
  is_separator (write_row bold r) = false.
Proof.
  unfold writable. rewrite !andb_true_iff, !negb_true_iff.
  intros [[[[[[[H1 _] _] _] _] _] Hdash] Hcap]. destruct (write_row_shape bold r) as [t ->].
  assert (Hp : ∀ p, String.prefix ("| " +:+ p) ("| " +:+ capability r +:+ " " +:+ "| " +:+ t)
    = String.prefix p (capability r +:+ " " +:+ "| " +:+ t)) by done.
  split_and!.
  - change "| Capability" with ("| " +:+ "Capability"). by rewrite Hp, prefix_space.
  - by destruct (capability r).
  - change (String.prefix "---" (trimStart (capability r +:+ " " +:+ "| " +:+ t)) = false).
    unfold plain_cell in H1. rewrite !andb_true_iff, !String.eqb_eq in H1. destruct H1 as [[_ Hs] _].
    destruct (capability r) as [|c s]; [done|]. pose proof (trimmed_head c s Hs) as Hc.
    assert (trimStart (String c s +:+ " " +:+ "| " +:+ t) = String c s +:+ " " +:+ "| " +:+ t) as ->
      by (simpl; by rewrite Hc).
    by rewrite prefix_space.
Qed.

(** A document: prose, the header, the separator, the rows, and whatever follows. *)
Definition write_table (before : list string) (header separator : string) (rows : list (bool * ControlRow))
    (after : list string) : string :=
  String.concat (String "010" "")
    (before ++ header :: separator :: ((λ br, write_row br.1 br.2) <$> rows) ++ after).

Definition one_line (s : string) : bool := free_of "010" s.

Lemma write_row_one_line bold r : writable r = true → one_line (write_row bold r) = true.
Proof.
  unfold writable, plain_cell. rewrite !andb_true_iff.
  intros [[[[[[[H1 H2] H3] H4] H5] _] _] _]. unfold one_line, write_row. cbn [String.concat].
  rewrite !free_of_app. destruct H1 as [[[_ ->] _] _], H3 as [[[_ ->] _] _], H4 as [[[_ ->] _] _], H5 as [[[_ ->] _] _].
  destruct bold; rewrite ?free_of_app; destruct H2 as [[[_ ->] _] _]; done.
Qed.

Lemma parse_prose before ls :
  Forall (λ l, String.prefix "| Capability" l = false) before →
  parse_lines false (before ++ ls) = parse_lines false ls.
Proof. induction 1 as [|l before Hl _ IH]; [done|]. simpl. by rewrite Hl. Qed.

Lemma parse_rows rows after :
  Forall (λ br : bool * ControlRow, writable br.2 = true) rows →
  match after with [] => True | l :: _ => String.prefix "|" l = false end →
  parse_lines true (((λ br, write_row br.1 br.2) <$> rows) ++ after) = rows.*2.
Proof.
  intros Hw Ha. induction Hw as [|[b r] rows Hr _ IH].
  - simpl. destruct after as [|l after]; [done|]. cbn [parse_lines].
    assert (String.prefix "| Capability" l = false) as ->.
    { apply not_true_iff_false. intros H. by rewrite (prefix_shorter "|" " Capability" l H) in Ha. }
    cbn [negb]. by rewrite Ha.
  - rewrite fmap_cons. cbn [app parse_lines fst snd]. destruct (row_line b r Hr) as (-> & -> & ->). cbn [negb].
    rewrite row_written by done. by rewrite IH.
Qed.

Lemma parse_written before header separator rows after :
  Forall (λ l, one_line l = true ∧ String.prefix "| Capability" l = false) before →
  one_line header = true → String.prefix "| Capability" header = true →
  one_line separator = true → is_separator separator = true → String.prefix "| Capability" separator = false →
  Forall (λ br : bool * ControlRow, writable br.2 = true) rows →
  Forall (λ l, one_line l = true) after →
  match after with [] => True | l :: _ => String.prefix "|" l = false end →
  parseComplianceTable (write_table before header separator rows after) = rows.*2.
Proof.
  intros Hb Hh1 Hh2 Hs1 Hs2 Hs3 Hrows Ha1 Ha2. unfold parseComplianceTable, write_table.
  rewrite split_on_concat; cycle 1.
  - by destruct before.
  - apply Forall_app. split; [eapply Forall_impl; [exact Hb|]; by intros l []|].
    constructor; [done|]. constructor; [done|]. apply Forall_app. split; [|done].
    apply Forall_fmap. eapply Forall_impl; [exact Hrows|]. intros [b r]. apply write_row_one_line.
  - rewrite parse_prose by (eapply Forall_impl; [exact Hb|]; by intros l []).
    cbn [parse_lines]. rewrite Hh2. cbn [parse_lines]. rewrite Hs3. cbn [negb].
    assert (String.prefix "|" separator = true) as ->.
    { unfold is_separator in Hs2. destruct separator as [|c t]; [done|].
      destruct c as [[] [] [] [] [] [] [] []]; by destruct t. }
    rewrite Hs2. cbn [negb]. by apply parse_rows.
Qed.

(** The parser reads the table as it was written: whatever prose surrounds
    it, every row comes back with its capability, its status, bold or not, and
    its citations, in order, and nothing else does. *)
Theorem parseComplianceTable_roundtrip before header separator rows after :
  Forall (λ l, one_line l = true ∧ String.prefix "| Capability" l = false) before →
  one_line header = true → String.prefix "| Capability" header = true →
  one_line separator = true → is_separator separator = true → String.prefix "| Capability" separator = false →
  Forall (λ br : bool * ControlRow, writable br.2 = true) rows →
  Forall (λ l, one_line l = true) after →
  match after with [] => True | l :: _ => String.prefix "|" l = false end →
  parseComplianceTable (write_table before header separator rows after) = rows.*2.
Proof. apply parse_written. Qed.

(** ** The registry of the kit *)

Definition SUITES : list (string * Suite) :=
  [("smoke", {| label := "pnpm smoke"; command := "pnpm"; args := ["smoke"]; passMarker := Some "PASS" |});
   ("slowloris", {| label := "pnpm smoke:slowloris"; command := "pnpm"; args := ["smoke:slowloris"];
                    passMarker := Some "PASS" |});
   ("immutability", {| label := "pnpm audit:immutability --master"; command := "pnpm";
                       args := ["audit:immutability"; "--master"]; passMarker := Some "PASS" |});
   ("contention", {| label := "pnpm audit:contention"; command := "pnpm"; args := ["audit:contention"];
                     passMarker := Some "PASS" |});
   ("provisioning", {| label := "pnpm provisioning:probe"; command := "pnpm"; args := ["provisioning:probe"];
                       passMarker := Some "PASS" |});
   ("unit", {| label := "pnpm vitest run"; command := "pnpm"; args := ["vitest"; "run"; "--reporter=verbose"];
               passMarker := Some "✓" |});
   ("audit", {| label := "pnpm audit --audit-level=high"; command := "pnpm";
                args := ["audit"; "--audit-level=high"]; passMarker := None |})].

Definition RUN_ORDER : list string :=
  ["smoke"; "slowloris"; "immutability"; "contention"; "provisioning"; "unit"; "audit"].

Definition by_text (s m : string) : EvidenceItem := {| suite := s; match_ := Some m |}.
Definition by_exit (s : string) : EvidenceItem := {| suite := s; match_ := None |}.

Definition EVIDENCE : list (string * list EvidenceItem) :=
  [("Multi-tenant isolation (database-per-tenant)",
      [by_text "smoke" "tenant B sees none of tenant A's users";
       by_text "smoke" "tenant B holds exactly its own 1 user while tenant A holds 2";
       by_text "smoke" "GET /users with a token minted for a different tenant";
       by_text "smoke" "rejected with CROSS_TENANT_TOKEN";
       by_text "smoke" "GET /users with an unknown tenant slug";
       by_text "provisioning" "a retry refuses a database marked as built for a different tenant";
       by_text "provisioning" "a retry refuses an unmarked database that already holds the tenant schema"]);
   ("RBAC / access control",
      [by_text "smoke" "GET /users as tenant-admin";
       by_text "smoke" "GET /users without the users:read permission";
       by_text "smoke" "registered user's token carries no permissions";
       by_text "smoke" "permissions claim carries the seeded grants";
       by_text "unit" "services/auth/src/rbac/permissions.guard.spec.ts";
       by_text "smoke" "two Authorization headers, the valid token first"]);
   ("Password storage (Argon2id KDF)",
      [by_text "unit" "uses argon2id, not argon2i or argon2d";
       by_text "unit" "states the cost parameters explicitly rather than inheriting library defaults";
       by_text "unit" "encodes the chosen parameters into the digest";
       by_text "smoke" "POST /auth/login with a wrong password";
       by_text "smoke" "POST /auth/login for a nonexistent user"]);
   ("Access-token confidentiality (nested JWT: signed, then encrypted)",
      [by_text "smoke" "token is a 5-segment compact JWE (not a bare 3-segment JWS)";
       by_text "smoke" "no segment of the token reveals claims without the encryption key";
       by_text "smoke" "outer JWE is A256KW + A256GCM";
       by_text "smoke" "explicitly typed crbk-at+jwt";
       by_text "smoke" "outer header names its key with a kid";
       by_text "unit" "signs with ES256, not HS256";
       by_text "unit" "a valid JWE wrapping a FORGED inner signature";
       by_text "unit" "a bare JWS that was never encrypted";
       by_text "unit" "rejects a token naming an unknown encryption kid";
       by_text "unit" "leaks no claim into the outer header, which is not encrypted"]);
   ("Input validation",
      [by_text "smoke" "unknown properties are rejected, not ignored";
       by_text "smoke" "each field problem carries a JSON Pointer (#/slug)";
       by_text "smoke" "invalid field values give 422, not 400";
       by_text "smoke" "unparseable body gives 400, distinct from 422";
       by_text "unit" "services/auth/src/common/validation-exception.factory.spec.ts"]);
   ("Append-only audit logging (hash-chained)",
      [by_text "immutability" "refused by the trigger";
       by_text "immutability" "a duplicate prev_hash is refused by";
       by_text "immutability" "nothing was destroyed";
       by_text "immutability" "append still works";
       by_text "contention" "so the lock serialised them";
       by_text "contention" "one unbroken chain, no fork";
       by_text "smoke" "audit chain verifies from genesis to head";
       by_text "smoke" "the control-plane chain verifies";
       by_text "smoke" "verify prints a 64-hex head hash";
       by_text "unit" "packages/crypto/src/audit-hash.spec.ts"]);
   ("Rate limiting and login throttling (application layer)",
      [by_text "smoke" "the rejected call was rate limited too, so the limiter runs before authentication";
       by_text "unit" "services/auth/src/ratelimit/rate-limit.store.spec.ts";
       by_text "unit" "services/auth/src/auth/login-throttle.service.spec.ts";
       by_text "unit" "says nothing about which counter tripped";
       by_text "unit" "refuses the attempt if the ACCOUNT counter cannot be read";
       by_text "unit" "refuses the attempt if the ADDRESS counter cannot be read";
       by_text "unit" "count every address in one IPv6 /64 against the same budget"]);
   ("Request-level DoS limits (timeouts, body size)",
      [by_text "slowloris" "server answered 408";
       by_text "smoke" "a body of exactly BODY_LIMIT_BYTES gets past the limit";
       by_text "smoke" "a body one byte over BODY_LIMIT_BYTES is refused";
       by_text "smoke" "an oversized body reports PAYLOAD_TOO_LARGE"]);
   ("Control-plane authorization (tenant provisioning)",
      [by_text "smoke" "POST /tenants with NO credential";
       by_text "smoke" "POST /tenants with a WRONG credential";
       by_text "smoke" "POST /tenants with the key but no Bearer scheme";
       by_text "smoke" "POST /tenants with two Authorization headers, the valid key first";
       by_text "smoke" "rejection carries the CONTROL_PLANE_UNAUTHORIZED code";
       by_text "smoke" "the rejected tenant was never created";
       by_text "unit" "services/auth/src/tenants/control-plane.guard.spec.ts"]);
   ("Vulnerability / dependency management",
      [by_exit "audit"])].

Definition control (c st h p s2 : string) : ControlRow :=
  {| capability := c; status := st; hipaa := h; pci := p; soc2 := s2 |}.

(** The table of COMPLIANCE.md: whether the status is bold, and the row. *)
Definition table : list (bool * ControlRow) :=
  [(true, control "Multi-tenant isolation (database-per-tenant)" "Implemented"
      "164.312(a)(1)" "Req 7" "CC6.1");
   (true, control "RBAC / access control" "Implemented"
      "164.312(a)(1); 164.312(a)(2)(i); 164.308(a)(4)" "Req 7" "CC6.3");
   (true, control "Password storage (Argon2id KDF)" "Implemented"
      "164.308(a)(5)(ii)(D); 164.312(d)" "Req 8 (8.3.2)" "CC6.1");
   (true, control "Access-token confidentiality (nested JWT: signed, then encrypted)" "Implemented"
      "164.308(a)(1)(ii)(B)" "Req 6 (6.2.4); Req 12 (12.3.3)" "CC6.1");
   (true, control "Input validation" "Implemented"
      "164.312(c)(1)" "Req 6 (6.2.4)" "CC8.1");
   (false, control "Vulnerability / dependency management" "Partial"
      "164.308(a)(8); 164.308(a)(5)(ii)(B)" "Req 6 (6.3.1-6.3.3); Req 11 (11.3)" "CC7.1");
   (false, control "Structured logging + monitoring (OpenTelemetry)" "Partial"
      "164.312(b); 164.308(a)(1)(ii)(D)" "Req 10" "CC7.2");
   (true, control "Append-only audit logging (hash-chained)" "Implemented"
      "164.312(b); 164.308(a)(1)(ii)(D)" "Req 10 (10.2, 10.3.2)" "CC7.2");
   (true, control "Authentication (MFA / passkeys / WebAuthn)" "Not implemented"
      "164.312(d)" "Req 8 (8.4, 8.5)" "CC6.1");
   (false, control "Key management (envelope encryption, rotation, JWKS)" "Partial"
      "164.312(a)(2)(iv)" "Req 3 (3.6, 3.7, unverified)" "CC6.1");
   (true, control "Encryption at rest" "Not implemented"
      "164.312(a)(2)(iv)" "Req 3 (3.5, 3.5.1)" "CC6.1");
   (true, control "Encryption in transit (TLS)" "Not implemented here"
      "164.312(e)(1); 164.312(e)(2)(ii)" "Req 4 (4.2.1)" "CC6.7");
   (true, control "Rate limiting and login throttling (application layer)" "Implemented"
      "164.308(a)(5)(ii)(C) (login throttling; see notes)" "Req 8 (8.3.4, unverified)" "CC6.6");
   (true, control "DoS / DDoS protection (network layer)" "Not implemented here"
      "(none, see notes)" "Req 6 (6.4.2, unverified)" "CC6.6");
   (true, control "Request-level DoS limits (timeouts, body size)" "Implemented"
      "(none, see notes)" "(none, see notes)" "CC6.6");
   (true, control "Control-plane authorization (tenant provisioning)" "Implemented"
      "164.312(a)(1); 164.308(a)(4)" "Req 7" "CC6.3")].

Definition table_header : string := "| Capability | Status | HIPAA (45 CFR) | PCI-DSS v4.0.1 | SOC 2 (TSC) |".
Definition table_separator : string := "| --- | --- | --- | --- | --- |".

Definition prose_before (l : string) : Prop := one_line l = true ∧ String.prefix "| Capability" l = false.
Definition prose_after (ls : list string) : Prop :=
  Forall (λ l, one_line l = true) ls ∧ match ls with [] => True | l :: _ => String.prefix "|" l = false end.

Definition compliance_md (before after : list string) : string :=
  write_table before table_header table_separator table after.

Lemma compliance_md_rows before after :
  Forall prose_before before → prose_after after →
  parseComplianceTable (compliance_md before after) = table.*2.
Proof.
  intros Hb [Ha1 Ha2]. apply parse_written; try done.
  repeat (constructor; [vm_compute; reflexivity|]). constructor.
Qed.

(** README.md and docs/testing.md: 61 items across the nine Implemented rows,
    and one on a Partial row. *)
Example documented_figures :
  counts table.*2 = [("Implemented", 9); ("Partial", 3); ("Not implemented", 2); ("Not implemented here", 2)] ∧
  implementedItems EVIDENCE table.*2 = 61 ∧ allItems EVIDENCE = 62 ∧
  extra EVIDENCE table.*2 = ["Vulnerability / dependency management"].
Proof. vm_compute. auto. Qed.

Lemma registry_valid : validateRegistry SUITES RUN_ORDER EVIDENCE = true.
Proof. vm_compute. reflexivity. Qed.

(** Each suite is needed, so each runs; smoke fills the chain the immutability
    probe refuses to find empty. *)
Example every_suite_runs : runs_in_order SUITES RUN_ORDER EVIDENCE = RUN_ORDER.
Proof. vm_compute. reflexivity. Qed.

(** The kit keeps its own rule: whatever prose surrounds the table of
    COMPLIANCE.md, [pnpm verify:coverage] exits 0 on it. *)
Theorem verify_coverage_passes before after {W} (spawn : Suite → W → Run * W) w :
  Forall prose_before before → prose_after after →
  main SUITES RUN_ORDER EVIDENCE spawn (Some (compliance_md before after)) ["--coverage"] w = Some 0.
Proof. intros Hb Ha. unfold main. rewrite compliance_md_rows by done. vm_compute. reflexivity. Qed.

(** ** Runs *)

(** A suite all of whose assertions hold prints each on a line of its own. *)
Definition all_pass (s : Suite) (w : unit) : Run * unit :=
  ({| ok := true;
      output := String.concat (String "010" "")
        (omap (λ it, match passMarker s, match_ it with
                     | Some marker, Some text => Some ("  " +:+ marker +:+ "  " +:+ text)
                     | _, _ => None
                     end) (mjoin EVIDENCE.*2)) |}, w).

(** What the immutability probe prints, and how it exits, against a table whose
    statement trigger on TRUNCATE is gone. *)
Definition truncate_unprotected : Run :=
  {| ok := false;
     output := String.concat (String "010" "")
       ["Probing append-only enforcement on master (control-plane chain)"; EmptyString;
        "  PASS  chain has 12 event(s), so the row triggers have something to fire on";
        "  PASS  UPDATE of an existing event refused by the trigger (SQLSTATE 23001)";
        "  PASS  DELETE of an existing event refused by the trigger (SQLSTATE 23001)";
        "  PASS  a duplicate prev_hash is refused by audit_events_prev_hash_unique, so the chain cannot fork (SQLSTATE 23505)";
        "  PASS  nothing was destroyed: 12 event(s) before, 12 after, unchanged, and the pre-probe head still hashes the same";
        "  PASS  no UPDATE, DELETE or TRUNCATE is granted to PUBLIC on audit_events " +:+
          "(weak: Postgres grants none by default, so this catches a stray GRANT, it does not confirm the REVOKE)";
        "  PASS  append still works: wrote seq 14, so the refusals above are selective";
        "  FAIL  TRUNCATE of the whole table SUCCEEDED. TRUNCATE on audit_events is not being refused, " +:+
          "so the append-only claim in COMPLIANCE.md is false for this database. Check the triggers from " +:+
          "sql/audit-immutability.sql are present and enabled.";
        EmptyString; "1 check(s) failed."] |}.

Definition immutability_fails (s : Suite) (w : unit) : Run * unit :=
  if String.eqb (label s) "pnpm audit:immutability --master" then (truncate_unprotected, w) else all_pass s w.

Example a_full_run_passes :
  runFull SUITES RUN_ORDER EVIDENCE all_pass table.*2 tt = (Some 0, RUN_ORDER).
Proof. vm_compute. reflexivity. Qed.

(** The suite failed and said so; the claim it disproves is reported reproduced,
    because another line carries the marker and the text. *)
Lemma failed_suite_is_not_noticed :
  ok (immutability_fails {| label := "pnpm audit:immutability --master"; command := "pnpm";
                            args := ["audit:immutability"; "--master"]; passMarker := Some "PASS" |} tt).1 = false ∧
  runFull SUITES RUN_ORDER EVIDENCE immutability_fails table.*2 tt = (Some 0, RUN_ORDER).
Proof. vm_compute. auto. Qed.

(** A text found nowhere is missing, one found on no passing line is a failure;
    both end with exit 1. *)
Example nothing_printed :
  runFull SUITES RUN_ORDER EVIDENCE (λ _ w, ({| ok := true; output := EmptyString |}, w)) table.*2 tt
    = (Some 1, RUN_ORDER).
Proof. vm_compute. reflexivity. Qed.

(** A row marked Implemented that the registry does not know: the gate refuses
    it, the full run steps over it. *)
Definition overclaimed : ControlRow := control "Encryption at rest" "Implemented" "164.312(a)(2)(iv)" "Req 3" "CC6.1".

Lemma full_run_skips_an_overclaim :
  runCoverageGate EVIDENCE (overclaimed :: table.*2) = 1 ∧
  (runFull SUITES RUN_ORDER EVIDENCE all_pass (overclaimed :: table.*2) tt).1 = Some 0.
Proof. vm_compute. auto. Qed.

(** The same row without its last cell is not a row at all, and passes the gate. *)
Lemma short_row_escapes_the_gate :
  main SUITES RUN_ORDER EVIDENCE all_pass
    (Some (String.concat (String "010" "")
       (table_header :: table_separator :: "| Encryption at rest | **Implemented** | 164.312(a)(2)(iv) | Req 3 |" ::
        ((λ br, write_row br.1 br.2) <$> table)))) ["--coverage"] tt = Some 0.
Proof. vm_compute. reflexivity. Qed.

(** A registry key the document does not have fails the gate, and so does an
    empty document. *)
Example renamed_row : runCoverageGate EVIDENCE (tail table.*2) = 1.
Proof. vm_compute. reflexivity. Qed.

Example no_table : main SUITES RUN_ORDER EVIDENCE all_pass (Some "no table here") ["--coverage"] tt = Some 1.
Proof. vm_compute. reflexivity. Qed.

(** ** Witnesses *)

Lemma parseComplianceTable_roundtrip_witness :
  parseComplianceTable (compliance_md ["# Compliance"; EmptyString] [EmptyString; "### What the statuses mean"])
    = table.*2.
Proof.
  apply parseComplianceTable_roundtrip; try done; [by repeat constructor| |by repeat constructor].
  repeat (constructor; [vm_compute; reflexivity|]). constructor.
Defined.

Lemma runFull_exact_witness :
  (runFull SUITES RUN_ORDER EVIDENCE all_pass table.*2 tt).2 = RUN_ORDER ∧
  ∃ run, member "slowloris" (run_suites SUITES EVIDENCE all_pass RUN_ORDER tt).1 = Some run ∧
         supported SUITES (by_text "slowloris" "server answered 408") run.
Proof.
  destruct (runFull_exact SUITES RUN_ORDER EVIDENCE all_pass table.*2 tt) as (Ho & _ & H);
    [vm_compute; reflexivity|]. split; [rewrite Ho; vm_compute; reflexivity|].
  apply (proj1 H ltac:(vm_compute; reflexivity) (by_text "slowloris" "server answered 408")).
  exists (control "Request-level DoS limits (timeouts, body size)" "Implemented" "(none, see notes)" "(none, see notes)" "CC6.6").
  eexists. split; [apply list_elem_of_lookup_2 with 14%nat; reflexivity|]. split; [vm_compute; reflexivity|]. by left.
Defined.

Lemma implemented_rows_are_supported_witness :
  ∃ item items, member "Input validation" EVIDENCE = Some (item :: items) ∧
    ∀ item', item' ∈ item :: items →
      ∃ run, member (suite item') (run_suites SUITES EVIDENCE all_pass RUN_ORDER tt).1 = Some run ∧
             supported SUITES item' run.
Proof.
  apply (implemented_rows_are_supported SUITES RUN_ORDER EVIDENCE all_pass table.*2 tt
    registry_valid) with (row := control "Input validation" "Implemented" "164.312(c)(1)" "Req 6 (6.2.4)" "CC8.1");
    [vm_compute; reflexivity|vm_compute; reflexivity| |done].
  apply list_elem_of_lookup_2 with 4%nat. reflexivity.
Defined.

Lemma verify_coverage_passes_witness :
  main SUITES RUN_ORDER EVIDENCE all_pass (Some (compliance_md [] [])) ["--coverage"] tt = Some 0.
Proof. apply verify_coverage_passes; [by constructor|by split]. Defined.
