(* ===== verification/ApiDocs.v ===== *)
(** The published description of the API: services/auth/src/docs (the schemas, the
    decorators and the document builder) and what the controllers' decorators
    declare with them.

    The document is what a client is generated from, so what is shown is which of
    the errors the service answers it names: all but those listed in
    [undocumented], from the parsing of the body to the handler. A schema is what
    its class declares; how the generator turns a class into JSON Schema is the
    library's. Summaries and examples are left out. *)
From S2P Require Import Prelude Domain AuditHash ClientAddress AuditWriter RateLimit Limiter RateLimitGuard LoginThrottle.
From S2P Require Import ConnectionManager TenantRouting Keys Tokens KeyStore KeyRegistry TokenService.
From S2P Require Import Guards AuditTrail AuthService Sessions Http Cli Endpoints Requests.
#[local] Open Scope Z_scope.

(** ** Schemas *)

(** The declared type of a property. *)
Inductive Ty :=
  | TString | TNumber | TBoolean | TUnknown
  | TOrNull (t : Ty)
  | TEnum (values : list string)
  | TArray (items : Ty)
  | TObject (properties : list (string * (bool * Ty)))     (* name, required, type *)
  | TAllOf (ts : list Ty).

(** [@ApiProperty] and [@ApiPropertyOptional]. *)
Definition required (k : string) (t : Ty) : string * (bool * Ty) := (k, (true, t)).
Definition optional (k : string) (t : Ty) : string * (bool * Ty) := (k, (false, t)).

(** The members an object has to have. *)
Definition required_members (t : Ty) : list string :=
  match t with TObject ps => fst <$> filter (λ p : string * (bool * Ty), p.2.1 = true) ps | _ => [] end.

Definition ResponseMetaSchema : Ty :=
  TObject [optional "message" TString; optional "totalCount" TNumber; optional "nextItem" (TOrNull TString);
           optional "prevItem" (TOrNull TString)].
Definition SuccessEnvelopeSchema : Ty :=
  TObject [required "success" TBoolean; required "data" TUnknown; required "meta" ResponseMetaSchema].
Definition FieldProblemSchema : Ty := TObject [required "message" TString; required "pointer" TString].
Definition ProblemDetailsSchema : Ty :=
  TObject [required "success" TBoolean; required "type" TString; required "title" TString; required "status" TNumber;
           required "detail" TString; required "instance" TString; required "code" TString;
           required "traceId" TString; optional "errors" (TArray FieldProblemSchema)].
Definition TenantSchema : Ty :=
  TObject [required "id" TString; required "slug" TString; required "databaseName" TString;
           required "status" (TEnum ["provisioning"; "active"; "suspended"])].
Definition AccessTokenSchema : Ty := TObject [required "accessToken" TString].
Definition RegisteredUserSchema : Ty := TObject [required "id" TString; required "email" TString].
Definition UserSchema : Ty :=
  TObject [required "id" TString; required "email" TString; required "status" (TEnum ["active"; "disabled"]);
           required "createdAt" TString].

(** ** Responses *)

Record Response := { res_status : Z; res_description : string; res_media : string; res_body : Ty }.

Definition ApiEnvelope (model : Ty) (status : Z) (description : string) (isArray : bool) : Response :=
  {| res_status := status; res_description := description; res_media := "application/json";
     res_body := TAllOf [SuccessEnvelopeSchema; TObject [required "data" (if isArray then TArray model else model)]] |}.

Definition code_span (code : string) : string := "`" +:+ code +:+ "`".
Definition ApiProblem (status : Z) (description : string) (code : option string) : Response :=
  {| res_status := status;
     res_description := match code with
                        | Some c => description +:+ " (`code`: " +:+ code_span c +:+ ")"
                        | None => description
                        end;
     res_media := "application/problem+json"; res_body := ProblemDetailsSchema |}.

Definition ApiCommonErrors : list Response :=
  [ApiProblem 422 "Well-formed JSON with unacceptable values." (Some "VALIDATION_FAILED");
   ApiProblem 429 "Rate limit exceeded. Carries `Retry-After` in whole seconds and `Cache-Control: no-store`."
     (Some "TOO_MANY_REQUESTS");
   ApiProblem 500 "Unexpected fault. The body carries a `traceId` and nothing else." (Some "INTERNAL_ERROR")].

Definition register_responses : list Response :=
  [ApiEnvelope RegisteredUserSchema 201 "User created." false;
   ApiProblem 409 "That email is already registered in this tenant." (Some "EMAIL_ALREADY_REGISTERED");
   ApiProblem 404 "The tenant in the header does not exist or is inactive." (Some "TENANT_NOT_FOUND")] ++ ApiCommonErrors.
Definition login_responses : list Response :=
  [ApiEnvelope AccessTokenSchema 201 "Authenticated." false;
   ApiProblem 401 "Wrong password, unknown user, or a disabled account." (Some "INVALID_CREDENTIALS");
   ApiProblem 404 "The tenant in the header does not exist or is inactive." (Some "TENANT_NOT_FOUND")] ++ ApiCommonErrors.
Definition list_responses : list Response :=
  [ApiEnvelope UserSchema 200 "Users in this tenant." true;
   ApiProblem 401 "Missing, expired, or invalid access token." (Some "INVALID_ACCESS_TOKEN");
   ApiProblem 403 "The token is valid but lacks the `users:read` permission." (Some "FORBIDDEN")] ++ ApiCommonErrors.
Definition provision_responses : list Response :=
  [ApiEnvelope TenantSchema 201 "Tenant provisioned and active." false;
   ApiProblem 401 "Missing, malformed, or wrong control-plane credential. One response for all three."
     (Some "CONTROL_PLANE_UNAUTHORIZED");
   ApiProblem 409
     ("A tenant with that slug already exists (`code`: `TENANT_ALREADY_EXISTS`), including one whose " +:+
      "provisioning did not finish but was requested with a different name; or another request is " +:+
      "provisioning that slug right now (`code`: `TENANT_PROVISIONING_IN_PROGRESS`), so retry once it " +:+
      "has finished.") None] ++ ApiCommonErrors.
Definition jwks_responses : list Response :=
  [{| res_status := 200; res_description := "A JWK Set (RFC 7517), unwrapped."; res_media := "application/jwk-set+json";
      res_body := TObject [required "keys" (TArray (TObject
        [optional "kty" TString; optional "crv" TString; optional "x" TString; optional "y" TString;
         optional "kid" TString; optional "alg" TString; optional "use" TString]))] |}].

(** HealthController declares none. *)
Definition responses (e : Endpoint) : list Response :=
  match e with
  | auth_register => register_responses
  | auth_login => login_responses
  | users_list => list_responses
  | tenants_provision => provision_responses
  | health_check => []
  | keys_jwks => jwks_responses
  end.

(** The document keys responses by status. *)
Definition response (e : Endpoint) (status : Z) : option Response :=
  List.find (λ r, res_status r =? status) (responses e).

(** A client branches on the code: an error is documented when the response of
    its status names it. *)
Definition documented (e : Endpoint) (status : Z) (code : string) : bool :=
  match response e status with Some r => includes (code_span code) (res_description r) | None => false end.

(** ** The document *)

Definition tag (e : Endpoint) : string :=
  match e with
  | auth_register | auth_login => "auth"
  | users_list => "users"
  | tenants_provision => "tenants"
  | health_check => "health"
  | keys_jwks => "keys"
  end.

(** [@ApiBearerAuth] of the controller. *)
Definition bearer_auth (e : Endpoint) : option string :=
  match e with users_list => Some "accessToken" | tenants_provision => Some "controlPlane" | _ => None end.

Record Document := { tags : list string; schemes : list string; extraModels : list Ty; global_header : string }.

Definition TENANT_HEADER : string := "x-tenant-id".
Definition document : Document :=
  {| tags := ["auth"; "users"; "tenants"; "health"; "keys"]; schemes := ["accessToken"; "controlPlane"];
     extraModels := [SuccessEnvelopeSchema; ResponseMetaSchema; ProblemDetailsSchema; FieldProblemSchema;
                     TenantSchema; AccessTokenSchema; RegisteredUserSchema; UserSchema];
     global_header := TENANT_HEADER |}.

Definition docs_paths : list string := ["/docs"; "/docs/openapi.json"; "/docs/openapi.yaml"].

(** What is served where, and whether the log warns about it. *)
Definition setupOpenApi (apiDocsEnabled production : bool) : option (Document * list string * bool) :=
  if negb apiDocsEnabled then None
  else Some (document, docs_paths, production).

(** ** Bodies as they are sent *)

Definition field_problem_json (f : FieldProblem) : json :=
  JObject [("detail", JString (detail f)); ("pointer", JString (pointer f))].
Definition problem_json (p : ProblemDetails) : json :=
  JObject ([("success", JBool false); ("type", JString (p_type p)); ("title", JString (p_title p));
            ("status", JNum (p_status p)); ("detail", JString (p_detail p)); ("instance", JString (p_instance p));
            ("code", JString (p_code p)); ("traceId", JString (p_traceId p))] ++
           match p_errors p with Some es => [("errors", JArray (field_problem_json <$> es))] | None => [] end).

(** ** The document in itself *)

(** Each status is described once, as OpenAPI needs it; each tag and each scheme an
    operation names is declared. *)
Lemma document_is_closed e :
  NoDup (res_status <$> responses e) ∧ tag e ∈ tags document ∧
  match bearer_auth e with Some s => s ∈ schemes document | None => True end.
Proof.
  split_and!; [apply (bool_decide_unpack _); by destruct e; vm_compute|apply (bool_decide_unpack _); by destruct e|].
  destruct e; try done; cbn; apply (bool_decide_unpack _); done.
Qed.

(** The padlock of an operation is the guard of its route. *)
Lemma padlocks_are_guards e :
  bearer_auth e = match chain_of (route e) with
                  | WithPermissions _ => Some "accessToken"
                  | ControlPlane => Some "controlPlane"
                  | Public | WithTenant => None
                  end.
Proof. by destruct e. Qed.

(** ** What the service throws *)

(** The status and the code under which the filter answers. *)
Definition answered (e : exn) : Z * string :=
  match e with
  | EDomain d => (default 400 (STATUS_BY_ERROR d), error_code d)
  | EHttp status _ => (status, default ("HTTP_" +:+ decZ status) (CODE_BY_STATUS status))
  | _ => (500, "INTERNAL_ERROR")
  end.

Lemma answered_problem base e trace path :
  (p_status (toProblem base e trace path), p_code (toProblem base e trace path)) = answered e.
Proof. by destruct e. Qed.

Lemma answered_internal e : internal e = true → answered e = (500, "INTERNAL_ERROR").
Proof. by destruct e. Qed.

(** What [provisionTenant] throws. *)
Definition provisioning_error (e : exn) : Prop :=
  internal e = true ∨ answered e = (409, "TENANT_ALREADY_EXISTS") ∨ answered e = (409, "TENANT_PROVISIONING_IN_PROGRESS").

Section provisioning.
Context `{Sha256}.

Lemma registerOrResume_throws id input db rs e : registerOrResume id input db rs = Throw e → provisioning_error e.
Proof.
  unfold registerOrResume, provisioning_error. destruct (find_slug _ _).
  - rewrite mbind_rbind. unfold throw_if. destruct (_ || _); cbn [rbind]; [intros [= <-]; auto|].
    rewrite mbind_rbind. destruct (negb _); cbn [rbind]; [intros [= <-]; auto|done].
  - destruct (existsb _ _); [intros [= <-]; auto|done].
Qed.

Lemma initialize_throws db id dbs e : initializeTenantDatabase db id dbs = Throw e → internal e = true.
Proof. unfold initializeTenantDatabase. repeat case_match; by intros [= <-]. Qed.

Definition sound_answers (s : prov_state) : Prop := ∀ p e, (p, Throw e) ∈ answers s → provisioning_error e.

Lemma sound_finish p a s :
  sound_answers s → (∀ e, a = Throw e → provisioning_error e) → sound_answers (finish p a s).
Proof.
  intros Hs Ha q e. unfold finish. cbn [answers]. rewrite elem_of_app, list_elem_of_singleton.
  intros [Hin|[= -> Heq]]; [by eapply Hs|by apply Ha].
Qed.

Lemma sound_step l s s' : prov_step l s = Some s' → sound_answers s → sound_answers s'.
Proof.
  intros Hl Hs. assert (Hi : ∀ e, internal e = true → provisioning_error e) by (intros e He; by left).
  destruct l; simpl in Hl; repeat case_match; simplify_eq; try done;
    apply sound_finish; try done; intros e1 [= <-].
  - apply Hi. unfold tenantDatabaseName in *. repeat case_match; by simplify_eq.
  - right. by right.
  - by eapply registerOrResume_throws.
  - apply Hi. by eapply initialize_throws.
  - apply Hi. unfold activate_row in *. repeat case_match; by simplify_eq.
  - by apply Hi.
Qed.

(** Whatever provisionings run against each other, a caller is refused with one of
    two conflicts, or a fault. *)
Lemma provisioning_errors tr s : prov_exec tr empty_state = Some s → sound_answers s.
Proof.
  assert (Hgen : ∀ s0, sound_answers s0 → prov_exec tr s0 = Some s → sound_answers s).
  { induction tr as [|l tr IH]; intros s0 H0; [by intros [= <-]|]. cbn [prov_exec].
    destruct (prov_step l s0) as [s1|] eqn:E; [|done]. apply IH. by eapply sound_step. }
  apply Hgen. intros p e Hin. by apply elem_of_nil in Hin.
Qed.
End provisioning.

Section errors.
Context `{Sha256} `{Redis} `{Argon2} `{AccessTokens} `{JoseKeys} `{ClassValidator}.
Context {A : Type} (appendAuditEvent : chain → AppendAuditEvent → A → A * M AppendedAuditEvent).
Context (settings : Settings).

#[local] Abbreviation serve := (serve appendAuditEvent settings).

(** The errors of a computation are answered with one of these. *)
Definition raises {B} (answers : list (Z * string)) (r : M B) : Prop :=
  match r with Ok _ => True | Throw e => internal e = true ∨ answered e ∈ answers end.

Lemma raises_weaken {B} l l' (r : M B) : l ⊆ l' → raises l r → raises l' r.
Proof. intros Hl. destruct r; [done|]. intros [Hi|Hin]; [by left|right; by apply Hl]. Qed.

Lemma raises_bind {B C} l (r : M B) (k : B → M C) : raises l r → (∀ b, raises l (k b)) → raises l (r ≫= k).
Proof. intros Hr Hk. rewrite mbind_rbind. by destruct r; cbn; [apply Hk|]. Qed.

Lemma raises_wrap {X B C} l (p : X * M B) (k : B → M C) :
  raises l p.2 → (∀ b, raises l (k b)) → raises l (let '(s, r) := p in (s, r ≫= k)).2.
Proof. destruct p as [x r]. apply raises_bind. Qed.

(** *** The limiter *)

Lemma canActivate_throws meta rq t1 t2 L reply e :
  (canActivate (limits settings) meta rq t1 t2 L reply).2 = Throw e →
  noRateLimit meta = false ∧ answered e = (429, "TOO_MANY_REQUESTS").
Proof.
  unfold canActivate. destruct (negb (isHttp meta)); [done|]. destruct (noRateLimit meta); [done|].
  assert (Hc : ∃ c, clientId rq = Ok c).
  { unfold clientId. destruct (req_ip rq) as [ip|]; [|by eexists].
    destruct (_ <? _); [apply rateLimitIdentity_total|by eexists]. }
  destruct Hc as [c ->]. destruct (storeConsume _ _ _ _ _ L) as [L1 g].
  destruct (negb (allowed g)); [by intros [= <-]|]. destruct (rateLimit meta) as [o|]; [|done].
  destruct (storeConsume _ _ _ _ _ L1) as [L2 r]. destruct (negb (allowed r)); [by intros [= <-]|done].
Qed.

(** *** The guards *)

Lemma TenantGuard_raises rs cache req : raises [(404, "TENANT_NOT_FOUND")] (TenantGuard rs cache req).
Proof.
  unfold TenantGuard. destruct (tenantHeader req) as [x|]; [|right; by left].
  apply raises_bind; [|intros t; by destruct (getTenantDb t cache)].
  destruct (resolveTenant rs x) as [t|e] eqn:Er; [done|]. apply resolve_throws in Er as ->. right. by left.
Qed.

Lemma TenantAuthenticated_raises ps rs cache req :
  raises [(404, "TENANT_NOT_FOUND"); (401, "INVALID_ACCESS_TOKEN"); (401, "CROSS_TENANT_TOKEN"); (403, "FORBIDDEN")]
    (TenantAuthenticated ps rs cache req).2.
Proof.
  unfold TenantAuthenticated. pose proof (TenantGuard_raises rs cache req) as Ht.
  destruct (TenantGuard rs cache req) as [[req1 cache']|e] eqn:E1; [|eapply raises_weaken, Ht; set_solver].
  apply TenantGuard_Ok in E1 as (x & t & _ & _ & [= -> ->]).
  destruct (AccessTokenGuard _) as [req2|e] eqn:E2.
  - apply (AccessTokenGuard_Ok _ t) in E2 as (token & c & _ & _ & _ & ->); [|done].
    destruct (PermissionsGuard_cases ps c (with_user (with_tenant req t (getTenantDb t cache).1) c) eq_refl)
      as [[_ ->]|(missing & _ & _ & ->)]; [done|]. right. apply (bool_decide_unpack _). done.
  - apply (AccessTokenGuard_throws _ t) in E2 as [-> | ->]; [| |done]; right; apply (bool_decide_unpack _); done.
Qed.

Lemma ControlPlaneGuard_raises key req : raises [(401, "CONTROL_PLANE_UNAUTHORIZED")] (ControlPlaneGuard key req).
Proof.
  unfold ControlPlaneGuard. destruct (bearer _) as [c|]; [|right; by left].
  destruct (String.eqb c ""); [right; by left|]. rewrite matches_spec.
  apply raises_bind; [done|]. intros b. destruct (negb b); [right; by left|done].
Qed.

Definition guard_answers (c : guard_chain) : list (Z * string) :=
  match c with
  | Public => []
  | WithTenant => [(404, "TENANT_NOT_FOUND")]
  | WithPermissions _ =>
      [(404, "TENANT_NOT_FOUND"); (401, "INVALID_ACCESS_TOKEN"); (401, "CROSS_TENANT_TOKEN"); (403, "FORBIDDEN")]
  | ControlPlane => [(401, "CONTROL_PLANE_UNAUTHORIZED")]
  end.

Lemma ControlPlaneGuard_true key req b : ControlPlaneGuard key req = Ok b → b = true.
Proof.
  unfold ControlPlaneGuard. destruct (bearer _) as [c|]; [|done]. destruct (String.eqb c ""); [done|].
  rewrite mbind_rbind. destruct (matches key c) as [[]|e]; cbn; congruence.
Qed.

Lemma run_guards_raises c cx req s :
  raises (guard_answers c) (run_guards appendAuditEvent settings c cx req s).2.
Proof.
  destruct c; cbn [run_guards guard_answers]; [done| | |].
  - apply raises_bind; [apply TenantGuard_raises|done].
  - destruct (tenanted _ _ _) as [req1 cache]. pose proof (TenantAuthenticated_raises required0 (rows cx) (sv_cache s) req) as Hr.
    by destruct (TenantAuthenticated _ _ _ _) as [events outcome].
  - pose proof (ControlPlaneGuard_raises (apiKey settings) req) as Hr. rewrite mbind_rbind.
    destruct (ControlPlaneGuard _ _) as [b|e] eqn:Eb; [|done]. apply ControlPlaneGuard_true in Eb as ->. done.
Qed.

(** *** The handlers *)

Definition handler_answers (e : Endpoint) : list (Z * string) :=
  match e with
  | auth_register => [(409, "EMAIL_ALREADY_REGISTERED")]
  | auth_login => [(401, "INVALID_CREDENTIALS"); (429, "TOO_MANY_REQUESTS")]
  | tenants_provision => [(409, "TENANT_ALREADY_EXISTS"); (409, "TENANT_PROVISIONING_IN_PROGRESS")]
  | users_list | health_check | keys_jwks => []
  end.

Definition has_tenant (req : RequestWithTenant) : Prop := is_Some (req_tenant req) ∧ is_Some (req_tenantDb req).

Lemma run_guards_tenant e cx req s s2 req' :
  uses_tenant e = true →
  run_guards appendAuditEvent settings (chain_of (route e)) cx (arrive e req) s = (s2, Ok req') → has_tenant (context req').
Proof.
  unfold uses_tenant. destruct (chain_of (route e)) as [| |ps|]; try done; intros _; unfold Endpoints.run_guards.
  - intros [= _ Hg]. rewrite mbind_rbind in Hg. apply rbind_Ok_inv in Hg as (r & Hg & [= <-]).
    apply TenantGuard_Ok in Hg as (x & t & _ & _ & ->). by split; eexists.
  - destruct (tenanted _ _ _) as [req1 cache]. destruct (TenantAuthenticated _ _ _ _) as [events outcome] eqn:Eo.
    intros [= _ ->]. pose proof (f_equal snd Eo) as Ho. apply TenantAuthenticated_Ok in Ho
      as (x & t & token & c & _ & _ & _ & _ & _ & _ & ->). by split; eexists.
Qed.

Lemma register_raises fault req new_id now salt email password (w : world A) :
  has_tenant req →
  raises [(409, "EMAIL_ALREADY_REGISTERED")] (register appendAuditEvent fault req new_id now salt email password w).2.
Proof.
  intros [_ [d Hd]]. unfold register. rewrite bind_run. unfold hash, lift at 1.
  destruct (hashPassword password salt) as [h|msg]; [|by left]. unfold catch. rewrite bind_run.
  unfold lift at 1, db. rewrite Hd. rewrite bind_run. unfold with_tables, on_core.
  destruct (fault CreateUser) as [code|].
  - cbn [snd]. destruct (String.eqb code "P2002"); [right; by left|by left].
  - unfold create_user. destruct (find_user _ _); [|done]. right. by left.
Qed.

Lemma login_raises fault req m salt email password ip (w : world A) :
  has_tenant req →
  raises [(401, "INVALID_CREDENTIALS"); (429, "TOO_MANY_REQUESTS")]
    (login appendAuditEvent (throttling settings) fault req m salt email password ip w).2.
Proof.
  intros [[t Ht] [d Hd]]. rewrite login_run. unfold login_cases, tenant, db. rewrite Ht, Hd.
  destruct (checked _ _ _ _ _ _) as [L1 r] eqn:Ec. destruct r as [[]|e].
  - destruct (fault FindUser); [by left|]. destruct (active_user _) as [u|].
    + destruct (verifyPassword _ _); [|right; by left].
      match goal with |- context [open_session ?a ?f ?r ?m ?s ?t ?e ?p ?i ?u ?w] =>
        destruct (open_session_run a f r m s t e p i u w) as (t' & _ & ->) end.
      cbv zeta. unfold db. rewrite Hd. destruct (fault LoadAuthz); [by left|].
      destruct (issueToken _) as [token|e] eqn:Ei; [done|]. apply issue_internal in Ei. by left.
    + destruct (decoy _ _); [right; by left|by left].
  - right. apply checked_errors in Ec as [-> | [ms ->]]; right; by left.
Qed.

Lemma list_users_raises fault req (w : world A) : has_tenant req → raises [] (list_users fault req w).2.
Proof.
  intros [_ [d Hd]]. unfold list_users. rewrite bind_run. unfold lift, db. rewrite Hd. unfold query, on_core.
  destruct (fault ListUsers); [by left|done].
Qed.

Lemma on_tenant_raises {B} l req (m : St (A := A) B) s :
  (∀ w, raises l (m w).2) → raises l (on_tenant req m s).2.
Proof.
  intros Hm. unfold on_tenant. match goal with |- context [m ?w] => specialize (Hm w); destruct (m w) end. done.
Qed.

(** What [provisionTenant] throws is the answer some caller gets in some run of the
    provisionings of ConnectionManager.v. *)
Definition provisioning_runs (cx : Circumstances) : Prop :=
  ∀ input e, provisionTenant cx input = Throw e →
    ∃ tr d p, prov_exec tr empty_state = Some d ∧ (p, Throw e) ∈ answers d.

Lemma provisioning_runs_errors cx input e :
  provisioning_runs cx → provisionTenant cx input = Throw e → provisioning_error e.
Proof. intros Hp (tr & d & p & Hr & Hin)%Hp. by eapply provisioning_errors. Qed.

Lemma handler_raises e cx req body s :
  provisioning_runs cx → (uses_tenant e = true → has_tenant (context req)) →
  raises (handler_answers e) (handler appendAuditEvent settings e cx req body s).2.
Proof.
  intros Hp Ht. destruct e; cbn [handler handler_answers]; try done.
  - apply raises_wrap; [|by intros []]. apply on_tenant_raises. intros w. by apply register_raises, Ht.
  - apply raises_wrap; [|done]. apply on_tenant_raises. intros w. by apply login_raises, Ht.
  - apply raises_wrap; [|done]. apply on_tenant_raises. intros w. by apply list_users_raises, Ht.
  - unfold post_tenant, provision. destruct (provisionTenant cx _) as [p|err] eqn:E; [done|].
    apply (provisioning_runs_errors cx) in E as [Hi|[Hc|Hc]]; [by left|right; rewrite Hc; by left|right; rewrite Hc; right; by left|done].
Qed.

(** *** All stages *)

Definition pipe_answers (e : Endpoint) : list (Z * string) :=
  match dto (route e) with Some _ => [(422, "VALIDATION_FAILED")] | None => [] end.
Definition limiter_answers (e : Endpoint) : list (Z * string) :=
  if unlimited (route e) then [] else [(429, "TOO_MANY_REQUESTS")].

(** The errors of an endpoint, a fault apart. *)
Definition endpoint_answers (e : Endpoint) : list (Z * string) :=
  limiter_answers e ++ guard_answers (chain_of (route e)) ++ pipe_answers e ++ handler_answers e.

Lemma pipe_raises e body : raises (pipe_answers e) (pipe (dto (route e)) body).
Proof.
  unfold pipe, pipe_answers. destruct (dto (route e)) as [d|]; [|done].
  destruct (validate d body); [done|]. right. by left.
Qed.

(** Only the endpoints that ask nothing of a database are without faults. *)
Definition may_fault (e : Endpoint) : bool := match e with health_check | keys_jwks => false | _ => true end.
Definition possible (e : Endpoint) : list (Z * string) :=
  endpoint_answers e ++ if may_fault e then [(500, "INTERNAL_ERROR")] else [].

Lemma possible_raised {B} e l (r : M B) err :
  raises l r → r = Throw err → l ⊆ endpoint_answers e → may_fault e = true → answered err ∈ possible e.
Proof.
  intros Hr -> Hl Hf. unfold possible. rewrite Hf, elem_of_app.
  destruct Hr as [Hi|Hin]; [right; rewrite answered_internal by done; by left|left; by apply Hl].
Qed.

Lemma failed_answered cx req err h p :
  reply_body (failed settings cx req err h) = Some (Problem p) → (p_status p, p_code p) = answered err.
Proof. intros [= <-]. apply answered_problem. Qed.

Lemma failed_possible e cx req err h p :
  answered err ∈ possible e → reply_body (failed settings cx req err h) = Some (Problem p) →
  (p_status p, p_code p) ∈ possible e.
Proof. by intros Ha ->%failed_answered. Qed.

(** Every problem an endpoint answers is among these. *)
Lemma serve_errors e cx req body s p :
  provisioning_runs cx → reply_body (serve e cx req body s).2 = Some (Problem p) → (p_status p, p_code p) ∈ possible e.
Proof.
  intros Hprov. unfold Endpoints.serve. destruct (canActivate _ _ _ _ _ _ _) as [[L h] admitted] eqn:Ec.
  destruct admitted as [b|err].
  2: { apply failed_possible. apply (f_equal snd) in Ec. apply canActivate_throws in Ec as [Hu Ha].
       rewrite Ha. unfold possible, endpoint_answers, limiter_answers. cbn in Hu. rewrite Hu. by left. }
  assert (Hlate : ∀ {B} l (r : M B) err, raises l r → r = Throw err → l ⊆ endpoint_answers e →
    may_fault e = true ∨ (∃ b, r = Ok b) → answered err ∈ possible e).
  { intros B l r err Hr He Hl [Hf|[b' Hb]]; [by eapply possible_raised|congruence]. }
  assert (Hq : may_fault e = true ∨ e = health_check ∨ e = keys_jwks) by (destruct e; auto).
  pose proof (run_guards_raises (chain_of (route e)) cx (arrive e req) (set_sv_limiter L s)) as Hg.
  destruct (run_guards _ _ _ _ _ _) as [s2 [req'|err]] eqn:Eg.
  2: { apply failed_possible. eapply Hlate; [exact Hg|done|unfold endpoint_answers; set_solver|].
       destruct Hq as [?|[->| ->]]; [by left|done..]. }
  pose proof (pipe_raises e body) as Hpipe. destruct (pipe (dto (route e)) body) as [v|err] eqn:Ep.
  2: { apply failed_possible. eapply Hlate; [exact Hpipe|done|unfold endpoint_answers; set_solver|].
       destruct Hq as [?|[->| ->]]; [by left|done..]. }
  pose proof (handler_raises e cx req' v s2 Hprov (λ Hu, run_guards_tenant e cx req _ s2 req' Hu Eg)) as Hh.
  destruct (handler _ _ _ _ _ _ _) as [s3 [pl|err]] eqn:Eh; [by unfold succeeded; destruct (intercept _ _)|].
  apply failed_possible. eapply Hlate; [exact Hh|done|unfold endpoint_answers; set_solver|].
  destruct Hq as [?|[->| ->]]; [by left|done..].
Qed.

(** *** Before the guards *)

(** Fastify reads and parses the body of a request before anything of the program
    runs; Nest hands what it throws to the filter. *)
Definition receive (e : Endpoint) (cx : Circumstances) (req : Request) (parsed : M json) (s : Service A)
    : Service A * Reply Body :=
  match parsed with
  | Throw err => (s, failed settings cx (arrive e req) err ∅)
  | Ok body => serve e cx req body s
  end.

(** Only a request with a body is refused: one that cannot be parsed with a 400, one
    over [bodyLimit] with a 413, one of another content type with a 415. *)
Definition refused_by_fastify (e : Endpoint) (parsed : M json) : Prop :=
  ∀ err, parsed = Throw err →
    verb (route e) = "POST" ∧ ∃ status body, err = EHttp status body ∧ status ∈ [400; 413; 415].

(** ** What the document names *)

(** What the document does not say: that a list may be asked for an unknown
    tenant or with another tenant's token (the code is in the summary, no response
    has it), that the key set is rate limited, and that a body can be refused
    before it is validated. *)
Definition undocumented (e : Endpoint) : list (Z * string) :=
  match e with
  | users_list => [(404, "TENANT_NOT_FOUND"); (401, "CROSS_TENANT_TOKEN")]
  | keys_jwks => [(429, "TOO_MANY_REQUESTS")]
  | health_check => []
  | auth_register | auth_login | tenants_provision =>
      [(400, "MALFORMED_REQUEST"); (413, "PAYLOAD_TOO_LARGE"); (415, "UNSUPPORTED_MEDIA_TYPE")]
  end.

Definition parser_answers (e : Endpoint) : list (Z * string) :=
  if String.eqb (verb (route e)) "POST"
  then [(400, "MALFORMED_REQUEST"); (413, "PAYLOAD_TOO_LARGE"); (415, "UNSUPPORTED_MEDIA_TYPE")] else [].

Lemma named_or_not e a :
  a ∈ parser_answers e ++ possible e → documented e a.1 a.2 = negb (bool_decide (a ∈ undocumented e)).
Proof.
  intros Ha. assert (Hall : Forall (λ a, documented e a.1 a.2 = negb (bool_decide (a ∈ undocumented e)))
    (parser_answers e ++ possible e)).
  { apply (bool_decide_unpack _). by destruct e; vm_compute. }
  rewrite Forall_forall in Hall. by apply Hall.
Qed.

Lemma receive_errors e cx req parsed s p :
  provisioning_runs cx → refused_by_fastify e parsed →
  reply_body (receive e cx req parsed s).2 = Some (Problem p) →
  (p_status p, p_code p) ∈ parser_answers e ++ possible e.
Proof.
  intros Hp Hf Hr. apply elem_of_app. destruct parsed as [body|err]; [right; by eapply serve_errors|left].
  destruct (Hf err eq_refl) as (Hv & status & body & -> & Hst). unfold parser_answers. rewrite Hv. cbn [String.eqb].
  rewrite (failed_answered cx (arrive e req) (EHttp status body) ∅ p Hr).
  assert (Hall : Forall (λ st, answered (EHttp st body) ∈
      [(400, "MALFORMED_REQUEST"); (413, "PAYLOAD_TOO_LARGE"); (415, "UNSUPPORTED_MEDIA_TYPE")]) [400; 413; 415]).
  { apply (bool_decide_unpack _). done. }
  rewrite Forall_forall in Hall. by apply Hall.
Qed.

(** C21. Which errors a client generated from the document knows: whenever an
    endpoint answers a problem, to any request, from the parsing of its body on,
    the response documented for its status names its code, unless the two are in
    the list [undocumented], and then it does not. The body parser is Fastify's and
    refuses with the three statuses it documents; the errors of a provisioning are
    those a caller gets in some run of ConnectionManager.v. *)
Theorem every_error_is_documented e cx req parsed s p :
  provisioning_runs cx → refused_by_fastify e parsed →
  reply_body (receive e cx req parsed s).2 = Some (Problem p) →
  documented e (p_status p) (p_code p) = negb (bool_decide ((p_status p, p_code p) ∈ undocumented e)).
Proof. intros Hp Hf Hr. by apply (named_or_not e (_, _)), (receive_errors e cx req parsed s). Qed.
End errors.

Module ApiDocsSample.
#[local] Existing Instance Sample.toy.
#[local] Existing Instance RedisMap.Redis_map.
Import KeysSample TokensSample KeyStoreSample ServiceSample ProvisioningSample RoutingSample GuardsSample SessionsSample RequestsSample.

#[local] Abbreviation run e req body t := (serve events_only the_settings e (at_time t) req body).

(** What the list leaves out is answered: a tenant nobody has, a token of another
    tenant, one request for the keys too many, a body that is not JSON. *)
Example unknown_tenant_is_undocumented :
  code_of (run users_list (request "globex" "" []) JNull 10 initial).2 = (404, Some "TENANT_NOT_FOUND") ∧
  documented users_list 404 "TENANT_NOT_FOUND" = false.
Proof. vm_compute. auto. Qed.

Example keys_are_limited :
  let again t s := run keys_jwks anonymous JNull t s in
  code_of (again 40 (again 30 (again 20 (again 10 initial).1).1).1).2 = (429, Some "TOO_MANY_REQUESTS") ∧
  documented keys_jwks 429 "TOO_MANY_REQUESTS" = false.
Proof. vm_compute. auto. Qed.

Definition foreign_token : string :=
  default "" (to_option (issueToken {| sub := "u1"; tid := id2; roles := []; permissions := ["users:read"] |})).
Example cross_tenant_is_undocumented :
  code_of (run users_list (request "acme" ("Bearer " +:+ foreign_token) ["Authorization"; "Bearer " +:+ foreign_token])
    JNull 10 initial).2 = (401, Some "CROSS_TENANT_TOKEN") ∧
  documented users_list 401 "CROSS_TENANT_TOKEN" = false.
Proof. vm_compute. auto. Qed.

Definition unparsable : M json := Throw (EHttp 400 (BodyString "Unexpected end of JSON input")).
Example malformed_bodies_are_undocumented :
  code_of (receive events_only the_settings auth_login (at_time 10) anonymous unparsable initial).2
    = (400, Some "MALFORMED_REQUEST") ∧
  documented auth_login 400 "MALFORMED_REQUEST" = false.
Proof. vm_compute. auto. Qed.

(** The answer to a login whose body is rejected, and the published schema: a member
    it requires is not there. *)
Lemma field_problems_break_the_schema :
  let body := JObject [("email", JString "alice")] in
  match reply_body (run auth_login anonymous body 10 initial).2 with
  | Some (Problem {| p_code := c; p_errors := Some (f :: _) |}) =>
      c = "VALIDATION_FAILED" ∧ "message" ∈ required_members FieldProblemSchema ∧
      member "message" (field_problem_json f) = None
  | _ => False
  end.
Proof. vm_compute. split_and!; [reflexivity|left|reflexivity]. Qed.

(** Acme is asked for again, under another name. *)
Definition again : list prov_label :=
  provision_statements 1 acme id1 ++ [ConnectionManager.Request 2 {| in_slug := "acme"; in_name := "Other" |}; TryLock 2; Register 2 id2].
Definition taken : exn := EDomain (TenantAlreadyExistsError "acme").
Definition taken_at (t : Z) : Circumstances :=
  let cx := at_time t in
  {| at_client := at_client cx; at_route := at_route cx; at_throttle := at_throttle cx; rows := rows cx;
     failing := failing cx; provisionTenant _ := Throw taken; keys := keys cx; now := now cx; drawn_id := drawn_id cx;
     drawn_salt := drawn_salt cx; drawn_trace := drawn_trace cx; started := started cx; package_file := package_file cx |}.

Lemma taken_by_a_run : provisioning_runs (taken_at 10).
Proof.
  intros input e [= <-].
  destruct (prov_exec again empty_state) as [d|] eqn:E; [|vm_compute in E; discriminate E].
  exists again, d, 2%nat. split; [exact E|].
  assert (He : Some (ConnectionManager.answers d) = ConnectionManager.answers <$> prov_exec again empty_state) by by rewrite E.
  revert He. vm_compute (ConnectionManager.answers <$> _). intros [= ->]. right. left.
Qed.

Definition problem_of (r : Reply Body) : option ProblemDetails :=
  match reply_body r with Some (Problem p) => Some p | _ => None end.

Lemma every_error_is_documented_witness :
  Forall (λ '(e, req, parsed), ∃ p,
      reply_body (receive events_only the_settings e (taken_at 10) req parsed initial).2 = Some (Problem p) ∧
      documented e (p_status p) (p_code p) = negb (bool_decide ((p_status p, p_code p) ∈ undocumented e)))
    [ (auth_login, anonymous, unparsable); (tenants_provision, operator, Ok new_tenant) ].
Proof.
  repeat apply Forall_cons_2; [..|apply Forall_nil_2]; (eexists; split; [vm_compute; reflexivity|]).
  - apply (every_error_is_documented events_only the_settings auth_login (taken_at 10) anonymous unparsable initial);
      [exact taken_by_a_run| |vm_compute; reflexivity].
    intros err Herr. injection Herr as <-. split; [reflexivity|]. do 2 eexists. split; [reflexivity|left].
  - apply (every_error_is_documented events_only the_settings tenants_provision (taken_at 10) operator (Ok new_tenant) initial);
      [exact taken_by_a_run|done|vm_compute; reflexivity].
Defined.
End ApiDocsSample.
