(* ===== verification/Slowloris.v ===== *)
(** The socket test of the request timeout: scripts/slowloris-probe.mjs, its options,
    its handlers and its verdict.

    What happens on the socket, and when, is the argument of [run]; the dribbled
    bytes keep the connection busy and decide nothing. A setting that [Number]
    reads as a fraction is left out; [None] is NaN, which no comparison holds of. *)
From S2P Require Import Prelude ClientAddress.
#[local] Open Scope Z_scope.

(** ** Options *)

(** [process.argv.indexOf(option)] and what follows. *)
Fixpoint after (option : string) (argv : list string) : list string :=
  match argv with
  | [] => []
  | a :: argv => if String.eqb a option then argv else after option argv
  end.

Definition arg (argv : list string) (name fallback : string) : string :=
  match after ("--" +:+ name) argv with
  | String c s :: _ => String c s
  | _ => fallback
  end.

(** [Number] of a string: whole numbers only. *)
Class Numbers := { Number : string → option Z }.

Record Settings := { host : string; port : option Z; timeoutMs : option Z }.

Definition settings `{Numbers} (argv : list string) (env : string → option string) : Settings :=
  {| host := arg argv "host" "localhost";
     port := Number (arg argv "port" (default "3011" (env "PORT")));
     timeoutMs := Number (arg argv "timeout-ms" (default "30000" (env "REQUEST_TIMEOUT_MS"))) |}.

Definition grace : Z := 5000.
Definition deadline (timeoutMs : option Z) : option Z := (λ t, t + grace) <$> timeoutMs.

(** [a < b] of numbers. *)
Definition less (a b : option Z) : bool :=
  match a, b with Some a, Some b => a <? b | _, _ => false end.

(** ** Handlers *)

Inductive event :=
  | Connected
  | Data (chunk : string)
  | Closed
  | Ended                     (* a FIN *)
  | Errored (code : string)
  | Backstop.                 (* the timer of the script itself *)

(** [/^HTTP\/1\.[01] (\d{3})/] on the first line. *)
Definition status_of (chunk : string) : option Z :=
  let head := hd EmptyString (split_on "013" chunk) in
  if String.prefix "HTTP/1.0 " head || String.prefix "HTTP/1.1 " head then
    let digits := String.substring 9 3 head in
    if Nat.eqb (String.length digits) 3 && sall is_digit digits then Some (Z.of_N (dec_value digits)) else None
  else None.

(** [finish], its exit code. *)
Definition finish (timeoutMs : option Z) (status : option Z) (elapsed : Z) : Z :=
  let tooLate := less (deadline timeoutMs) (Some elapsed) in
  let tooEarly := less (Some elapsed) ((λ t, t - 500) <$> timeoutMs) in
  if negb (bool_decide (status = Some 408)) then 1
  else if tooEarly then 1
  else if tooLate then 1
  else 0.

(** The exit code a handler ends the script with, if it does. *)
Definition handle (timeoutMs : option Z) (e : event) (elapsed : Z) : option Z :=
  match e with
  | Connected => None
  | Data chunk => Some (finish timeoutMs (status_of chunk) elapsed)
  | Closed | Ended => Some (finish timeoutMs None elapsed)
  | Errored code => if String.eqb code "ECONNRESET" then Some (finish timeoutMs None elapsed) else Some 1
  | Backstop => Some 1
  end.

(** Events with the milliseconds since the start; [None] while the script waits. *)
Fixpoint run (timeoutMs : option Z) (events : list (Z * event)) : option Z :=
  match events with
  | [] => None
  | (t, e) :: events => match handle timeoutMs e t with Some c => Some c | None => run timeoutMs events end
  end.

Example statuses :
  map status_of ["HTTP/1.1 408 Request Timeout"; "HTTP/1.0 413 x"; "HTTP/1.1 40"; "HTTP/2 408"; "408"] =
  [Some 408; Some 413; None; None; None].
Proof. vm_compute. reflexivity. Qed.

(** ** The verdict *)

Lemma run_waits timeoutMs pre post :
  Forall (λ te, handle timeoutMs te.2 te.1 = None) pre → run timeoutMs (pre ++ post) = run timeoutMs post.
Proof. induction 1 as [|[t e] pre He _ IH]; [done|]. cbn in He |- *. by rewrite He. Qed.

Lemma finish_passes timeoutMs status elapsed :
  finish timeoutMs status elapsed = 0 ↔
    status = Some 408 ∧ ∀ t, timeoutMs = Some t → t - 500 ≤ elapsed ≤ t + grace.
Proof.
  unfold finish. destruct (bool_decide (status = Some 408)) eqn:Es; cbn [negb].
  - apply bool_decide_eq_true in Es. destruct timeoutMs as [t|]; cbn.
    + destruct (Z.ltb_spec elapsed (t - 500)); [split; [done|intros [_ Hw]; specialize (Hw t eq_refl); lia]|].
      destruct (Z.ltb_spec (t + grace) elapsed); [split; [done|intros [_ Hw]; specialize (Hw t eq_refl); lia]|].
      split; [|done]. intros _. split; [done|]. intros ? [= <-]. lia.
    + split; [|done]. intros _. by split.
  - apply bool_decide_eq_false in Es. split; [done|]. by intros [? _].
Qed.

(** The script exits 0 exactly when the first thing to happen after connecting is
    an answer under status 408 no more than 500 ms before the timeout and no more
    than the grace after it: any other status, a silent close, a reset, an error or
    the backstop ends it with 1, whatever would have come next. *)
Theorem verdict_exact timeout events :
  run (Some timeout) events = Some 0 ↔
  ∃ pre t chunk post, events = pre ++ (t, Data chunk) :: post ∧ Forall (λ te, te.2 = Connected) pre ∧
    status_of chunk = Some 408 ∧ timeout - 500 ≤ t ≤ timeout + grace.
Proof.
  split.
  - induction events as [|[t e] events IH]; [done|]. cbn [run].
    assert (Hno : finish (Some timeout) None t ≠ 0) by (intros [? _]%finish_passes; done).
    destruct e as [|chunk| | |c|]; cbn [handle]; try congruence.
    + intros (pre & t' & chunk & post & -> & Hpre & Hrest)%IH. exists ((t, Connected) :: pre), t', chunk, post.
      split; [done|]. split; [by constructor|done].
    + intros [= [Hs Hw]%finish_passes]. exists [], t, chunk, events. split_and!; [done|constructor|done|..]; by apply Hw.
    + destruct (String.eqb c "ECONNRESET"); congruence.
  - intros (pre & t & chunk & post & -> & Hpre & Hs & Hw).
    rewrite run_waits by (eapply Forall_impl; [exact Hpre|]; by intros [? ?]; intros ->). cbn [run handle].
    f_equal. apply finish_passes. split; [done|]. by intros ? [= <-].
Qed.

(** A server that enforces the timeout sweeps its connections every [interval]
    milliseconds, and its answer takes [latency] to arrive. *)
Definition enforced (timeout interval latency t : Z) : Prop := timeout ≤ t ≤ timeout + interval + latency.

(** The script accepts every server that enforces its timeout, as long as the
    sweep and the network together stay within the grace. *)
Theorem enforced_timeout_passes timeout interval latency tc t chunk post :
  interval + latency ≤ grace → enforced timeout interval latency t → status_of chunk = Some 408 →
  run (Some timeout) ((tc, Connected) :: (t, Data chunk) :: post) = Some 0.
Proof.
  unfold enforced. intros Hg Ht Hs. cbn [run handle]. f_equal. apply finish_passes. split; [done|].
  intros ? [= <-]. lia.
Qed.

(** The sweep the service is configured with by default takes all of the grace: a
    millisecond of latency, and a service that enforces its timeout fails. *)
Lemma default_sweep_leaves_no_slack :
  enforced 30000 5000 1 35001 ∧
  run (Some 30000) [(3, Connected); (35001, Data "HTTP/1.1 408 Request Timeout")] = Some 1.
Proof. split; [unfold enforced; lia|reflexivity]. Qed.

(** A timeout that is not a number is no timeout: any 408 would be accepted. *)
Example nan_accepts_any_408 elapsed : finish None (Some 408) elapsed = 0.
Proof. reflexivity. Qed.

Lemma enforced_timeout_passes_witness :
  run (Some 4000) [(2, Connected); (4990, Data "HTTP/1.1 408 Request Timeout"); (4991, Ended)] = Some 0.
Proof.
  apply (enforced_timeout_passes 4000 1000 50); [unfold grace; lia|unfold enforced; lia|vm_compute; reflexivity].
Defined.
