(* ===== verification/Bootstrap.v ===== *)
(** Starting the service: main.ts, core.module.ts, ratelimit.module.ts and the hooks
    of KeyRegistryService, as far as they decide anything: what is read, what stops
    the process, what is only logged, and the settings handed to the server and the
    components. Every step can throw and can log; what is caught is caught where the
    code catches it. Fastify, Nest and the drivers are not modelled: whether Redis
    answered, what the database returned and whether the port could be bound are
    arguments. *)
From S2P Require Import Prelude Domain Base64 AuditHash ClientAddress AuditWriter RateLimit Limiter RateLimitGuard LoginThrottle.
From S2P Require Import ConnectionManager TenantRouting Config Keys Tokens KeyStore KeyRegistry TokenService.
From S2P Require Import Guards AuditTrail AuthService Sessions Http Cli Endpoints Requests ApiDocs.
#[local] Open Scope Z_scope.

(** ** What the server is given *)

(** The options of FastifyAdapter; [http] is passed on to [http.createServer], and
    the request timeout is given to both. *)
Record HttpServerOptions := { http_requestTimeout : Z; http_connectionsCheckingInterval : Z }.
Record AdapterOptions := {
  http : HttpServerOptions; adapter_requestTimeout : Z; adapter_connectionTimeout : Z;
  adapter_keepAliveTimeout : Z; adapter_bodyLimit : Z; adapter_trustProxy : bool;
}.

Definition adapter_options (c : AppConfig) : AdapterOptions :=
  {| http := {| http_requestTimeout := requestTimeoutMs c;
                http_connectionsCheckingInterval := connectionsCheckingIntervalMs c |};
     adapter_requestTimeout := requestTimeoutMs c; adapter_connectionTimeout := connectionTimeoutMs c;
     adapter_keepAliveTimeout := keepAliveTimeoutMs c; adapter_bodyLimit := bodyLimitBytes c;
     adapter_trustProxy := trustProxy c |}.

(** What the request path reads of the configuration. *)
Definition request_settings (c : AppConfig) : Endpoints.Settings :=
  {| limits := {| RateLimitGuard.rateLimitDefaultLimit := rateLimitDefaultLimit c;
                  RateLimitGuard.rateLimitDefaultWindowMs := rateLimitDefaultWindowMs c;
                  RateLimitGuard.rateLimitFailOpen := rateLimitFailOpen c |};
     throttling := {| LoginThrottle.loginThrottleLimit := loginThrottleLimit c;
                      LoginThrottle.loginThrottleWindowMs := loginThrottleWindowMs c;
                      throttleFailOpen := rateLimitFailOpen c |};
     apiKey := controlPlaneApiKey c; problemBaseUri := problemTypeBaseUri c |}.

(** The Redis client of ratelimit.module.ts. *)
Record RedisOptions := {
  enableOfflineQueue : bool; maxRetriesPerRequest : Z; lazyConnect : bool; connectTimeout : Z; keyPrefix : string;
}.
Definition redis_options : RedisOptions :=
  {| enableOfflineQueue := false; maxRetriesPerRequest := 1; lazyConnect := true; connectTimeout := 3000;
     keyPrefix := "crbk:" |}.

Definition maxConnectionsPerDatabase : Z := 10.

(** ** Starting *)

Inductive boot_error := InvalidConfiguration (issues : list string) | Unhandled (e : exn).

Inductive boot_log :=
  | RedisIsRequired | LimiterDegraded
  | CouldNotRefresh | KeyNotLoaded (kid : string) | NoActiveKeys
  | DocsDisabled | DocsInProduction.

(** A step of the start: what it logs, and what it returns or throws. *)
Definition Boot (A : Type) : Type := list boot_log * result boot_error A.
#[export] Instance boot_ret : MRet Boot := λ A a, ([], Ok a).
#[export] Instance boot_bind : MBind Boot := λ A B k m,
  match m.2 with
  | Ok a => (m.1 ++ (k a).1, (k a).2)
  | Throw e => (m.1, Throw e)
  end.
Definition log (l : boot_log) : Boot unit := ([l], Ok tt).
Definition awaits {A} (m : M A) : Boot A :=
  ([], match m with Ok a => Ok a | Throw e => Throw (Unhandled e) end).
(** [try { m } catch (err) { h(err) }] *)
Definition try_catch {A} (m : Boot A) (h : boot_error → Boot A) : Boot A :=
  match m.2 with Ok _ => m | Throw e => (m.1 ++ (h e).1, (h e).2) end.

Section boot.
Context `{Zod} `{AesGcm} `{JoseTokens}.

Record Running := {
  config : AppConfig; options : AdapterOptions; redis : RedisOptions; provider : KeyProvider; registry : Registry;
  docs : option (Document * list string * bool);
}.

(** The REDIS factory: what it says of the policy. *)
Definition make_redis (c : AppConfig) : Boot RedisOptions :=
  _ ← (if negb (rateLimitFailOpen c) then log RedisIsRequired else mret tt);
  mret redis_options.

(** [RateLimitModule.onModuleInit] *)
Definition connect_redis (connected : M unit) : Boot unit :=
  try_catch (awaits connected) (λ _, log LimiterDegraded).

(** The loop of [refresh], a row at a time. *)
Definition load_key (p : KeyProvider) (kid : string) (row : ConfigKey) (next : Snapshot) : Boot Snapshot :=
  match ck_wrappedKey row with
  | None => mret next
  | Some _ => try_catch (key ← awaits (loadStoredKey p (stored_row kid row)); mret (add_key key row next))
                (λ _, _ ← log (KeyNotLoaded kid); mret next)
  end.
Fixpoint load_keys (p : KeyProvider) (rows : list (string * ConfigKey)) (next : Snapshot) : Boot Snapshot :=
  match rows with
  | [] => mret next
  | (kid, row) :: rows => next ← load_key p kid row next; load_keys p rows next
  end.

(** [refresh], awaited: [None] is the early return of its first catch. *)
Definition refresh (p : KeyProvider) (q : nat) (now : Z) (rows : M (list (string * ConfigKey))) (r : Registry)
    : Boot Registry :=
  let r := refresh_start q now r in
  found ← try_catch (rows ← awaits rows; mret (Some rows)) (λ _, _ ← log CouldNotRefresh; mret None);
  next ← match found with Some rows => load_keys p rows EMPTY | None => mret (snapshot r) end;
  mret {| snapshot := next; lastRefreshAt := lastRefreshAt r; inFlight := inFlight r;
          queries := queries r ∖ {[ q ]}; miss_queries := miss_queries r |}.

(** [KeyRegistryService.onModuleInit]: one refresh, then a look at what it left. *)
Definition init_keys (p : KeyProvider) (q : nat) (now : Z) (rows : M (list (string * ConfigKey))) : Boot Registry :=
  r ← refresh p q now rows boot;
  _ ← (if bool_decide (is_Some (activeSigningKid (snapshot r)) ∧ is_Some (activeEncryptionKid (snapshot r)))
       then mret tt else log NoActiveKeys);
  mret r.

Definition is_production (c : AppConfig) : bool :=
  match nodeEnv c with Config.production => true | _ => false end.

(** [setupOpenApi] and what it logs. *)
Definition open_docs (c : AppConfig) : Boot (option (Document * list string * bool)) :=
  let docs := setupOpenApi (apiDocsEnabled c) (is_production c) in
  _ ← match docs with
      | None => log DocsDisabled
      | Some (_, _, true) => log DocsInProduction
      | Some _ => mret tt
      end;
  mret docs.

(** [loadConfig()], in main.ts and again in the CONFIG factory. *)
Definition read_config (env : gmap string string) : Boot AppConfig :=
  ([], match loadConfig (λ k, env !! k) with Ok c => Ok c | Throw issues => Throw (InvalidConfiguration issues) end).

(** [NestFactory.create] makes the providers; [listen] runs the hooks, then binds the
    port. *)
Definition bootstrap (existsSync : list string → bool) (read : list string → gmap string string)
    (cwd : list string) (env : gmap string string) (connected : M unit)
    (q : nat) (now : Z) (rows : M (list (string * ConfigKey))) (listening : M unit) : Boot Running :=
  let env := loadLocalDotenv existsSync read cwd env in
  c ← read_config env;
  c' ← read_config env;
  redis ← make_redis c';
  p ← awaits (LocalKeyProvider (from_base64url (keyEncryptionKey c')) "local");
  docs ← open_docs c;
  _ ← connect_redis connected;
  r ← init_keys p q now rows;
  _ ← awaits listening;
  mret {| config := c'; options := adapter_options c; redis := redis; provider := p; registry := r; docs := docs |}.

Lemma provider_accepts c : byteLength (from_base64url (keyEncryptionKey c)) = 32%nat →
  LocalKeyProvider (from_base64url (keyEncryptionKey c)) "local"
  = Ok {| provider_id := "local"; kek := from_base64url (keyEncryptionKey c) |}.
Proof. intros Hk. unfold LocalKeyProvider. by rewrite Hk. Qed.

(** What the steps that catch do, whatever happened. *)
Lemma connect_redis_run connected :
  connect_redis connected = (match connected with Ok _ => [] | Throw _ => [LimiterDegraded] end, Ok tt).
Proof. by destruct connected as [[]|]. Qed.

(** The rows whose key does not load. *)
Definition unloadable (p : KeyProvider) (row : string * ConfigKey) : bool :=
  match ck_wrappedKey row.2 with
  | Some _ => match loadStoredKey p (stored_row row.1 row.2) with Throw _ => true | Ok _ => false end
  | None => false
  end.

Lemma load_key_run p kid row next :
  load_key p kid row next
  = (if unloadable p (kid, row) then [KeyNotLoaded kid] else [], Ok (load_row p next (kid, row))).
Proof.
  unfold load_key, unloadable, load_row. cbn [fst snd]. destruct (ck_wrappedKey row); [|done].
  by destruct (loadStoredKey p (stored_row kid row)).
Qed.

Lemma load_keys_run p rows next :
  load_keys p rows next
  = (KeyNotLoaded <$> (fst <$> filter (λ row, unloadable p row = true) rows), Ok (fold_left (load_row p) rows next)).
Proof.
  revert next. induction rows as [|[kid row] rows IH]; intros next; [done|].
  cbn [load_keys fold_left]. unfold mbind, boot_bind. rewrite load_key_run. cbn [fst snd]. rewrite IH. cbn [fst snd].
  rewrite filter_cons. case_decide as Hu; [by rewrite Hu|]. by apply not_true_is_false in Hu as ->.
Qed.

(** [refresh] is the query and the answer of KeyRegistry.v. *)
Lemma refresh_run p q now rows r :
  inFlight r = None →
  refresh p q now rows r
  = (match rows with
     | Throw _ => [CouldNotRefresh]
     | Ok rs => KeyNotLoaded <$> (fst <$> filter (λ row, unloadable p row = true) rs)
     end, Ok (refresh_end p q rows (refresh_start q now r))).
Proof.
  intros Hf. unfold refresh, refresh_end. cbn [refresh_start inFlight]. rewrite Hf. destruct rows as [rs|e]; [|done].
  cbn [awaits]. unfold mbind at 1, boot_bind. cbn. rewrite load_keys_run. cbn. by rewrite app_nil_r.
Qed.

(** An active kid is a key that is there. *)
Lemma active_present p rows :
  let s := load_rows p rows in
  (∀ kid, activeSigningKid s = Some kid → is_Some (map_get kid (sn_signing s))) ∧
  (∀ kid, activeEncryptionKid s = Some kid → is_Some (map_get kid (sn_encryption s))).
Proof.
  induction rows as [|row rows [IHs IHe]] using rev_ind; [done|]. cbv zeta in *. rewrite load_rows_snoc. unfold load_row.
  destruct (ck_wrappedKey row.2); [|done]. destruct (loadStoredKey _ _) as [[kid priv pub jwk|kid secret]|]; [..|done];
    cbn -[map_get map_set]; split; intros k Hk; try (by apply IHs); try (by apply IHe); rewrite map_get_set;
    destruct (String.eqb_spec kid k) as [->|]; try (by eexists); case_bool_decide; simplify_eq; eauto.
Qed.

(** The registry can issue no token exactly when it lacks an active key. *)
Lemma no_key_no_token p rows :
  (∃ purpose, activeMaterial (load_rows p rows) = Throw (ENoActiveKey purpose)) ↔
  ¬ (is_Some (activeSigningKid (load_rows p rows)) ∧ is_Some (activeEncryptionKid (load_rows p rows))).
Proof.
  destruct (active_present p rows) as [Hs He]. unfold activeMaterial.
  destruct (activeSigningKid (load_rows p rows)) as [sk|], (activeEncryptionKid (load_rows p rows)) as [ek|].
  - destruct (Hs sk eq_refl) as [? ->], (He ek eq_refl) as [? ->]. split; [by intros []|]. intros Hn. by destruct Hn.
  - split; [by intros _ [_ []]|by eexists].
  - split; [by intros _ [[] _]|by eexists].
  - split; [by intros _ [[] _]|by eexists].
Qed.

(** What a start with this configuration logs, and why. *)
Definition logged_for (c : AppConfig) (connected : M unit) (rows : M (list (string * ConfigKey))) (r : Running)
    (l : boot_log) : Prop :=
  match l with
  | RedisIsRequired => rateLimitFailOpen c = false
  | LimiterDegraded => ∃ e, connected = Throw e
  | CouldNotRefresh => ∃ e, rows = Throw e
  | KeyNotLoaded kid => ∃ rs row e, rows = Ok rs ∧ (kid, row) ∈ rs ∧ ck_wrappedKey row ≠ None ∧
      loadStoredKey (provider r) (stored_row kid row) = Throw e
  | NoActiveKeys => ∃ purpose, activeMaterial (snapshot (registry r)) = Throw (ENoActiveKey purpose)
  | DocsDisabled => apiDocsEnabled c = false
  | DocsInProduction => apiDocsEnabled c = true ∧ nodeEnv c = Config.production
  end.

Lemma unloadable_spec p kid (rs : list (string * ConfigKey)) :
  kid ∈ fst <$> filter (λ row, unloadable p row = true) rs ↔
  ∃ row e, (kid, row) ∈ rs ∧ ck_wrappedKey row ≠ None ∧ loadStoredKey p (stored_row kid row) = Throw e.
Proof.
  rewrite list_elem_of_fmap. split.
  - intros ([kid' row] & -> & [Hu Hin]%list_elem_of_filter). unfold unloadable in Hu. cbn [fst snd] in *.
    destruct (ck_wrappedKey row) eqn:Ew; [|done]. destruct (loadStoredKey _ _) as [|e] eqn:El; [done|].
    exists row, e. by rewrite Ew.
  - intros (row & e & Hin & Hw & Hl). exists (kid, row). split; [done|]. apply list_elem_of_filter. split; [|done].
    unfold unloadable. cbn [fst snd]. rewrite Hl. by destruct (ck_wrappedKey row).
Qed.

Lemma make_redis_run c :
  make_redis c = (if rateLimitFailOpen c then [] else [RedisIsRequired], Ok redis_options).
Proof. unfold make_redis. by destruct (rateLimitFailOpen c). Qed.

Lemma open_docs_run c :
  let docs := setupOpenApi (apiDocsEnabled c) (is_production c) in
  open_docs c = (match docs with None => [DocsDisabled] | Some (_, _, true) => [DocsInProduction] | _ => [] end, Ok docs).
Proof. cbv zeta. unfold open_docs. by destruct (setupOpenApi _ _) as [[[d paths] []]|]. Qed.

Lemma init_keys_run p q now rows :
  let r := refresh_end p q rows (refresh_start q now boot) in
  init_keys p q now rows
  = (match rows with
     | Throw _ => [CouldNotRefresh]
     | Ok rs => KeyNotLoaded <$> (fst <$> filter (λ row, unloadable p row = true) rs)
     end ++
     (if bool_decide (is_Some (activeSigningKid (snapshot r)) ∧ is_Some (activeEncryptionKid (snapshot r)))
      then [] else [NoActiveKeys]), Ok r).
Proof.
  cbv zeta. unfold init_keys, mbind, boot_bind. rewrite refresh_run by done. cbn [fst snd].
  case_bool_decide; cbn [fst snd log]; by rewrite ?app_nil_r.
Qed.

(** Everything [bootstrap] does on a valid configuration. *)
Lemma bootstrap_run existsSync read cwd env connected q now rows listening c :
  let p := {| provider_id := "local"; kek := from_base64url (keyEncryptionKey c) |} in
  let r := refresh_end p q rows (refresh_start q now boot) in
  let docs := setupOpenApi (apiDocsEnabled c) (is_production c) in
  loadConfig (λ k, loadLocalDotenv existsSync read cwd env !! k) = Ok c →
  bootstrap existsSync read cwd env connected q now rows listening
  = ((if rateLimitFailOpen c then [] else [RedisIsRequired]) ++
     match docs with None => [DocsDisabled] | Some (_, _, true) => [DocsInProduction] | _ => [] end ++
     match connected with Ok _ => [] | Throw _ => [LimiterDegraded] end ++
     match rows with
     | Throw _ => [CouldNotRefresh]
     | Ok rs => KeyNotLoaded <$> (fst <$> filter (λ row, unloadable p row = true) rs)
     end ++
     (if bool_decide (is_Some (activeSigningKid (snapshot r)) ∧ is_Some (activeEncryptionKid (snapshot r)))
      then [] else [NoActiveKeys]),
     match listening with
     | Ok _ => Ok {| config := c; options := adapter_options c; redis := redis_options; provider := p; registry := r;
                     docs := docs |}
     | Throw e => Throw (Unhandled e)
     end).
Proof.
  intros p r docs0 Hc. unfold bootstrap, read_config. rewrite Hc.
  pose proof (loadConfig_facts _ _ Hc) as (_ & _ & Hk & _).
  unfold mbind, boot_bind. cbn [fst snd]. rewrite open_docs_run, make_redis_run. fold docs0. cbn [fst snd].
  rewrite provider_accepts by done. fold p. cbn [awaits fst snd]. rewrite connect_redis_run, init_keys_run. fold r.
  cbn [fst snd].
  destruct listening; cbn [fst snd app]; by rewrite ?app_nil_r.
Qed.

Lemma logs_are_exact (c : AppConfig) (connected : M unit) q now (rows : M (list (string * ConfigKey))) p o rd l :
  let r := refresh_end p q rows (refresh_start q now boot) in
  let docs := setupOpenApi (apiDocsEnabled c) (is_production c) in
  l ∈ (if rateLimitFailOpen c then [] else [RedisIsRequired]) ++
      match docs with None => [DocsDisabled] | Some (_, _, true) => [DocsInProduction] | _ => [] end ++
      match connected with Ok _ => [] | Throw _ => [LimiterDegraded] end ++
      match rows with
      | Throw _ => [CouldNotRefresh]
      | Ok rs => KeyNotLoaded <$> (fst <$> filter (λ row, unloadable p row = true) rs)
      end ++
      (if bool_decide (is_Some (activeSigningKid (snapshot r)) ∧ is_Some (activeEncryptionKid (snapshot r)))
       then [] else [NoActiveKeys]) ↔
  logged_for c connected rows {| config := c; options := o; redis := rd; provider := p; registry := r; docs := docs |} l.
Proof.
  cbv zeta. rewrite !elem_of_app.
  assert (HL1 : l ∈ (if rateLimitFailOpen c then [] else [RedisIsRequired]) ↔ l = RedisIsRequired ∧ rateLimitFailOpen c = false)
    by (destruct (rateLimitFailOpen c); set_solver).
  assert (HL2 : l ∈ match setupOpenApi (apiDocsEnabled c) (is_production c) with
      | None => [DocsDisabled] | Some (_, _, true) => [DocsInProduction] | _ => [] end ↔
    (l = DocsDisabled ∧ apiDocsEnabled c = false) ∨
    (l = DocsInProduction ∧ apiDocsEnabled c = true ∧ nodeEnv c = Config.production)).
  { unfold setupOpenApi, is_production. destruct (apiDocsEnabled c), (nodeEnv c); cbn; set_solver. }
  assert (HL3 : l ∈ match connected with Ok _ => [] | Throw _ => [LimiterDegraded] end ↔
    l = LimiterDegraded ∧ ∃ e, connected = Throw e) by (destruct connected; set_solver).
  assert (HL4 : l ∈ match rows with
      | Throw _ => [CouldNotRefresh]
      | Ok rs => KeyNotLoaded <$> (fst <$> filter (λ row, unloadable p row = true) rs)
      end ↔ (l = CouldNotRefresh ∧ ∃ e, rows = Throw e) ∨
            (∃ kid rs, l = KeyNotLoaded kid ∧ rows = Ok rs ∧ kid ∈ fst <$> filter (λ row, unloadable p row = true) rs)).
  { destruct rows as [rs|e]; [|set_solver]. rewrite list_elem_of_fmap. naive_solver. }
  set (r := refresh_end _ _ _ _).
  assert (HL5 : l ∈ (if bool_decide (is_Some (activeSigningKid (snapshot r)) ∧ is_Some (activeEncryptionKid (snapshot r)))
       then [] else [NoActiveKeys]) ↔ l = NoActiveKeys ∧ ∃ purpose, activeMaterial (snapshot r) = Throw (ENoActiveKey purpose)).
  { assert (Hn : (∃ purpose, activeMaterial (snapshot r) = Throw (ENoActiveKey purpose)) ↔
      ¬ (is_Some (activeSigningKid (snapshot r)) ∧ is_Some (activeEncryptionKid (snapshot r)))).
    { unfold r. cbn. destruct rows as [rs|e]; [apply no_key_no_token|apply (no_key_no_token p [])]. }
    case_bool_decide; set_solver. }
  rewrite HL1, HL2, HL3, HL4, HL5. clear HL1 HL2 HL3 HL4 HL5. destruct l; cbn [logged_for provider registry];
    try (split; [naive_solver|naive_solver]).
  split.
  - intros [[? _]|[[[? _]|[? _]]|[[? _]|[[[? _]|(k & rs & [= <-] & Hr & Hk)]|[? _]]]]]; try done.
    apply unloadable_spec in Hk as (row & e & Hin & Hw & Hl). by exists rs, row, e.
  - intros (rs & row & e & Hr & Hin & Hw & Hl). do 3 right. left. right. exists kid, rs. split_and!; [done|done|].
    apply unloadable_spec. by exists row, e.
Qed.

(** C32. The configuration alone decides whether the service starts. Whatever Redis,
    the database and the .env file do, a start fails exactly when the environment
    does not pass validation or the port cannot be bound. A service that started
    holds a key-encrypting key of the right size and settings every component's
    guarantee asks for, and gives the server one request timeout twice with a sweep
    shorter than it; and its log says what it starts without, each thing exactly
    when it is so: a limiter that fails closed, Redis, the table of keys, the keys
    that do not load by kid, an active key for either purpose, the documentation,
    or that it is published in production. *)
Theorem configuration_decides_the_boot existsSync read cwd env connected q now rows listening :
  let source k := loadLocalDotenv existsSync read cwd env !! k in
  let '(logs, started) := bootstrap existsSync read cwd env connected q now rows listening in
  match started with
  | Throw (InvalidConfiguration issues) => loadConfig source = Throw issues ∧ logs = []
  | Throw (Unhandled e) => is_Some (to_option (loadConfig source)) ∧ listening = Throw e
  | Ok r =>
      let c := config r in let o := options r in
      loadConfig source = Ok c ∧ (∃ u, listening = Ok u) ∧ byteLength (kek (provider r)) = 32%nat ∧
      adapter_requestTimeout o = http_requestTimeout (http o) ∧
      0 < http_connectionsCheckingInterval (http o) < adapter_requestTimeout o ∧
      0 < adapter_keepAliveTimeout o < adapter_connectionTimeout o ∧ 0 < adapter_bodyLimit o ∧
      0 < RateLimitGuard.rateLimitDefaultLimit (limits (request_settings c)) ∧
      0 < RateLimitGuard.rateLimitDefaultWindowMs (limits (request_settings c)) ∧
      0 < LoginThrottle.loginThrottleLimit (throttling (request_settings c)) ∧
      0 < LoginThrottle.loginThrottleWindowMs (throttling (request_settings c)) ∧
      from_base64url (apiKey (request_settings c)) ≠ kek (provider r) ∧
      (is_Some (docs r) ↔ apiDocsEnabled c = true) ∧
      ∀ l, l ∈ logs ↔ logged_for c connected rows r l
  end.
Proof.
  cbv zeta. destruct (loadConfig (λ k, loadLocalDotenv existsSync read cwd env !! k)) as [c|issues] eqn:Ec.
  2: { unfold bootstrap, read_config. rewrite Ec. by cbn. }
  rewrite (bootstrap_run _ _ _ _ _ _ _ _ _ c Ec). destruct listening as [u|e]; [|split; [by eexists|done]].
  pose proof (loadConfig_facts _ _ Ec) as (_ & _ & Hk & _ & Hne & Hka & Hci & _ & _ & Hrl & Hll & Hbl & _ & _ & _ & Hrw & Hlw).
  cbn [config options provider registry docs adapter_options adapter_requestTimeout http http_requestTimeout
       http_connectionsCheckingInterval adapter_keepAliveTimeout adapter_connectionTimeout adapter_bodyLimit
       request_settings limits throttling apiKey kek].
  split_and!; try done; try lia; [by eexists| |].
  { unfold setupOpenApi. destruct (apiDocsEnabled c); cbn; [split; [done|by eexists]|]. split; [by intros []|done]. }
  apply logs_are_exact.
Qed.

(** A database without keys, or none at all, stops nothing at startup: the log says
    so, and each login fails. *)
Lemma boots_without_keys existsSync read cwd env connected q now rows u c :
  loadConfig (λ k, loadLocalDotenv existsSync read cwd env !! k) = Ok c →
  match rows with Ok rs => rs = [] | Throw _ => True end →
  ∃ logs r, bootstrap existsSync read cwd env connected q now rows (Ok u) = (logs, Ok r) ∧ NoActiveKeys ∈ logs ∧
    activeMaterial (snapshot (registry r)) = Throw (ENoActiveKey "token_signing").
Proof.
  intros Hc Hrows. rewrite (bootstrap_run _ _ _ _ _ _ _ _ _ c Hc). do 2 eexists. split; [done|].
  assert (Hs : ∀ p, snapshot (refresh_end p q rows (refresh_start q now boot)) = EMPTY).
  { intros p. cbn. destruct rows as [rs|e]; [by rewrite Hrows|done]. }
  cbn [registry]. rewrite Hs. split; [|done].
  rewrite bool_decide_false by (cbn; by intros [[] _]). rewrite !elem_of_app. do 4 right. by left.
Qed.
End boot.
