(* ===== verification/Lifecycle.v ===== *)
(** What the process holds open, and how it lets go: the pools of ConnectionManager
    (packages/db/src/connection-manager.ts: the connection strings, [createPool],
    [getTenantDb], [close]), the shutdown hooks of the service, and the frame every
    operator tool runs in ([try { ... } finally { await cm.close() }], then
    [main().catch(...)]). *)
From S2P Require Import Prelude Domain AuditHash ConnectionManager Cli.
#[local] Open Scope Z_scope.

(** ** Connection strings *)

(** A URL as Node serialises it, in the parts that matter here. Its scheme is none
    that the standard treats specially. *)
Record Url := { scheme : string; authority : string; pathname : string; search : string; fragment : string }.

(** Up to the first character that stops, and from there on. *)
Fixpoint cut (stop : ascii → bool) (s : string) : string * string :=
  match s with
  | EmptyString => (EmptyString, EmptyString)
  | String c s' => if stop c then (EmptyString, s) else let (a, b) := cut stop s' in (String c a, b)
  end.

Definition one_of (cs : string) (c : ascii) : bool := negb (free_of c cs).

Definition after_slashes (s : string) : option string :=
  match s with String ":" (String "/" (String "/" rest)) => Some rest | _ => None end.

(** [new URL(text)]: a TypeError where there is no authority. *)
Definition parse_url (text : string) : M Url :=
  let (scheme, rest) := cut (one_of ":") text in
  match after_slashes rest with
  | Some rest =>
      let (authority, rest) := cut (one_of "/?#") rest in
      let (pathname, rest) := cut (one_of "?#") rest in
      let (search, fragment) := cut (one_of "#") rest in
      Ok {| scheme := scheme; authority := authority; pathname := pathname; search := search;
            fragment := fragment |}
  | None => Throw (EError "Invalid URL")
  end.

Definition toString (u : Url) : string :=
  scheme u +:+ "://" +:+ authority u +:+ pathname u +:+ search u +:+ fragment u.

(** [url.pathname = `/${name}`], for a name of characters a path may hold. *)
Definition set_pathname (name : string) (u : Url) : Url :=
  {| scheme := scheme u; authority := authority u; pathname := String "/" name; search := search u;
     fragment := fragment u |}.

Record ManagerOptions := {
  masterUrl : string; tenantClusterUrl : string; maxConnectionsPerDatabase : option Z;
}.

Definition tenantConnectionString (opts : ManagerOptions) (databaseName : string) : M string :=
  url ← parse_url (tenantClusterUrl opts);
  mret (toString (set_pathname databaseName url)).

(** The connection [createDatabase] works over. *)
Definition maintenanceUrl (opts : ManagerOptions) : M string :=
  url ← parse_url (tenantClusterUrl opts);
  mret (toString (set_pathname "postgres" url)).

(** ** Pools *)

Record Pool := { connectionString : string; max : option Z }.

Definition createPool (opts : ManagerOptions) (connectionString : string) : Pool :=
  {| connectionString := connectionString; max := maxConnectionsPerDatabase opts |}.

(** What can be open: a generated client, and the pool under it. *)
Inductive resource := MasterDb | MasterPool | TenantDb (id : string) | TenantPool (id : string).
#[export] Instance resource_eq_dec : EqDecision resource.
Proof. solve_decision. Defined.

Definition is_pool (r : resource) : bool := match r with MasterPool | TenantPool _ => true | _ => false end.

(** [tenantCache] is a Map: its entries in the order they were set. *)
Record manager := {
  opts : ManagerOptions;
  masterPool : Pool;
  tenantCache : list (string * Pool);
  is_open : list resource;
}.

Definition new_manager (o : ManagerOptions) : manager :=
  {| opts := o; masterPool := createPool o (masterUrl o); tenantCache := []; is_open := [MasterPool; MasterDb] |}.

Definition cached (id : string) (cm : manager) : option Pool :=
  snd <$> List.find (λ e : string * Pool, String.eqb e.1 id) (tenantCache cm).

Definition getTenantDb (tenant : Tenant) (cm : manager) : M Pool * manager :=
  match cached (tenant_id tenant) cm with
  | Some pool => (Ok pool, cm)
  | None =>
      match tenantConnectionString (opts cm) (tenant_databaseName tenant) with
      | Throw e => (Throw e, cm)
      | Ok url =>
          let pool := createPool (opts cm) url in
          (Ok pool, {| opts := opts cm; masterPool := masterPool cm;
                       tenantCache := tenantCache cm ++ [(tenant_id tenant, pool)];
                       is_open := TenantPool (tenant_id tenant) :: TenantDb (tenant_id tenant) :: is_open cm |})
      end
  end.

(** [await db.$disconnect()] and [await pool.end()], one after another. [fails]
    says which of them rejects. A client may be disconnected twice; a pool may not
    be ended twice. *)
Definition shut_one (fails : resource → option exn) (r : resource) (held : list resource) : M (list resource) :=
  match fails r with
  | Some e => Throw e
  | None =>
      if is_pool r && negb (bool_decide (r ∈ held)) then Throw (EError "Called end on pool more than once")
      else Ok (filter (λ x, x ≠ r) held)
  end.

Fixpoint shut (fails : resource → option exn) (rs held : list resource) : M () * list resource :=
  match rs with
  | [] => (Ok (), held)
  | r :: rs =>
      match shut_one fails r held with
      | Throw e => (Throw e, held)
      | Ok held => shut fails rs held
      end
  end.

Definition tenant_resources (cm : manager) : list resource :=
  mjoin ((λ e : string * Pool, [TenantDb e.1; TenantPool e.1]) <$> tenantCache cm).

Definition close (fails : resource → option exn) (cm : manager) : M () * manager :=
  match shut fails (tenant_resources cm) (is_open cm) with
  | (Throw e, held) =>
      (Throw e, {| opts := opts cm; masterPool := masterPool cm; tenantCache := tenantCache cm; is_open := held |})
  | (Ok _, held) =>
      let (r, held) := shut fails [MasterDb; MasterPool] held in
      (r, {| opts := opts cm; masterPool := masterPool cm; tenantCache := []; is_open := held |})
  end.

(** ** The shutdown hooks of the service *)

(** The timer of KeyRegistryService, the client of RateLimitModule, the manager. *)
Record service := { timer : bool; redis_open : bool; cm : manager }.

Inductive hook := onModuleDestroy | redis_onApplicationShutdown | core_onApplicationShutdown.

(** [quit] is what [redis.quit()] comes to; [disconnect] does not throw. *)
Definition run_hook (quit : M ()) (fails : resource → option exn) (h : hook) (s : service) : M () * service :=
  match h with
  | onModuleDestroy => (Ok (), {| timer := false; redis_open := redis_open s; cm := cm s |})
  | redis_onApplicationShutdown =>
      (rcatch quit (λ _, Ok ()), {| timer := timer s; redis_open := false; cm := cm s |})
  | core_onApplicationShutdown =>
      let (r, cm') := close fails (cm s) in
      (r, {| timer := timer s; redis_open := redis_open s; cm := cm' |})
  end.

(** ** Tools *)

(** What can be thrown, as far as it is printed. *)
Inductive thrown :=
  | ThrownError (name message : string) (stack : option string)   (* an instance of Error *)
  | ThrownValue (text : string).                                  (* anything else, as [String] prints it *)

(** [String(err)]: Error.prototype.toString. *)
Definition String_of (err : thrown) : string :=
  match err with
  | ThrownError name EmptyString _ => name
  | ThrownError EmptyString message _ => message
  | ThrownError name message _ => name +:+ ": " +:+ message
  | ThrownValue text => text
  end.

(** The handlers of [main().catch], as what they write to stderr; all of them set
    the exit code to 1. In verify-chain.ts, immutability-probe.ts and
    contention-probe.ts: *)
Definition report_with_fallback (err : thrown) : list string :=
  let message := match err with
                 | ThrownError _ (String c m) _ => String c m
                 | _ => String_of err
                 end in
  (match message with EmptyString => "failed with an empty error" | _ => message end +:+ newline) ::
  match err with
  | ThrownError _ EmptyString (Some (String c stack)) => [String c stack +:+ newline]
  | _ => []
  end.

(** In manage-keys.ts, decode-token.ts and seed-tenant-admin.ts: *)
Definition report_message (err : thrown) : list string :=
  match err with
  | ThrownError _ message _ => [message +:+ newline]
  | ThrownValue text => [text +:+ newline]
  end.

(** [try { body } finally { await cm.close() }] in a [main] that is caught. [body]
    leaves an exit code or throws. *)
Definition run_tool (body : result thrown Z) (closing : result thrown ()) (report : thrown → list string)
    : Z * list string :=
  match closing, body with
  | Throw e, _ => (1, report e)
  | Ok _, Throw e => (1, report e)
  | Ok _, Ok exitCode => (exitCode, [])
  end.

(** [readToken] of decode-token.ts: the first argument that is no flag, or stdin. *)
Definition readToken (argv : list string) (isTTY : bool) (chunks : list string) : M string :=
  match List.find (λ a, negb (bool_decide (is_Some (flag_body a)))) argv with
  | Some (String c a) => Ok (trim (String c a))
  | _ => if isTTY then Throw (EError "Usage: pnpm keys:decode <token>") else Ok (trim (String.concat "" chunks))
  end.

(** ** A URL and its text *)

Definition starts_or_empty (c : ascii) (s : string) : bool :=
  match s with EmptyString => true | String d _ => Ascii.eqb d c end.

Definition wf_url (u : Url) : bool :=
  free_of ":" (scheme u) &&
  sall (λ c, negb (one_of "/?#" c)) (authority u) &&
  (starts_or_empty "/" (pathname u) && sall (λ c, negb (one_of "?#" c)) (pathname u)) &&
  (starts_or_empty "?" (search u) && sall (λ c, negb (one_of "#" c)) (search u)) &&
  starts_or_empty "#" (fragment u).

Lemma cut_spec stop s a b :
  cut stop s = (a, b) →
  s = a +:+ b ∧ sall (λ c, negb (stop c)) a = true ∧ match b with EmptyString => True | String c _ => stop c = true end.
Proof.
  revert a b. induction s as [|c s IH]; intros a b; cbn; [by intros [= <- <-]|].
  destruct (stop c) eqn:E; [by intros [= <- <-]|]. destruct (cut stop s) as [a' b'].
  intros [= <- <-]. destruct (IH a' b' eq_refl) as (-> & Ha & Hb). cbn. by rewrite E.
Qed.

Lemma cut_app stop a b :
  sall (λ c, negb (stop c)) a = true → match b with EmptyString => True | String c _ => stop c = true end →
  cut stop (a +:+ b) = (a, b).
Proof.
  intros Ha Hb. induction a as [|c a IH]; cbn in *.
  - destruct b as [|c b]; [done|]. cbn. by rewrite Hb.
  - apply andb_true_iff in Ha as [Hc Ha]. apply negb_true_iff in Hc. by rewrite Hc, IH.
Qed.

Lemma starts_head c b cs : starts_or_empty c b = true → one_of cs c = true →
  match b with EmptyString => True | String d _ => one_of cs d = true end.
Proof. destruct b as [|d b]; [done|]. cbn. by intros ->%Ascii.eqb_eq. Qed.

Lemma starts_app c cs a b : starts_or_empty c a = true → starts_or_empty cs b = true →
  match a +:+ b with EmptyString => True | String d _ => d = c ∨ d = cs end.
Proof. destruct a; cbn; [destruct b; [done|]; cbn; intros _ ->%Ascii.eqb_eq; auto|intros ->%Ascii.eqb_eq; auto]. Qed.

Lemma parse_toString u : wf_url u = true → parse_url (toString u) = Ok u.
Proof.
  destruct u as [sc au pa se fr]. unfold wf_url, toString, parse_url. cbn [scheme authority pathname search fragment].
  rewrite !andb_true_iff. intros [[[[Hs Ha] [Hp1 Hp]] [Hq1 Hq]] Hf].
  rewrite (cut_app (one_of ":") sc); [|eapply sall_impl, Hs; intros c; unfold one_of; cbn; by rewrite andb_true_r, negb_involutive, Ascii.eqb_sym|done].
  cbn [String.append after_slashes]. rewrite (cut_app (one_of "/?#") au); [|done|].
  - rewrite (cut_app (one_of "?#") pa); [|done|].
    + rewrite (cut_app (one_of "#") se); [done|done|]. by apply (starts_head "#").
    + pose proof (starts_app "?" "#" se fr Hq1 Hf) as H. destruct (se +:+ fr); [done|]. by destruct H as [->| ->].
  - destruct pa as [|c pa]; [|cbn in Hp1 |- *; apply Ascii.eqb_eq in Hp1 as ->; done]. cbn [String.append].
    pose proof (starts_app "?" "#" se fr Hq1 Hf) as H. destruct (se +:+ fr); [done|]. by destruct H as [->| ->].
Qed.

Lemma one_of_cons c cs d : one_of (String c cs) d = Ascii.eqb c d || one_of cs d.
Proof. unfold one_of, free_of. cbn. by destruct (Ascii.eqb c d). Qed.

Lemma after_slashes_Some s r : after_slashes s = Some r → s = "://" +:+ r.
Proof.
  destruct s as [|c0 [|c1 [|c2 s]]]; cbn; try (by repeat case_match).
  intros H. repeat (case_match; try done). by injection H as ->.
Qed.

Lemma stopped_starts cs c b :
  match b with EmptyString => True | String d _ => one_of cs d = true end →
  (∀ d, one_of cs d = true → d = c) → starts_or_empty c b = true.
Proof. destruct b as [|d b]; [done|]. intros Hd Hc. cbn. apply Ascii.eqb_eq. auto. Qed.

(** The parts hold what the parser says, and put together are the text again. *)
Lemma parse_url_wf text u : parse_url text = Ok u → toString u = text ∧ wf_url u = true.
Proof.
  unfold parse_url. destruct (cut (one_of ":") text) as [sc r0] eqn:E0.
  destruct (after_slashes r0) as [r|] eqn:Er; [|done]. apply after_slashes_Some in Er as ->.
  destruct (cut (one_of "/?#") r) as [au r1] eqn:E1. destruct (cut (one_of "?#") r1) as [pa r2] eqn:E2.
  destruct (cut (one_of "#") r2) as [se fr] eqn:E3. intros [= <-].
  apply cut_spec in E0 as (-> & Hs & _), E1 as (-> & Ha & H1), E2 as (-> & Hp & H2), E3 as (-> & Hq & H3).
  split; [done|]. unfold wf_url. cbn [scheme authority pathname search fragment]. rewrite !andb_true_iff. split_and!.
  - eapply sall_impl, Hs. intros c. unfold one_of. cbn. by rewrite andb_true_r, negb_involutive, Ascii.eqb_sym.
  - done.
  - destruct pa as [|c pa]; [done|]. cbn in H1, Hp |- *. apply andb_true_iff in Hp as [Hc _].
    rewrite one_of_cons in H1. apply orb_true_iff in H1 as [H1|H1]; [|by rewrite H1 in Hc].
    by rewrite Ascii.eqb_sym.
  - done.
  - destruct se as [|c se]; [done|]. cbn in H2, Hq |- *. apply andb_true_iff in Hq as [Hc _].
    rewrite one_of_cons in H2. apply orb_true_iff in H2 as [H2|H2]; [|by rewrite H2 in Hc].
    by rewrite Ascii.eqb_sym.
  - done.
  - destruct fr as [|c fr]; [done|]. cbn in H3 |- *. rewrite one_of_cons in H3.
    apply orb_true_iff in H3 as [H3|H3]; [by rewrite Ascii.eqb_sym|done].
Qed.

Lemma set_pathname_wf u name :
  wf_url u = true → sall is_db_char name = true → wf_url (set_pathname name u) = true.
Proof.
  destruct u as [sc au pa se fr]. unfold wf_url, set_pathname. cbn [scheme authority pathname search fragment].
  rewrite !andb_true_iff. intros [[[[Hs Ha] [Hp1 Hp]] [Hq1 Hq]] Hf] Hn. split_and!; try done. cbn [sall].
  apply andb_true_iff. split; [done|]. eapply sall_impl, Hn. intros c Hc.
  rewrite !one_of_cons. apply negb_true_iff. rewrite !orb_false_iff.
  split_and!; [apply Ascii.eqb_neq; intros <-; discriminate Hc..|done].
Qed.

Lemma safe_name_chars name : SAFE_DB_NAME name = true → sall is_db_char name = true.
Proof.
  destruct name as [|c s]; [done|]. cbn [SAFE_DB_NAME sall]. rewrite !andb_true_iff. intros [[Hc Hs] _].
  split; [|done]. unfold is_db_char. by rewrite Hc.
Qed.

(** A tenant's connection string is the cluster's with its path replaced: the same
    server, user and parameters, and the database of this name and no other. *)
Theorem tenantConnectionString_exact o name u :
  parse_url (tenantClusterUrl o) = Ok u → SAFE_DB_NAME name = true →
  ∃ text, tenantConnectionString o name = Ok text ∧ parse_url text = Ok (set_pathname name u).
Proof.
  intros Hu Hn. unfold tenantConnectionString. rewrite Hu. eexists. split; [reflexivity|].
  apply parse_toString, set_pathname_wf; [by eapply parse_url_wf|by apply safe_name_chars].
Qed.

(** ** The pools that are open *)

Definition all_resources (m : manager) : list resource := tenant_resources m ++ [MasterDb; MasterPool].

(** Exactly the pools and clients the manager knows of are open, one per tenant. *)
Record live (m : manager) : Prop := {
  lv_open : is_open m ≡ₚ all_resources m;
  lv_tenants : NoDup (tenantCache m).*1;
}.

Lemma live_new o : live (new_manager o).
Proof. split; [|constructor]. apply perm_swap. Qed.

Lemma cached_None id m : cached id m = None → id ∉ (tenantCache m).*1.
Proof.
  unfold cached. intros Hn (e & -> & He)%list_elem_of_fmap.
  destruct (List.find _ _) eqn:E in Hn; [done|]. apply list_elem_of_In in He.
  pose proof (List.find_none _ _ E e He) as Hf. cbn in Hf. by rewrite String.eqb_refl in Hf.
Qed.

Lemma live_getTenantDb t m : live m → live (getTenantDb t m).2.
Proof.
  intros [Ho Ht]. unfold getTenantDb. destruct (cached (tenant_id t) m) eqn:E; [done|].
  destruct (tenantConnectionString _ _) as [url|e]; [|done]. apply cached_None in E.
  split; cbn [is_open tenantCache snd].
  - unfold all_resources, tenant_resources in *. cbn [tenantCache]. rewrite fmap_app, join_app. cbn.
    rewrite Ho. rewrite <- app_assoc. cbn. rewrite <- !Permutation_middle. apply perm_swap.
  - rewrite fmap_app. apply NoDup_app. split_and!; [done| |apply NoDup_singleton].
    intros x Hx ->%list_elem_of_singleton. done.
Qed.

(** Requests of these tenants, one after another. *)
Definition serve_tenants (ts : list Tenant) (m : manager) : manager := foldl (λ m t, (getTenantDb t m).2) m ts.

Lemma live_serve ts m : live m → live (serve_tenants ts m).
Proof. revert m. induction ts as [|t ts IH]; intros m Hm; [done|]. apply IH. by apply live_getTenantDb. Qed.

Lemma resources_nodup m : NoDup (tenantCache m).*1 → NoDup (all_resources m).
Proof.
  unfold all_resources, tenant_resources. generalize (tenantCache m). intros c Hc. apply NoDup_app. split_and!.
  - induction c as [|[id p] c IH]; [constructor|]. cbn in Hc |- *. apply NoDup_cons in Hc as [Hid Hc].
    assert (Hin : ∀ r, r = TenantDb id ∨ r = TenantPool id →
      r ∉ mjoin ((λ e : string * Pool, [TenantDb e.1; TenantPool e.1]) <$> c)).
    { intros r Hr (l & Hl & (e & -> & He)%list_elem_of_fmap)%list_elem_of_join. apply Hid.
      assert (id = e.1) as ->; [|by apply list_elem_of_fmap_2].
      set_solver. }
    repeat (apply NoDup_cons; split); [|by apply Hin; right|by apply IH].
    intros [?|Hx]%elem_of_cons; [done|]. by eapply Hin; [left|].
  - intros r (l & Hl & (e & -> & He)%list_elem_of_fmap)%list_elem_of_join. set_solver.
  - compute_decide.
Qed.

Lemma shut_one_held fails r held rest :
  held ≡ₚ r :: rest → NoDup held → fails r = None →
  ∃ held', shut_one fails r held = Ok held' ∧ held' ≡ₚ rest ∧ NoDup held'.
Proof.
  intros Hp Hnd Hf. unfold shut_one. rewrite Hf. rewrite (bool_decide_true (r ∈ held)) by (rewrite Hp; left).
  rewrite andb_false_r. eexists. split; [done|].
  assert (Hr : filter (λ x, x ≠ r) held ≡ₚ rest).
  { rewrite Hp in Hnd |- *. apply NoDup_cons in Hnd as [Hni Hnd]. rewrite filter_cons_False by (by intros []).
    rewrite lfilter_true; [done|]. intros x Hx ->. done. }
  split; [done|]. rewrite Hr. rewrite Hp in Hnd. by apply NoDup_cons in Hnd as [_ Hnd].
Qed.

Lemma shut_until fails rs more held rest :
  held ≡ₚ rs ++ rest → NoDup held → Forall (λ r, fails r = None) rs →
  ∃ held', shut fails (rs ++ more) held = shut fails more held' ∧ held' ≡ₚ rest ∧ NoDup held'.
Proof.
  revert held. induction rs as [|r rs IH]; intros held Hp Hnd Hf; [by exists held|].
  apply Forall_cons in Hf as [Hr Hf].
  destruct (shut_one_held fails r held (rs ++ rest) Hp Hnd Hr) as (held1 & H1 & Hp1 & Hnd1).
  cbn [app shut]. rewrite H1. by apply IH.
Qed.

(** [close] is one pass over everything that is open. *)
Lemma close_is_shut fails m :
  (close fails m).1 = (shut fails (all_resources m) (is_open m)).1 ∧
  is_open (close fails m).2 = (shut fails (all_resources m) (is_open m)).2.
Proof.
  unfold close, all_resources. generalize (is_open m). generalize (tenant_resources m). intros rs held.
  revert held. induction rs as [|r rs IH]; intros held.
  - cbn [app]. set (master := [MasterDb; MasterPool]). cbn [shut]. by destruct (shut fails master held).
  - cbn [app shut]. destruct (shut_one fails r held); [apply IH|done].
Qed.

(** When nothing fails, everything that was open is closed, and a second call is
    refused by the master pool. *)
Theorem close_releases_everything fails m :
  live m → (∀ r, fails r = None) →
  let '(r, m') := close fails m in
  r = Ok () ∧ is_open m' = [] ∧ tenantCache m' = [] ∧
  (close fails m').1 = Throw (EError "Called end on pool more than once").
Proof.
  intros [Ho Ht] Hf. assert (Hnd : NoDup (is_open m)) by (rewrite Ho; by apply resources_nodup).
  assert (Hall : ∀ rs, Forall (λ r, fails r = None) rs) by (intros; by apply Forall_true).
  unfold close. destruct (shut_until fails (tenant_resources m) [] (is_open m) [MasterDb; MasterPool] Ho Hnd (Hall _))
    as (held & H1 & Hp & Hnd1). rewrite app_nil_r in H1. rewrite H1.
  change (shut fails [] held) with (Ok () : M (), held). cbv iota beta.
  destruct (shut_until fails [MasterDb; MasterPool] [] held [] Hp Hnd1 (Hall _)) as (held' & H2 & Hp2 & _).
  rewrite app_nil_r in H2. rewrite H2.
  change (shut fails [] held') with (Ok () : M (), held'). cbv iota beta. apply Permutation_nil_r in Hp2 as ->. split_and!; try done.
  unfold tenant_resources. cbn. unfold shut_one. by rewrite !Hf.
Qed.

(** A failure stops the pass: what came before it is closed, what failed and all
    that came after stays open, and the caller gets that error. *)
Theorem close_stops_at_a_failure fails m pre r post e :
  live m → all_resources m = pre ++ r :: post → Forall (λ x, fails x = None) pre → fails r = Some e →
  (close fails m).1 = Throw e ∧ is_open (close fails m).2 ≡ₚ r :: post.
Proof.
  intros [Ho Ht] Hsplit Hpre Hr. destruct (close_is_shut fails m) as [-> ->].
  assert (Hnd : NoDup (is_open m)) by (rewrite Ho; by apply resources_nodup). rewrite Hsplit in Ho |- *.
  destruct (shut_until fails pre (r :: post) (is_open m) (r :: post) Ho Hnd Hpre) as (held & -> & Hp & _).
  cbn [shut]. unfold shut_one. rewrite Hr. done.
Qed.

(** *** How many connections *)

Lemma tenants_served ts m u :
  parse_url (tenantClusterUrl (opts m)) = Ok u →
  list_to_set (tenantCache (serve_tenants ts m)).*1 =
    (list_to_set (tenantCache m).*1 ∪ list_to_set (tenant_id <$> ts) : gset string).
Proof.
  revert m. induction ts as [|t ts IH]; intros m Hu; cbn [serve_tenants foldl]; [set_solver|].
  change (foldl _ ?x ts) with (serve_tenants ts x).
  assert (Ho : opts (getTenantDb t m).2 = opts m) by (unfold getTenantDb; by repeat case_match).
  rewrite IH by by rewrite Ho. rewrite fmap_cons, list_to_set_cons. unfold getTenantDb.
  destruct (cached (tenant_id t) m) as [pool|] eqn:E.
  - assert (Hin : tenant_id t ∈ (tenantCache m).*1).
    { unfold cached in E. destruct (List.find _ _) as [e|] eqn:Ef; [|done]. apply List.find_some in Ef as [Hin He].
      apply String.eqb_eq in He as <-. apply list_elem_of_fmap_2. by apply list_elem_of_In. }
    cbn [snd]. set_solver.
  - unfold tenantConnectionString. rewrite Hu. cbn [mbind result_bind rbind mret result_ret snd tenantCache].
    rewrite fmap_app, list_to_set_app_L. set_solver.
Qed.

Lemma limits_kept ts m :
  (masterPool m = createPool (opts m) (connectionString (masterPool m)) ∧
   Forall (λ e : string * Pool, max e.2 = maxConnectionsPerDatabase (opts m)) (tenantCache m)) →
  opts (serve_tenants ts m) = opts m ∧ max (masterPool (serve_tenants ts m)) = maxConnectionsPerDatabase (opts m) ∧
  Forall (λ e : string * Pool, max e.2 = maxConnectionsPerDatabase (opts m)) (tenantCache (serve_tenants ts m)).
Proof.
  revert m. induction ts as [|t ts IH]; intros m [Hm Hc]; [split_and!; [done|exact (f_equal max Hm)|done]|].
  cbn [serve_tenants foldl]. change (foldl _ ?x ts) with (serve_tenants ts x).
  assert (Ho : opts (getTenantDb t m).2 = opts m ∧ masterPool (getTenantDb t m).2 = masterPool m)
    by (unfold getTenantDb; by repeat case_match).
  destruct Ho as [Ho Hmp]. destruct (IH (getTenantDb t m).2) as (H1 & H2 & H3); [|by rewrite Ho in H1, H2, H3].
  rewrite Ho, Hmp. split; [done|]. unfold getTenantDb. repeat case_match; try done.
  cbn [snd tenantCache]. apply Forall_app. by repeat constructor.
Qed.

Definition pools (m : manager) : list Pool := masterPool m :: (tenantCache m).*2.
Definition total (busy : Pool → Z) (m : manager) : Z := foldr Z.add 0 (busy <$> pools m).

(** The connections of a process: whatever tenants it served, however often, it has
    one pool for each of them and one for the master, so with a limit on each the
    total is at most the limit times one more than the tenants. *)
Theorem connections_bounded o u ts limit busy :
  parse_url (tenantClusterUrl o) = Ok u → maxConnectionsPerDatabase o = Some limit → 0 ≤ limit →
  (∀ p l, max p = Some l → busy p ≤ l) →
  let m := serve_tenants ts (new_manager o) in
  length (pools m) = S (size (list_to_set (tenant_id <$> ts) : gset string)) ∧
  total busy m ≤ limit * (1 + Z.of_nat (size (list_to_set (tenant_id <$> ts) : gset string))).
Proof.
  intros Hu Hl Hpos Hb m.
  pose proof (tenants_served ts (new_manager o) u Hu) as Hset. fold m in Hset. cbn in Hset.
  rewrite (left_id_L ∅ (∪)) in Hset. rewrite <- Hset.
  destruct (live_serve ts (new_manager o) (live_new o)) as [_ Hnd]. fold m in Hnd.
  rewrite size_list_to_set by done. rewrite length_fmap.
  destruct (limits_kept ts (new_manager o)) as (_ & H2 & H3); [by split|]. fold m in H2, H3. cbn in H2, H3.
  split; [unfold pools; cbn; by rewrite length_fmap|]. unfold total, pools. cbn.
  assert (Hm : busy (masterPool m) ≤ limit) by (apply Hb; congruence).
  assert (Hs : foldr Z.add 0 (busy <$> (tenantCache m).*2) ≤ limit * Z.of_nat (length (tenantCache m))); [|lia].
  revert H3. generalize (tenantCache m). intros c. induction c as [|e c IH]; intros H3; cbn; [lia|].
  apply Forall_cons in H3 as [He H3]. specialize (IH H3). pose proof (Hb e.2 limit ltac:(congruence)). lia.
Qed.

(** ** Shutting down *)

Fixpoint run_hooks (quit : M ()) (fails : resource → option exn) (hs : list hook) (s : service) : M () * service :=
  match hs with
  | [] => (Ok (), s)
  | h :: hs =>
      match run_hook quit fails h s with
      | (Ok _, s) => run_hooks quit fails hs s
      | (Throw e, s) => (Throw e, s)
      end
  end.

(** Whatever order the framework runs the hooks in, and whether or not Redis
    answers the QUIT, nothing the service opened is left open. *)
Theorem shutdown_releases_everything quit fails hs s :
  hs ≡ₚ [onModuleDestroy; redis_onApplicationShutdown; core_onApplicationShutdown] →
  live (cm s) → (∀ r, fails r = None) →
  let '(r, s') := run_hooks quit fails hs s in
  r = Ok () ∧ timer s' = false ∧ redis_open s' = false ∧ is_open (cm s') = [].
Proof.
  intros Hp Hl Hf. pose proof (close_releases_everything fails (cm s) Hl Hf) as Hc.
  assert (Hq : rcatch quit (λ _, Ok ()) = Ok ()) by (by destruct quit as [[]|]).
  assert (Hnd : NoDup hs) by (rewrite Hp; repeat (constructor; [set_solver|]); constructor).
  apply Permutation_length in Hp as Hlen.
  destruct hs as [|h1 [|h2 [|h3 [|]]]]; try discriminate Hlen. clear Hp Hlen.
  destruct (close fails (cm s)) as [r m] eqn:Ec. destruct Hc as (-> & Ho & _ & _).
  rewrite !NoDup_cons, !not_elem_of_cons in Hnd. destruct Hnd as ((H12 & H13 & _) & (H23 & _) & _).
  destruct h1, h2, h3; try congruence; cbn; rewrite ?Hq; cbn; rewrite ?Ec, ?Hq; cbn; rewrite ?Hq, ?Ec; by cbn.
Qed.

(** ** How a tool ends *)

(** A tool reports success exactly when its work and its clean-up both succeeded. *)
Theorem run_tool_exit body closing report :
  (run_tool body closing report).1 = 0 ↔ body = Ok 0 ∧ closing = Ok ().
Proof. destruct closing as [[]|e], body as [x|e']; cbn; naive_solver. Qed.

Lemma newline_not_empty s : s ≠ EmptyString → s +:+ newline ≠ newline.
Proof.
  intros Hs He. apply (f_equal String.length) in He. rewrite slength_app in He. cbn in He.
  destruct s; [done|cbn in He; lia].
Qed.

(** With the fallback, whatever was thrown, the first thing printed says something. *)
Theorem report_with_fallback_speaks err :
  ∃ line more, report_with_fallback err = line :: more ∧ line ≠ newline.
Proof.
  unfold report_with_fallback. eexists _, _. split; [reflexivity|]. apply newline_not_empty.
  by repeat case_match.
Qed.

(** Without it, an error without a message is a bare newline, whatever else the
    error knows. *)
Lemma report_message_can_be_blank name stack : report_message (ThrownError name EmptyString stack) = [newline].
Proof. done. Qed.

(** A token on the command line is taken before anything is read. *)
Lemma readToken_argument c a argv isTTY chunks :
  flag_body (String c a) = None →
  readToken (String c a :: argv) isTTY chunks = Ok (trim (String c a)).
Proof. intros Hf. unfold readToken. cbn [List.find]. by rewrite Hf. Qed.

(** ** The pools at work *)

Module LifecycleSample.
Definition options : ManagerOptions :=
  {| masterUrl := "postgresql://kit:s3cret@db:5432/compliance_master";
     tenantClusterUrl := "postgresql://kit:s3cret@db:5432/postgres?sslmode=require";
     maxConnectionsPerDatabase := Some 5 |}.
Definition tenant_of (slug : string) : Tenant :=
  {| tenant_id := "id-" +:+ slug; tenant_slug := slug; tenant_databaseName := "tenant_" +:+ slug;
     tenant_status := active |}.
Definition acme : Tenant := tenant_of "acme".
Definition bolt : Tenant := tenant_of "bolt".
Definition busy_server : manager := serve_tenants [acme; bolt; acme] (new_manager options).
Definition no_failure (_ : resource) : option exn := None.
Definition cluster_url : Url :=
  {| scheme := "postgresql"; authority := "kit:s3cret@db:5432"; pathname := "/postgres";
     search := "?sslmode=require"; fragment := EmptyString |}.
End LifecycleSample.
Import LifecycleSample.

Example acme_url :
  tenantConnectionString options "tenant_acme" = Ok "postgresql://kit:s3cret@db:5432/tenant_acme?sslmode=require".
Proof. vm_compute. reflexivity. Qed.

(** One client that cannot disconnect, and every later pool stays open. *)
Example one_failure_leaves_the_rest_open :
  let '(r, m) := close (λ r, if decide (r = TenantDb "id-acme") then Some (EError "timeout") else None) busy_server in
  r = Throw (EError "timeout") ∧ length (is_open m) = 6%nat.
Proof. vm_compute. by split. Qed.

(** A request that arrives after [close] opens a pool that nothing will end. *)
Example a_late_request_opens_a_pool :
  is_open (getTenantDb acme (close no_failure busy_server).2).2 = [TenantPool "id-acme"; TenantDb "id-acme"].
Proof. vm_compute. reflexivity. Qed.

Lemma tenantConnectionString_exact_witness :
  ∃ text, tenantConnectionString options "tenant_acme" = Ok text ∧
    parse_url text = Ok (set_pathname "tenant_acme" cluster_url).
Proof. apply tenantConnectionString_exact; vm_compute; reflexivity. Defined.

Lemma connections_bounded_witness :
  total (λ p, default 10 (max p)) busy_server ≤ 5 * (1 + 2).
Proof.
  pose proof (connections_bounded options cluster_url [acme; bolt; acme] 5 (λ p, default 10 (max p))) as H.
  apply H; [vm_compute; reflexivity|reflexivity|lia|]. by intros p l ->.
Defined.

Lemma close_releases_everything_witness : is_open (close no_failure busy_server).2 = [].
Proof.
  pose proof (close_releases_everything no_failure busy_server (live_serve _ _ (live_new _)) (λ _, eq_refl)) as H.
  destruct (close no_failure busy_server) as [r m]. apply H.
Defined.

Lemma close_stops_at_a_failure_witness :
  (close (λ r, if decide (r = TenantPool "id-acme") then Some (EError "timeout") else None) busy_server).1 =
    Throw (EError "timeout").
Proof.
  apply (close_stops_at_a_failure _ busy_server [TenantDb "id-acme"] (TenantPool "id-acme")
    [TenantDb "id-bolt"; TenantPool "id-bolt"; MasterDb; MasterPool] (EError "timeout")).
  - apply live_serve, live_new.
  - vm_compute. reflexivity.
  - by repeat constructor.
  - vm_compute. reflexivity.
Defined.

Lemma shutdown_releases_everything_witness :
  (run_hooks (Throw (EError "Connection is closed.")) no_failure
     [onModuleDestroy; redis_onApplicationShutdown; core_onApplicationShutdown]
     {| timer := true; redis_open := true; cm := busy_server |}).1 = Ok ().
Proof.
  pose proof (shutdown_releases_everything (Throw (EError "Connection is closed.")) no_failure
    [onModuleDestroy; redis_onApplicationShutdown; core_onApplicationShutdown]
    {| timer := true; redis_open := true; cm := busy_server |} (Permutation_refl _)
    (live_serve _ _ (live_new _)) (λ _, eq_refl)) as H.
  destruct (run_hooks _ _ _ _) as [r s]. apply H.
Defined.
